(* ===== verification/_CoqProject ===== *)
-Q . S2P
Prelude.v
GoStrings.v
Protocol.v
Config.v
Replication.v
ControlPlane.v
Controller.v
Worker.v
Assignors.v
Persist.v
Groups.v
Offsets.v
TcpTransport.v
StorageCodec.v
FileSystem.v
Storage.v
StorageLog.v
StorageRecovery.v
StorageDurability.v
StorageContract.v
Broker.v
Cluster.v
Handler.v
BrokerInvariant.v
Process.v
EndToEnd.v
