(* ===== verification/Prelude.v ===== *)
(** * Flux broker: a verification library

    Flux is an event-streaming broker in Go (src/core): clients produce to and
    consume from partitioned topics over a line protocol; brokers replicate
    partitions from leader to followers; consumer groups share the partitions of a
    topic and commit offsets. This library translates the broker into definitions
    that run, and proves what makes it correct.

    ** The program's parts and where they are modelled

    - internal/protocol/protocol.go: request lines and responses. Protocol.v.
    - internal/config/config.go: settings from the environment. Config.v.
    - internal/replication/manager.go: leader offset, high watermark and in-sync
      replicas of each partition, the [acks=all] wait. Replication.v (Module
      [Replication]); an operation under the mutex is one step.
    - internal/replication/worker.go: the follower's fetch, apply, acknowledge
      cycle. Worker.v, against the two Go interfaces ([Transport], [ReplicaStorage])
      as records of operations: the cycle is specified for every implementation of
      them, and EndToEnd.v puts in the real ones.
    - internal/replication/tcp_transport.go: the transport of that cycle over the
      line protocol. TcpTransport.v.
    - internal/controlplane: metadata and its store (metadata.go, store.go,
      raft_store.go) in ControlPlane.v, where the Go interface is the class
      [MetadataStore] with its laws and the in-memory store an instance; the
      controller (controller.go) in Controller.v, proved against the class.
    - internal/coordinator: partition assignment in Assignors.v, consumer groups
      (group.go) in Groups.v, committed offsets (offset.go, coordinator.go) in
      Offsets.v, their JSON files with save faults in Persist.v.
    - internal/storage/storage.go: names and lines of the files in StorageCodec.v,
      the data directory with its faults in FileSystem.v, the operations in
      Storage.v (Module [Storage]); theorems in StorageLog.v, StorageRecovery.v
      (the invariant between memory and disk), StorageDurability.v (appends and
      restarts keep it) and StorageContract.v (what follows for callers).
    - internal/broker/broker.go: the composition of the components. Broker.v.
    - internal/broker/cluster_runtime.go: the background loop that aligns roles,
      steps follower workers and fails over. Cluster.v.
    - internal/network/handler.go: every command, and the connection loop.
      Handler.v.
    - cmd/broker/main.go: start-up, the accept loop, and the interleaving of
      connections and runtime ticks. Process.v.
    Prelude.v holds what all share (results, panics, [int] arithmetic, times,
    nested maps, the iteration order of Go maps, tactics); GoStrings.v the string,
    strconv, fmt and bufio functions the code uses.

    ** How they interact

    main loads a configuration, builds a broker, starts its runtime and accepts
    connections. A request goes through the handler to the broker's components:
    PRODUCE ensures the topic's metadata, appends to the log and tells the
    replication manager; CONSUME reads the log up to the high watermark; group
    commands go to the coordinator, admin commands to the controller. Followers run
    workers whose transport sends BROKER_FETCH and BROKER_REPLICA_ACK to the
    leader's handlers and which append to the local log. EndToEnd.v puts a leader
    and a follower together over a network that fails at will.

    ** What the theorems show

    - Replication: a successful [acks=all] wait means enough replicas hold the
      record (Replication.v); the bounds between high watermark, leader offset and
      followers hold in every reachable state; the wait ends in time; the watermark
      never recedes with zero lag allowed, and can otherwise. A follower cycle
      appends consecutive records only and acknowledges exactly what it appended
      (Worker.v). End to end (EndToEnd.v), for values the wire format carries: both
      logs are windows of one history at the same offsets, an in-sync follower has
      everything up to the high watermark, and over a working network, from a leader
      whose retention has removed nothing, the follower catches up.
    - Storage: produce and replicated append extend the log at the next offset, a
      replayed or premature replicated append changes nothing, a restart rebuilds every log and next offset, size retention brings a partition
      under its limit and drops no segment needlessly; log lines and file names
      round-trip and corruption is detected; what happens on disk failures and to
      lines too long for the scanner.
    - Groups and offsets: every partition has exactly one owner among the members;
      stale members and generations are fenced; silent members are expelled by
      whatever operation comes next; state survives restarts and torn saves; only validated commits move offsets.
    - Control plane: elections and health sweeps refine simple per-entry
      specifications; replaying the accepted commands gives the state; failover
      leaves no partition with the failed broker; first use of a topic gives every
      partition a live leader.
    - Requests and the process: consumers see committed records only; responses
      answer the lines of their own connection in order; all component invariants
      hold in every state of the process, whatever clients send, whichever file or
      network operations fail (BrokerInvariant.v, Process.v).
    Where the code does not do what it means to, a theorem shows it: a negative
    offset stops the process, a value with a comma never reaches a follower intact,
    broker 0 never follows, mirror files come back as topics, oversized records hide
    later ones, and a torn write makes the next acknowledged record unreadable.

    ** Conventions and bounds

    - [int] is [Z] with explicit wrap-around ([int_add], [int_sub], [int_mul]);
      times are nanoseconds since year 1, durations saturate as in Go.
    - A Go error is a [Failure] with its message, a run-time panic is [Panics].
    - Clock readings are arguments, or ticks of the world of FileSystem.v.
    - The order of a Go map iteration is the class [MapOrder]; theorems hold for
      every order.
    - Fuel: splitting a string of n bytes takes at most n+1 pieces; printing a
      number at most its bit length of digits; a retention loop removes one segment
      per round and gets as many rounds as there are segments. Waits run over an
      explicit list of rounds, and [WaitForAckAll_returns] bounds how many are used.
    - Parameters: Unicode case tables ([UnicodeCase]), strconv's error texts, the
      JSON encoding ([Json], [JsonLaws]), the network ([Network]).
    - Storage theorems about restarts assume a disk on which no call fails
      ([calm]), topic names without "-segment-" or a "-replica" suffix ([real]), and
      values without line breaks of less than 65,000 bytes ([value_ok]).
    - The end-to-end replication theorems assume the same of both brokers, and
      further that the topic name is a word that does not read like a field of a
      fetch response ([clean_topic]) and that values are ASCII without blanks and
      without commas ([clean_value]); PRODUCE itself accepts any value. Catching up
      also needs a leader that holds its whole log ([complete]).
    - sort.Slice and sort.Strings are stable sorts here. Go's need not be, which
      makes a difference only for entries with equal keys, and the broker writes no
      two files with the same topic, partition and segment.
    - Milliseconds since 1970 ([UnixMilli]) are not wrapped: they fit an [int64] for
      every date within 292 million years.

    ** Not modelled

    - Logging (output only) and the TypeScript and Python client SDKs.
    - Interleaving inside a request: requests and ticks are atomic steps, except
      that other connections act on the replication manager during an [acks=all]
      wait.
    - Loss of written but unsynced bytes in a machine crash; path separators in
      topic names; the Go scheduler, timers and channels beyond the order of events.

    ** Plan

    Further crash points of the storage, the fsync policies, age retention,
    the index files, produce with [acks=all] composed with the followers' cycles,
    and two leaders after a failover. *)

From Stdlib Require Export ZArith Lia Ascii String.
From stdpp Require Export gmap strings list fin_maps sorting.

#[global] Open Scope Z_scope.

(** Notations of the development live in their own scope. *)
Declare Scope flux_scope.
Delimit Scope flux_scope with flux.
#[global] Open Scope flux_scope.

(** ** Results: the Go convention [(T, error)]

    A Go function that returns [(T, error)] becomes a function into
    [result T]; the error carries its message, because handlers print it. *)
Inductive result (A : Type) : Type :=
| Success (a : A)
| Failure (err : string).
Arguments Success {A} a.
Arguments Failure {A} err.

Definition result_bind {A B : Type} (r : result A) (f : A -> result B) : result B :=
  match r with
  | Success a => f a
  | Failure e => Failure e
  end.

Notation "'let?' x ':=' r 'in' k" := (result_bind r (fun x => k))
  (at level 10, x binder, r at level 100, k at level 200)
  : flux_scope.

Definition is_success {A : Type} (r : result A) : bool :=
  match r with Success _ => true | Failure _ => false end.

(** ** Outcomes: a value, or a run-time panic

    Slicing out of range, allocating a slice with an impossible capacity and
    indexing past the end are run-time panics in Go; no function of the
    repository recovers from one, so a panic ends the process. *)
Inductive outcome (A : Type) : Type :=
| Returns (a : A)
| Panics (why : string).
Arguments Returns {A} a.
Arguments Panics {A} why.

Definition outcome_bind {A B : Type} (o : outcome A) (f : A -> outcome B) : outcome B :=
  match o with
  | Returns a => f a
  | Panics w => Panics w
  end.

Notation "'let!' x ':=' o 'in' k" := (outcome_bind o (fun x => k))
  (at level 10, x binder, o at level 100, k at level 200)
  : flux_scope.

(** ** Machine integers: Go's [int] and [int64] (64-bit targets) *)
Definition int_min : Z := - 2 ^ 63.
Definition int_max : Z := 2 ^ 63 - 1.
Definition in_int (z : Z) : bool := (int_min <=? z) && (z <=? int_max).
Definition wrap64 (z : Z) : Z := (z + 2 ^ 63) mod 2 ^ 64 - 2 ^ 63.
Definition int_add (a b : Z) : Z := wrap64 (a + b).
Definition int_sub (a b : Z) : Z := wrap64 (a - b).
Definition int_mul (a b : Z) : Z := wrap64 (a * b).

(** ** Time

    A [time.Time] is a number of nanoseconds since Go's zero time (January 1,
    year 1, UTC), so the zero value is [0]; a [time.Duration] is an [int64]
    number of nanoseconds, and [Sub] saturates. *)
Definition zero_time : Z := 0.
Definition IsZero (t : Z) : bool := t =? zero_time.
Definition time_sub (a b : Z) : Z := Z.max int_min (Z.min int_max (a - b)).
Definition time_after (a b : Z) : bool := b <? a.
Definition Millisecond : Z := 1000000.
Definition Second : Z := 1000000000.
Definition unix_epoch : Z := 62135596800 * Second.
Definition UnixMilli (t : Z) : Z := (t - unix_epoch) / Millisecond.
Definition UnixNano (t : Z) : Z := wrap64 (t - unix_epoch).
Definition time_of_UnixMilli (ms : Z) : Z := unix_epoch + ms * Millisecond.

(** ** Map iteration

    [for k, v := range m] visits the entries of a Go map in an unspecified
    order. A [MapOrder] is any way to choose that order; definitions that range
    over a map take one, and theorems hold for every one. *)
Class MapOrder := {
  map_range : forall {K V : Type} `{Countable K}, gmap K V -> list (K * V);
  map_range_perm : forall {K V : Type} `{Countable K} (m : gmap K V),
    map_range m ≡ₚ map_to_list m
}.

(** One concrete order, for evaluating the model on examples. *)
Definition canonical_order : MapOrder.
Proof.
  refine {| map_range := fun K V _ _ m => map_to_list m |}.
  intros; reflexivity.
Defined.

(** ** Nested maps: [map[K1]map[K2]V]

    The code creates the inner map on demand and then writes through it. *)
Section NestedMaps.
Context {K1 K2 V : Type} `{Countable K1} `{Countable K2}.
Implicit Types m : gmap K1 (gmap K2 V).

Definition lookup2 m (k1 : K1) (k2 : K2) : option V :=
  match m !! k1 with
  | Some inner => inner !! k2
  | None => None
  end.

Definition insert2 (k1 : K1) (k2 : K2) (v : V) m : gmap K1 (gmap K2 V) :=
  <[k1 := <[k2 := v]> (default ∅ (m !! k1))]> m.

Lemma lookup2_insert2_eq m k1 k2 v : lookup2 (insert2 k1 k2 v m) k1 k2 = Some v.
Proof. unfold lookup2, insert2. by rewrite !lookup_insert_eq. Qed.

Lemma lookup2_insert2_ne m k1 k2 j1 j2 v :
  (k1, k2) <> (j1, j2) -> lookup2 (insert2 k1 k2 v m) j1 j2 = lookup2 m j1 j2.
Proof.
  intros Hne. unfold lookup2, insert2. destruct (decide (k1 = j1)) as [->|Hk].
  - rewrite lookup_insert_eq, lookup_insert_ne by congruence.
    by destruct (m !! j1).
  - by rewrite lookup_insert_ne.
Qed.

Lemma lookup2_insert2 m k1 k2 j1 j2 v :
  lookup2 (insert2 k1 k2 v m) j1 j2
  = if decide ((k1, k2) = (j1, j2)) then Some v else lookup2 m j1 j2.
Proof.
  case_decide as E; [injection E as -> ->; apply lookup2_insert2_eq|].
  by apply lookup2_insert2_ne.
Qed.

Lemma insert2_insert2 m k1 k2 v w :
  insert2 k1 k2 v (insert2 k1 k2 w m) = insert2 k1 k2 v m.
Proof.
  unfold insert2. rewrite lookup_insert_eq. simpl.
  by rewrite !insert_insert_eq.
Qed.

Lemma lookup2_empty k1 k2 : lookup2 (∅ : gmap K1 (gmap K2 V)) k1 k2 = None.
Proof. unfold lookup2. by rewrite lookup_empty. Qed.
End NestedMaps.

(** ** Counting loops: [for i := a; i < b; i++] *)
Definition zrange (a b : Z) : list Z :=
  map (fun i => a + Z.of_nat i) (seq 0 (Z.to_nat (b - a))).

Lemma elem_of_zrange a b x : x ∈ zrange a b <-> a <= x < b.
Proof.
  unfold zrange. rewrite list_elem_of_In, in_map_iff. split.
  - intros (i & <- & Hi). apply in_seq in Hi. lia.
  - intros Hx. exists (Z.to_nat (x - a)). rewrite in_seq. lia.
Qed.

Lemma zrange_nil a b : b <= a -> zrange a b = [].
Proof. intros. unfold zrange. by replace (Z.to_nat (b - a)) with 0%nat by lia. Qed.

Lemma zrange_snoc a b : a <= b -> zrange a (b + 1) = zrange a b ++ [b].
Proof.
  intros. unfold zrange.
  replace (Z.to_nat (b + 1 - a)) with (Z.to_nat (b - a) + 1)%nat by lia.
  rewrite seq_app, map_app. simpl. do 2 f_equal. lia.
Qed.

Lemma zrange_app a b c : a <= b <= c -> zrange a c = zrange a b ++ zrange b c.
Proof.
  intros [Hab Hbc]. pattern c. apply (Zlt_lower_bound_ind _ b); [|done].
  clear c Hbc. intros c IH Hc. destruct (decide (c = b)) as [->|].
  - by rewrite (zrange_nil b b), app_nil_r by lia.
  - replace c with (c - 1 + 1) by lia.
    rewrite !zrange_snoc, IH by lia. by rewrite app_assoc.
Qed.

Lemma length_zrange a b : length (zrange a b) = Z.to_nat (b - a).
Proof. unfold zrange. by rewrite length_map, length_seq. Qed.

Lemma NoDup_zrange a b : NoDup (zrange a b).
Proof.
  assert (Inj eq eq (fun i => a + Z.of_nat i)) by (intros x y; lia).
  apply (NoDup_fmap_2 (fun i => a + Z.of_nat i)), NoDup_ListNoDup, seq_NoDup.
Qed.

(** ** Integer lemmas *)
Lemma in_int_spec z : in_int z = true <-> int_min <= z <= int_max.
Proof. unfold in_int. rewrite andb_true_iff, !Z.leb_le. tauto. Qed.

Lemma wrap64_in_int z : in_int (wrap64 z) = true.
Proof.
  apply in_int_spec. unfold wrap64, int_min, int_max.
  pose proof (Z.mod_pos_bound (z + 2 ^ 63) (2 ^ 64) ltac:(lia)). lia.
Qed.

Lemma wrap64_id z : int_min <= z <= int_max -> wrap64 z = z.
Proof. unfold wrap64, int_min, int_max. intros. rewrite Z.mod_small; lia. Qed.

Lemma int_add_id a b : int_min <= a + b <= int_max -> int_add a b = a + b.
Proof. apply wrap64_id. Qed.

Lemma int_sub_id a b : int_min <= a - b <= int_max -> int_sub a b = a - b.
Proof. apply wrap64_id. Qed.

Lemma int_mul_id a b : int_min <= a * b <= int_max -> int_mul a b = a * b.
Proof. apply wrap64_id. Qed.

(** Unfold the width bounds for [lia]. *)
Ltac ints := unfold int_min, int_max in *; lia.

(** ** The running minimum, as the code computes it *)
Definition min_from (init : Z) (l : list Z) : Z :=
  fold_left (fun acc x => if x <? acc then x else acc) l init.

Lemma min_from_fold init l : min_from init l = foldr Z.min init l.
Proof.
  unfold min_from. revert init. induction l as [|x l IH]; intros init; simpl; [done|].
  rewrite IH. clear IH. destruct (Z.ltb_spec x init).
  - induction l as [|y l IH]; simpl; lia.
  - induction l as [|y l IH]; simpl; lia.
Qed.

Lemma min_from_le_init init l : min_from init l <= init.
Proof. rewrite min_from_fold. induction l; simpl; lia. Qed.

Lemma min_from_le init l x : x ∈ l -> min_from init l <= x.
Proof.
  rewrite min_from_fold. induction l as [|y l IH]; intros Hx.
  - by apply elem_of_nil in Hx.
  - apply elem_of_cons in Hx as [->|Hx]; simpl; [lia|]. specialize (IH Hx); lia.
Qed.

Lemma min_from_glb init l b :
  b <= init -> (forall x, x ∈ l -> b <= x) -> b <= min_from init l.
Proof.
  rewrite min_from_fold. intros Hb. induction l as [|y l IH]; intros Hall; simpl; [done|].
  assert (b <= y) by (apply Hall; left).
  assert (b <= foldr Z.min init l) by (apply IH; intros; apply Hall; by right). lia.
Qed.

Lemma min_from_attained init l : min_from init l = init \/ min_from init l ∈ l.
Proof.
  rewrite min_from_fold. induction l as [|y l IH]; simpl; [by left|].
  destruct (Z.min_spec y (foldr Z.min init l)) as [[_ ->]|[_ ->]].
  - right; left.
  - destruct IH as [->|IH]; [by left|]. right; by right.
Qed.

#[export] Instance min_from_Proper init : Proper (Permutation ==> eq) (min_from init).
Proof.
  intros l1 l2 HP. rewrite !min_from_fold.
  induction HP; simpl; lia.
Qed.

(** ** Sorting: [sort.Strings] and [sort.Ints]

    Go compares strings bytewise. *)
Fixpoint string_leb (a b : string) : bool :=
  match a, b with
  | EmptyString, _ => true
  | String _ _, EmptyString => false
  | String x a', String y b' =>
      if (N_of_ascii x =? N_of_ascii y)%N then string_leb a' b'
      else (N_of_ascii x <? N_of_ascii y)%N
  end.

Definition string_le (a b : string) : Prop := string_leb a b = true.

#[export] Instance string_le_dec : RelDecision string_le.
Proof. intros a b. unfold string_le. apply _. Defined.

Lemma N_of_ascii_inj x y : N_of_ascii x = N_of_ascii y -> x = y.
Proof. intros E. by rewrite <- (ascii_N_embedding x), E, ascii_N_embedding. Qed.

#[export] Instance string_le_total : Total string_le.
Proof.
  intros a. unfold string_le. induction a as [|x a IH]; intros [|y b]; simpl; auto.
  destruct (N.eqb_spec (N_of_ascii x) (N_of_ascii y)) as [E|E].
  - rewrite E, N.eqb_refl. apply IH.
  - destruct (N.eqb_spec (N_of_ascii y) (N_of_ascii x)); [congruence|].
    rewrite !N.ltb_lt. lia.
Qed.

#[export] Instance string_le_trans : Transitive string_le.
Proof.
  intros a. unfold string_le. induction a as [|x a IH]; intros [|y b] [|z c]; simpl; auto;
    try discriminate.
  repeat case_match; rewrite ?N.eqb_eq, ?N.eqb_neq, ?N.ltb_lt in *; try lia; eauto.
Qed.

#[export] Instance string_le_antisym : AntiSymm eq string_le.
Proof.
  intros a. unfold string_le. induction a as [|x a IH]; intros [|y b]; simpl; auto;
    try discriminate.
  destruct (N.eqb_spec (N_of_ascii x) (N_of_ascii y)) as [E|E].
  - rewrite E, N.eqb_refl. intros H1 H2. f_equal; [by apply N_of_ascii_inj|eauto].
  - destruct (N.eqb_spec (N_of_ascii y) (N_of_ascii x)); [congruence|].
    rewrite !N.ltb_lt. lia.
Qed.

Definition sort_strings (l : list string) : list string := merge_sort string_le l.
Definition sort_ints (l : list Z) : list Z := merge_sort Z.le l.

Lemma sort_strings_perm l : sort_strings l ≡ₚ l.
Proof. apply merge_sort_Permutation. Qed.

Lemma sort_ints_perm l : sort_ints l ≡ₚ l.
Proof. apply merge_sort_Permutation. Qed.

(** Sorting forgets the order of its argument, so a sorted key list does not
    depend on the iteration order of the map it came from. *)
Lemma sort_ints_canonical l1 l2 : l1 ≡ₚ l2 -> sort_ints l1 = sort_ints l2.
Proof.
  intros HP. unfold sort_ints. apply (StronglySorted_unique Z.le).
  1, 2: apply StronglySorted_merge_sort; apply _.
  by rewrite !merge_sort_Permutation.
Qed.

Lemma sort_strings_canonical l1 l2 : l1 ≡ₚ l2 -> sort_strings l1 = sort_strings l2.
Proof.
  intros HP. unfold sort_strings. apply (StronglySorted_unique string_le).
  1, 2: apply StronglySorted_merge_sort; apply _.
  by rewrite !merge_sort_Permutation.
Qed.

(** ** Maps built by a loop over their keys, and ranging over maps *)
Lemma lookup_list_to_map_keys {K V : Type} `{Countable K} (f : K -> V) (l : list K) (k : K) :
  (list_to_map (map (fun k => (k, f k)) l) : gmap K V) !! k
  = if decide (k ∈ l) then Some (f k) else None.
Proof.
  induction l as [|x l IH]; cbn [map].
  - rewrite list_to_map_nil, lookup_empty. by rewrite decide_False by apply not_elem_of_nil.
  - rewrite list_to_map_cons. destruct (decide (x = k)) as [->|Hne].
    + rewrite lookup_insert_eq. by rewrite decide_True by left.
    + rewrite lookup_insert_ne, IH by done.
      apply decide_ext. rewrite elem_of_cons. split; [by right|by intros [->|]].
Qed.

Lemma elem_of_map_range {K V : Type} `{MapOrder} `{Countable K} (m : gmap K V) (k : K) (v : V) :
  (k, v) ∈ map_range m <-> m !! k = Some v.
Proof. rewrite map_range_perm. apply elem_of_map_to_list. Qed.

Lemma NoDup_map_range_keys {K V : Type} `{MapOrder} `{Countable K} (m : gmap K V) :
  NoDup (map fst (map_range m)).
Proof.
  change (map fst) with (fmap (M:=list) (@fst K V)).
  rewrite map_range_perm. apply NoDup_fst_map_to_list.
Qed.

Lemma elem_of_maplist {A B : Type} (f : A -> B) (l : list A) (y : B) :
  y ∈ map f l <-> exists x, y = f x /\ x ∈ l.
Proof. apply list_elem_of_fmap. Qed.

#[export] Instance map_perm {A B : Type} (f : A -> B) :
  Proper (Permutation ==> Permutation) (map f).
Proof. intros l1 l2 HP. by apply Permutation_map. Qed.
