(* ===== verification/GoStrings.v ===== *)
(** * The parts of Go's [strings], [strconv], [fmt] and [bufio] the broker uses

    A Go string is a sequence of bytes: a Rocq [string] of 8-bit [ascii]
    characters. This file models [Split], [SplitN], [Index], [LastIndex],
    [TrimSpace], [Fields], [Join], [HasPrefix], [ToUpper], [ToLower] and
    [EqualFold] (package strings), [Atoi], [ParseInt] and [Itoa] (strconv), the
    verbs [%d], [%06d], [%08x], [%t] and [%v] (fmt) and [bufio.ScanLines], and
    proves the splitting and round-trip lemmas the components share. *)
From S2P Require Import Prelude.

#[global] Arguments String.append !_ _ / : simpl nomatch.

(** ** Bytes and predicates on strings *)
Definition byte_of (c : ascii) : Z := Z.of_N (N_of_ascii c).
Definition chr (z : Z) : ascii := ascii_of_N (Z.to_N z).
Definition str1 (c : ascii) : string := String c EmptyString.

Fixpoint str_forall (P : ascii -> bool) (s : string) : bool :=
  match s with
  | EmptyString => true
  | String c s' => P c && str_forall P s'
  end.

Definition no_char (c : ascii) (s : string) : bool :=
  str_forall (fun x => negb (Ascii.eqb x c)) s.

Fixpoint str_drop (n : nat) (s : string) : string :=
  match n, s with
  | O, _ => s
  | S n', EmptyString => EmptyString
  | S n', String _ s' => str_drop n' s'
  end.

Definition HasPrefix (s pre : string) : bool := String.prefix pre s.
Definition TrimPrefix (s pre : string) : string :=
  if HasPrefix s pre then str_drop (String.length pre) s else s.

(** ** Searching and splitting *)

(** [strings.Cut]: the text before and after the first occurrence. *)
Fixpoint Cut (sep s : string) : option (string * string) :=
  if String.prefix sep s then Some (EmptyString, str_drop (String.length sep) s)
  else match s with
       | EmptyString => None
       | String c s' =>
           match Cut sep s' with
           | Some (a, b) => Some (String c a, b)
           | None => None
           end
       end.

Definition Contains (s sep : string) : bool :=
  match Cut sep s with Some _ => true | None => false end.

(** The text before and after the last occurrence of a byte. *)
Fixpoint CutLast (c : ascii) (s : string) : option (string * string) :=
  match s with
  | EmptyString => None
  | String x s' =>
      match CutLast c s' with
      | Some (a, b) => Some (String x a, b)
      | None => if Ascii.eqb x c then Some (EmptyString, s') else None
      end
  end.

(** [strings.SplitN(s, sep, n)] for [n >= 1]: at most [n] pieces. *)
Fixpoint SplitN (s sep : string) (n : nat) : list string :=
  match n with
  | O => []
  | S O => [s]
  | S n' =>
      match Cut sep s with
      | Some (a, b) => a :: SplitN b sep n'
      | None => [s]
      end
  end.

(** [strings.Split]: every piece. A piece costs at least one byte of a
    non-empty separator, so the length bounds the number of pieces. *)
Definition Split (s sep : string) : list string := SplitN s sep (S (String.length s)).

Fixpoint Join (l : list string) (sep : string) : string :=
  match l with
  | [] => EmptyString
  | [x] => x
  | x :: rest => x +:+ sep +:+ Join rest sep
  end.

(** ** Unicode white space on UTF-8 bytes

    [unicode.IsSpace] holds of six ASCII bytes, two 2-byte and sixteen 3-byte
    encodings. Their lead bytes never occur inside another encoding, so a
    byte-wise scan finds exactly the white-space runes. *)
Definition ascii_space (c : ascii) : bool :=
  let b := byte_of c in ((9 <=? b) && (b <=? 13)) || (b =? 32).

Definition space2 (c1 c2 : ascii) : bool :=
  (byte_of c1 =? 194) && ((byte_of c2 =? 133) || (byte_of c2 =? 160)).

Definition space3 (c1 c2 c3 : ascii) : bool :=
  let b1 := byte_of c1 in let b2 := byte_of c2 in let b3 := byte_of c3 in
  ((b1 =? 225) && (b2 =? 154) && (b3 =? 128))
  || ((b1 =? 226) && (b2 =? 128)
      && (((128 <=? b3) && (b3 <=? 138)) || (b3 =? 168) || (b3 =? 169) || (b3 =? 175)))
  || ((b1 =? 226) && (b2 =? 129) && (b3 =? 159))
  || ((b1 =? 227) && (b2 =? 128) && (b3 =? 128)).

Fixpoint all_space (s : string) : bool :=
  match s with
  | EmptyString => true
  | String c1 s1 =>
      if ascii_space c1 then all_space s1 else
      match s1 with
      | EmptyString => false
      | String c2 s2 =>
          if space2 c1 c2 then all_space s2 else
          match s2 with
          | EmptyString => false
          | String c3 s3 => if space3 c1 c2 c3 then all_space s3 else false
          end
      end
  end.

Fixpoint TrimLeft (s : string) : string :=
  match s with
  | EmptyString => EmptyString
  | String c1 s1 =>
      if ascii_space c1 then TrimLeft s1 else
      match s1 with
      | EmptyString => s
      | String c2 s2 =>
          if space2 c1 c2 then TrimLeft s2 else
          match s2 with
          | EmptyString => s
          | String c3 s3 => if space3 c1 c2 c3 then TrimLeft s3 else s
          end
      end
  end.

Fixpoint TrimRight (s : string) : string :=
  if all_space s then EmptyString
  else match s with
       | EmptyString => EmptyString
       | String c s' => String c (TrimRight s')
       end.

Definition TrimSpace (s : string) : string := TrimRight (TrimLeft s).

Definition emit (cur : string) (rest : list string) : list string :=
  match cur with EmptyString => rest | _ => cur :: rest end.

Fixpoint fields_from (cur s : string) : list string :=
  match s with
  | EmptyString => emit cur []
  | String c1 s1 =>
      if ascii_space c1 then emit cur (fields_from EmptyString s1) else
      match s1 with
      | EmptyString => emit (cur +:+ str1 c1) []
      | String c2 s2 =>
          if space2 c1 c2 then emit cur (fields_from EmptyString s2) else
          match s2 with
          | EmptyString => fields_from (cur +:+ str1 c1) s1
          | String c3 s3 =>
              if space3 c1 c2 c3 then emit cur (fields_from EmptyString s3)
              else fields_from (cur +:+ str1 c1) s1
          end
      end
  end.

Definition Fields (s : string) : list string := fields_from EmptyString s.

(** ** Letter case

    On ASCII strings the case maps are as below; on other strings Go consults
    the Unicode tables, which are a parameter here. *)
Class UnicodeCase := {
  upper_unicode : string -> string;
  lower_unicode : string -> string
}.

Definition is_ascii (s : string) : bool := str_forall (fun c => byte_of c <? 128) s.

Fixpoint str_map (f : ascii -> ascii) (s : string) : string :=
  match s with
  | EmptyString => EmptyString
  | String c s' => String (f c) (str_map f s')
  end.

Definition upper_byte (c : ascii) : ascii :=
  let b := byte_of c in if (97 <=? b) && (b <=? 122) then chr (b - 32) else c.
Definition lower_byte (c : ascii) : ascii :=
  let b := byte_of c in if (65 <=? b) && (b <=? 90) then chr (b + 32) else c.

Definition ToUpper `{UnicodeCase} (s : string) : string :=
  if is_ascii s then str_map upper_byte s else upper_unicode s.
Definition ToLower `{UnicodeCase} (s : string) : string :=
  if is_ascii s then str_map lower_byte s else lower_unicode s.

(** [strings.EqualFold] against a string of ASCII digits and letters a-f:
    none of these has a non-ASCII case variant. *)
Definition EqualFold (a b : string) : bool :=
  String.eqb (str_map lower_byte a) (str_map lower_byte b).

(** ** Numbers *)
Definition is_digit (c : ascii) : bool := let b := byte_of c in (48 <=? b) && (b <=? 57).
Definition digit_val (c : ascii) : Z := byte_of c - 48.
Definition digit_chr (d : Z) : ascii := chr (48 + d).

Fixpoint parse_dec (acc : Z) (s : string) : option Z :=
  match s with
  | EmptyString => Some acc
  | String c s' => if is_digit c then parse_dec (acc * 10 + digit_val c) s' else None
  end.

Definition parse_digits (s : string) : option Z :=
  match s with EmptyString => None | _ => parse_dec 0 s end.

(** [strconv.Atoi] and [strconv.ParseInt(s, 10, 64)]: an optional sign, at least
    one digit, and a value that fits in 64 bits. *)
Definition Atoi (s : string) : option Z :=
  let signed :=
    match s with
    | String "-" s' => option_map Z.opp (parse_digits s')
    | String "+" s' => parse_digits s'
    | _ => parse_digits s
    end in
  match signed with
  | Some z => if in_int z then Some z else None
  | None => None
  end.

Fixpoint to_dec (fuel : nat) (z : Z) : string :=
  match fuel with
  | O => EmptyString
  | S fuel' =>
      if z <? 10 then str1 (digit_chr z)
      else to_dec fuel' (z / 10) +:+ str1 (digit_chr (z mod 10))
  end.

(** The decimal digits of a natural number; [log2] digits are always enough. *)
Definition dec (z : Z) : string := to_dec (S (Z.to_nat (Z.log2 z))) z.

(** [strconv.Itoa], and the verb [%d]. *)
Definition Itoa (z : Z) : string := if z <? 0 then "-" +:+ dec (- z) else dec z.

Fixpoint zeros (n : nat) : string :=
  match n with O => EmptyString | S n' => String "0" (zeros n') end.

(** The verb [%06d]: zero padding to width 6, the sign included. *)
Definition Itoa06 (z : Z) : string :=
  if z <? 0 then "-" +:+ zeros (5 - String.length (dec (- z))) +:+ dec (- z)
  else zeros (6 - String.length (dec z)) +:+ dec z.

Definition hex_chr (d : Z) : ascii := if d <? 10 then chr (48 + d) else chr (87 + d).

Fixpoint hex_digits (n : nat) (z : Z) : string :=
  match n with
  | O => EmptyString
  | S n' => hex_digits n' (z / 16) +:+ str1 (hex_chr (z mod 16))
  end.

(** The verb [%08x] on a [uint32]. *)
Definition hex8 (z : Z) : string := hex_digits 8 z.

(** The verbs [%t], and [%v] on slices. *)
Definition fmt_bool (b : bool) : string := if b then "true" else "false".
Definition fmt_strings (l : list string) : string := "[" +:+ Join l " " +:+ "]".
Definition fmt_ints (l : list Z) : string := fmt_strings (map Itoa l).

(** ** [bufio.Scanner] with the default buffer

    [ScanLines] cuts at newlines and drops one trailing carriage return; a line
    of [MaxScanTokenSize] bytes or more stops the scan. *)
Definition nl : string := str1 (chr 10).
Definition MaxScanTokenSize : nat := Z.to_nat 65536.

Definition drop_cr (s : string) : string :=
  match CutLast (chr 13) s with
  | Some (a, EmptyString) => a
  | _ => s
  end.

Fixpoint take_until_long (l : list string) : list string :=
  match l with
  | [] => []
  | x :: rest =>
      if (String.length x <? MaxScanTokenSize)%nat
      then drop_cr x :: take_until_long rest
      else []
  end.

(** The pieces between newlines; a final piece with no newline counts only when
    it is not empty. *)
Definition raw_lines (s : string) : list string :=
  let pieces := Split s nl in
  match reverse pieces with
  | EmptyString :: rest => reverse rest
  | _ => pieces
  end.

Definition scan_lines (s : string) : list string := take_until_long (raw_lines s).

(** ** Lemmas: concatenation and byte predicates *)
Lemma str_app_nil_r s : s +:+ EmptyString = s.
Proof. induction s; simpl; congruence. Qed.

Lemma str_app_assoc a b c : (a +:+ b) +:+ c = a +:+ (b +:+ c).
Proof. induction a; simpl; congruence. Qed.

Lemma str_length_app a b : String.length (a +:+ b) = (String.length a + String.length b)%nat.
Proof. induction a; simpl; congruence. Qed.

Lemma str_forall_app P a b : str_forall P (a +:+ b) = str_forall P a && str_forall P b.
Proof. induction a; simpl; [done|]. rewrite IHa. apply andb_assoc. Qed.

Lemma str_forall_impl (P Q : ascii -> bool) s :
  (forall c, P c = true -> Q c = true) -> str_forall P s = true -> str_forall Q s = true.
Proof.
  intros HPQ. induction s; simpl; [done|]. rewrite !andb_true_iff. intros []; auto.
Qed.

Lemma no_char_app c a b : no_char c (a +:+ b) = no_char c a && no_char c b.
Proof. apply str_forall_app. Qed.

(** Rewrite the shared shape lemmas of strings. *)
Create Rewrite HintDb flux_str.
#[export] Hint Rewrite str_app_nil_r str_app_assoc str_forall_app no_char_app
  str_length_app andb_true_r : flux_str.
Ltac strs := autorewrite with flux_str in *.

(** ** Lemmas: splitting at a byte *)
Lemma prefix_str1 c s :
  String.prefix (str1 c) s
  = match s with String x _ => Ascii.eqb x c | EmptyString => false end.
Proof.
  destruct s as [|x s]; simpl; [done|].
  destruct (ascii_dec c x) as [->|Hne].
  - rewrite Ascii.eqb_refl. by destruct s.
  - by destruct (Ascii.eqb_spec x c) as [->|].
Qed.

Lemma Cut_str1_cons c x s :
  Cut (str1 c) (String x s)
  = if Ascii.eqb x c then Some (EmptyString, s)
    else match Cut (str1 c) s with
         | Some (a, b) => Some (String x a, b)
         | None => None
         end.
Proof.
  change (Cut (str1 c) (String x s)) with
    (if String.prefix (str1 c) (String x s)
     then Some (EmptyString, str_drop (String.length (str1 c)) (String x s))
     else match Cut (str1 c) s with
          | Some (a, b) => Some (String x a, b)
          | None => None
          end).
  by rewrite prefix_str1.
Qed.

Lemma Cut_char c a b :
  no_char c a = true -> Cut (str1 c) (a +:+ String c b) = Some (a, b).
Proof.
  unfold no_char. induction a as [|x a IH]; intros Ha.
  - simpl String.append. by rewrite Cut_str1_cons, Ascii.eqb_refl.
  - simpl in Ha. apply andb_true_iff in Ha as [Hx Ha].
    simpl String.append. rewrite Cut_str1_cons, IH by done.
    by destruct (Ascii.eqb x c).
Qed.

Lemma Cut_char_none c s : no_char c s = true -> Cut (str1 c) s = None.
Proof.
  unfold no_char. induction s as [|x s IH]; simpl str_forall; intros Hs; [done|].
  apply andb_true_iff in Hs as [Hx Hs].
  rewrite Cut_str1_cons, IH by done. by destruct (Ascii.eqb x c).
Qed.

Lemma Cut_char_inv c s a b :
  Cut (str1 c) s = Some (a, b) -> s = a +:+ String c b /\ no_char c a = true.
Proof.
  unfold no_char. revert a b. induction s as [|x s IH]; intros a b; [done|].
  rewrite Cut_str1_cons. destruct (Ascii.eqb_spec x c) as [->|Hne].
  - intros [= <- <-]. done.
  - destruct (Cut (str1 c) s) as [[a' b']|]; [|done].
    intros [= <- <-]. destruct (IH a' b' eq_refl) as [-> Ha]. simpl. rewrite Ha.
    destruct (Ascii.eqb_spec x c); [congruence|done].
Qed.

Lemma Cut_None_char c s : Cut (str1 c) s = None -> no_char c s = true.
Proof.
  unfold no_char. induction s as [|x s IH]; [done|].
  rewrite Cut_str1_cons. simpl. destruct (Ascii.eqb x c); [done|].
  destruct (Cut (str1 c) s) as [[]|]; [done|]. intros _. simpl. by apply IH.
Qed.

Lemma CutLast_char_none c s : no_char c s = true -> CutLast c s = None.
Proof.
  unfold no_char. induction s as [|x s IH]; simpl; [done|].
  rewrite andb_true_iff. intros [Hx Hs]. rewrite IH by done. by destruct (Ascii.eqb x c).
Qed.

Lemma CutLast_char c a b :
  no_char c b = true -> CutLast c (a +:+ String c b) = Some (a, b).
Proof.
  intros Hb. induction a as [|x a IH]; simpl.
  - by rewrite CutLast_char_none, Ascii.eqb_refl.
  - by rewrite IH.
Qed.

(** [strings.Split] undoes [strings.Join] when no piece holds the separator. *)
Lemma SplitN_Join c l n :
  l <> [] -> Forall (fun x => no_char c x = true) l -> (length l <= n)%nat ->
  SplitN (Join l (str1 c)) (str1 c) n = l.
Proof.
  revert n. induction l as [|x l IH]; intros n Hne Hl Hn; [done|].
  apply Forall_cons in Hl as [Hx Hl]. simpl in Hn.
  destruct n as [|n]; [lia|]. destruct l as [|y l].
  - simpl Join. destruct n; [done|]. cbn [SplitN]. by rewrite Cut_char_none.
  - change (Join (x :: y :: l) (str1 c)) with (x +:+ String c (Join (y :: l) (str1 c))).
    simpl in Hn. destruct n as [|n]; [lia|].
    change (SplitN (x +:+ String c (Join (y :: l) (str1 c))) (str1 c) (S (S n))) with
      (match Cut (str1 c) (x +:+ String c (Join (y :: l) (str1 c))) with
       | Some (a, b) => a :: SplitN b (str1 c) (S n)
       | None => [x +:+ String c (Join (y :: l) (str1 c))] end).
    rewrite Cut_char by done. f_equal. apply IH; simpl; [done|done|lia].
Qed.

Lemma length_Join c l : (length l <= S (String.length (Join l (str1 c))))%nat.
Proof.
  induction l as [|x l IH]; [simpl; lia|]. destruct l as [|y l]; [simpl; lia|].
  change (Join (x :: y :: l) (str1 c)) with (x +:+ String c (Join (y :: l) (str1 c))).
  rewrite str_length_app. simpl in *. lia.
Qed.

Lemma Split_Join c l :
  l <> [] -> Forall (fun x => no_char c x = true) l ->
  Split (Join l (str1 c)) (str1 c) = l.
Proof. intros. apply SplitN_Join; auto using length_Join. Qed.

(** ** Lemmas: decimal numbers *)
Lemma byte_chr z : 0 <= z < 256 -> byte_of (chr z) = z.
Proof.
  intros Hz. unfold byte_of, chr. rewrite N_ascii_embedding by lia. lia.
Qed.

Lemma digit_chr_ok d : 0 <= d < 10 -> is_digit (digit_chr d) = true /\ digit_val (digit_chr d) = d.
Proof.
  intros Hd. unfold is_digit, digit_val, digit_chr. rewrite byte_chr by lia.
  split; [|lia]. apply andb_true_iff. rewrite !Z.leb_le. lia.
Qed.

Lemma parse_dec_app acc a b :
  parse_dec acc (a +:+ b)
  = match parse_dec acc a with Some z => parse_dec z b | None => None end.
Proof. revert acc. induction a as [|c a IH]; intros acc; simpl; [done|]. by destruct (is_digit c). Qed.

Lemma parse_to_dec fuel z :
  0 <= z < 10 ^ Z.of_nat fuel -> parse_dec 0 (to_dec fuel z) = Some z.
Proof.
  revert z. induction fuel as [|fuel IH]; intros z Hz; [simpl in *; f_equal; lia|].
  cbn [to_dec]. destruct (Z.ltb_spec z 10).
  - destruct (digit_chr_ok z) as [Hd Hv]; [lia|]. simpl. rewrite Hd, Hv. f_equal; lia.
  - rewrite parse_dec_app, IH.
    + pose proof (Z.mod_pos_bound z 10).
      destruct (digit_chr_ok (z mod 10)) as [Hd Hv]; [lia|]. simpl. rewrite Hd, Hv.
      f_equal. pose proof (Z.div_mod z 10). lia.
    + rewrite Nat2Z.inj_succ, Z.pow_succ_r in Hz by lia. split.
      * apply Z.div_pos; lia.
      * apply Z.div_lt_upper_bound; lia.
Qed.

Lemma dec_fuel z : 0 <= z -> z < 10 ^ Z.of_nat (S (Z.to_nat (Z.log2 z))).
Proof.
  intros Hz. pose proof (Z.log2_nonneg z).
  rewrite Nat2Z.inj_succ, Z2Nat.id by done.
  destruct (decide (z = 0)) as [->|]; [simpl; lia|].
  destruct (Z.log2_spec z) as [_ Hlt]; [lia|].
  eapply Z.lt_le_trans; [exact Hlt|]. apply Z.pow_le_mono_l; lia.
Qed.

Lemma parse_dec_dec z : 0 <= z -> parse_dec 0 (dec z) = Some z.
Proof. intros. apply parse_to_dec. split; [done|]. by apply dec_fuel. Qed.

Lemma to_dec_digits fuel z : 0 <= z -> str_forall is_digit (to_dec fuel z) = true.
Proof.
  revert z. induction fuel as [|fuel IH]; intros z Hz; [done|]. cbn [to_dec].
  destruct (Z.ltb_spec z 10).
  - destruct (digit_chr_ok z) as [Hd _]; [lia|]. simpl. by rewrite Hd.
  - rewrite str_forall_app, IH by (apply Z.div_pos; lia).
    pose proof (Z.mod_pos_bound z 10).
    destruct (digit_chr_ok (z mod 10)) as [Hd _]; [lia|]. simpl. by rewrite Hd.
Qed.

Lemma dec_digits z : 0 <= z -> str_forall is_digit (dec z) = true.
Proof. apply to_dec_digits. Qed.

Lemma dec_nonempty z : dec z <> EmptyString.
Proof.
  unfold dec. cbn [to_dec]. destruct (z <? 10); [done|].
  by destruct (to_dec _ (z / 10)).
Qed.

Lemma parse_digits_zeros n z : 0 <= z -> parse_digits (zeros n +:+ dec z) = Some z.
Proof.
  intros Hz. unfold parse_digits.
  assert (Hzero : parse_dec 0 (zeros n +:+ dec z) = Some z).
  { induction n; simpl; [by apply parse_dec_dec|]. done. }
  destruct (zeros n +:+ dec z) eqn:E; [|done].
  destruct n; [|done]. by destruct (dec_nonempty z).
Qed.

Lemma digit_not_sign c : is_digit c = true -> c <> "-"%char /\ c <> "+"%char.
Proof. by split; intros ->. Qed.

(** A digit string starts with no sign, so [Atoi] reads it as digits. *)
Lemma Atoi_digits s :
  str_forall is_digit s = true ->
  Atoi s = match parse_digits s with
           | Some z => if in_int z then Some z else None
           | None => None
           end.
Proof.
  destruct s as [|c s]; [done|]. simpl str_forall. rewrite andb_true_iff.
  intros [Hc _]. destruct (digit_not_sign c Hc) as [H1 H2].
  unfold Atoi. destruct c as [[] [] [] [] [] [] [] []]; try done; congruence.
Qed.

Lemma zeros_digits n : str_forall is_digit (zeros n) = true.
Proof. by induction n. Qed.

Lemma Atoi_zeros_dec n z : 0 <= z <= int_max -> Atoi (zeros n +:+ dec z) = Some z.
Proof.
  intros Hz. rewrite Atoi_digits by (rewrite str_forall_app, zeros_digits; apply dec_digits; lia).
  rewrite parse_digits_zeros by lia.
  assert (in_int z = true) as -> by (apply in_int_spec; ints). done.
Qed.

Lemma Atoi_neg_zeros_dec n z :
  int_min <= z < 0 -> Atoi (String "-" (zeros n +:+ dec (- z))) = Some z.
Proof.
  intros Hz. unfold Atoi. rewrite parse_digits_zeros by lia. simpl.
  rewrite Z.opp_involutive.
  assert (in_int z = true) as -> by (apply in_int_spec; ints). done.
Qed.

(** Printing an [int] and parsing it back gives the same [int]. *)
Lemma Atoi_Itoa z : in_int z = true -> Atoi (Itoa z) = Some z.
Proof.
  rewrite in_int_spec. intros Hz. unfold Itoa. destruct (Z.ltb_spec z 0).
  - apply (Atoi_neg_zeros_dec 0); lia.
  - apply (Atoi_zeros_dec 0); lia.
Qed.

Lemma Atoi_Itoa06 z : in_int z = true -> Atoi (Itoa06 z) = Some z.
Proof.
  rewrite in_int_spec. intros Hz. unfold Itoa06. destruct (Z.ltb_spec z 0).
  - apply Atoi_neg_zeros_dec; lia.
  - apply Atoi_zeros_dec; lia.
Qed.

Lemma Atoi_in_int s z : Atoi s = Some z -> in_int z = true.
Proof.
  unfold Atoi. intros H. repeat case_match; simplify_eq; done.
Qed.

(** The bytes a printed number can hold. *)
Definition num_byte (c : ascii) : bool := is_digit c || Ascii.eqb c "-".

Lemma dec_num z : 0 <= z -> str_forall num_byte (dec z) = true.
Proof.
  intros. eapply str_forall_impl, dec_digits; [|done]. intros c Hc. unfold num_byte. by rewrite Hc.
Qed.

Lemma zeros_num n : str_forall num_byte (zeros n) = true.
Proof. by induction n. Qed.

Lemma Itoa_num z : str_forall num_byte (Itoa z) = true.
Proof.
  unfold Itoa. destruct (Z.ltb_spec z 0); simpl; apply dec_num; lia.
Qed.

Lemma Itoa06_num z : str_forall num_byte (Itoa06 z) = true.
Proof.
  unfold Itoa06. destruct (Z.ltb_spec z 0); simpl;
    rewrite str_forall_app, zeros_num; apply dec_num; lia.
Qed.

(** A byte that no printed number holds does not occur in one. *)
Lemma num_no_char c s :
  num_byte c = false -> str_forall num_byte s = true -> no_char c s = true.
Proof.
  intros Hc. apply str_forall_impl. intros x Hx.
  destruct (Ascii.eqb_spec x c) as [->|]; [congruence|done].
Qed.

Lemma Itoa_nonempty z : Itoa z <> EmptyString.
Proof. unfold Itoa. destruct (z <? 0); [done|apply dec_nonempty]. Qed.

(** ** Lemmas: white space *)

(** A byte that is ASCII and not a space ends a run of spaces wherever it is. *)
Definition plain (c : ascii) : bool := (byte_of c <? 128) && negb (ascii_space c).

Lemma plain_not_space c : plain c = true -> ascii_space c = false.
Proof. unfold plain. by destruct (ascii_space c); rewrite ?andb_false_r. Qed.

Lemma plain_low c : plain c = true -> byte_of c < 128.
Proof. unfold plain. rewrite andb_true_iff, Z.ltb_lt. tauto. Qed.

Lemma plain_space2_l c1 c2 : plain c1 = true -> space2 c1 c2 = false.
Proof.
  intros H%plain_low. unfold space2. destruct (Z.eqb_spec (byte_of c1) 194); [lia|done].
Qed.

Lemma plain_space2_r c1 c2 : plain c2 = true -> space2 c1 c2 = false.
Proof.
  intros H%plain_low. unfold space2.
  destruct (Z.eqb_spec (byte_of c2) 133), (Z.eqb_spec (byte_of c2) 160); lia.
Qed.

Ltac byte_cases :=
  repeat match goal with
  | |- context [?b =? ?k] => destruct (Z.eqb_spec b k); simpl; try lia
  | |- context [?k <=? ?b] => destruct (Z.leb_spec k b); simpl; try lia
  end.

Lemma plain_space3_1 c1 c2 c3 : plain c1 = true -> space3 c1 c2 c3 = false.
Proof. intros H%plain_low. unfold space3. byte_cases; done. Qed.

Lemma plain_space3_2 c1 c2 c3 : plain c2 = true -> space3 c1 c2 c3 = false.
Proof. intros H%plain_low. unfold space3. byte_cases; done. Qed.

Lemma plain_space3_3 c1 c2 c3 : plain c3 = true -> space3 c1 c2 c3 = false.
Proof. intros H%plain_low. unfold space3. byte_cases; done. Qed.

Create Rewrite HintDb flux_plain.
#[export] Hint Rewrite plain_not_space plain_space2_l plain_space2_r
  plain_space3_1 plain_space3_2 plain_space3_3 using done : flux_plain.
Ltac plains := repeat (autorewrite with flux_plain; simpl).

Lemma TrimLeft_plain c s : plain c = true -> TrimLeft (String c s) = String c s.
Proof. intros. simpl. plains. destruct s as [|c2 [|c3 s]]; plains; done. Qed.

Lemma all_space_snoc s c : plain c = true -> all_space (s +:+ str1 c) = false.
Proof.
  intros Hc. remember (String.length s) as n eqn:Hn. revert s Hn.
  induction (lt_wf n) as [n _ IH]; intros s ->.
  destruct s as [|c1 s]; simpl; plains; [done|].
  destruct (ascii_space c1); [apply (IH (String.length s)); simpl; auto|].
  destruct s as [|c2 s]; simpl; plains; [done|].
  destruct (space2 c1 c2); [apply (IH (String.length s)); simpl; auto|].
  destruct s as [|c3 s]; simpl; plains; [done|].
  destruct (space3 c1 c2 c3); [apply (IH (String.length s)); simpl; auto|done].
Qed.

Lemma TrimRight_snoc s c : plain c = true -> TrimRight (s +:+ str1 c) = s +:+ str1 c.
Proof.
  intros Hc. induction s as [|x s IH].
  - simpl. by plains.
  - change (TrimRight (String x s +:+ str1 c)) with
      (if all_space (String x s +:+ str1 c) then EmptyString
       else String x (TrimRight (s +:+ str1 c))).
    rewrite all_space_snoc, IH; done.
Qed.

Lemma str_snoc s : s <> EmptyString -> exists s' c, s = s' +:+ str1 c.
Proof.
  induction s as [|x s IH]; [done|]. intros _. destruct s as [|y s].
  - by exists EmptyString, x.
  - destruct IH as (s' & c & ->); [done|]. by exists (String x s'), c.
Qed.

(** A string with plain bytes at both ends is its own [TrimSpace]. *)
Lemma TrimSpace_plain s : str_forall plain s = true -> TrimSpace s = s.
Proof.
  intros Hs. unfold TrimSpace. destruct s as [|c s]; [done|].
  pose proof Hs as Hs0. simpl in Hs0. apply andb_true_iff in Hs0 as [Hc _].
  rewrite TrimLeft_plain by done.
  destruct (str_snoc (String c s)) as (s' & d & E); [done|]. rewrite E in *.
  rewrite str_forall_app in Hs. apply andb_true_iff in Hs as [_ Hd].
  simpl in Hd. rewrite andb_true_r in Hd. by apply TrimRight_snoc.
Qed.

Lemma TrimSpace_ends c s d :
  plain c = true -> plain d = true -> TrimSpace (String c s +:+ str1 d) = String c s +:+ str1 d.
Proof.
  intros Hc Hd. unfold TrimSpace. simpl String.append.
  rewrite TrimLeft_plain by done. by apply (TrimRight_snoc (String c s)).
Qed.

Lemma all_space_cons_plain c s : plain c = true -> all_space (String c s) = false.
Proof. intros. simpl. plains. destruct s as [|c2 [|c3 s]]; plains; done. Qed.

Lemma TrimRight_spaces s c sp :
  plain c = true -> all_space sp = true ->
  TrimRight (s +:+ String c sp) = s +:+ str1 c.
Proof.
  intros Hc Hsp. induction s as [|x s IH].
  - simpl String.append.
    change (TrimRight (String c sp)) with
      (if all_space (String c sp) then EmptyString else String c (TrimRight sp)).
    rewrite all_space_cons_plain by done. unfold str1. f_equal.
    destruct sp; [done|]. cbn [TrimRight]. by rewrite Hsp.
  - change (TrimRight (String x s +:+ String c sp)) with
      (if all_space (String x s +:+ String c sp) then EmptyString
       else String x (TrimRight (s +:+ String c sp))).
    rewrite IH. destruct (all_space (String x s +:+ String c sp)) eqn:E; [|done].
    exfalso. revert E. clear IH. generalize (String x s) as t. intros t.
    remember (String.length t) as n eqn:Hn. revert t Hn.
    induction (lt_wf n) as [n _ IHn]; intros t -> E.
    destruct t as [|c1 t]; [simpl String.append in E; by rewrite all_space_cons_plain in E|].
    simpl in E. destruct (ascii_space c1); [by apply (IHn (String.length t)) in E; simpl; auto|].
    destruct t as [|c2 t]; simpl in E; plains; revert E; plains.
    + by destruct sp; plains.
    + destruct (space2 c1 c2); [intros E; by apply (IHn (String.length t)) in E; simpl; auto|].
      destruct t as [|c3 t]; simpl; plains; [done|].
      destruct (space3 c1 c2 c3); [|done].
      intros E; by apply (IHn (String.length t)) in E; simpl; auto.
Qed.

Lemma fields_from_plain cur c s :
  plain c = true -> fields_from cur (String c s) = fields_from (cur +:+ str1 c) s.
Proof. intros. simpl. plains. destruct s as [|c2 [|c3 s]]; plains; done. Qed.

Lemma fields_from_word cur w s :
  str_forall plain w = true -> fields_from cur (w +:+ s) = fields_from (cur +:+ w) s.
Proof.
  revert cur. induction w as [|c w IH]; intros cur; [by strs|].
  simpl str_forall. rewrite andb_true_iff. intros [Hc Hw]. simpl String.append.
  rewrite fields_from_plain, IH by done. by rewrite str_app_assoc.
Qed.

Definition word (s : string) : bool := str_forall plain s && negb (String.eqb s EmptyString).

(** [strings.Fields] undoes joining words with single blanks. *)
Lemma Fields_Join ws : Forall (fun w => word w = true) ws -> Fields (Join ws " ") = ws.
Proof.
  unfold Fields. induction ws as [|w ws IH]; intros Hws; [done|].
  apply Forall_cons in Hws as [Hw Hws]. apply andb_true_iff in Hw as [Hp Hne].
  assert (Hemit : forall r, emit w r = w :: r) by (by destruct w).
  destruct ws as [|w2 ws].
  - simpl Join. rewrite <- (str_app_nil_r w) at 1. by rewrite fields_from_word, <- (Hemit []).
  - change (Join (w :: w2 :: ws) " ") with (w +:+ String " " (Join (w2 :: ws) " ")).
    rewrite fields_from_word by done.
    transitivity (emit w (fields_from EmptyString (Join (w2 :: ws) " "))); [done|].
    by rewrite Hemit, IH.
Qed.

(** ** Lemmas: scanning a file of whole lines *)
Definition concat_lines (ls : list string) : string :=
  foldr (fun l acc => l +:+ nl +:+ acc) EmptyString ls.

Lemma concat_lines_app a b : concat_lines (a ++ b) = concat_lines a +:+ concat_lines b.
Proof. induction a as [|x a IH]; simpl; [done|]. rewrite IH. by strs. Qed.

Lemma concat_lines_Join ls : concat_lines ls = Join (ls ++ [EmptyString]) nl.
Proof.
  induction ls as [|x ls IH]; [done|]. simpl. rewrite IH.
  destruct (ls ++ [EmptyString]) eqn:E; [by destruct ls|done].
Qed.

(** A line the scanner returns unchanged. *)
Definition clean_line (s : string) : bool :=
  no_char (chr 10) s && no_char (chr 13) s && (String.length s <? MaxScanTokenSize)%nat.

Lemma raw_lines_concat ls :
  Forall (fun s => no_char (chr 10) s = true) ls -> raw_lines (concat_lines ls) = ls.
Proof.
  intros Hls. unfold raw_lines. rewrite concat_lines_Join. unfold nl.
  rewrite Split_Join; [| by destruct ls | apply Forall_app; split; [done|by repeat constructor]].
  rewrite reverse_app. simpl. by rewrite reverse_involutive.
Qed.

Lemma scan_lines_concat ls :
  Forall (fun s => clean_line s = true) ls -> scan_lines (concat_lines ls) = ls.
Proof.
  intros Hls. unfold scan_lines. rewrite raw_lines_concat.
  - induction Hls as [|x ls Hx Hls IH]; [done|]. cbn [take_until_long].
    apply andb_true_iff in Hx as [[_ Hcr]%andb_true_iff Hlen].
    rewrite Hlen, IH. unfold drop_cr. by rewrite CutLast_char_none.
  - eapply Forall_impl; [exact Hls|]. intros x Hx. simpl in Hx.
    by apply andb_true_iff in Hx as [[? _]%andb_true_iff _].
Qed.

(** Printed numbers and fixed tokens are plain. *)
Lemma num_plain s : str_forall num_byte s = true -> str_forall plain s = true.
Proof.
  apply str_forall_impl. intros c Hc. unfold num_byte in Hc.
  destruct (Ascii.eqb c "-") eqn:E; [apply Ascii.eqb_eq in E; by rewrite E|].
  rewrite orb_false_r in Hc. unfold is_digit in Hc. unfold plain, ascii_space. lia.
Qed.

Lemma Itoa_word z : word (Itoa z) = true.
Proof.
  unfold word. rewrite num_plain by apply Itoa_num. simpl.
  destruct (String.eqb_spec (Itoa z) EmptyString) as [E|]; [|done].
  by destruct (Itoa_nonempty z).
Qed.

Lemma word_plain s : word s = true -> str_forall plain s = true.
Proof. unfold word. by intros []%andb_true_iff. Qed.

Lemma plain_no_space s : str_forall plain s = true -> no_char " " s = true.
Proof.
  apply str_forall_impl. intros c Hc.
  by destruct (Ascii.eqb_spec c " ") as [->|].
Qed.

(** ** Lemmas: trimming text with plain edges *)
Definition edged (s : string) : Prop :=
  s = EmptyString \/
  ((exists c r, s = String c r /\ plain c = true) /\
   (exists r c, s = r +:+ str1 c /\ plain c = true)).

Lemma TrimSpace_edged s : edged s -> TrimSpace s = s.
Proof.
  intros [->|[(c & r & Hs & Hc) (r' & d & Hs' & Hd)]]; [done|].
  unfold TrimSpace. rewrite Hs, TrimLeft_plain by done. rewrite <- Hs, Hs'.
  by apply TrimRight_snoc.
Qed.

Lemma word_edged s : str_forall plain s = true -> edged s.
Proof.
  intros Hs. destruct s as [|c r]; [by left|]. right. split.
  - exists c, r. split; [done|]. simpl in Hs. by apply andb_true_iff in Hs as [].
  - destruct (str_snoc (String c r)) as (r' & d & E); [done|]. exists r', d. split; [done|].
    rewrite E, str_forall_app in Hs. apply andb_true_iff in Hs as [_ Hd].
    simpl in Hd. by rewrite andb_true_r in Hd.
Qed.

Lemma edged_app a m b :
  edged a -> edged b -> a <> EmptyString -> b <> EmptyString -> edged (a +:+ m +:+ b).
Proof.
  intros [->|[(c & r & -> & Hc) _]]; [done|]. intros [->|[_ (r' & d & -> & Hd)]]; [done|].
  intros _ _. right. split.
  - exists c, (r +:+ m +:+ r' +:+ str1 d). done.
  - exists (String c r +:+ m +:+ r'), d. by strs.
Qed.

Lemma word_nonempty s : word s = true -> s <> EmptyString.
Proof. by intros [_ H]%andb_true_iff ->. Qed.

Lemma Join_words_edged ws :
  Forall (fun w => word w = true) ws ->
  edged (Join ws " ") /\ (ws <> [] -> Join ws " " <> EmptyString).
Proof.
  induction ws as [|w ws IH]; intros Hws; [split; [by left|done]|].
  apply Forall_cons in Hws as [Hw Hws]. destruct (IH Hws) as [IHe IHn].
  pose proof (word_nonempty _ Hw). apply word_plain, word_edged in Hw.
  destruct ws as [|w2 ws]; [by split|].
  change (Join (w :: w2 :: ws) " ") with (w +:+ " " +:+ Join (w2 :: ws) " ").
  split; [apply edged_app; auto|by destruct w].
Qed.

(** A line break after text with plain edges is trimmed away. *)
Lemma TrimSpace_nl s : edged s -> s <> EmptyString -> TrimSpace (s +:+ nl) = s.
Proof.
  intros [->|[(c & r & Hs & Hc) (r' & d & Hs' & Hd)]] _; [done|].
  unfold TrimSpace. rewrite Hs. simpl String.append. rewrite TrimLeft_plain by done.
  change (String c (r +:+ nl)) with (String c r +:+ nl). rewrite <- Hs, Hs'.
  rewrite str_app_assoc. simpl String.append. by apply TrimRight_spaces.
Qed.

(** ** Lemmas: what trimming and [Fields] can produce *)
Lemma str_forall_TrimLeft P s : str_forall P s = true -> str_forall P (TrimLeft s) = true.
Proof.
  remember (String.length s) as n eqn:Hn. revert s Hn.
  induction (lt_wf n) as [n _ IH]; intros s -> Hs.
  destruct s as [|c1 s]; [done|]. cbn [TrimLeft].
  simpl in Hs. pose proof Hs as [_ Hs1]%andb_true_iff.
  destruct (ascii_space c1); [apply (IH (String.length s)); simpl; auto|].
  destruct s as [|c2 s]; [done|]. simpl in Hs1. pose proof Hs1 as [_ Hs2]%andb_true_iff.
  destruct (space2 c1 c2); [apply (IH (String.length s)); simpl; auto|].
  destruct s as [|c3 s]; [done|]. simpl in Hs2. pose proof Hs2 as [_ Hs3]%andb_true_iff.
  destruct (space3 c1 c2 c3); [apply (IH (String.length s)); simpl; auto|done].
Qed.

Lemma str_forall_TrimRight P s : str_forall P s = true -> str_forall P (TrimRight s) = true.
Proof.
  induction s as [|c s IH]; [done|]. intros [Hc Hs]%andb_true_iff.
  change (TrimRight (String c s)) with
    (if all_space (String c s) then EmptyString else String c (TrimRight s)).
  destruct (all_space (String c s)); [done|]. simpl. rewrite Hc. auto.
Qed.

Lemma str_forall_TrimSpace P s : str_forall P s = true -> str_forall P (TrimSpace s) = true.
Proof. intros. by apply str_forall_TrimRight, str_forall_TrimLeft. Qed.

(** A field: not empty, and with no ASCII white space inside. *)
Definition field_ok (s : string) : bool :=
  negb (String.eqb s EmptyString) && str_forall (fun c => negb (ascii_space c)) s.

Lemma emit_ok cur rest :
  str_forall (fun c => negb (ascii_space c)) cur = true ->
  Forall (fun s => field_ok s = true) rest ->
  Forall (fun s => field_ok s = true) (emit cur rest).
Proof.
  intros Hcur Hrest. destruct cur as [|c cur]; [done|]. simpl. constructor; [|done].
  unfold field_ok. by rewrite Hcur.
Qed.

Lemma fields_from_ok cur s :
  str_forall (fun c => negb (ascii_space c)) cur = true ->
  Forall (fun s => field_ok s = true) (fields_from cur s).
Proof.
  remember (String.length s) as n eqn:Hn. revert cur s Hn.
  induction (lt_wf n) as [n _ IH]; intros cur s -> Hcur.
  destruct s as [|c1 s]; [by apply emit_ok|]. cbn [fields_from].
  destruct (ascii_space c1) eqn:E1.
  { apply emit_ok; [done|]. apply (IH (String.length s)); simpl; auto. }
  assert (Hcur1 : str_forall (fun c => negb (ascii_space c)) (cur +:+ str1 c1) = true).
  { rewrite str_forall_app, Hcur. simpl. by rewrite E1. }
  destruct s as [|c2 s]; [by apply emit_ok|].
  destruct (space2 c1 c2).
  { apply emit_ok; [done|]. apply (IH (String.length s)); simpl; auto. }
  destruct s as [|c3 s]; [apply (IH (String.length (str1 c2))); simpl; auto|].
  destruct (space3 c1 c2 c3).
  { apply emit_ok; [done|]. apply (IH (String.length s)); simpl; auto. }
  apply (IH (String.length (String c2 (String c3 s)))); simpl; auto.
Qed.

Lemma Fields_ok s : Forall (fun x => field_ok x = true) (Fields s).
Proof. by apply fields_from_ok. Qed.

(** ** Lemmas: splitting and joining back *)
Lemma Join_cons x l sep : l <> [] -> Join (x :: l) sep = x +:+ sep +:+ Join l sep.
Proof. by destruct l. Qed.

Lemma SplitN_nonempty s sep n : SplitN s sep (S n) <> [].
Proof. destruct n; simpl; [done|]. by destruct (Cut sep s) as [[]|]. Qed.

Lemma Join_SplitN c s n : Join (SplitN s (str1 c) (S n)) (str1 c) = s.
Proof.
  revert s. induction n as [|n IH]; intros s; [done|].
  change (SplitN s (str1 c) (S (S n))) with
    (match Cut (str1 c) s with Some (a, b) => a :: SplitN b (str1 c) (S n) | None => [s] end).
  destruct (Cut (str1 c) s) as [[a b]|] eqn:E; [|done].
  apply Cut_char_inv in E as [-> _]. rewrite Join_cons by apply SplitN_nonempty. by rewrite IH.
Qed.

Lemma Join_Split c s : Join (Split s (str1 c)) (str1 c) = s.
Proof. apply Join_SplitN. Qed.

Lemma SplitN_enough c s n m :
  (String.length s < n)%nat -> (String.length s < m)%nat ->
  SplitN s (str1 c) n = SplitN s (str1 c) m.
Proof.
  revert s m. induction n as [|n IH]; intros s m Hn Hm; [lia|].
  destruct m as [|m]; [lia|]. destruct s as [|x s].
  { destruct n, m; reflexivity. }
  simpl in Hn, Hm. destruct n as [|n]; [lia|]. destruct m as [|m]; [lia|].
  change (match Cut (str1 c) (String x s) with Some (a, b) => a :: SplitN b (str1 c) (S n) | None => [String x s] end
          = match Cut (str1 c) (String x s) with Some (a, b) => a :: SplitN b (str1 c) (S m) | None => [String x s] end).
  destruct (Cut (str1 c) (String x s)) as [[a b]|] eqn:E; [|done].
  apply Cut_char_inv in E as [E _]. f_equal.
  assert (String.length (String x s) = String.length a + S (String.length b))%nat as Hl
    by (rewrite E, str_length_app; done).
  simpl in Hl. apply IH; lia.
Qed.

(** The first piece of a split, and the split of the rest. *)
Lemma Split_cons c a b :
  no_char c a = true -> Split (a +:+ String c b) (str1 c) = a :: Split b (str1 c).
Proof.
  intros Ha. unfold Split.
  destruct (String.length (a +:+ String c b)) as [|n] eqn:E;
    [rewrite str_length_app in E; simpl in E; lia|].
  change (SplitN (a +:+ String c b) (str1 c) (S (S n))) with
    (match Cut (str1 c) (a +:+ String c b) with
     | Some (x, y) => x :: SplitN y (str1 c) (S n) | None => [a +:+ String c b] end).
  rewrite Cut_char by done. f_equal. apply SplitN_enough; [|lia].
  rewrite str_length_app in E. simpl in E. lia.
Qed.

(** ** Lemmas: the text after a token *)
Definition after (tok s : string) : option string := snd <$> Cut tok s.

Lemma after_here tok s : after tok (tok +:+ s) = Some s.
Proof.
  unfold after. assert (String.prefix tok (tok +:+ s) = true) as Hp.
  { induction tok as [|x tok IH]; simpl; [by destruct s|].
    destruct (ascii_dec x x) as [_|n]; [exact IH|by destruct n]. }
  assert (str_drop (String.length tok) (tok +:+ s) = s) as Hd
    by (clear Hp; induction tok; simpl; [by destruct s|done]).
  destruct (tok +:+ s) eqn:E; cbn [Cut]; rewrite Hp, Hd; done.
Qed.

Lemma after_step tok x s :
  String.prefix tok (String x s) = false -> after tok (String x s) = after tok s.
Proof. intros H. unfold after. cbn [Cut]. rewrite H. by destruct (Cut tok s) as [[]|]. Qed.

Lemma after_skip h tok a b :
  no_char h a = true -> after (String h tok) (a +:+ b) = after (String h tok) b.
Proof.
  unfold no_char. induction a as [|x a IH]; simpl str_forall; intros Ha; [done|].
  apply andb_true_iff in Ha as [Hx Ha].
  change (String x a +:+ b) with (String x (a +:+ b)). rewrite after_step; [auto|].
  simpl. destruct (ascii_dec h x) as [->|]; [|done]. by rewrite Ascii.eqb_refl in Hx.
Qed.

Lemma prefix_stops c tok a b :
  no_char c tok = true -> String.prefix tok a = false ->
  String.prefix tok (a +:+ String c b) = false.
Proof.
  unfold no_char. revert a. induction tok as [|x tok IH]; intros a Hc Hp; simpl in Hc.
  - by destruct a.
  - apply andb_true_iff in Hc as [Hx Hc]. destruct a as [|y a]; simpl in *.
    + destruct (ascii_dec x c) as [->|]; [|done]. by rewrite Ascii.eqb_refl in Hx.
    + destruct (ascii_dec x y); [|done]. by apply IH.
Qed.

(** A token without the byte [c] is not found in a stretch that ends with [c]
    and does not contain it. *)
Lemma after_field c tok a b :
  no_char c tok = true -> tok <> EmptyString -> Contains a tok = false ->
  after tok (a +:+ String c b) = after tok b.
Proof.
  intros Hc Hne. unfold Contains. induction a as [|x a IH]; intros Ha.
  - apply after_step. simpl. destruct tok as [|y tok]; [done|].
    apply (prefix_stops c (String y tok) EmptyString b); done.
  - cbn [Cut] in Ha. destruct (String.prefix tok (String x a)) eqn:E; [done|].
    change (String x a +:+ String c b) with (String x (a +:+ String c b)).
    rewrite after_step; [|by apply (prefix_stops c tok (String x a))].
    apply IH. by destruct (Cut tok a) as [[]|].
Qed.

(** ** Lemmas: pieces of a string consist of its bytes *)
Lemma str_forall_drop P n s : str_forall P s = true -> str_forall P (str_drop n s) = true.
Proof.
  revert s. induction n as [|n IH]; intros [|c s] Hs; try done. simpl in *.
  apply andb_true_iff in Hs as [_ Hs]. by apply IH.
Qed.

Lemma str_forall_Cut P sep s a b :
  str_forall P s = true -> Cut sep s = Some (a, b) -> str_forall P a = true /\ str_forall P b = true.
Proof.
  revert a. induction s as [|c s IH]; intros a Hs; cbn [Cut]; destruct (String.prefix _ _).
  - intros [= <- <-]. split; [done|by apply str_forall_drop].
  - done.
  - intros [= <- <-]. split; [done|by apply str_forall_drop].
  - simpl in Hs. apply andb_true_iff in Hs as [Hc Hs]. destruct (Cut sep s) as [[a' b']|]; [|done].
    intros [= <- <-]. destruct (IH a' Hs eq_refl) as [Ha Hb]. simpl. by rewrite Hc, Ha.
Qed.

Lemma str_forall_SplitN P sep n s :
  str_forall P s = true -> Forall (fun x => str_forall P x = true) (SplitN s sep n).
Proof.
  revert s. induction n as [|[|n] IH]; intros s Hs; [constructor|by repeat constructor|].
  change (SplitN s sep (S (S n))) with
    (match Cut sep s with Some (a, b) => a :: SplitN b sep (S n) | None => [s] end).
  destruct (Cut sep s) as [[a b]|] eqn:E; [|by repeat constructor].
  apply (str_forall_Cut P) in E as [Ha Hb]; [|done]. constructor; [done|]. by apply IH.
Qed.

Lemma str_forall_emit P cur rest :
  str_forall P cur = true -> Forall (fun x => str_forall P x = true) rest ->
  Forall (fun x => str_forall P x = true) (emit cur rest).
Proof. intros Hc Hr. destruct cur; [done|]. by constructor. Qed.

Lemma str_forall_fields P s : forall cur,
  str_forall P cur = true -> str_forall P s = true ->
  Forall (fun x => str_forall P x = true) (fields_from cur s).
Proof.
  remember (String.length s) as n eqn:Hn. revert s Hn. induction (lt_wf n) as [n _ IH]; intros s -> cur Hc Hs.
  assert (Hrec : forall s' cur', (String.length s' < String.length s)%nat -> str_forall P cur' = true ->
    str_forall P s' = true -> Forall (fun x => str_forall P x = true) (fields_from cur' s')) by eauto.
  destruct s as [|c1 s]; [by apply str_forall_emit|]. cbn [fields_from].
  simpl in Hs. apply andb_true_iff in Hs as [H1 Hs].
  assert (str_forall P (cur +:+ str1 c1) = true) as Hc1 by (rewrite str_forall_app, Hc; simpl; by rewrite H1).
  destruct (ascii_space c1); [apply str_forall_emit; [done|]; apply Hrec; simpl; auto|].
  destruct s as [|c2 s]; [by apply str_forall_emit|].
  pose proof Hs as Hs2. simpl in Hs2. apply andb_true_iff in Hs2 as [H2 Hs2].
  destruct (space2 c1 c2); [apply str_forall_emit; [done|]; apply Hrec; simpl; auto|].
  destruct s as [|c3 s]; [apply Hrec; simpl; auto|].
  pose proof Hs2 as Hs3. simpl in Hs3. apply andb_true_iff in Hs3 as [H3 Hs3].
  destruct (space3 c1 c2 c3); [apply str_forall_emit; [done|]; apply Hrec; simpl; auto|].
  apply Hrec; simpl; auto.
Qed.

Lemma str_forall_CutLast P c s a b :
  str_forall P s = true -> CutLast c s = Some (a, b) -> str_forall P a = true /\ str_forall P b = true.
Proof.
  revert a. induction s as [|x s IH]; intros a Hs; [done|]. cbn [CutLast].
  simpl in Hs. apply andb_true_iff in Hs as [Hx Hs]. destruct (CutLast c s) as [[a' b']|].
  - intros [= <- <-]. destruct (IH a' Hs eq_refl) as [Ha Hb]. simpl. by rewrite Hx, Ha.
  - destruct (Ascii.eqb x c); [|done]. by intros [= <- <-].
Qed.
