(* ===== verification/Protocol.v ===== *)
(** * The wire protocol: internal/protocol/protocol.go

    One request or response per line. [ParseRequest] splits a line into version,
    correlation id, command and arguments; [Ok] and [Err] print responses;
    [ParseInt] reads numeric arguments. The properties: what a parsed request
    looks like, that a well-formed line is parsed back field by field, the order
    in which malformed lines are rejected, and the shape of responses. *)
From S2P Require Import Prelude GoStrings.

(** [Request]: the parsed representation of one line. *)
Record Request := mkRequest {
  reqVersion : string;
  reqCorrelationID : string;
  reqCommand : string;
  reqArgs : list string
}.

Definition Version : string := "V1".

(** [ParseRequest]. *)
Definition ParseRequest `{UnicodeCase} (line : string) : result Request :=
  match SplitN (TrimSpace line) "|" 4 with
  | [p0; p1; p2; p3] =>
      let version := TrimSpace p0 in
      let correlationID := TrimSpace p1 in
      let command := ToUpper (TrimSpace p2) in
      let argLine := TrimSpace p3 in
      if negb (String.eqb version Version) then Failure "unsupported version"
      else if String.eqb correlationID "" then Failure "correlation id required"
      else if String.eqb command "" then Failure "command required"
      else
        let args := if negb (String.eqb argLine "") then Fields argLine else [] in
        Success (mkRequest version correlationID command args)
  | _ => Failure "expected format V1|<correlation_id>|<command>|<args>"
  end.

(** [Ok]. *)
Definition Ok (correlationID payload : string) : string :=
  if String.eqb payload "" then Version +:+ "|" +:+ correlationID +:+ "|OK" +:+ nl
  else Version +:+ "|" +:+ correlationID +:+ "|OK|" +:+ payload +:+ nl.

(** [Err]. *)
Definition Err (correlationID code message : string) : string :=
  let correlationID := if String.eqb correlationID "" then "0" else correlationID in
  Version +:+ "|" +:+ correlationID +:+ "|ERR|" +:+ code +:+ "|" +:+ message +:+ nl.

(** [ParseInt]. *)
Definition ParseInt (value field : string) : result Z :=
  match Atoi value with
  | Some parsed => Success parsed
  | None => Failure ("invalid " +:+ field)
  end.

(** The request line a client writes ([TCPTransport.send] builds this one). *)
Definition request_line (correlation command args : string) : string :=
  "V1|" +:+ correlation +:+ "|" +:+ command +:+ "|" +:+ args +:+ nl.

(** A correlation id or a command as a client spells it: a word without bars. *)
Definition token (s : string) : bool := word s && no_char "|" s.

Lemma token_word s : token s = true -> word s = true.
Proof. by intros []%andb_true_iff. Qed.

Lemma token_plain s : token s = true -> str_forall plain s = true.
Proof. by intros ?%token_word%word_plain. Qed.

Lemma token_no_bar s : token s = true -> no_char "|" s = true.
Proof. by intros []%andb_true_iff. Qed.

Lemma token_nonempty s : token s = true -> String.eqb s "" = false.
Proof.
  intros H%token_word%word_nonempty. by destruct (String.eqb_spec s "").
Qed.

Lemma Cut_bar a b : no_char "|" a = true -> Cut "|" (a +:+ "|" +:+ b) = Some (a, b).
Proof. apply (Cut_char "|"). Qed.

(** The first three bars cut a line; the rest belongs to the last piece. *)
Lemma SplitN_4 a b c d :
  no_char "|" a = true -> no_char "|" b = true -> no_char "|" c = true ->
  SplitN (a +:+ "|" +:+ b +:+ "|" +:+ c +:+ "|" +:+ d) "|" 4 = [a; b; c; d].
Proof.
  intros Ha Hb Hc. unfold SplitN. by rewrite !Cut_bar.
Qed.

Lemma request_line_edged cid cmd args :
  edged args -> edged ("V1|" +:+ cid +:+ "|" +:+ cmd +:+ "|" +:+ args).
Proof.
  intros Hargs. destruct (decide (args = EmptyString)) as [->|Hne].
  - right. split; [by exists "V"%char, ("1|" +:+ cid +:+ "|" +:+ cmd +:+ "|")|].
    exists ("V1|" +:+ cid +:+ "|" +:+ cmd), "|"%char. by strs.
  - pose proof (edged_app "V1" ("|" +:+ cid +:+ "|" +:+ cmd +:+ "|") args) as H.
    strs. apply H; [by apply word_edged|done..].
Qed.

(** A request line is parsed back field by field. *)
Lemma parse_request_line `{UnicodeCase} cid cmd ws :
  token cid = true -> token cmd = true -> is_ascii cmd = true ->
  str_map upper_byte cmd = cmd ->
  Forall (fun w => word w = true) ws ->
  ParseRequest (request_line cid cmd (Join ws " "))
  = Success (mkRequest Version cid cmd ws).
Proof.
  intros Hcid Hcmd Hascii Hup Hws. unfold ParseRequest, request_line.
  destruct (Join_words_edged ws Hws) as [Hedge Hne].
  replace ("V1|" +:+ cid +:+ "|" +:+ cmd +:+ "|" +:+ Join ws " " +:+ nl)
    with (("V1|" +:+ cid +:+ "|" +:+ cmd +:+ "|" +:+ Join ws " ") +:+ nl) by (by strs).
  rewrite TrimSpace_nl by (by try apply request_line_edged).
  assert (SplitN ("V1|" +:+ cid +:+ "|" +:+ cmd +:+ "|" +:+ Join ws " ") "|" 4
          = ["V1"; cid; cmd; Join ws " "]) as ->
    by (apply (SplitN_4 "V1"); auto using token_no_bar).
  rewrite !TrimSpace_plain by auto using token_plain.
  rewrite (TrimSpace_edged _ Hedge). unfold ToUpper. rewrite Hascii, Hup. simpl.
  rewrite !token_nonempty by done. do 2 f_equal.
  destruct (String.eqb_spec (Join ws " ") "") as [E|E]; simpl; [|by apply Fields_Join].
  destruct ws; [done|]. by apply Hne in E.
Qed.

(** C28: Round trip: a request line made of a correlation id, an upper-case ASCII
    command and blank-separated argument words, as clients and the replication
    transport write it, is parsed back to exactly those fields. *)
Theorem ParseRequest_request_line `{UnicodeCase} cid cmd ws :
  token cid = true -> token cmd = true -> is_ascii cmd = true ->
  str_map upper_byte cmd = cmd ->
  Forall (fun w => word w = true) ws ->
  ParseRequest (request_line cid cmd (Join ws " "))
  = Success (mkRequest Version cid cmd ws).
Proof. apply parse_request_line. Qed.

Lemma ParseRequest_request_line_witness :
  @ParseRequest {| upper_unicode := id; lower_unicode := id |}
    (request_line "7" "BROKER_FETCH" (Join ["orders"; "0"; "1"; "5"; "256"] " "))
  = Success (mkRequest "V1" "7" "BROKER_FETCH" ["orders"; "0"; "1"; "5"; "256"]).
Proof.
  apply (@ParseRequest_request_line {| upper_unicode := id; lower_unicode := id |});
    try reflexivity. repeat constructor.
Defined.

Lemma SplitN_4_inv s a b c d :
  SplitN s "|" 4 = [a; b; c; d] ->
  no_char "|" a = true /\ no_char "|" b = true /\ no_char "|" c = true.
Proof.
  intros Hs. unfold SplitN in Hs. change "|" with (str1 "|") in Hs.
  repeat case_match; simplify_eq;
    repeat match goal with H : Cut (str1 _) _ = Some _ |- _ => apply Cut_char_inv in H as [_ H] end;
    auto.
Qed.

(** The arguments of a request consist of bytes of its line. *)
Lemma ParseRequest_chars `{UnicodeCase} P line req :
  str_forall P line = true -> ParseRequest line = Success req ->
  Forall (fun a => str_forall P a = true) (reqArgs req).
Proof.
  intros Hline. pose proof (str_forall_SplitN P "|" 4 _ (str_forall_TrimSpace P _ Hline)) as Hs.
  unfold ParseRequest. destruct (SplitN (TrimSpace line) "|" 4) as [|a [|b [|c [|d [|]]]]]; try done.
  rewrite !Forall_cons in Hs. destruct Hs as (_ & _ & _ & Hd & _). intros Hreq.
  repeat case_match; simplify_eq; cbn [reqArgs]; [|constructor].
  by apply str_forall_fields, str_forall_TrimSpace.
Qed.

(** Whatever the input line, an accepted request carries version V1, a
    non-empty correlation id without bars (so that it can be echoed as one
    field of a response), a non-empty command, and arguments that are non-empty
    and hold no ASCII white space; a rejected line leaves no partial request. *)
Theorem ParseRequest_sound `{UnicodeCase} line req :
  ParseRequest line = Success req ->
  reqVersion req = Version
  /\ reqCorrelationID req <> "" /\ no_char "|" (reqCorrelationID req) = true
  /\ reqCommand req <> ""
  /\ Forall (fun a => field_ok a = true) (reqArgs req).
Proof.
  unfold ParseRequest.
  destruct (SplitN (TrimSpace line) "|" 4) as [|a [|b [|c [|d [|]]]]] eqn:Hsplit; try done.
  apply SplitN_4_inv in Hsplit as (Ha & Hb & Hc). intros Hreq.
  repeat case_match; simplify_eq; simpl;
    repeat match goal with
    | E : negb _ = false |- _ => apply negb_false_iff in E
    | E : String.eqb _ _ = true |- _ => apply String.eqb_eq in E
    | E : String.eqb _ _ = false |- _ => apply String.eqb_neq in E
    end;
    repeat split; auto using Fields_ok, str_forall_TrimSpace.
  all: by apply str_forall_TrimSpace.
Qed.

Lemma ParseRequest_sound_witness :
  reqCorrelationID (mkRequest "V1" "12" "JOIN" ["g"; "orders"; "c1"]) <> "".
Proof.
  eapply (@ParseRequest_sound {| upper_unicode := id; lower_unicode := id |}
            " V1| 12 |join| g orders  c1 ").
  reflexivity.
Defined.
