(* ===== verification/Config.v ===== *)
(** * Runtime configuration: internal/config/config.go

    [Load] reads the environment over defaults and validates the result. The
    environment is a function from variable names to values ([os.Getenv] gives
    the empty string for a variable that is not set). The text of strconv's
    parse errors is a parameter: only its presence after the variable's name
    matters. *)
From S2P Require Import Prelude GoStrings.

(** [Config]: all runtime knobs. *)
Record Config := mkConfig {
  ListenAddr : string;
  AdvertisedHost : string;
  AdvertisedPort : Z;
  BrokerID : Z;
  ClusterPeers : list string;
  DataDir : string;
  NumPartitions : Z;
  ReplicationFactor : Z;
  MinInSyncReplicas : Z;
  ReplicaMaxLag : Z;
  ReplicaLagTimeoutMs : Z;
  AckAllTimeoutMs : Z;
  SegmentMaxBytes : Z;
  RetentionMaxBytes : Z;
  RetentionMaxAgeSeconds : Z;
  FlushIntervalMs : Z;
  FlushBytes : Z;
  FsyncMode : string
}.

Section Load.
Variable Getenv : string -> string.
Variable NumError : string -> string -> string.

(** [getEnv]. *)
Definition getEnv (key fallback : string) : string :=
  let value := Getenv key in
  if String.eqb value "" then fallback else value.

(** [parseCSVEnv]. *)
Definition parseCSVEnv (key : string) : list string :=
  let raw := TrimSpace (Getenv key) in
  if String.eqb raw "" then []
  else filter (fun t => t <> "") (map TrimSpace (Split raw ",")).

(** One block [if raw := os.Getenv(key); raw != "" { parsed, err := ... }]: the
    default, the parsed value, or an error. [fn] is the strconv function named
    in its error; both parse 64-bit decimal numbers. *)
Definition env_int (key fn : string) (fallback : Z) : result Z :=
  let raw := Getenv key in
  if String.eqb raw "" then Success fallback
  else match Atoi raw with
       | Some parsed => Success parsed
       | None => Failure ("invalid " +:+ key +:+ ": " +:+ NumError fn raw)
       end.

(** The validation half of [Load]. *)
Definition validate (cfg : Config) : result Config :=
  if NumPartitions cfg <=? 0 then Failure "num partitions must be > 0"
  else if ReplicationFactor cfg <=? 0 then Failure "replication factor must be > 0"
  else if MinInSyncReplicas cfg <=? 0 then Failure "min isr must be > 0"
  else if ReplicationFactor cfg <? MinInSyncReplicas cfg
  then Failure "min isr cannot exceed replication factor"
  else if ReplicaMaxLag cfg <? 0 then Failure "replica max lag must be >= 0"
  else if ReplicaLagTimeoutMs cfg <=? 0 then Failure "replica lag timeout must be > 0"
  else if AckAllTimeoutMs cfg <=? 0 then Failure "ack all timeout must be > 0"
  else if String.eqb (ListenAddr cfg) "" then Failure "listen addr cannot be empty"
  else if String.eqb (AdvertisedHost cfg) "" then Failure "advertised host cannot be empty"
  else if AdvertisedPort cfg <=? 0 then Failure "advertised port must be > 0"
  else if BrokerID cfg <? 0 then Failure "broker id must be >= 0"
  else if String.eqb (DataDir cfg) "" then Failure "data dir cannot be empty"
  else if SegmentMaxBytes cfg <=? 0 then Failure "segment max bytes must be > 0"
  else if RetentionMaxBytes cfg <=? 0 then Failure "retention max bytes must be > 0"
  else if RetentionMaxAgeSeconds cfg <=? 0
  then Failure "retention max age seconds must be > 0"
  else if FlushIntervalMs cfg <=? 0 then Failure "flush interval ms must be > 0"
  else if FlushBytes cfg <=? 0 then Failure "flush bytes must be > 0"
  else if negb (String.eqb (FsyncMode cfg) "always")
          && negb (String.eqb (FsyncMode cfg) "interval")
          && negb (String.eqb (FsyncMode cfg) "never")
  then Failure "fsync mode must be one of: always, interval, never"
  else Success cfg.

(** [Load]. *)
Definition Load : result Config :=
  let? numPartitions := env_int "FLUX_NUM_PARTITIONS" "Atoi" 3 in
  let? advertisedPort := env_int "FLUX_ADVERTISED_PORT" "Atoi" 9092 in
  let? brokerID := env_int "FLUX_BROKER_ID" "Atoi" 0 in
  let? replicationFactor := env_int "FLUX_REPLICATION_FACTOR" "Atoi" 3 in
  let? minISR := env_int "FLUX_MIN_ISR" "Atoi" 2 in
  let? replicaMaxLag := env_int "FLUX_REPLICA_MAX_LAG" "Atoi" 0 in
  let? replicaLagTimeoutMs := env_int "FLUX_REPLICA_LAG_TIMEOUT_MS" "ParseInt" 10000 in
  let? ackAllTimeoutMs := env_int "FLUX_ACK_ALL_TIMEOUT_MS" "ParseInt" 2000 in
  let? segmentMaxBytes := env_int "FLUX_SEGMENT_MAX_BYTES" "ParseInt" (1 * 1024 * 1024) in
  let? retentionMaxBytes :=
    env_int "FLUX_RETENTION_MAX_BYTES" "ParseInt" (50 * 1024 * 1024) in
  let? retentionMaxAgeSeconds :=
    env_int "FLUX_RETENTION_MAX_AGE_SECONDS" "ParseInt" 86400 in
  let? flushIntervalMs := env_int "FLUX_FLUSH_INTERVAL_MS" "ParseInt" 1000 in
  let? flushBytes := env_int "FLUX_FLUSH_BYTES" "ParseInt" (64 * 1024) in
  validate {|
    ListenAddr := getEnv "FLUX_LISTEN_ADDR" ":9092";
    AdvertisedHost := getEnv "FLUX_ADVERTISED_HOST" "127.0.0.1";
    AdvertisedPort := advertisedPort;
    BrokerID := brokerID;
    ClusterPeers := parseCSVEnv "FLUX_CLUSTER_PEERS";
    DataDir := getEnv "FLUX_DATA_DIR" "data";
    NumPartitions := numPartitions;
    ReplicationFactor := replicationFactor;
    MinInSyncReplicas := minISR;
    ReplicaMaxLag := replicaMaxLag;
    ReplicaLagTimeoutMs := replicaLagTimeoutMs;
    AckAllTimeoutMs := ackAllTimeoutMs;
    SegmentMaxBytes := segmentMaxBytes;
    RetentionMaxBytes := retentionMaxBytes;
    RetentionMaxAgeSeconds := retentionMaxAgeSeconds;
    FlushIntervalMs := flushIntervalMs;
    FlushBytes := flushBytes;
    FsyncMode := getEnv "FLUX_FSYNC_MODE" "always"
  |}.
End Load.

(** ** What a loaded configuration guarantees to the components *)
Record config_ok (cfg : Config) : Prop := {
  cfg_partitions : 1 <= NumPartitions cfg <= int_max;
  cfg_isr : 1 <= MinInSyncReplicas cfg <= ReplicationFactor cfg;
  cfg_rf : ReplicationFactor cfg <= int_max;
  cfg_lag : 0 <= ReplicaMaxLag cfg <= int_max;
  cfg_lag_timeout : 1 <= ReplicaLagTimeoutMs cfg <= int_max;
  cfg_ack_timeout : 1 <= AckAllTimeoutMs cfg <= int_max;
  cfg_segment : 1 <= SegmentMaxBytes cfg <= int_max;
  cfg_retention : 1 <= RetentionMaxBytes cfg <= int_max;
  cfg_age : 1 <= RetentionMaxAgeSeconds cfg <= int_max;
  cfg_flush_ms : 1 <= FlushIntervalMs cfg <= int_max;
  cfg_flush_bytes : 1 <= FlushBytes cfg <= int_max;
  cfg_broker : 0 <= BrokerID cfg <= int_max;
  cfg_port : 1 <= AdvertisedPort cfg <= int_max;
  cfg_host : AdvertisedHost cfg <> "";
  cfg_dir : DataDir cfg <> "";
  cfg_peers : Forall (fun p => p <> "") (ClusterPeers cfg);
  cfg_fsync : FsyncMode cfg ∈ ["always"; "interval"; "never"]
}.

Lemma env_int_range Getenv NumError key fn fb z :
  in_int fb = true -> env_int Getenv NumError key fn fb = Success z -> z <= int_max.
Proof.
  unfold env_int. intros Hfb H. apply in_int_spec in Hfb.
  destruct (String.eqb _ _); [simplify_eq; lia|].
  destruct (Atoi _) eqn:E; simplify_eq. apply Atoi_in_int, in_int_spec in E. lia.
Qed.

Lemma validate_inv cfg cfg' :
  validate cfg = Success cfg' ->
  cfg' = cfg /\ 0 < NumPartitions cfg /\ 0 < MinInSyncReplicas cfg <= ReplicationFactor cfg
  /\ 0 <= ReplicaMaxLag cfg /\ 0 < ReplicaLagTimeoutMs cfg /\ 0 < AckAllTimeoutMs cfg
  /\ 0 < SegmentMaxBytes cfg /\ 0 < RetentionMaxBytes cfg /\ 0 < RetentionMaxAgeSeconds cfg
  /\ 0 < FlushIntervalMs cfg /\ 0 < FlushBytes cfg /\ 0 <= BrokerID cfg
  /\ 0 < AdvertisedPort cfg /\ AdvertisedHost cfg <> "" /\ DataDir cfg <> ""
  /\ FsyncMode cfg ∈ ["always"; "interval"; "never"].
Proof.
  unfold validate. intros Hv.
  repeat match type of Hv with
  | (if ?b then _ else _) = _ => destruct b eqn:?; [done|]
  end.
  injection Hv as <-.
  repeat match goal with H : String.eqb _ "" = false |- _ => apply String.eqb_neq in H end.
  repeat split; try lia; try done.
  repeat match goal with
  | H : _ && _ = false |- _ => apply andb_false_iff in H as [H|H]
  end; match goal with H : negb _ = false |- _ => apply negb_false_iff, String.eqb_eq in H as -> end;
  set_solver.
Qed.

Lemma accepted_config_ok Getenv NumError cfg :
  Load Getenv NumError = Success cfg -> config_ok cfg.
Proof.
  unfold Load. intros Hl.
  repeat match type of Hl with
  | result_bind ?r _ = _ =>
      destruct r eqn:?; [|done]; cbn [result_bind] in Hl
  end.
  repeat match goal with
  | H : env_int _ _ _ _ _ = Success _ |- _ => apply env_int_range in H; [|reflexivity]
  end.
  apply validate_inv in Hl. destruct_and!. subst cfg.
  constructor; simpl in *; try done; try lia.
  unfold parseCSVEnv. destruct (String.eqb _ _); [constructor|].
  apply Forall_forall. intros x Hx. apply list_elem_of_filter in Hx. tauto.
Qed.

(** C27: every configuration that [Load] accepts, whatever the environment,
    satisfies the whole set of bounds the components rely on, the 64-bit range
    of each number included; in particular at least one partition exists and
    the minimum ISR size lies between 1 and the replication factor. *)
Theorem Load_config_ok Getenv NumError cfg :
  Load Getenv NumError = Success cfg -> config_ok cfg.
Proof. apply accepted_config_ok. Qed.

Definition demo_env (key : string) : string :=
  if String.eqb key "FLUX_MIN_ISR" then "3"
  else if String.eqb key "FLUX_CLUSTER_PEERS" then "0@a:9092, ,1@b:9092"
  else "".

Lemma Load_config_ok_witness :
  exists cfg, Load demo_env (fun _ _ => "") = Success cfg /\ config_ok cfg.
Proof.
  eexists. split; [vm_compute; reflexivity|].
  apply (Load_config_ok demo_env (fun _ _ => "")). vm_compute. reflexivity.
Defined.
