(* ===== verification/Replication.v ===== *)
(** * The replication manager: internal/replication/manager.go

    Per partition the manager keeps a role, the leader's last offset, the high
    watermark and one record per follower. Every operation runs under the
    manager's mutex, so an execution is a sequence of whole operations; each
    takes the clock readings it makes as arguments. [map_range] is the
    iteration order of the followers map, and the alert hook is modelled by the
    trace of its calls. *)
From S2P Require Import Prelude GoStrings.

Module Replication.

(** ** Data *)

(** [Config]; the durations are nanoseconds. *)
Record Config := mkConfig {
  ReplicationFactor : Z;
  MinInSyncReplicas : Z;
  MaxReplicaLag : Z;
  ReplicaLagTimeout : Z;
  AckAllTimeout : Z
}.

(** [Status]: a snapshot of one partition. *)
Record Status := mkStatus {
  stTopic : string;
  stPartition : Z;
  stRole : string;
  stLeaderOffset : Z;
  stHighWatermark : Z;
  stInSyncReplicas : list Z;
  stUnderReplicated : bool;
  stReplicationFactor : Z
}.

(** [replicaState]. *)
Record replicaState := mkReplica {
  offset : Z;
  lastSeen : Z;
  inSync : bool
}.

(** [partitionState]. *)
Record partitionState := mkPartition {
  role : string;
  leaderOffset : Z;
  highWatermark : Z;
  followers : gmap Z replicaState
}.

(** One call of the alert hook: topic, partition, underReplicated, isrSize. *)
Definition alert : Type := string * Z * bool * Z.

(** [Manager]; [hooked] says whether a hook is installed. *)
Record Manager := mkManager {
  cfg : Config;
  partitions : gmap string (gmap Z partitionState);
  hooked : bool;
  alerts : list alert
}.

(** [NewManager]: out-of-range settings are replaced. *)
Definition NewManager (c : Config) (hook : bool) : Manager :=
  let rf := if ReplicationFactor c <? 1 then 1 else ReplicationFactor c in
  let isr := if MinInSyncReplicas c <? 1 then 1 else MinInSyncReplicas c in
  let isr := if rf <? isr then rf else isr in
  let lag := if MaxReplicaLag c <? 0 then 0 else MaxReplicaLag c in
  let lagTimeout := if ReplicaLagTimeout c <=? 0 then 10 * Second else ReplicaLagTimeout c in
  let ackTimeout := if AckAllTimeout c <=? 0 then 2 * Second else AckAllTimeout c in
  mkManager (mkConfig rf isr lag lagTimeout ackTimeout) ∅ hook [].

(** The state [ensurePartition] creates on first use. *)
Definition fresh_partition (c : Config) : partitionState :=
  mkPartition "leader" (-1) (-1)
    (list_to_map (map (fun id => (id, mkReplica (-1) zero_time false))
                      (zrange 1 (ReplicationFactor c)))).

(** The partition's state as [ensurePartition] returns it. *)
Definition get_partition (m : Manager) (topic : string) (partition : Z) : partitionState :=
  default (fresh_partition (cfg m)) (lookup2 (partitions m) topic partition).

Definition set_partition (m : Manager) (topic : string) (partition : Z)
    (ps : partitionState) : Manager :=
  mkManager (cfg m) (insert2 topic partition ps (partitions m)) (hooked m) (alerts m).

(** [ensurePartition]: the manager with the partition present, and its state. *)
Definition ensurePartition (m : Manager) (topic : string) (partition : Z)
    : Manager * partitionState :=
  let ps := get_partition m topic partition in
  (match lookup2 (partitions m) topic partition with
   | Some _ => m
   | None => set_partition m topic partition ps
   end, ps).

Section Operations.
Context `{MapOrder}.

(** ** [recomputeLocked] *)

(** The loop body: freshness and lag decide whether a follower is in sync. *)
Definition refresh (c : Config) (leader : Z) (now : Z) (r : replicaState) : replicaState :=
  let lag := int_sub leader (offset r) in
  let fresh := negb (IsZero (lastSeen r))
               && (time_sub now (lastSeen r) <=? ReplicaLagTimeout c) in
  mkReplica (offset r) (lastSeen r) (fresh && (lag <=? MaxReplicaLag c)).

Definition in_sync_offsets (fs : gmap Z replicaState) : list Z :=
  map (fun kr => offset kr.2) (filter (fun kr => inSync kr.2 = true) (map_range fs)).

Definition recompute (c : Config) (ps : partitionState) (now : Z) : partitionState * Z :=
  let fs := refresh c (leaderOffset ps) now <$> followers ps in
  let isrOffsets := leaderOffset ps :: in_sync_offsets fs in
  let isrSize := Z.of_nat (length isrOffsets) in
  let hw := min_from (leaderOffset ps) isrOffsets in
  let hw := if hw <? -1 then -1 else hw in
  (mkPartition (role ps) (leaderOffset ps) hw fs, isrSize).

(** [recomputeLocked]: write the partition back and call the hook. *)
Definition recomputeLocked (m : Manager) (topic : string) (partition : Z)
    (ps : partitionState) (now : Z) : Manager :=
  let '(ps', isrSize) := recompute (cfg m) ps now in
  let m' := set_partition m topic partition ps' in
  if hooked m
  then mkManager (cfg m') (partitions m') (hooked m')
         (alerts m' ++ [(topic, partition, isrSize <? MinInSyncReplicas (cfg m), isrSize)])
  else m'.

(** [statusLocked]. *)
Definition statusLocked (c : Config) (topic : string) (partition : Z)
    (ps : partitionState) (now : Z) : Status :=
  let isr := 0 :: map fst (filter (fun kr => inSync kr.2 = true
                 /\ time_sub now (lastSeen kr.2) <= ReplicaLagTimeout c)
               (map_range (followers ps))) in
  mkStatus topic partition (role ps) (leaderOffset ps) (highWatermark ps) isr
    (Z.of_nat (length isr) <? MinInSyncReplicas c) (ReplicationFactor c).

(** ** Operations *)

(** [OnLeaderAppend]. *)
Definition OnLeaderAppend (m : Manager) (topic : string) (partition : Z)
    (off : Z) (now : Z) : Manager :=
  let '(m, ps) := ensurePartition m topic partition in
  if negb (String.eqb (role ps) "leader") then m
  else
    let lo := if leaderOffset ps <? off then off else leaderOffset ps in
    recomputeLocked m topic partition
      (mkPartition (role ps) lo (highWatermark ps) (followers ps)) now.

(** [AckReplica]: two clock readings, one stored and one for the recompute. *)
Definition AckReplica (m : Manager) (topic : string) (partition replicaID : Z)
    (off : Z) (seen now : Z) : Manager * result unit :=
  if (replicaID <=? 0) || (ReplicationFactor (cfg m) <=? replicaID)
  then (m, Failure "invalid replica id")
  else
    let '(m, ps) := ensurePartition m topic partition in
    if negb (String.eqb (role ps) "leader") then (m, Failure "partition is not leader")
    else match followers ps !! replicaID with
         | None => (m, Failure "replica id not configured")
         | Some r =>
             let off := if leaderOffset ps <? off then leaderOffset ps else off in
             let roff := if offset r <? off then off else offset r in
             let r' := mkReplica roff seen (inSync r) in
             (recomputeLocked m topic partition
                (mkPartition (role ps) (leaderOffset ps) (highWatermark ps)
                   (<[replicaID := r']> (followers ps))) now,
              Success tt)
         end.

(** [HighWatermark]. *)
Definition HighWatermark (m : Manager) (topic : string) (partition : Z) (now : Z)
    : Manager * Z :=
  let '(m, ps) := ensurePartition m topic partition in
  let m := recomputeLocked m topic partition ps now in
  (m, highWatermark (get_partition m topic partition)).

(** [IsLeader]. *)
Definition IsLeader (m : Manager) (topic : string) (partition : Z) : Manager * bool :=
  let '(m, ps) := ensurePartition m topic partition in
  (m, String.eqb (role ps) "leader").

(** [SetRole]. *)
Definition SetRole (m : Manager) (topic : string) (partition : Z) (r : string) (now : Z)
    : Manager * result unit :=
  if negb (String.eqb r "leader") && negb (String.eqb r "follower")
  then (m, Failure "invalid role")
  else
    let '(m, ps) := ensurePartition m topic partition in
    let ps :=
      if String.eqb r "follower"
      then mkPartition r (leaderOffset ps) (-1)
             ((fun f => mkReplica (offset f) (lastSeen f) false) <$> followers ps)
      else mkPartition r (leaderOffset ps) (highWatermark ps) (followers ps) in
    (recomputeLocked m topic partition ps now, Success tt).

(** [BootstrapOffset]. *)
Definition BootstrapOffset (m : Manager) (topic : string) (partition : Z)
    (off : Z) (now : Z) : Manager :=
  let '(m, ps) := ensurePartition m topic partition in
  let lo := if leaderOffset ps <? off then off else leaderOffset ps in
  let hw := if String.eqb (role ps) "follower" then off else highWatermark ps in
  recomputeLocked m topic partition (mkPartition (role ps) lo hw (followers ps)) now.

(** [Status]. *)
Definition GetStatus (m : Manager) (topic : string) (partition : Z) (now : Z)
    : Manager * Status :=
  let '(m, ps) := ensurePartition m topic partition in
  let m := recomputeLocked m topic partition ps now in
  (m, statusLocked (cfg m) topic partition (get_partition m topic partition) now).

(** ** Executions *)

(** One whole operation, with the clock readings it makes. *)
Inductive mop : Type :=
| OpLeaderAppend (topic : string) (partition off now : Z)
| OpAckReplica (topic : string) (partition replicaID off seen now : Z)
| OpHighWatermark (topic : string) (partition now : Z)
| OpIsLeader (topic : string) (partition : Z)
| OpSetRole (topic : string) (partition : Z) (r : string) (now : Z)
| OpBootstrap (topic : string) (partition off now : Z)
| OpStatus (topic : string) (partition now : Z).

Definition exec (m : Manager) (op : mop) : Manager :=
  match op with
  | OpLeaderAppend t p off now => OnLeaderAppend m t p off now
  | OpAckReplica t p id off seen now => (AckReplica m t p id off seen now).1
  | OpHighWatermark t p now => (HighWatermark m t p now).1
  | OpIsLeader t p => (IsLeader m t p).1
  | OpSetRole t p r now => (SetRole m t p r now).1
  | OpBootstrap t p off now => BootstrapOffset m t p off now
  | OpStatus t p now => (GetStatus m t p now).1
  end.

Definition run (m : Manager) (ops : list mop) : Manager := fold_left exec ops m.

(** [WaitForAckAll]: one round of its loop takes the lock, recomputes and reads
    the status at [now]; [checked] is the reading of the deadline test. Between
    two rounds other goroutines may run any operations. The result is [None]
    while the given rounds leave the caller waiting. *)
Record round := mkRound {
  others : list mop;
  now_at : Z;
  checked : Z
}.

Fixpoint wait_rounds (m : Manager) (topic : string) (partition target deadline : Z)
    (rounds : list round) : Manager * option (result unit) :=
  match rounds with
  | [] => (m, None)
  | r :: rest =>
      let m := run m (others r) in
      let '(m, status) := GetStatus m topic partition (now_at r) in
      if (target <=? stHighWatermark status)
         && (MinInSyncReplicas (cfg m) <=? Z.of_nat (length (stInSyncReplicas status)))
      then (m, Some (Success tt))
      else if time_after (checked r) deadline then (m, Some (Failure "acks=all timeout"))
      else wait_rounds m topic partition target deadline rest
  end.

Definition WaitForAckAll (m : Manager) (topic : string) (partition target start : Z)
    (rounds : list round) : Manager * option (result unit) :=
  wait_rounds m topic partition target (start + AckAllTimeout (cfg m)) rounds.

End Operations.

(** ** Invariant *)

Record cfg_ok (c : Config) : Prop := {
  cfg_rf : 1 <= ReplicationFactor c <= int_max;
  cfg_min : 1 <= MinInSyncReplicas c <= ReplicationFactor c;
  cfg_lag : 0 <= MaxReplicaLag c
}.

(** What every operation maintains about offsets, roles and followers. *)
Record core_ok (c : Config) (ps : partitionState) : Prop := {
  core_leader : -1 <= leaderOffset ps < int_max;
  core_dom : forall id, is_Some (followers ps !! id) <-> 1 <= id < ReplicationFactor c;
  core_offset : forall id r, followers ps !! id = Some r -> -1 <= offset r <= leaderOffset ps
}.

(** What [recomputeLocked] re-establishes: the high watermark never exceeds the
    leader or an in-sync follower, and lags the leader by the allowed lag at most. *)
Record ps_ok (c : Config) (ps : partitionState) : Prop := {
  ps_core : core_ok c ps;
  ps_hw : -1 <= highWatermark ps <= leaderOffset ps;
  ps_hw_isr : forall id r,
    followers ps !! id = Some r -> inSync r = true -> highWatermark ps <= offset r;
  ps_hw_lag : leaderOffset ps - MaxReplicaLag c <= highWatermark ps
}.

Record manager_ok (m : Manager) : Prop := {
  mgr_cfg : cfg_ok (cfg m);
  mgr_ps : forall t p ps, lookup2 (partitions m) t p = Some ps -> ps_ok (cfg m) ps
}.

(** Offsets stay below the largest [int]: at [int_max] the lag of a follower at
    -1 would wrap around. *)
Definition mop_ok (op : mop) : Prop :=
  match op with
  | OpLeaderAppend _ _ off _ | OpBootstrap _ _ off _ => off < int_max
  | _ => True
  end.

(** States of a manager: created by [NewManager], then any operations. *)
Inductive reachable `{MapOrder} (c : Config) (hook : bool) : Manager -> Prop :=
| reach_new : reachable c hook (NewManager c hook)
| reach_step m op : reachable c hook m -> mop_ok op -> reachable c hook (exec m op).

Section Proofs.
Context `{MapOrder}.
Implicit Types (m : Manager) (ps : partitionState) (c : Config).

Lemma elem_of_in_sync_offsets fs x :
  x ∈ in_sync_offsets fs <->
  exists id r, fs !! id = Some r /\ inSync r = true /\ x = offset r.
Proof.
  unfold in_sync_offsets. rewrite elem_of_maplist. split.
  - intros ([id r] & -> & [Hs Hin]%list_elem_of_filter).
    apply elem_of_map_range in Hin. eauto.
  - intros (id & r & Hin & Hs & ->). exists (id, r). split; [done|].
    apply list_elem_of_filter. by rewrite elem_of_map_range.
Qed.

Lemma refresh_lookup c lo now (fs : gmap Z replicaState) id r :
  (refresh c lo now <$> fs) !! id = Some r <->
  exists r0, fs !! id = Some r0 /\ r = refresh c lo now r0.
Proof. rewrite lookup_fmap, fmap_Some. split; intros (r0 & ? & ?); eauto. Qed.

Lemma refresh_in_sync_lag c ps now id r :
  core_ok c ps -> followers ps !! id = Some r ->
  inSync (refresh c (leaderOffset ps) now r) = true ->
  leaderOffset ps - MaxReplicaLag c <= offset r.
Proof.
  intros Hc Hr. destruct (core_offset _ _ Hc _ _ Hr). destruct (core_leader _ _ Hc).
  unfold refresh. cbn [inSync]. rewrite int_sub_id, andb_true_iff, Z.leb_le by ints. lia.
Qed.

(** The heart of the manager: one recompute turns the core facts into the full
    partition invariant. *)
Lemma recompute_ok c ps now :
  cfg_ok c -> core_ok c ps -> ps_ok c (recompute c ps now).1.
Proof.
  intros Hcfg Hc. pose proof (core_leader _ _ Hc). pose proof (cfg_lag _ Hcfg).
  set (fs := refresh c (leaderOffset ps) now <$> followers ps).
  set (l := leaderOffset ps :: in_sync_offsets fs).
  assert (Hlow : -1 <= min_from (leaderOffset ps) l).
  { apply min_from_glb; [lia|]. intros x [->|Hx]%elem_of_cons; [lia|].
    apply elem_of_in_sync_offsets in Hx as (id & r & Hr & _ & ->).
    apply refresh_lookup in Hr as (r0 & Hr0 & ->). apply (core_offset _ _ Hc) in Hr0. simpl. lia. }
  assert (Hclamp : (recompute c ps now).1
            = mkPartition (role ps) (leaderOffset ps) (min_from (leaderOffset ps) l) fs).
  { unfold recompute. cbn [fst]. fold fs l. f_equal. destruct (Z.ltb_spec (min_from (leaderOffset ps) l) (-1)); lia. }
  rewrite Hclamp. constructor; cbn [leaderOffset highWatermark followers].
  - constructor; cbn [leaderOffset followers]; [lia|..].
    + intros id. unfold fs. rewrite lookup_fmap, fmap_is_Some. apply (core_dom _ _ Hc).
    + intros id r (r0 & Hr0 & ->)%refresh_lookup. apply (core_offset _ _ Hc) in Hr0. simpl. lia.
  - split; [lia|apply min_from_le_init].
  - intros id r Hr Hs. apply min_from_le. right. apply elem_of_in_sync_offsets. eauto.
  - apply min_from_glb; [lia|]. intros x [->|Hx]%elem_of_cons; [lia|].
    apply elem_of_in_sync_offsets in Hx as (id & r & Hr & Hs & ->).
    apply refresh_lookup in Hr as (r0 & Hr0 & ->). by apply (refresh_in_sync_lag c ps now id r0).
Qed.

(** *** Reading back what an operation wrote *)
Lemma get_set_partition m t p ps : get_partition (set_partition m t p ps) t p = ps.
Proof. unfold get_partition, set_partition. simpl. by rewrite lookup2_insert2_eq. Qed.

Lemma recomputeLocked_cfg m t p ps now : cfg (recomputeLocked m t p ps now) = cfg m.
Proof. unfold recomputeLocked. simpl. by destruct (hooked m). Qed.

Lemma recomputeLocked_partitions m t p ps now :
  partitions (recomputeLocked m t p ps now)
  = insert2 t p (recompute (cfg m) ps now).1 (partitions m).
Proof. unfold recomputeLocked. simpl. by destruct (hooked m). Qed.

Lemma recomputeLocked_get m t p ps now :
  get_partition (recomputeLocked m t p ps now) t p = (recompute (cfg m) ps now).1.
Proof.
  unfold get_partition. by rewrite recomputeLocked_partitions, lookup2_insert2_eq.
Qed.

Lemma ensurePartition_cfg m t p : cfg (ensurePartition m t p).1 = cfg m.
Proof. unfold ensurePartition. by destruct (lookup2 _ _ _). Qed.

Lemma ensurePartition_get m t p t' p' :
  get_partition (ensurePartition m t p).1 t' p' = get_partition m t' p'.
Proof.
  unfold ensurePartition. destruct (lookup2 (partitions m) t p) eqn:E; [done|]. simpl.
  unfold get_partition, set_partition. simpl. rewrite lookup2_insert2. case_decide as Heq; [|done].
  injection Heq as <- <-. by rewrite E.
Qed.

(** *** Preservation *)
Lemma fresh_partition_ok c : cfg_ok c -> ps_ok c (fresh_partition c).
Proof.
  intros [? ? ?].
  assert (Hl : forall id, followers (fresh_partition c) !! id
            = if decide (1 <= id < ReplicationFactor c)
              then Some (mkReplica (-1) zero_time false) else None).
  { intros id. simpl. rewrite (lookup_list_to_map_keys (fun _ => _)).
    apply decide_ext. apply elem_of_zrange. }
  constructor; [constructor|..]; simpl leaderOffset; simpl highWatermark; try ints.
  - intros id. rewrite Hl. case_decide; [by eauto|].
    split; [by intros []|done].
  - intros id r. rewrite Hl. case_decide; intros; simplify_eq/=; lia.
  - intros id r. rewrite Hl. case_decide; intros; simplify_eq/=.
Qed.

Lemma get_partition_ok m t p : manager_ok m -> ps_ok (cfg m) (get_partition m t p).
Proof.
  intros [Hc Hps]. unfold get_partition. destruct (lookup2 _ _ _) eqn:E; simpl; eauto.
  by apply fresh_partition_ok.
Qed.

Lemma ensurePartition_ok m t p : manager_ok m -> manager_ok (ensurePartition m t p).1.
Proof.
  intros Hm. constructor; rewrite ensurePartition_cfg; [apply Hm|].
  unfold ensurePartition. destruct (lookup2 _ _ _) eqn:E; [apply Hm|]. simpl.
  intros t' p' ps. rewrite lookup2_insert2. case_decide; [|by apply Hm].
  intros [= <-]. by apply get_partition_ok.
Qed.

Lemma recomputeLocked_ok m t p ps now :
  manager_ok m -> core_ok (cfg m) ps -> manager_ok (recomputeLocked m t p ps now).
Proof.
  intros [Hc Hps] Hcore. constructor; rewrite recomputeLocked_cfg; [done|].
  intros t' p' ps'. rewrite recomputeLocked_partitions, lookup2_insert2.
  case_decide; [|apply Hps]. intros [= <-]. by apply recompute_ok.
Qed.

Lemma core_raise c ps r lo hw :
  core_ok c ps -> leaderOffset ps <= lo < int_max ->
  core_ok c (mkPartition r lo hw (followers ps)).
Proof.
  intros [? ? Hoff] ?. constructor; simpl; [lia|done|].
  intros id f Hf. apply Hoff in Hf. lia.
Qed.

Lemma core_ack c ps r hw id f :
  core_ok c ps -> 1 <= id < ReplicationFactor c -> -1 <= offset f <= leaderOffset ps ->
  core_ok c (mkPartition r (leaderOffset ps) hw (<[id := f]> (followers ps))).
Proof.
  intros [? Hdom Hoff] ? ?. constructor; simpl; [done|..].
  - intros id'. rewrite lookup_insert. case_decide as E; [subst|apply Hdom].
    split; [lia|eauto].
  - intros id' f'. rewrite lookup_insert. case_decide; [by intros [= <-]|apply Hoff].
Qed.

Lemma core_fmap c ps r lo hw g :
  core_ok c ps -> lo = leaderOffset ps -> (forall f, offset (g f) = offset f) ->
  core_ok c (mkPartition r lo hw (g <$> followers ps)).
Proof.
  intros [? Hdom Hoff] -> Hg. constructor; simpl; [done|..].
  - intros id. rewrite lookup_fmap, fmap_is_Some. apply Hdom.
  - intros id f. rewrite lookup_fmap, fmap_Some. intros (f0 & Hf0 & ->).
    rewrite Hg. by apply (Hoff id).
Qed.

(** Every operation is an [ensurePartition], possibly followed by a recompute
    of a partition state whose core facts hold. *)
Lemma exec_shape m op :
  manager_ok m -> mop_ok op ->
  exec m op = m \/
  exists t p, exec m op = (ensurePartition m t p).1 \/
  exists ps now, exec m op = recomputeLocked (ensurePartition m t p).1 t p ps now
    /\ core_ok (cfg m) ps /\ leaderOffset (get_partition m t p) <= leaderOffset ps.
Proof.
  intros Hm Hop.
  assert (Hcore : forall t p, core_ok (cfg m) (get_partition m t p))
    by (intros; by apply get_partition_ok).
  destruct op as [t p off now|t p id off seen now|t p now|t p|t p r now|t p off now|t p now];
    cbn [exec mop_ok] in *;
    pose proof (core_leader _ _ (Hcore t p)).
  - unfold OnLeaderAppend. cbn [ensurePartition]. right. exists t, p.
    destruct (negb _); [by left|right]. do 2 eexists. split; [reflexivity|]. simpl.
    split; [apply core_raise; [done|]|]; destruct (Z.ltb_spec (leaderOffset (get_partition m t p)) off); lia.
  - unfold AckReplica. destruct (_ || _) eqn:Hid; [by left|]. cbn [ensurePartition]. right. exists t, p.
    destruct (negb _); [by left|]. destruct (followers _ !! id) as [r|] eqn:Hr; [|by left].
    right. do 2 eexists. split; [reflexivity|]. split; [|simpl; lia].
    apply core_ack; [done|lia|]. simpl. pose proof (core_offset _ _ (Hcore t p) _ _ Hr).
    repeat case_match; lia.
  - unfold HighWatermark. cbn [ensurePartition]. right. exists t, p. right.
    do 2 eexists. split; [reflexivity|]. by split.
  - right. exists t, p. left. done.
  - unfold SetRole. destruct (_ && _); [by left|]. cbn [ensurePartition]. right. exists t, p. right.
    do 2 eexists. split; [reflexivity|]. destruct (String.eqb r "follower").
    + split; [by apply core_fmap|done].
    + split; [apply core_raise; [done|lia]|done].
  - unfold BootstrapOffset. cbn [ensurePartition]. right. exists t, p. right.
    do 2 eexists. split; [reflexivity|]. simpl.
    split; [apply core_raise; [done|]|]; destruct (Z.ltb_spec (leaderOffset (get_partition m t p)) off); lia.
  - unfold GetStatus. cbn [ensurePartition]. right. exists t, p. right.
    do 2 eexists. split; [reflexivity|]. by split.
Qed.

Lemma exec_ok m op : manager_ok m -> mop_ok op -> manager_ok (exec m op).
Proof.
  intros Hm Hop. destruct (exec_shape m op Hm Hop) as [->|(t & p & [->|(ps & now & -> & Hc & _)])];
    auto using ensurePartition_ok.
  apply recomputeLocked_ok; [by apply ensurePartition_ok|]. by rewrite ensurePartition_cfg.
Qed.

Lemma exec_cfg m op : cfg (exec m op) = cfg m.
Proof.
  destruct op; simpl;
    unfold OnLeaderAppend, AckReplica, HighWatermark, SetRole, BootstrapOffset, GetStatus, IsLeader;
    cbn [ensurePartition]; repeat case_match; simplify_eq/=;
    rewrite ?recomputeLocked_cfg; done.
Qed.

Lemma run_ok m ops : manager_ok m -> Forall mop_ok ops -> manager_ok (run m ops).
Proof.
  intros Hm Hops. revert m Hm. induction Hops; intros m Hm; [done|]. simpl.
  by apply IHHops, exec_ok.
Qed.

Lemma run_cfg m ops : cfg (run m ops) = cfg m.
Proof. revert m. induction ops as [|op ops IH]; intros m; [done|]. simpl. by rewrite IH, exec_cfg. Qed.

Lemma run_app m ops1 ops2 : run m (ops1 ++ ops2) = run (run m ops1) ops2.
Proof. apply fold_left_app. Qed.

Lemma run_snoc m ops op : run m (ops ++ [op]) = exec (run m ops) op.
Proof. apply run_app. Qed.

Lemma NewManager_ok c hook : ReplicationFactor c <= int_max -> manager_ok (NewManager c hook).
Proof.
  intros. constructor; [|intros t p ps Hps; simpl in Hps; by rewrite lookup2_empty in Hps].
  constructor; simpl; repeat case_match; ints.
Qed.

Lemma get_partition_other m t p ps now t' p' :
  (t, p) <> (t', p') ->
  get_partition (recomputeLocked m t p ps now) t' p' = get_partition m t' p'.
Proof.
  intros Hne. unfold get_partition.
  by rewrite recomputeLocked_partitions, lookup2_insert2_ne, recomputeLocked_cfg.
Qed.

(** The leader's offset never moves back. *)
Lemma exec_leader_mono m op t p :
  manager_ok m -> mop_ok op ->
  leaderOffset (get_partition m t p) <= leaderOffset (get_partition (exec m op) t p).
Proof.
  intros Hm Hop.
  destruct (exec_shape m op Hm Hop) as [->|(t' & p' & [->|(ps & now & -> & _ & Hle)])];
    rewrite ?ensurePartition_get; [lia..|].
  destruct (decide ((t', p') = (t, p))) as [E|Hne].
  - injection E as -> ->. by rewrite recomputeLocked_get.
  - rewrite get_partition_other, ensurePartition_get by done. lia.
Qed.

(** *** Where a follower's offset comes from *)
Lemma recompute_follower c ps now id r' :
  followers (recompute c ps now).1 !! id = Some r' ->
  exists r, followers ps !! id = Some r /\ offset r' = offset r.
Proof. simpl. intros (r & Hr & ->)%refresh_lookup. by exists r. Qed.

Lemma recomputeLocked_follower m t p ps now t' p' id r' :
  followers (get_partition (recomputeLocked m t p ps now) t' p') !! id = Some r' ->
  exists r, followers (if decide ((t, p) = (t', p')) then ps else get_partition m t' p') !! id = Some r
    /\ offset r' = offset r.
Proof.
  case_decide as E.
  - injection E as <- <-. rewrite recomputeLocked_get. apply recompute_follower.
  - rewrite get_partition_other by done. eauto.
Qed.

Lemma ensurePartition_inv m t p m1 ps1 :
  ensurePartition m t p = (m1, ps1) ->
  ps1 = get_partition m t p /\ cfg m1 = cfg m
  /\ (forall t' p', get_partition m1 t' p' = get_partition m t' p').
Proof.
  intros E. pose proof (ensurePartition_cfg m t p). pose proof (ensurePartition_get m t p).
  rewrite E in *. simpl in *. split; [by injection E as _ <-|done].
Qed.

Lemma exec_follower m op t p id r' :
  followers (get_partition (exec m op) t p) !! id = Some r' ->
  (exists r, followers (get_partition m t p) !! id = Some r /\ offset r' = offset r)
  \/ (exists off seen now, op = OpAckReplica t p id off seen now /\ offset r' <= off).
Proof.
  destruct op as [t' p' off now|t' p' id' off seen now|t' p' now|t' p'|t' p' r now|t' p' off now|t' p' now];
    cbn [exec]; unfold OnLeaderAppend, AckReplica, HighWatermark, SetRole, BootstrapOffset, GetStatus, IsLeader;
    intros Hr;
    try (destruct (_ || _); [by eauto|]); try (destruct (_ && _); [by eauto|]);
    destruct (ensurePartition m t' p') as [m1 ps1] eqn:E;
    apply ensurePartition_inv in E as (-> & _ & Hm1);
    try (destruct (negb _); [rewrite Hm1 in Hr; by eauto|]).
  2: destruct (followers (get_partition m t' p') !! id') as [r|] eqn:Hr'; [|rewrite Hm1 in Hr; by eauto].
  all: try (rewrite Hm1 in Hr; by eauto).
  all: apply recomputeLocked_follower in Hr as (r0 & Hr & ->);
    case_decide as E; [injection E as -> ->|left; rewrite Hm1 in Hr; by eauto];
    cbn [followers] in Hr; try by eauto.
  - apply lookup_insert_Some in Hr as [[-> <-]|[_ Hr]]; [|by eauto]. cbn [offset].
    destruct (Z.ltb_spec (offset r) (if leaderOffset (get_partition m t p) <? off
      then leaderOffset (get_partition m t p) else off)); [right|by eauto].
    do 3 eexists. split; [done|]. destruct (Z.ltb_spec (leaderOffset (get_partition m t p)) off); lia.
  - destruct (String.eqb r "follower"); cbn [followers] in Hr; [|by eauto].
    rewrite lookup_fmap, fmap_Some in Hr. destruct Hr as (f & Hf & ->). by eauto.
Qed.

(** A follower's offset is at least [target] only when the follower
    acknowledged [target] or a later offset. *)
Lemma run_follower_acked c hook ops t p id r target :
  followers (get_partition (run (NewManager c hook) ops) t p) !! id = Some r ->
  0 <= target <= offset r ->
  exists off seen now, OpAckReplica t p id off seen now ∈ ops /\ target <= off.
Proof.
  revert r. induction ops as [|op ops IH] using rev_ind; intros r Hr Ht.
  - exfalso. simpl in Hr. unfold get_partition in Hr. simpl in Hr. rewrite lookup2_empty in Hr.
    simpl in Hr. rewrite (lookup_list_to_map_keys (fun _ => _)) in Hr.
    case_decide; simplify_eq/=; lia.
  - rewrite run_app in Hr. simpl in Hr. apply exec_follower in Hr as [(r0 & Hr & E)|(off & seen & now & -> & Hle)].
    + destruct (IH r0 Hr) as (off & seen & now & Hin & ?); [lia|].
      exists off, seen, now. split; [|done]. apply elem_of_app. by left.
    + exists off, seen, now. split; [apply elem_of_app; right; left|lia].
Qed.

(** *** The waiting loop *)

(** The operations the loop of [WaitForAckAll] adds to the execution. *)
Lemma wait_rounds_run m t p target deadline rounds :
  exists ops, (wait_rounds m t p target deadline rounds).1 = run m ops
    /\ (forall op, op ∈ ops ->
         op ∈ mjoin (others <$> rounds) \/ exists now, op = OpStatus t p now).
Proof.
  revert m. induction rounds as [|r rounds IH]; intros m.
  - exists []. split; [done|]. intros op Hop. by apply elem_of_nil in Hop.
  - cbn [wait_rounds]. destruct (GetStatus (run m (others r)) t p (now_at r)) as [m1 st] eqn:E.
    assert (Hm1 : m1 = run m (others r ++ [OpStatus t p (now_at r)])).
    { rewrite run_snoc. cbn [exec]. by rewrite E. }
    assert (Hhere : forall op, op ∈ others r ++ [OpStatus t p (now_at r)] ->
      op ∈ mjoin (others <$> r :: rounds) \/ exists now, op = OpStatus t p now).
    { intros op [Hop|Hop]%elem_of_app; [left; apply elem_of_app; by left|].
      apply list_elem_of_singleton in Hop. right. eauto. }
    destruct (_ && _); [by eauto|]. destruct (time_after _ _); [by eauto|].
    destruct (IH m1) as (ops & -> & Hops).
    exists ((others r ++ [OpStatus t p (now_at r)]) ++ ops).
    split; [by rewrite run_app, Hm1|].
    intros op [Hop|Hop]%elem_of_app; [by apply Hhere|].
    destruct (Hops op Hop) as [?|?]; [left; apply elem_of_app; by right|by right].
Qed.

Lemma GetStatus_result m t p now m1 st :
  manager_ok m -> GetStatus m t p now = (m1, st) ->
  manager_ok m1 /\ cfg m1 = cfg m
  /\ st = statusLocked (cfg m1) t p (get_partition m1 t p) now.
Proof.
  intros Hm E. pose proof (exec_ok m (OpStatus t p now) Hm I) as Hok.
  pose proof (exec_cfg m (OpStatus t p now)) as Hcfg. cbn [exec] in Hok, Hcfg. rewrite E in Hok, Hcfg.
  split; [done|]. split; [done|]. unfold GetStatus in E.
  destruct (ensurePartition m t p). by injection E as <- <-.
Qed.

(** The in-sync replicas a status reports, beyond the leader itself. *)
Lemma statusLocked_isr c t p ps now :
  exists ids, stInSyncReplicas (statusLocked c t p ps now) = 0 :: ids /\ NoDup ids
  /\ forall id, id ∈ ids -> exists r, followers ps !! id = Some r /\ inSync r = true
       /\ time_sub now (lastSeen r) <= ReplicaLagTimeout c.
Proof.
  eexists. split; [reflexivity|]. split.
  - eapply sublist_NoDup; [apply (NoDup_map_range_keys (followers ps))|].
    apply (fmap_sublist fst), sublist_filter.
  - intros id Hid. apply elem_of_maplist in Hid as ([id' r] & -> & [Hs Hin]%list_elem_of_filter).
    apply elem_of_map_range in Hin. simpl in *. exists r. tauto.
Qed.

Lemma wait_rounds_success m t p target deadline rounds m' :
  manager_ok m -> Forall (fun r => Forall mop_ok (others r)) rounds ->
  wait_rounds m t p target deadline rounds = (m', Some (Success tt)) ->
  cfg m' = cfg m /\ target <= leaderOffset (get_partition m' t p) /\
  exists ids, NoDup ids /\ MinInSyncReplicas (cfg m) <= 1 + Z.of_nat (length ids)
  /\ forall id, id ∈ ids ->
       exists r, followers (get_partition m' t p) !! id = Some r /\ target <= offset r.
Proof.
  intros Hm Hr. revert m Hm. induction Hr as [|r rounds Hr _ IH]; intros m Hm; [done|].
  cbn [wait_rounds]. assert (Hm0 : manager_ok (run m (others r))) by (by apply run_ok).
  destruct (GetStatus (run m (others r)) t p (now_at r)) as [m1 st] eqn:E.
  apply GetStatus_result in E as (Hm1 & Hcfg & ->); [|done]. rewrite run_cfg in Hcfg.
  destruct (_ && _) eqn:Htest.
  - intros [= <-]. apply andb_true_iff in Htest as [Hhw Hisr]. apply Z.leb_le in Hhw, Hisr.
    pose proof (get_partition_ok m1 t p Hm1) as Hps. pose proof (ps_hw _ _ Hps).
    simpl in Hhw. split; [done|]. split; [lia|].
    destruct (statusLocked_isr (cfg m1) t p (get_partition m1 t p) (now_at r)) as (ids & Hids & Hnd & Hin).
    rewrite Hids in Hisr. exists ids. split; [done|]. split; [simpl length in Hisr; rewrite Hcfg in Hisr; lia|].
    intros id (f & Hf & Hs & _)%Hin. exists f. split; [done|].
    pose proof (ps_hw_isr _ _ Hps _ _ Hf Hs). lia.
  - destruct (time_after _ _); [done|]. intros E. rewrite <- Hcfg. by apply IH.
Qed.

(** C1: safety of acks=all. Suppose that a manager ran any operations [ops],
    then a producer waited in [WaitForAckAll] for offset [target] while other
    goroutines ran further operations between its rounds, and the wait
    succeeded. Then the leader holds [target], and at least [MinInSyncReplicas]
    replicas, the leader included, confirmed it: there are that many distinct
    followers, less one, each of which sent an acknowledgement of [target] or a
    later offset for this very partition. *)
Theorem ack_all_means_replicated c hook ops t p target start rounds m' :
  ReplicationFactor c <= int_max -> Forall mop_ok ops ->
  Forall (fun r => Forall mop_ok (others r)) rounds -> 0 <= target ->
  WaitForAckAll (run (NewManager c hook) ops) t p target start rounds = (m', Some (Success tt)) ->
  target <= leaderOffset (get_partition m' t p) /\
  exists ids, NoDup ids
  /\ MinInSyncReplicas (cfg (NewManager c hook)) <= 1 + Z.of_nat (length ids)
  /\ forall id, id ∈ ids -> exists off seen now,
       OpAckReplica t p id off seen now ∈ ops ++ mjoin (others <$> rounds) /\ target <= off.
Proof.
  intros Hrf Hops Hrounds Ht Hw. unfold WaitForAckAll in Hw.
  set (m := run (NewManager c hook) ops) in *.
  assert (Hm : manager_ok m) by (by apply run_ok; [apply NewManager_ok|]).
  pose proof (wait_rounds_run m t p target (start + AckAllTimeout (cfg m)) rounds) as (more & Hmore & Hin).
  rewrite Hw in Hmore. simpl in Hmore.
  destruct (wait_rounds_success _ _ _ _ _ _ _ Hm Hrounds Hw) as (_ & Hlead & ids & Hnd & Hsize & Hids).
  split; [done|]. exists ids. split; [done|]. split; [unfold m in Hsize; by rewrite run_cfg in Hsize|].
  intros id (r & Hr & Hoff)%Hids. unfold m in Hmore. rewrite Hmore, <- run_app in Hr.
  apply (run_follower_acked _ _ _ _ _ _ _ target) in Hr as (off & seen & now & Hop & ?); [|lia].
  exists off, seen, now. split; [|done]. apply elem_of_app.
  apply elem_of_app in Hop as [Hop|Hop]; [by left|right].
  apply Hin in Hop as [?|(? & ?)]; [done|discriminate].
Qed.

(** C14: in every reachable state of the manager, for every partition: offsets
    lie between -1 and the leader's offset, the followers are exactly the
    replica ids 1 .. ReplicationFactor-1, and the high watermark is at most the
    leader's offset, at most the offset of each replica marked in sync, and
    behind the leader by at most [MaxReplicaLag]. *)
Theorem reachable_manager_ok c hook m :
  ReplicationFactor c <= int_max -> reachable c hook m -> manager_ok m.
Proof.
  intros Hrf Hm. induction Hm; [by apply NewManager_ok|by apply exec_ok].
Qed.

(** C35: when the configured lag is 0 (the default), the high watermark of a
    stored partition always equals the leader's last offset, and no operation
    moves it back. *)
Theorem zero_lag_hw_monotone c hook m op t p ps :
  ReplicationFactor c <= int_max -> MaxReplicaLag c <= 0 -> reachable c hook m -> mop_ok op ->
  lookup2 (partitions m) t p = Some ps ->
  highWatermark ps = leaderOffset ps
  /\ highWatermark ps <= highWatermark (get_partition (exec m op) t p).
Proof.
  intros Hrf Hlag Hm Hop Hps.
  assert (Hcfg : forall m', reachable c hook m' -> MaxReplicaLag (cfg m') = 0).
  { induction 1 as [|m' op' _ IH]; [|by rewrite exec_cfg]. simpl.
    destruct (Z.ltb_spec (MaxReplicaLag c) 0); lia. }
  assert (Hok : manager_ok m) by (clear - Hrf Hm; induction Hm; auto using NewManager_ok, exec_ok).
  assert (Hz : forall m', reachable c hook m' -> manager_ok m' ->
    highWatermark (get_partition m' t p) = leaderOffset (get_partition m' t p)).
  { intros m' Hr' Hm'. pose proof (get_partition_ok m' t p Hm') as Hp.
    pose proof (ps_hw _ _ Hp). pose proof (ps_hw_lag _ _ Hp). rewrite (Hcfg m' Hr') in *. lia. }
  assert (Hget : get_partition m t p = ps) by (unfold get_partition; by rewrite Hps).
  pose proof (exec_leader_mono m op t p Hok Hop) as Hmono.
  pose proof (Hz m Hm Hok).
  pose proof (Hz (exec m op) (reach_step _ _ _ _ Hm Hop) (exec_ok _ _ Hok Hop)).
  rewrite <- Hget. split; lia.
Qed.

Lemma wait_rounds_none m t p target deadline rounds m' :
  wait_rounds m t p target deadline rounds = (m', None) ->
  forall i r, rounds !! i = Some r -> checked r <= deadline.
Proof.
  revert m. induction rounds as [|r rounds IH]; intros m Hw i r' Hi; [done|].
  cbn [wait_rounds] in Hw. destruct (GetStatus _ _ _ _) as [m1 st].
  destruct (_ && _); [done|]. unfold time_after in Hw.
  destruct (Z.ltb_spec deadline (checked r)) as [|Hle]; [done|].
  destruct i as [|i]; simpl in Hi; [by injection Hi as <-|by eapply IH].
Qed.

(** C25: [WaitForAckAll] always returns. Each round sleeps 2 ms before the next
    one, so the i-th deadline test reads a clock at least 2i ms after the start;
    then, whatever other goroutines do between the rounds, the loop has returned
    (with success or the timeout error) before round
    AckAllTimeout / 2 ms + 2 ends. *)
Theorem WaitForAckAll_returns m t p target start rounds :
  (forall i r, rounds !! i = Some r -> start + Z.of_nat i * (2 * Millisecond) <= checked r) ->
  0 <= AckAllTimeout (cfg m) ->
  AckAllTimeout (cfg m) / (2 * Millisecond) + 1 < Z.of_nat (length rounds) ->
  exists m' res, WaitForAckAll m t p target start rounds = (m', Some res).
Proof.
  intros Hclock Hpos Hlen. unfold WaitForAckAll.
  set (T := AckAllTimeout (cfg m)) in *.
  destruct (wait_rounds m t p target (start + T) rounds) as [m' [res|]] eqn:Hw; [by eauto|].
  exfalso. set (i := Z.to_nat (T / (2 * Millisecond) + 1)).
  pose proof (Z.div_pos T (2 * Millisecond) Hpos ltac:(unfold Millisecond; lia)) as Hd.
  destruct (lookup_lt_is_Some_2 rounds i) as [r Hr]; [unfold i; lia|].
  pose proof (wait_rounds_none _ _ _ _ _ _ _ Hw i r Hr) as Hle.
  specialize (Hclock i r Hr).
  pose proof (Z.mul_succ_div_gt T (2 * Millisecond) ltac:(unfold Millisecond; lia)).
  unfold i in *. rewrite Z2Nat.id in Hclock by lia. lia.
Qed.

(** The effect of an acknowledgement, on every branch. *)
Lemma ack_replica_cases m t p id off seen now m' res :
  manager_ok m -> AckReplica m t p id off seen now = (m', res) ->
  match res with
  | Success _ =>
      1 <= id < ReplicationFactor (cfg m) /\ role (get_partition m t p) = "leader"
      /\ leaderOffset (get_partition m' t p) = leaderOffset (get_partition m t p)
      /\ (exists r r', followers (get_partition m t p) !! id = Some r
          /\ followers (get_partition m' t p) !! id = Some r'
          /\ offset r' = Z.max (offset r) (Z.min off (leaderOffset (get_partition m t p)))
          /\ lastSeen r' = seen)
      /\ (forall id', id' <> id ->
          offset <$> followers (get_partition m' t p) !! id'
          = offset <$> followers (get_partition m t p) !! id')
  | Failure e =>
      (forall t' p', get_partition m' t' p' = get_partition m t' p')
      /\ ((e = "invalid replica id" /\ ~ 1 <= id < ReplicationFactor (cfg m))
          \/ (e = "partition is not leader" /\ role (get_partition m t p) <> "leader"))
  end.
Proof.
  intros Hm. unfold AckReplica. destruct (_ || _) eqn:Hid.
  { intros [= <- <-]. split; [done|]. left. split; [done|]. lia. }
  destruct (ensurePartition m t p) as [m1 ps1] eqn:E.
  apply ensurePartition_inv in E as (-> & Hcfg & Hm1).
  pose proof (get_partition_ok m t p Hm) as Hok. pose proof (ps_core _ _ Hok) as Hc.
  destruct (String.eqb_spec (role (get_partition m t p)) "leader") as [Hrole|Hrole]; simpl.
  2: { intros [= <- <-]. split; [done|]. by right. }
  destruct (followers (get_partition m t p) !! id) as [r|] eqn:Hr.
  2: { exfalso. destruct (proj2 (core_dom _ _ Hc id)) as [r Hr']; [lia|congruence]. }
  intros [= <- <-]. rewrite recomputeLocked_get.
  split; [lia|]. split; [done|]. split; [done|]. split.
  - exists r. eexists. simpl. rewrite lookup_fmap, lookup_insert_eq. split; [done|].
    split; [reflexivity|]. simpl. split; [|done].
    repeat case_match; lia.
  - intros id' Hne. simpl. rewrite lookup_fmap, lookup_insert_ne by done.
    by destruct (followers _ !! id').
Qed.

(** what [AckReplica] does on every path. Only ids 1 .. RF-1 on a leader
    partition are accepted; an accepted acknowledgement raises that follower's
    offset to the acknowledged one, capped by the leader's offset and never
    lowered, stamps it, and leaves the leader's offset and every other
    follower's offset alone. Each rejection has its own message and leaves all
    partition states as they were; the branch for an unconfigured id is
    unreachable. *)
Theorem AckReplica_spec m t p id off seen now m' res :
  manager_ok m -> AckReplica m t p id off seen now = (m', res) ->
  match res with
  | Success _ =>
      1 <= id < ReplicationFactor (cfg m) /\ role (get_partition m t p) = "leader"
      /\ leaderOffset (get_partition m' t p) = leaderOffset (get_partition m t p)
      /\ (exists r r', followers (get_partition m t p) !! id = Some r
          /\ followers (get_partition m' t p) !! id = Some r'
          /\ offset r' = Z.max (offset r) (Z.min off (leaderOffset (get_partition m t p)))
          /\ lastSeen r' = seen)
      /\ (forall id', id' <> id ->
          offset <$> followers (get_partition m' t p) !! id'
          = offset <$> followers (get_partition m t p) !! id')
  | Failure e =>
      (forall t' p', get_partition m' t' p' = get_partition m t' p')
      /\ ((e = "invalid replica id" /\ ~ 1 <= id < ReplicationFactor (cfg m))
          \/ (e = "partition is not leader" /\ role (get_partition m t p) <> "leader"))
  end.
Proof. apply ack_replica_cases. Qed.

(** the reset in [SetRole] does not take effect. Switching a partition to
    follower stores a high watermark of -1 and clears the in-sync flags, but the
    recompute that ends the call overwrites both: the stored partition is, role
    apart, the one that switching to leader at the same instant stores, and its
    high watermark stays within [MaxReplicaLag] of the leader's offset. *)
Theorem SetRole_follower_reset_overwritten m t p now :
  manager_ok m ->
  let mf := (SetRole m t p "follower" now).1 in
  let ml := (SetRole m t p "leader" now).1 in
  get_partition mf t p
    = mkPartition "follower" (leaderOffset (get_partition ml t p))
        (highWatermark (get_partition ml t p)) (followers (get_partition ml t p))
  /\ leaderOffset (get_partition m t p) - MaxReplicaLag (cfg m)
     <= highWatermark (get_partition mf t p).
Proof.
  intros Hm mf ml. subst mf ml. split.
  - unfold SetRole. destruct (ensurePartition m t p) as [m1 ps1]. simpl.
    rewrite !recomputeLocked_get. unfold recompute. simpl. rewrite <- map_fmap_compose.
    done.
  - pose proof (exec_ok m (OpSetRole t p "follower" now) Hm I) as Hok. cbn [exec] in Hok.
    pose proof (ps_hw_lag _ _ (get_partition_ok _ t p Hok)) as Hlag.
    pose proof (exec_cfg m (OpSetRole t p "follower" now)) as Hcfg. cbn [exec] in Hcfg.
    pose proof (exec_leader_mono m (OpSetRole t p "follower" now) t p Hm I) as Hmono.
    cbn [exec] in Hmono. rewrite Hcfg in Hlag. lia.
Qed.

(** *** Regression of the high watermark *)
Lemma fresh_follower c id :
  1 <= id < ReplicationFactor c ->
  followers (fresh_partition c) !! id = Some (mkReplica (-1) zero_time false).
Proof.
  intros. simpl. rewrite (lookup_list_to_map_keys (fun _ => _)).
  apply decide_True. by apply elem_of_zrange.
Qed.

(** With no fresh follower the high watermark is the leader's offset. *)
Lemma recompute_no_fresh c ps now :
  -1 <= leaderOffset ps ->
  (forall id r, followers ps !! id = Some r -> lastSeen r = zero_time) ->
  highWatermark (recompute c ps now).1 = leaderOffset ps.
Proof.
  intros Hlo Hzero. unfold recompute. cbn [fst highWatermark].
  set (l := _ :: in_sync_offsets _).
  assert (Hmin : min_from (leaderOffset ps) l = leaderOffset ps).
  { destruct (min_from_attained (leaderOffset ps) l) as [->|Hin]; [done|].
    apply elem_of_cons in Hin as [->|Hin]; [done|].
    apply elem_of_in_sync_offsets in Hin as (id & r & Hr & Hs & _).
    apply refresh_lookup in Hr as (r0 & Hr0 & ->). apply Hzero in Hr0.
    unfold refresh in Hs. cbn [inSync] in Hs. by rewrite Hr0 in Hs. }
  rewrite Hmin. destruct (Z.ltb_spec (leaderOffset ps) (-1)); lia.
Qed.

Lemma get_partition_new c hook t p :
  get_partition (NewManager c hook) t p = fresh_partition (cfg (NewManager c hook)).
Proof. unfold get_partition. simpl partitions. by rewrite lookup2_empty. Qed.

(** A follower that acknowledges an offset within the allowed lag joins the ISR
    and so bounds the high watermark. *)
Lemma AckReplica_bounds_hw m t p id r off seen now :
  manager_ok m -> role (get_partition m t p) = "leader" -> 1 <= id < ReplicationFactor (cfg m) ->
  followers (get_partition m t p) !! id = Some r -> offset r <= off ->
  leaderOffset (get_partition m t p) - MaxReplicaLag (cfg m) <= off
    <= leaderOffset (get_partition m t p) ->
  seen <> zero_time -> time_sub now seen <= ReplicaLagTimeout (cfg m) ->
  highWatermark (get_partition (AckReplica m t p id off seen now).1 t p) <= off.
Proof.
  intros Hm Hrole Hid Hr Hroff Hoff Hseen Hfresh.
  pose proof (exec_ok m (OpAckReplica t p id off seen now) Hm I) as Hok. cbn [exec] in Hok.
  pose proof (ps_core _ _ (get_partition_ok m t p Hm)) as Hc.
  pose proof (core_leader _ _ Hc). pose proof (core_offset _ _ Hc _ _ Hr).
  unfold AckReplica in *. destruct (_ || _) eqn:Hbad; [lia|].
  destruct (ensurePartition m t p) as [m1 ps1] eqn:E.
  apply ensurePartition_inv in E as (-> & Hcfg & Hm1).
  rewrite Hrole, Hr in *. cbn [negb String.eqb Ascii.eqb Bool.eqb fst] in *.
  destruct (Z.ltb_spec (leaderOffset (get_partition m t p)) off) as [|_]; [lia|].
  set (roff := if offset r <? off then off else offset r) in *.
  assert (roff = off) as -> by (unfold roff; destruct (Z.ltb_spec (offset r) off); lia).
  pose proof (get_partition_ok _ t p Hok) as Hps. rewrite recomputeLocked_get in *.
  refine (ps_hw_isr _ _ Hps id (refresh (cfg m1) (leaderOffset (get_partition m t p)) now
    (mkReplica off seen (inSync r))) _ _).
  - simpl. by rewrite lookup_fmap, lookup_insert_eq.
  - unfold refresh. cbn [inSync lastSeen offset]. rewrite Hcfg, int_sub_id by ints.
    unfold IsZero. destruct (Z.eqb_spec seen zero_time); [done|]. simpl. lia.
Qed.

(** C36: the high watermark can move back. With a lag allowance of at least 1 the
    first append is visible up to its offset at once (the leader is the whole
    ISR); when a follower then acknowledges the offset before it, it joins the
    ISR and the high watermark drops below what consumers were allowed to read. *)
Theorem hw_can_regress c hook t p off seen now :
  ReplicationFactor c <= int_max -> 1 <= MaxReplicaLag c -> 2 <= ReplicationFactor c ->
  1 <= off < int_max ->
  seen <> zero_time -> time_sub now seen <= ReplicaLagTimeout c -> 0 < ReplicaLagTimeout c ->
  let m1 := OnLeaderAppend (NewManager c hook) t p off now in
  let m2 := (AckReplica m1 t p 1 (off - 1) seen now).1 in
  highWatermark (get_partition m1 t p) = off
  /\ highWatermark (get_partition m2 t p) < off.
Proof.
  intros Hint Hlag Hrf Hoff Hseen Hfresh Hto m1 m2.
  assert (Hok0 : manager_ok (NewManager c hook)) by (by apply NewManager_ok).
  assert (Hok1 : manager_ok m1) by (apply (exec_ok _ (OpLeaderAppend t p off now)); simpl; [done|lia]).
  assert (Hcfg1 : cfg m1 = cfg (NewManager c hook)) by apply (exec_cfg _ (OpLeaderAppend t p off now)).
  set (c0 := cfg (NewManager c hook)) in *.
  assert (Hc0 : ReplicationFactor c0 = ReplicationFactor c /\ MaxReplicaLag c0 = MaxReplicaLag c
            /\ ReplicaLagTimeout c0 = ReplicaLagTimeout c).
  { unfold c0. simpl. repeat split; repeat case_match; lia. }
  destruct Hc0 as (Hrf0 & Hlag0 & Hto0).
  assert (Hget1 : get_partition m1 t p
    = (recompute c0 (mkPartition "leader" off (-1) (followers (fresh_partition c0))) now).1).
  { unfold m1, OnLeaderAppend. destruct (ensurePartition _ t p) as [m0 ps0] eqn:E.
    apply ensurePartition_inv in E as (-> & Hc & _). rewrite get_partition_new. simpl negb.
    cbv iota. rewrite recomputeLocked_get, Hc. simpl leaderOffset.
    destruct (Z.ltb_spec (-1) off); [done|lia]. }
  split.
  - rewrite Hget1. apply recompute_no_fresh; [simpl; lia|].
    intros id r. simpl. rewrite (lookup_list_to_map_keys (fun _ => _)). by case_decide; intros; simplify_eq.
  - enough (highWatermark (get_partition m2 t p) <= off - 1) by lia.
    pose proof (fresh_follower c0 1 ltac:(lia)) as Hf.
    apply (AckReplica_bounds_hw m1 t p 1 (refresh c0 off now (mkReplica (-1) zero_time false)));
      rewrite ?Hcfg1, ?Hget1; try done; try lia;
      try (cbn [recompute fst leaderOffset refresh offset]; lia).
    unfold recompute. cbn [fst followers leaderOffset]. by rewrite lookup_fmap, Hf.
Qed.
End Proofs.

(** *** Iteration order *)
Lemma recompute_order (O1 O2 : MapOrder) c ps now :
  @recompute O1 c ps now = @recompute O2 c ps now.
Proof.
  unfold recompute. set (fs := refresh _ _ _ <$> _).
  assert (HP : @in_sync_offsets O1 fs ≡ₚ @in_sync_offsets O2 fs).
  { unfold in_sync_offsets. apply map_perm.
    by rewrite (@map_range_perm O1), (@map_range_perm O2). }
  f_equal; [|simpl; by rewrite HP]. f_equal.
  by rewrite (min_from_Proper _ (_ :: _) (leaderOffset ps :: @in_sync_offsets O2 fs)) by (by rewrite HP).
Qed.

(** C37: the manager is deterministic. The followers of a partition are visited
    in Go's unspecified map order, yet the state after any sequence of
    operations, alert calls included, does not depend on that order. *)
Theorem run_order_irrelevant (O1 O2 : MapOrder) m ops :
  @run O1 m ops = @run O2 m ops.
Proof.
  assert (HR : forall m t p ps now,
    @recomputeLocked O1 m t p ps now = @recomputeLocked O2 m t p ps now).
  { intros. unfold recomputeLocked. by rewrite (recompute_order O1 O2). }
  assert (HE : forall m op, @exec O1 m op = @exec O2 m op).
  { intros m0 op. destruct op; cbn [exec];
      unfold OnLeaderAppend, AckReplica, HighWatermark, SetRole, BootstrapOffset, GetStatus, IsLeader;
      repeat case_match; simplify_eq; by rewrite ?HR. }
  revert m. induction ops as [|op ops IH]; intros m; [done|]. simpl. by rewrite HE, IH.
Qed.

(** ** Witnesses: a three-replica partition of topic "orders" *)
Definition demo_cfg : Config := mkConfig 3 2 0 (5 * Second) (250 * Millisecond).
Definition demo_now : Z := unix_epoch + 1000 * Second.
Definition demo_ops : list mop :=
  [OpLeaderAppend "orders" 0 0 demo_now; OpLeaderAppend "orders" 0 1 demo_now].
Definition demo_rounds : list round :=
  [mkRound [] demo_now demo_now;
   mkRound [OpAckReplica "orders" 0 1 1 (demo_now + Millisecond) (demo_now + Millisecond)]
     (demo_now + 2 * Millisecond) (demo_now + 2 * Millisecond)].

Lemma demo_ops_ok : Forall mop_ok demo_ops.
Proof. repeat constructor. Qed.

Lemma ack_all_means_replicated_witness :
  exists ids, NoDup ids /\ 2 <= 1 + Z.of_nat (length ids)
  /\ forall id, id ∈ ids -> exists off seen now,
       OpAckReplica "orders" 0 id off seen now ∈ demo_ops ++ mjoin (others <$> demo_rounds)
       /\ 1 <= off.
Proof.
  refine (proj2 (@ack_all_means_replicated canonical_order demo_cfg true demo_ops "orders" 0 1
    demo_now demo_rounds
    (@WaitForAckAll canonical_order (@run canonical_order (NewManager demo_cfg true) demo_ops)
       "orders" 0 1 demo_now demo_rounds).1 _ demo_ops_ok _ _ _)).
  - vm_compute. discriminate.
  - repeat constructor.
  - lia.
  - vm_compute. reflexivity.
Defined.

Lemma reachable_manager_ok_witness :
  manager_ok (@exec canonical_order (NewManager demo_cfg true) (OpLeaderAppend "orders" 0 0 demo_now)).
Proof.
  apply (@reachable_manager_ok canonical_order demo_cfg true).
  - vm_compute. discriminate.
  - apply reach_step; [apply reach_new|vm_compute; reflexivity].
Defined.

(** With both followers silent, a second append moves the watermark from 0 to 1. *)
Lemma zero_lag_hw_monotone_witness :
  let m := @exec canonical_order (NewManager demo_cfg true) (OpLeaderAppend "orders" 0 0 demo_now) in
  let m' := @exec canonical_order m (OpLeaderAppend "orders" 0 1 demo_now) in
  highWatermark (get_partition m "orders" 0) = leaderOffset (get_partition m "orders" 0)
  /\ highWatermark (get_partition m "orders" 0) <= highWatermark (get_partition m' "orders" 0)
  /\ highWatermark (get_partition m "orders" 0) = 0 /\ highWatermark (get_partition m' "orders" 0) = 1.
Proof.
  intros m m'.
  destruct (@zero_lag_hw_monotone canonical_order demo_cfg true m
    (OpLeaderAppend "orders" 0 1 demo_now) "orders" 0 (get_partition m "orders" 0)) as [Heq Hle].
  - vm_compute. discriminate.
  - vm_compute. discriminate.
  - apply reach_step; [apply reach_new|vm_compute; reflexivity].
  - vm_compute. reflexivity.
  - vm_compute. reflexivity.
  - split; [exact Heq|]. split; [exact Hle|]. split; vm_compute; reflexivity.
Defined.

Lemma WaitForAckAll_returns_witness :
  exists m' res, @WaitForAckAll canonical_order
    (NewManager (mkConfig 3 2 0 (5 * Second) (3 * Millisecond)) false) "orders" 0 0 demo_now
    [mkRound [] demo_now demo_now;
     mkRound [] (demo_now + 2 * Millisecond) (demo_now + 2 * Millisecond);
     mkRound [] (demo_now + 4 * Millisecond) (demo_now + 4 * Millisecond)]
  = (m', Some res).
Proof.
  apply (@WaitForAckAll_returns canonical_order).
  - intros [|[|[|i]]] r Hr; simplify_eq/=; unfold Millisecond; lia.
  - vm_compute. discriminate.
  - vm_compute. reflexivity.
Defined.

Lemma AckReplica_spec_witness :
  1 <= 1 < 3 /\ role (get_partition (NewManager demo_cfg false) "orders" 0) = "leader".
Proof.
  pose proof (@AckReplica_spec canonical_order (NewManager demo_cfg false) "orders" 0 1 4
    demo_now demo_now _ _ (NewManager_ok demo_cfg false ltac:(vm_compute; discriminate)) eq_refl) as Hs.
  split; [exact (proj1 Hs)|exact (proj1 (proj2 Hs))].
Defined.

Lemma SetRole_follower_reset_overwritten_witness :
  0 <= highWatermark (get_partition (@SetRole canonical_order
    (@exec canonical_order (NewManager demo_cfg true) (OpLeaderAppend "orders" 0 0 demo_now))
    "orders" 0 "follower" demo_now).1 "orders" 0).
Proof.
  refine (Z.le_trans _ _ _ _ (proj2 (@SetRole_follower_reset_overwritten canonical_order
    _ "orders" 0 demo_now _))).
  - vm_compute. discriminate.
  - apply (@exec_ok canonical_order); [|vm_compute; reflexivity].
    apply NewManager_ok. vm_compute. discriminate.
Defined.

Lemma hw_can_regress_witness :
  let c := mkConfig 2 1 1 (5 * Second) (250 * Millisecond) in
  let m1 := @OnLeaderAppend canonical_order (NewManager c false) "orders" 0 1 demo_now in
  highWatermark (get_partition m1 "orders" 0) = 1
  /\ highWatermark (get_partition (@AckReplica canonical_order m1 "orders" 0 1 (1 - 1)
       demo_now demo_now).1 "orders" 0) < 1.
Proof.
  apply (@hw_can_regress canonical_order); try (vm_compute; discriminate).
  - split; vm_compute; [discriminate|reflexivity].
  - vm_compute. reflexivity.
Defined.
End Replication.
