(* ===== verification/ControlPlane.v ===== *)
(** * Cluster metadata and its store: internal/controlplane
      (metadata.go, store.go, raft_store.go)

    The metadata state machine: topics with their partitions, brokers with
    their liveness, and the commands that change them. [MetadataStore] is the
    Go interface of the same name as a pair of classes, its operations and its
    laws; [RaftMetadataStore] is the one implementation and discharges the
    laws. The controller's theorems are proved against the laws alone.

    The store hands out deep copies ([clone], [cloneTopic]), so no caller
    shares a map with it and values model it faithfully. *)
From S2P Require Import Prelude GoStrings.

(** ** Data *)

(** [PartitionMetadata]. *)
Record PartitionMetadata := mkPartitionMetadata {
  pmID : Z;
  LeaderID : Z;
  Replicas : list Z;
  ISR : list Z
}.

(** [TopicMetadata]. *)
Record TopicMetadata := mkTopicMetadata {
  tmName : string;
  Partitions : gmap Z PartitionMetadata;
  Configs : gmap string string
}.

(** [BrokerMetadata]. *)
Record BrokerMetadata := mkBrokerMetadata {
  bmID : Z;
  Host : string;
  Port : Z;
  Epoch : Z;
  LastHeartbeat : Z;
  Fenced : bool
}.

(** [MetadataSnapshot]. *)
Record MetadataSnapshot := mkSnapshot {
  Topics : gmap string TopicMetadata;
  Brokers : gmap Z BrokerMetadata
}.

(** The copy loops shared by [clone] and [cloneTopic]: fresh maps and slices
    with the same contents. *)
Definition clone_partition (p : PartitionMetadata) : PartitionMetadata :=
  mkPartitionMetadata (pmID p) (LeaderID p) ([] ++ Replicas p) ([] ++ ISR p).

(** [cloneTopic]. *)
Definition cloneTopic (topic : TopicMetadata) : TopicMetadata :=
  mkTopicMetadata (tmName topic) (clone_partition <$> Partitions topic) (id <$> Configs topic).

(** [MetadataSnapshot.clone]. *)
Definition clone (s : MetadataSnapshot) : MetadataSnapshot :=
  mkSnapshot (cloneTopic <$> Topics s) (id <$> Brokers s).

(** [ApplyResult]. *)
Record ApplyResult := mkApplyResult { resTerm : Z; resIndex : Z }.

(** [CommandType]: a string with five known values. *)
Definition CommandUpsertTopic : string := "UPSERT_TOPIC".
Definition CommandRegisterBroker : string := "REGISTER_BROKER".
Definition CommandBrokerHeartbeat : string := "BROKER_HEARTBEAT".
Definition CommandSetPartitionLeader : string := "SET_PARTITION_LEADER".
Definition CommandSetBrokerFence : string := "SET_BROKER_FENCE".

(** [PartitionLeaderUpdate] and [BrokerFenceUpdate]. *)
Record PartitionLeaderUpdate := mkLeaderUpdate {
  luTopic : string;
  luPartition : Z;
  luLeaderID : Z;
  luISR : list Z
}.

Record BrokerFenceUpdate := mkFenceUpdate { fuBrokerID : Z; fuFenced : bool }.

(** [Command]: a type and five optional payloads. *)
Record Command := mkCommand {
  cmdType : string;
  cmdTopic : option TopicMetadata;
  cmdBroker : option BrokerMetadata;
  cmdHeartbeat : option Z;
  cmdLeader : option PartitionLeaderUpdate;
  cmdFence : option BrokerFenceUpdate
}.

(** The five ways the controller builds a command. *)
Definition upsert_topic (t : TopicMetadata) : Command :=
  mkCommand CommandUpsertTopic (Some t) None None None None.
Definition register_broker (b : BrokerMetadata) : Command :=
  mkCommand CommandRegisterBroker None (Some b) None None None.
Definition broker_heartbeat (id : Z) : Command :=
  mkCommand CommandBrokerHeartbeat None None (Some id) None None.
Definition set_partition_leader (u : PartitionLeaderUpdate) : Command :=
  mkCommand CommandSetPartitionLeader None None None (Some u) None.
Definition set_broker_fence (u : BrokerFenceUpdate) : Command :=
  mkCommand CommandSetBrokerFence None None None None (Some u).

(** [validateCommand]. *)
Definition validateCommand (cmd : Command) : result unit :=
  if String.eqb (cmdType cmd) CommandUpsertTopic then
    match cmdTopic cmd with
    | Some t => if String.eqb (tmName t) "" then Failure "invalid upsert topic command" else Success tt
    | None => Failure "invalid upsert topic command"
    end
  else if String.eqb (cmdType cmd) CommandRegisterBroker then
    match cmdBroker cmd with
    | Some b => if bmID b <? 0 then Failure "invalid register broker command" else Success tt
    | None => Failure "invalid register broker command"
    end
  else if String.eqb (cmdType cmd) CommandBrokerHeartbeat then
    match cmdHeartbeat cmd with
    | Some id => if id <? 0 then Failure "invalid broker heartbeat command" else Success tt
    | None => Failure "invalid broker heartbeat command"
    end
  else if String.eqb (cmdType cmd) CommandSetPartitionLeader then
    match cmdLeader cmd with
    | Some u => if String.eqb (luTopic u) "" || (luPartition u <? 0)
                then Failure "invalid set partition leader command" else Success tt
    | None => Failure "invalid set partition leader command"
    end
  else if String.eqb (cmdType cmd) CommandSetBrokerFence then
    match cmdFence cmd with
    | Some u => if fuBrokerID u <? 0 then Failure "invalid set broker fence command" else Success tt
    | None => Failure "invalid set broker fence command"
    end
  else Failure ("unknown command type: " +:+ cmdType cmd).

(** ** The interface [MetadataStore] *)
Class MetadataStore (St : Type) := {
  Apply : St -> Command -> Z -> St * result ApplyResult;
  Snapshot : St -> MetadataSnapshot
}.

(** Field updates of the mutation cases. *)
Definition with_topic (s : MetadataSnapshot) (name : string) (t : TopicMetadata) : MetadataSnapshot :=
  mkSnapshot (<[name := t]> (Topics s)) (Brokers s).
Definition with_broker (s : MetadataSnapshot) (id : Z) (b : BrokerMetadata) : MetadataSnapshot :=
  mkSnapshot (Topics s) (<[id := b]> (Brokers s)).
Definition with_partition (t : TopicMetadata) (pid : Z) (p : PartitionMetadata) : TopicMetadata :=
  mkTopicMetadata (tmName t) (<[pid := p]> (Partitions t)) (Configs t).
Definition with_heartbeat (b : BrokerMetadata) (now : Z) : BrokerMetadata :=
  mkBrokerMetadata (bmID b) (Host b) (Port b) (Epoch b) now (Fenced b).
Definition with_fenced (b : BrokerMetadata) (f : bool) : BrokerMetadata :=
  mkBrokerMetadata (bmID b) (Host b) (Port b) (Epoch b) (LastHeartbeat b) f.
Definition with_leader (p : PartitionMetadata) (leader : Z) (isr : list Z) : PartitionMetadata :=
  mkPartitionMetadata (pmID p) leader (Replicas p)
    (match isr with [] => ISR p | _ => isr end).

(** Well-formed metadata: entries are filed under their own names and ids. *)
Record meta_ok (s : MetadataSnapshot) : Prop := {
  meta_topic : forall n t, Topics s !! n = Some t -> tmName t = n /\ n <> "";
  meta_pid : forall n t pid p, Topics s !! n = Some t -> Partitions t !! pid = Some p -> 0 <= pid;
  meta_broker : forall id b, Brokers s !! id = Some b -> bmID b = id /\ 0 <= id
}.

(** Commands that keep metadata well formed: a topic's partition ids are not negative. *)
Definition cmd_ok (cmd : Command) : Prop :=
  forall t pid p, cmdTopic cmd = Some t -> Partitions t !! pid = Some p -> 0 <= pid.

(** What a store promises: a rejected command changes nothing the snapshot
    shows, and each command of the controller has exactly its effect. *)
Class MetadataStoreLaws (St : Type) `{MetadataStore St} := {
  store_inv : St -> Prop;
  store_meta : forall st, store_inv st -> meta_ok (Snapshot st);
  apply_inv : forall st cmd now, store_inv st -> cmd_ok cmd -> store_inv (Apply st cmd now).1;
  apply_failure : forall st cmd now e,
    (Apply st cmd now).2 = Failure e -> Snapshot (Apply st cmd now).1 = Snapshot st;
  apply_upsert : forall st t now, tmName t <> "" ->
    is_success (Apply st (upsert_topic t) now).2 = true
    /\ Snapshot (Apply st (upsert_topic t) now).1 = with_topic (Snapshot st) (tmName t) t;
  apply_register : forall st b now, 0 <= bmID b -> LastHeartbeat b <> zero_time ->
    is_success (Apply st (register_broker b) now).2 = true
    /\ Snapshot (Apply st (register_broker b) now).1 = with_broker (Snapshot st) (bmID b) b;
  apply_heartbeat : forall st id b now, store_inv st -> Brokers (Snapshot st) !! id = Some b ->
    is_success (Apply st (broker_heartbeat id) now).2 = true
    /\ Snapshot (Apply st (broker_heartbeat id) now).1
       = with_broker (Snapshot st) id (with_fenced (with_heartbeat b now) false);
  apply_leader : forall st topic t pid p leader isr now, store_inv st ->
    Topics (Snapshot st) !! topic = Some t -> Partitions t !! pid = Some p ->
    is_success (Apply st (set_partition_leader (mkLeaderUpdate topic pid leader isr)) now).2 = true
    /\ Snapshot (Apply st (set_partition_leader (mkLeaderUpdate topic pid leader isr)) now).1
       = with_topic (Snapshot st) topic (with_partition t pid (with_leader p leader isr));
  apply_fence : forall st id b f now, store_inv st -> Brokers (Snapshot st) !! id = Some b ->
    is_success (Apply st (set_broker_fence (mkFenceUpdate id f)) now).2 = true
    /\ Snapshot (Apply st (set_broker_fence (mkFenceUpdate id f)) now).1
       = with_broker (Snapshot st) id (with_fenced b f)
}.

(** ** [RaftMetadataStore] *)
Record RaftMetadataStore := mkRaft {
  term : Z;
  index : Z;
  metadata : MetadataSnapshot
}.

(** [NewRaftMetadataStore]. *)
Definition NewRaftMetadataStore : RaftMetadataStore := mkRaft 1 0 (mkSnapshot ∅ ∅).

(** The switch of [Apply], after validation: the new metadata or an error.
    [now] is the clock reading of the cases that make one. *)
Definition apply_switch (s : MetadataSnapshot) (cmd : Command) (now : Z) : result MetadataSnapshot :=
  if String.eqb (cmdType cmd) CommandUpsertTopic then
    match cmdTopic cmd with
    | Some t => Success (with_topic s (tmName t) (cloneTopic t))
    | None => Success s
    end
  else if String.eqb (cmdType cmd) CommandRegisterBroker then
    match cmdBroker cmd with
    | Some b =>
        let b := if IsZero (LastHeartbeat b) then with_heartbeat b now else b in
        Success (with_broker s (bmID b) b)
    | None => Success s
    end
  else if String.eqb (cmdType cmd) CommandBrokerHeartbeat then
    match cmdHeartbeat cmd with
    | Some id =>
        match Brokers s !! id with
        | None => Failure ("broker not found: " +:+ Itoa id)
        | Some b => Success (with_broker s (bmID b) (with_fenced (with_heartbeat b now) false))
        end
    | None => Success s
    end
  else if String.eqb (cmdType cmd) CommandSetPartitionLeader then
    match cmdLeader cmd with
    | Some u =>
        match Topics s !! luTopic u with
        | None => Failure ("topic not found: " +:+ luTopic u)
        | Some topic =>
            match Partitions topic !! luPartition u with
            | None => Failure ("partition not found: topic=" +:+ luTopic u
                               +:+ " partition=" +:+ Itoa (luPartition u))
            | Some p =>
                let p := with_leader p (luLeaderID u) (luISR u) in
                Success (with_topic s (luTopic u) (with_partition topic (luPartition u) p))
            end
        end
    | None => Success s
    end
  else if String.eqb (cmdType cmd) CommandSetBrokerFence then
    match cmdFence cmd with
    | Some u =>
        match Brokers s !! fuBrokerID u with
        | None => Failure ("broker not found: " +:+ Itoa (fuBrokerID u))
        | Some b => Success (with_broker s (bmID b) (with_fenced b (fuFenced u)))
        end
    | None => Success s
    end
  else Success s.

(** [RaftMetadataStore.Apply]. A nil payload is rejected by the validation, so
    the [None] cases of [apply_switch] are never reached; the index is a [uint64]. *)
Definition raft_Apply (s : RaftMetadataStore) (cmd : Command) (now : Z)
    : RaftMetadataStore * result ApplyResult :=
  match validateCommand cmd with
  | Failure e => (s, Failure e)
  | Success _ =>
      match apply_switch (metadata s) cmd now with
      | Failure e => (s, Failure e)
      | Success md =>
          let idx := (index s + 1) mod 2 ^ 64 in
          (mkRaft (term s) idx md, Success (mkApplyResult (term s) idx))
      end
  end.

(** [RaftMetadataStore.Snapshot]. *)
Definition raft_Snapshot (s : RaftMetadataStore) : MetadataSnapshot := clone (metadata s).

#[export] Instance raft_store : MetadataStore RaftMetadataStore :=
  { Apply := raft_Apply; Snapshot := raft_Snapshot }.

(** ** Proofs *)

(** Copying preserves values. *)
Lemma clone_partition_id p : clone_partition p = p.
Proof. by destruct p. Qed.

Lemma cloneTopic_id t : cloneTopic t = t.
Proof.
  destruct t as [n ps cs]. unfold cloneTopic. simpl. f_equal.
  - rewrite <- (map_fmap_id ps) at 2. apply map_fmap_ext. intros. apply clone_partition_id.
  - apply map_fmap_id.
Qed.

Lemma clone_id s : clone s = s.
Proof.
  destruct s as [ts bs]. unfold clone. simpl. f_equal.
  - rewrite <- (map_fmap_id ts) at 2. apply map_fmap_ext. intros. apply cloneTopic_id.
  - apply map_fmap_id.
Qed.

Lemma raft_Snapshot_metadata s : raft_Snapshot s = metadata s.
Proof. apply clone_id. Qed.

(** The two-way split of [raft_Apply]. *)
Lemma raft_Apply_cases s cmd now :
  (exists e, raft_Apply s cmd now = (s, Failure e))
  \/ (exists md, validateCommand cmd = Success tt /\ apply_switch (metadata s) cmd now = Success md
      /\ raft_Apply s cmd now
         = (mkRaft (term s) ((index s + 1) mod 2 ^ 64) md,
            Success (mkApplyResult (term s) ((index s + 1) mod 2 ^ 64)))).
Proof.
  unfold raft_Apply. destruct (validateCommand cmd) as [[]|e]; [|by eauto].
  destruct (apply_switch _ _ _) as [md|e]; [right|]; eauto.
Qed.

Lemma meta_with_topic s n t :
  meta_ok s -> tmName t = n -> n <> "" ->
  (forall pid p, Partitions t !! pid = Some p -> 0 <= pid) -> meta_ok (with_topic s n t).
Proof.
  intros [Ht Hp Hb] Hn Hne Hpid. constructor; simpl; [| |done].
  - intros n' t'. rewrite lookup_insert_Some. intros [[<- <-]|[_ ?]]; eauto.
  - intros n' t' pid p. rewrite lookup_insert_Some. intros [[<- <-]|[_ ?]]; eauto.
Qed.

Lemma meta_with_broker s b : meta_ok s -> 0 <= bmID b -> meta_ok (with_broker s (bmID b) b).
Proof.
  intros [Ht Hp Hb] Hid. constructor; simpl; [done|done|].
  intros id b'. rewrite lookup_insert_Some. intros [[<- <-]|[_ ?]]; eauto.
Qed.

Lemma apply_switch_ok s cmd now md :
  meta_ok s -> cmd_ok cmd -> validateCommand cmd = Success tt ->
  apply_switch s cmd now = Success md -> meta_ok md.
Proof.
  intros Hs Hcmd Hv Ha. unfold validateCommand in Hv. unfold apply_switch in Ha.
  destruct (String.eqb _ CommandUpsertTopic).
  { destruct (cmdTopic cmd) as [t|] eqn:Et; [|done].
    destruct (String.eqb_spec (tmName t) ""); [done|]. injection Ha as <-. rewrite cloneTopic_id.
    apply meta_with_topic; auto. intros; by eapply Hcmd. }
  destruct (String.eqb _ CommandRegisterBroker).
  { destruct (cmdBroker cmd) as [b|]; [|done]. destruct (Z.ltb_spec (bmID b) 0); [done|].
    injection Ha as <-. destruct (IsZero _); by apply meta_with_broker. }
  destruct (String.eqb _ CommandBrokerHeartbeat).
  { destruct (cmdHeartbeat cmd) as [id|]; [|done]. destruct (Brokers s !! id) as [b|] eqn:Eb; [|done].
    injection Ha as <-. destruct (meta_broker _ Hs _ _ Eb) as [<- ?].
    by apply (meta_with_broker s (with_fenced (with_heartbeat b now) false)). }
  destruct (String.eqb _ CommandSetPartitionLeader).
  { destruct (cmdLeader cmd) as [u|]; [|done].
    destruct (Topics s !! luTopic u) as [t|] eqn:Et; [|done].
    destruct (Partitions t !! luPartition u) as [p|] eqn:Ep; [|done]. injection Ha as <-.
    destruct (meta_topic _ Hs _ _ Et). apply meta_with_topic; auto.
    intros pid p'. simpl. rewrite lookup_insert_Some. intros [[<- _]|[_ ?]];
      by eapply (meta_pid _ Hs). }
  destruct (String.eqb _ CommandSetBrokerFence).
  { destruct (cmdFence cmd) as [u|]; [|done]. destruct (Brokers s !! _) as [b|] eqn:Eb; [|done].
    injection Ha as <-. destruct (meta_broker _ Hs _ _ Eb) as [? ?].
    apply (meta_with_broker s (with_fenced b (fuFenced u))); [done|]. simpl. lia. }
  by injection Ha as <-.
Qed.

Lemma raft_Apply_success s cmd now md :
  validateCommand cmd = Success tt -> apply_switch (metadata s) cmd now = Success md ->
  is_success (raft_Apply s cmd now).2 = true /\ metadata (raft_Apply s cmd now).1 = md.
Proof. intros Hv Ha. unfold raft_Apply. by rewrite Hv, Ha. Qed.

(** The implementation keeps the promises of the interface. *)
#[export] Instance raft_store_laws : MetadataStoreLaws RaftMetadataStore.
Proof.
  refine {| store_inv := fun s => meta_ok (metadata s) |}; cbn [Apply Snapshot raft_store];
    [ intros st Hs | intros st cmd now Hs Hcmd | intros st cmd now e He
    | intros st t now Hn | intros st b now Hid Hhb | intros st id b now Hs Hb
    | intros st topic t pid p leader isr now Hs Ht Hp | intros st id b f now Hs Hb ];
    rewrite ?raft_Snapshot_metadata in *.
  - done.
  - destruct (raft_Apply_cases st cmd now) as [(e & ->)|(md & Hv & Ha & ->)]; [done|]. simpl.
    by eapply apply_switch_ok.
  - destruct (raft_Apply_cases st cmd now) as [(e' & E)|(md & Hv & Ha & E)]; by rewrite E in *.
  - apply raft_Apply_success; unfold validateCommand, apply_switch; simpl.
    + by destruct (String.eqb_spec (tmName t) "").
    + by rewrite cloneTopic_id.
  - apply raft_Apply_success; unfold validateCommand, apply_switch; simpl.
    + by destruct (Z.ltb_spec (bmID b) 0); [lia|].
    + unfold IsZero. by destruct (Z.eqb_spec (LastHeartbeat b) zero_time).
  - destruct (meta_broker _ Hs _ _ Hb) as [Eid ?].
    apply raft_Apply_success; unfold validateCommand, apply_switch; simpl.
    + by destruct (Z.ltb_spec id 0); [lia|].
    + by rewrite Hb, Eid.
  - destruct (meta_topic _ Hs _ _ Ht) as [_ ?]. pose proof (meta_pid _ Hs _ _ _ _ Ht Hp).
    apply raft_Apply_success; unfold validateCommand, apply_switch; simpl.
    + destruct (String.eqb_spec topic ""); [done|]. by destruct (Z.ltb_spec pid 0); [lia|].
    + by rewrite Ht, Hp.
  - destruct (meta_broker _ Hs _ _ Hb) as [Eid ?].
    apply raft_Apply_success; unfold validateCommand, apply_switch; simpl.
    + by destruct (Z.ltb_spec id 0); [lia|].
    + by rewrite Hb, Eid.
Defined.

(** ** The command log *)

(** A log entry: a command and the clock at its application. *)
Definition apply_all (s : RaftMetadataStore) (log : list (Command * Z)) : RaftMetadataStore :=
  fold_left (fun s e => (raft_Apply s e.1 e.2).1) log s.

(** The entries the store accepted, in order. *)
Fixpoint accepted (s : RaftMetadataStore) (log : list (Command * Z)) : list (Command * Z) :=
  match log with
  | [] => []
  | e :: rest =>
      let '(s', r) := raft_Apply s e.1 e.2 in
      if is_success r then e :: accepted s' rest else accepted s' rest
  end.

(** C29: the store is a replicated-state-machine scaffold. After any commands
    its term is unchanged and its index has advanced by exactly the number of
    accepted commands; a rejected command leaves no trace, so replaying the
    accepted commands alone rebuilds the same store; and the accepted log
    replays in full, with no entry rejected. *)
Theorem store_replays_accepted s log :
  0 <= index s ->
  index s + Z.of_nat (length log) < 2 ^ 64 ->
  term (apply_all s log) = term s
  /\ index (apply_all s log) = index s + Z.of_nat (length (accepted s log))
  /\ apply_all s (accepted s log) = apply_all s log
  /\ accepted s (accepted s log) = accepted s log.
Proof.
  revert s. induction log as [|[cmd now] log IH]; intros s Hpos Hlen.
  { simpl. repeat split; lia. }
  simpl length in Hlen. cbn [accepted apply_all fold_left fst snd].
  destruct (raft_Apply_cases s cmd now) as [(e & E)|(md & _ & _ & E)]; rewrite E; cbn [is_success fst].
  - by apply IH; [|lia].
  - rewrite Z.mod_small in * by lia.
    set (s' := mkRaft (term s) (index s + 1) md) in *.
    destruct (IH s') as (Ht & Hi & Hr & Ha); [simpl; lia|simpl; lia|].
    unfold apply_all in *. cbn [length fold_left fst snd accepted]. rewrite E. cbn [fst is_success].
    split; [by rewrite Ht|]. split; [rewrite Hi; simpl; lia|]. split; [done|]. by rewrite Ha.
Qed.

Lemma store_replays_accepted_witness :
  index (apply_all NewRaftMetadataStore
    [(broker_heartbeat 4, 5); (register_broker (mkBrokerMetadata 4 "h" 1 1 0 true), 6);
     (broker_heartbeat 4, 7)]) = 2.
Proof.
  refine (eq_trans (proj1 (proj2 (store_replays_accepted NewRaftMetadataStore
    [(broker_heartbeat 4, 5); (register_broker (mkBrokerMetadata 4 "h" 1 1 0 true), 6);
     (broker_heartbeat 4, 7)] _ _))) _); vm_compute; done.
Defined.
