(* ===== verification/Controller.v ===== *)
(** * The cluster controller: internal/controlplane/controller.go

    The controller turns admin requests into store commands, fences brokers by
    the age of their heartbeats and elects partition leaders. It is generic in
    the store: the definitions use the operations of [MetadataStore], the
    theorems its laws.

    [CreateTopic] can panic: it allocates a slice with a capacity the caller
    chooses. *)
From S2P Require Import Prelude GoStrings ControlPlane.

(** [make([]int, 0, n)] panics beyond the largest allocation (48-bit address
    space, 8-byte elements). *)
Definition max_int_cap : Z := 2 ^ 48 / 8.

Section Controller.
Context {St : Type} `{MetadataStore St} `{MapOrder}.

(** The topic value [CreateTopic] builds. *)
Definition new_topic (name : string) (partitions replicationFactor : Z) : TopicMetadata :=
  let replicas := zrange 0 replicationFactor in
  mkTopicMetadata name
    (list_to_map (map (fun i => (i, mkPartitionMetadata i (-1) ([] ++ replicas) ([] ++ replicas)))
                      (zrange 0 partitions))) ∅.

(** [CreateTopic]. *)
Definition CreateTopic (st : St) (name : string) (partitions replicationFactor now : Z)
    : outcome (St * result ApplyResult) :=
  if String.eqb name "" then Returns (st, Failure "topic name is required")
  else if partitions <=? 0 then Returns (st, Failure "partitions must be > 0")
  else if replicationFactor <=? 0 then Returns (st, Failure "replication factor must be > 0")
  else if max_int_cap <? replicationFactor then Panics "makeslice: cap out of range"
  else Returns (Apply st (upsert_topic (new_topic name partitions replicationFactor)) now).

(** [RegisterBroker]; [now] is the reading for the heartbeat, [now_epoch] the one
    that replaces a missing epoch. *)
Definition RegisterBroker (st : St) (id : Z) (host : string) (port epoch now_epoch now : Z)
    : St * result ApplyResult :=
  if id <? 0 then (st, Failure "broker id must be >= 0")
  else if String.eqb host "" then (st, Failure "broker host is required")
  else if port <=? 0 then (st, Failure "broker port must be > 0")
  else
    let epoch := if epoch <=? 0 then UnixNano now_epoch else epoch in
    Apply st (register_broker (mkBrokerMetadata id host port epoch now false)) now.

(** [HeartbeatBroker]. *)
Definition HeartbeatBroker (st : St) (id now : Z) : St * result ApplyResult :=
  Apply st (broker_heartbeat id) now.

(** [SetPartitionLeader]. *)
Definition SetPartitionLeader (st : St) (topic : string) (partition leaderID : Z)
    (isr : list Z) (now : Z) : St * result ApplyResult :=
  if String.eqb topic "" then (st, Failure "topic is required")
  else if partition <? 0 then (st, Failure "partition must be >= 0")
  else if leaderID <? -1 then (st, Failure "leader id must be >= -1")
  else Apply st (set_partition_leader (mkLeaderUpdate topic partition leaderID ([] ++ isr))) now.

(** [SetBrokerFence]. *)
Definition SetBrokerFence (st : St) (brokerID : Z) (fenced : bool) (now : Z)
    : St * result ApplyResult :=
  if brokerID <? 0 then (st, Failure "broker id must be >= 0")
  else Apply st (set_broker_fence (mkFenceUpdate brokerID fenced)) now.

(** The result [(int, error)] of the two sweeps: the count so far, and an error. *)
Definition swept : Type := Z * option string.

(** The loop of [ReconcileBrokerHealth] over sorted ids. *)
Fixpoint reconcile_loop (st : St) (snapshot : MetadataSnapshot) (timeout now : Z)
    (ids : list Z) (changes : Z) : St * swept :=
  match ids with
  | [] => (st, (changes, None))
  | id :: rest =>
      match Brokers snapshot !! id with
      | None => reconcile_loop st snapshot timeout now rest changes
      | Some b =>
          let stale := IsZero (LastHeartbeat b) || (timeout <? time_sub now (LastHeartbeat b)) in
          if negb (Bool.eqb (Fenced b) stale) then
            match SetBrokerFence st id stale now with
            | (st', Success _) => reconcile_loop st' snapshot timeout now rest (int_add changes 1)
            | (st', Failure e) => (st', (changes, Some e))
            end
          else reconcile_loop st snapshot timeout now rest changes
      end
  end.

(** [ReconcileBrokerHealth]. *)
Definition ReconcileBrokerHealth (st : St) (timeout now : Z) : St * swept :=
  if timeout <=? 0 then (st, (0, Some "timeout must be > 0"))
  else
    let snapshot := Snapshot st in
    let ids := sort_ints (map fst (map_range (Brokers snapshot))) in
    reconcile_loop st snapshot timeout now ids 0.

(** [isBrokerEligible]. *)
Definition isBrokerEligible (brokers : gmap Z BrokerMetadata) (brokerID : Z) : bool :=
  match brokers !! brokerID with
  | None => false
  | Some b => negb (Fenced b)
  end.

(** [electFromReplicas]. *)
Fixpoint electFromReplicas (brokers : gmap Z BrokerMetadata) (replicas : list Z) : Z :=
  match replicas with
  | [] => -1
  | replicaID :: rest =>
      if isBrokerEligible brokers replicaID then replicaID else electFromReplicas brokers rest
  end.

(** [selectEligibleReplicas]. *)
Definition selectEligibleReplicas (brokers : gmap Z BrokerMetadata) (replicas : list Z) : list Z :=
  filter (fun r => isBrokerEligible brokers r = true) replicas.

(** The loop of [ElectTopicLeaders] over sorted partition ids. *)
Fixpoint elect_loop (st : St) (topic : string) (brokers : gmap Z BrokerMetadata)
    (parts : gmap Z PartitionMetadata) (now : Z) (pids : list Z) (changes : Z) : St * swept :=
  match pids with
  | [] => (st, (changes, None))
  | pid :: rest =>
      match parts !! pid with
      | None => elect_loop st topic brokers parts now rest changes
      | Some p =>
          let target := if negb (isBrokerEligible brokers (LeaderID p))
                        then electFromReplicas brokers (Replicas p) else LeaderID p in
          if negb (target =? LeaderID p) then
            let isr := selectEligibleReplicas brokers (Replicas p) in
            let isr := match isr with
                       | [] => if 0 <=? target then [target] else isr
                       | _ => isr
                       end in
            match SetPartitionLeader st topic pid target isr now with
            | (st', Success _) =>
                elect_loop st' topic brokers parts now rest (int_add changes 1)
            | (st', Failure e) => (st', (changes, Some e))
            end
          else elect_loop st topic brokers parts now rest changes
      end
  end.

(** [ElectTopicLeaders]. *)
Definition ElectTopicLeaders (st : St) (topic : string) (now : Z) : St * swept :=
  if String.eqb topic "" then (st, (0, Some "topic is required"))
  else
    let snapshot := Snapshot st in
    match Topics snapshot !! topic with
    | None => (st, (0, Some ("topic not found: " +:+ topic)))
    | Some topicMeta =>
        let pids := sort_ints (map fst (map_range (Partitions topicMeta))) in
        elect_loop st topic (Brokers snapshot) (Partitions topicMeta) now pids 0
    end.

End Controller.

(** ** Specifications of the two sweeps *)

(** Heartbeat age decides fencing. *)
Definition stale (timeout now : Z) (b : BrokerMetadata) : bool :=
  IsZero (LastHeartbeat b) || (timeout <? time_sub now (LastHeartbeat b)).
Definition fence_by_age (timeout now : Z) (b : BrokerMetadata) : BrokerMetadata :=
  with_fenced b (stale timeout now b).

(** A live leader stays; otherwise the first live replica leads and the live
    replicas are the ISR; with no live replica the partition has no leader. *)
Definition elect_partition (brokers : gmap Z BrokerMetadata) (p : PartitionMetadata)
    : PartitionMetadata :=
  if isBrokerEligible brokers (LeaderID p) then p
  else with_leader p (electFromReplicas brokers (Replicas p))
         (selectEligibleReplicas brokers (Replicas p)).

Definition moved (brokers : gmap Z BrokerMetadata) (p : PartitionMetadata) : bool :=
  negb (LeaderID (elect_partition brokers p) =? LeaderID p).
Definition refenced (timeout now : Z) (b : BrokerMetadata) : bool :=
  negb (Bool.eqb (Fenced b) (stale timeout now b)).

(** How many entries of [m], listed by key, satisfy [f]. *)
Definition count_keys {V : Type} (f : V -> bool) (m : gmap Z V) (ks : list Z) : nat :=
  length (filter (fun k => match m !! k with Some v => f v | None => false end = true) ks).

(** The number of entries that satisfy [f]. *)
Definition count_map {V : Type} (f : V -> bool) (m : gmap Z V) : nat :=
  length (filter (fun kv : Z * V => f kv.2 = true) (map_to_list m)).

Lemma elem_of_sorted_keys `{MapOrder} {V : Type} (m : gmap Z V) k :
  k ∈ sort_ints (map fst (map_range m)) <-> is_Some (m !! k).
Proof.
  rewrite sort_ints_perm, elem_of_maplist. split.
  - intros ([k' v] & -> & Hin). apply elem_of_map_range in Hin. simpl. by eauto.
  - intros [v Hv]. exists (k, v). by rewrite elem_of_map_range.
Qed.

Lemma NoDup_sorted_keys `{MapOrder} {V : Type} (m : gmap Z V) :
  NoDup (sort_ints (map fst (map_range m))).
Proof. rewrite sort_ints_perm. apply NoDup_map_range_keys. Qed.

Lemma count_sorted_keys `{MapOrder} {V : Type} (f : V -> bool) (m : gmap Z V) :
  count_keys f m (sort_ints (map fst (map_range m))) = count_map f m.
Proof.
  unfold count_keys, count_map. rewrite sort_ints_perm, map_range_perm.
  assert (Hall : forall kv, kv ∈ map_to_list m -> m !! kv.1 = Some kv.2).
  { intros [k v] Hin. by apply elem_of_map_to_list. }
  induction (map_to_list m) as [|[k v] l IH]; [done|]. simpl map.
  assert (m !! k = Some v) as Hk by (apply (Hall (k, v)); left).
  rewrite !filter_cons. simpl. rewrite Hk.
  destruct (f v); simpl; [f_equal|]; apply IH; intros; apply Hall; by right.
Qed.

Lemma length_count_keys {V : Type} (f : V -> bool) (m : gmap Z V) ks :
  (count_keys f m ks <= length ks)%nat.
Proof. apply length_filter. Qed.

Lemma count_keys_cons {V : Type} (f : V -> bool) (m : gmap Z V) k v ks :
  m !! k = Some v ->
  count_keys f m (k :: ks) = ((if f v then 1 else 0) + count_keys f m ks)%nat.
Proof. intros Hk. unfold count_keys. rewrite filter_cons, Hk. by destruct (f v). Qed.

(** *** Elections *)
Lemma electFromReplicas_cases brokers replicas :
  (electFromReplicas brokers replicas ∈ replicas
   /\ isBrokerEligible brokers (electFromReplicas brokers replicas) = true)
  \/ (electFromReplicas brokers replicas = -1
      /\ forall r, r ∈ replicas -> isBrokerEligible brokers r = false).
Proof.
  induction replicas as [|r rs IH]; simpl.
  - right. split; [done|]. intros r Hr. by apply elem_of_nil in Hr.
  - destruct (isBrokerEligible brokers r) eqn:E.
    + left. split; [left|done].
    + destruct IH as [[Hin He]|[-> Hno]].
      * left. split; [by right|done].
      * right. split; [done|]. intros r' [->|Hr']%elem_of_cons; auto.
Qed.

(** The elected replica is the first eligible one. *)
Lemma electFromReplicas_first brokers replicas :
  isBrokerEligible brokers (electFromReplicas brokers replicas) = true ->
  electFromReplicas brokers replicas ∈ replicas ->
  exists before after, replicas = before ++ electFromReplicas brokers replicas :: after
    /\ Forall (fun r => isBrokerEligible brokers r = false) before.
Proof.
  induction replicas as [|r rs IH]; intros He Hin; [by apply elem_of_nil in Hin|]. simpl in *.
  destruct (isBrokerEligible brokers r) eqn:E; [by exists [], rs|].
  apply elem_of_cons in Hin as [Hr|Hin]; [rewrite Hr in He; congruence|].
  destruct (IH He Hin) as (before & after & Heq & Hb). exists (r :: before), after.
  split; [by rewrite Heq at 1|by constructor].
Qed.

Lemma selectEligible_nil brokers replicas :
  (forall r, r ∈ replicas -> isBrokerEligible brokers r = false) ->
  selectEligibleReplicas brokers replicas = [].
Proof.
  intros Hno. unfold selectEligibleReplicas.
  induction replicas as [|r rs IH]; [done|]. rewrite filter_cons, decide_False.
  - apply IH. intros; apply Hno; by right.
  - rewrite Hno by left. done.
Qed.

Lemma elem_of_selectEligible brokers replicas r :
  r ∈ selectEligibleReplicas brokers replicas <-> r ∈ replicas /\ isBrokerEligible brokers r = true.
Proof. unfold selectEligibleReplicas. rewrite list_elem_of_filter. tauto. Qed.

Section Sweeps.
Context {St : Type} `{MetadataStoreLaws St} `{MapOrder}.

Lemma SetPartitionLeader_ok st topic t pid p leader isr now :
  store_inv st -> Topics (Snapshot st) !! topic = Some t -> Partitions t !! pid = Some p ->
  -1 <= leader ->
  exists st' r, SetPartitionLeader st topic pid leader isr now = (st', Success r)
    /\ store_inv st'
    /\ Snapshot st' = with_topic (Snapshot st) topic (with_partition t pid (with_leader p leader isr)).
Proof.
  intros Hs Ht Hp Hl. pose proof (store_meta st Hs) as Hm.
  destruct (meta_topic _ Hm _ _ Ht) as [_ Hne]. pose proof (meta_pid _ Hm _ _ _ _ Ht Hp).
  unfold SetPartitionLeader. destruct (String.eqb_spec topic ""); [done|].
  destruct (Z.ltb_spec pid 0); [lia|]. destruct (Z.ltb_spec leader (-1)); [lia|].
  destruct (apply_leader st topic t pid p leader isr now Hs Ht Hp) as [Hok Hsnap].
  pose proof (apply_inv st (set_partition_leader (mkLeaderUpdate topic pid leader isr)) now Hs) as Hi.
  simpl app. destruct (Apply st _ now) as [st' [r|e]]; [|done].
  exists st', r. split; [done|]. split; [|done]. apply Hi. by intros ? ? ? ?.
Qed.

Lemma eligible_nonneg st id :
  store_inv st -> isBrokerEligible (Brokers (Snapshot st)) id = true -> 0 <= id.
Proof.
  unfold isBrokerEligible. intros Hs He. destruct (_ !! id) as [b|] eqn:E; [|done].
  by apply (meta_broker _ (store_meta st Hs)) in E as [_ ?].
Qed.

(** One iteration of the election loop leaves [elect_partition] in place of [p]. *)
Lemma elect_step st topic t pid p now parts rest changes :
  store_inv st -> Topics (Snapshot st) !! topic = Some t -> Partitions t !! pid = Some p ->
  parts !! pid = Some p ->
  exists st', store_inv st'
    /\ Snapshot st' = with_topic (Snapshot st) topic
         (with_partition t pid (elect_partition (Brokers (Snapshot st)) p))
    /\ elect_loop st topic (Brokers (Snapshot st)) parts now (pid :: rest) changes
       = elect_loop st' topic (Brokers (Snapshot st)) parts now rest
           (if moved (Brokers (Snapshot st)) p then int_add changes 1 else changes).
Proof.
  intros Hs Ht Hp Hpart. set (bs := Brokers (Snapshot st)).
  assert (Hsame : elect_partition bs p = p -> Snapshot st = with_topic (Snapshot st) topic
            (with_partition t pid (elect_partition bs p))).
  { intros ->. unfold with_topic, with_partition. destruct t as [n ps cs]. simpl in *.
    rewrite (insert_id ps) by done. rewrite insert_id by done. by destruct (Snapshot st). }
  cbn [elect_loop]. rewrite Hpart. unfold moved, elect_partition in *.
  destruct (isBrokerEligible bs (LeaderID p)) eqn:Hel; simpl.
  { exists st. split; [done|]. split; [by apply Hsame|]. by rewrite Z.eqb_refl. }
  destruct (electFromReplicas_cases bs (Replicas p)) as [[Hin He]|[Hnone Hno]].
  - set (l := electFromReplicas bs (Replicas p)) in *.
    pose proof (eligible_nonneg st l Hs He).
    destruct (Z.eqb_spec l (LeaderID p)) as [E|Hne]; [rewrite E in He; congruence|]. simpl.
    assert (Hsel : exists a rest', selectEligibleReplicas bs (Replicas p) = a :: rest').
    { destruct (selectEligibleReplicas bs (Replicas p)) eqn:E; [|by eauto].
      assert (l ∈ @nil Z) as Hbad by (rewrite <- E; by apply elem_of_selectEligible).
      by apply elem_of_nil in Hbad. }
    destruct Hsel as (a & rest' & ->).
    destruct (SetPartitionLeader_ok st topic t pid p l (a :: rest') now) as (st' & r & -> & Hs' & Hsnap);
      [done..|lia|]. exists st'. by rewrite Hsnap.
  - rewrite Hnone, selectEligible_nil in * by done. cbn [LeaderID with_leader].
    destruct (Z.eqb_spec (-1) (LeaderID p)) as [E|Hne]; cbn [negb].
    + exists st. split; [done|]. split; [apply Hsame|done].
      destruct p as [i l rs isr]; simpl in *. unfold with_leader. simpl. by rewrite E.
    + change (if 0 <=? -1 then [-1] else []) with (@nil Z).
      destruct (SetPartitionLeader_ok st topic t pid p (-1) [] now) as (st' & r & -> & Hs' & Hsnap);
        [done..|lia|]. exists st'. by rewrite Hsnap.
Qed.

(** The whole loop, over distinct keys of the snapshot it was given. *)
Lemma elect_loop_spec brokers parts topic now pids st t changes :
  store_inv st -> Brokers (Snapshot st) = brokers -> Topics (Snapshot st) !! topic = Some t ->
  NoDup pids ->
  (forall pid, pid ∈ pids -> is_Some (parts !! pid) /\ Partitions t !! pid = parts !! pid) ->
  0 <= changes -> changes + Z.of_nat (length pids) <= int_max ->
  exists st' t', store_inv st'
    /\ elect_loop st topic brokers parts now pids changes
       = (st', (changes + Z.of_nat (count_keys (moved brokers) parts pids), None))
    /\ Snapshot st' = with_topic (Snapshot st) topic t'
    /\ tmName t' = tmName t /\ Configs t' = Configs t
    /\ forall pid, Partitions t' !! pid
         = if decide (pid ∈ pids) then elect_partition brokers <$> parts !! pid
           else Partitions t !! pid.
Proof.
  revert st t changes. induction pids as [|pid pids IH]; intros st t changes Hs Hb Ht Hnd Hp Hpos Hmax.
  { exists st, t. split; [done|]. split; [by rewrite Z.add_0_r|].
    split; [unfold with_topic; rewrite insert_id by done; by destruct (Snapshot st)|].
    split; [done|]. split; [done|]. intros pid. rewrite decide_False; [done|apply not_elem_of_nil]. }
  apply NoDup_cons in Hnd as [Hnotin Hnd]. simpl length in Hmax.
  destruct (Hp pid) as [[p Hpart] Hpt]; [left|]. rewrite Hpart in Hpt.
  destruct (elect_step st topic t pid p now parts pids changes Hs Ht Hpt Hpart)
    as (st1 & Hs1 & Hsnap & Hloop). rewrite Hb in *. rewrite Hloop. clear Hloop.
  set (t1 := with_partition t pid (elect_partition brokers p)) in *.
  assert (Hch : (if moved brokers p then int_add changes 1 else changes)
            = changes + (if moved brokers p then 1 else 0)).
  { destruct (moved brokers p); [|lia]. apply int_add_id. ints. }
  rewrite Hch.
  destruct (IH st1 t1 (changes + (if moved brokers p then 1 else 0)))
    as (st' & t' & Hs' & Hloop & Hsnap' & Hn & Hc & Hlk); clear IH.
  - done.
  - by rewrite Hsnap.
  - rewrite Hsnap. simpl. by rewrite lookup_insert_eq.
  - done.
  - intros pid' Hin. destruct (Hp pid') as [Hsome Heq]; [by right|]. split; [done|].
    rewrite <- Heq. apply lookup_insert_ne. by intros ->.
  - destruct (moved brokers p); lia.
  - destruct (moved brokers p); lia.
  - exists st', t'. split; [done|]. split.
    { rewrite Hloop, (count_keys_cons _ _ pid p) by done. do 2 f_equal.
      destruct (moved brokers p); lia. }
    split; [rewrite Hsnap', Hsnap; unfold with_topic; simpl; by rewrite insert_insert_eq|].
    split; [done|]. split; [done|]. intros pid'. rewrite Hlk.
    destruct (decide (pid' ∈ pids)) as [Hin|Hout].
    { by rewrite decide_True by (by right). }
    simpl. destruct (decide (pid = pid')) as [<-|Hne].
    + rewrite lookup_insert_eq, decide_True, Hpart by left. done.
    + rewrite lookup_insert_ne by done. rewrite decide_False; [done|].
      by intros [->|?]%elem_of_cons.
Qed.

(** The sweep as one function on the partitions. *)
Lemma elect_topic_ok st topic t now :
  store_inv st -> Topics (Snapshot st) !! topic = Some t ->
  Z.of_nat (size (Partitions t)) <= int_max ->
  exists st' t',
    ElectTopicLeaders st topic now
    = (st', (Z.of_nat (count_map (moved (Brokers (Snapshot st))) (Partitions t)), None))
    /\ store_inv st' /\ Snapshot st' = with_topic (Snapshot st) topic t'
    /\ Partitions t' = elect_partition (Brokers (Snapshot st)) <$> Partitions t.
Proof.
  intros Hs Ht Hsize. set (bs := Brokers (Snapshot st)).
  unfold ElectTopicLeaders. destruct (meta_topic _ (store_meta st Hs) _ _ Ht) as [_ Hne].
  destruct (String.eqb_spec topic ""); [done|]. rewrite Ht.
  set (pids := sort_ints (map fst (map_range (Partitions t)))).
  assert (Hlen : length pids = size (Partitions t)).
  { unfold pids. rewrite sort_ints_perm, length_map, map_range_perm. apply length_map_to_list. }
  destruct (elect_loop_spec bs (Partitions t) topic now pids st t 0)
    as (st' & t' & Hs' & Hloop & Hsnap & _ & _ & Hlk); try done.
  { apply NoDup_sorted_keys. }
  { intros pid Hin. split; [|done]. by apply elem_of_sorted_keys in Hin. }
  { lia. }
  assert (Hmap : Partitions t' = elect_partition bs <$> Partitions t).
  { apply map_eq. intros pid. rewrite Hlk, lookup_fmap. case_decide as Hd; [done|].
    destruct (Partitions t !! pid) eqn:E; [|done].
    destruct Hd. apply elem_of_sorted_keys. by eauto. }
  exists st', t'. split; [|done]. rewrite <- (count_sorted_keys (moved bs)). exact Hloop.
Qed.

(** C10: leader election. On a topic that exists [ElectTopicLeaders] never
    fails; it changes nothing but this topic's partitions, and each partition
    ends as follows: a partition with a live leader (registered and not fenced)
    is untouched; otherwise the leader becomes its first live replica (all
    replicas listed before it are dead) and its ISR the live replicas in order,
    the new leader among them; a partition with no live replica ends with leader
    -1 and its old ISR. Replica lists never change, and
    the returned number is the number of partitions whose leader changed. *)
Theorem ElectTopicLeaders_spec st topic t now :
  store_inv st -> Topics (Snapshot st) !! topic = Some t ->
  Z.of_nat (size (Partitions t)) <= int_max ->
  exists st' t' n,
    ElectTopicLeaders st topic now = (st', (n, None))
    /\ store_inv st'
    /\ Snapshot st' = with_topic (Snapshot st) topic t'
    /\ n = Z.of_nat (count_map (moved (Brokers (Snapshot st))) (Partitions t))
    /\ dom (Partitions t') = dom (Partitions t)
    /\ forall pid p, Partitions t !! pid = Some p ->
       exists p', Partitions t' !! pid = Some p' /\ Replicas p' = Replicas p
         /\ (isBrokerEligible (Brokers (Snapshot st)) (LeaderID p) = true -> p' = p)
         /\ (isBrokerEligible (Brokers (Snapshot st)) (LeaderID p) = false ->
             (isBrokerEligible (Brokers (Snapshot st)) (LeaderID p') = true
              /\ (exists before after, Replicas p = before ++ LeaderID p' :: after
                   /\ Forall (fun r => isBrokerEligible (Brokers (Snapshot st)) r = false) before)
              /\ LeaderID p' ∈ ISR p'
              /\ ISR p' = filter (fun r => isBrokerEligible (Brokers (Snapshot st)) r = true) (Replicas p))
             \/ (LeaderID p' = -1 /\ ISR p' = ISR p
                 /\ forall r, r ∈ Replicas p ->
                      isBrokerEligible (Brokers (Snapshot st)) r = false)).
Proof.
  intros Hs Ht Hsize. set (bs := Brokers (Snapshot st)).
  destruct (elect_topic_ok st topic t now Hs Ht Hsize) as (st' & t' & Hloop & Hs' & Hsnap & Hmap).
  fold bs in Hloop, Hmap. exists st', t'. eexists. split; [exact Hloop|]. split; [done|]. split; [done|].
  split; [done|]. split; [rewrite Hmap; apply dom_fmap_L|].
  intros pid p Hp. exists (elect_partition bs p). rewrite Hmap, lookup_fmap, Hp.
  split; [done|]. unfold elect_partition. fold bs.
  destruct (isBrokerEligible bs (LeaderID p)) eqn:Hel; [by split|].
  split; [done|]. split; [done|]. intros _.
  destruct (electFromReplicas_cases bs (Replicas p)) as [[Hin He]|[Hnone Hno]]; [left|right].
  - assert (Hmem : electFromReplicas bs (Replicas p) ∈ selectEligibleReplicas bs (Replicas p))
      by (by apply elem_of_selectEligible).
    cbn [with_leader LeaderID ISR].
    destruct (selectEligibleReplicas bs (Replicas p)) eqn:E; [by apply elem_of_nil in Hmem|].
    rewrite <- E in *. split; [done|]. split; [by apply electFromReplicas_first|]. by split.
  - rewrite selectEligible_nil by done. by rewrite Hnone.
Qed.

(** *** Health *)
Lemma SetBrokerFence_ok st id b f now :
  store_inv st -> Brokers (Snapshot st) !! id = Some b ->
  exists st' r, SetBrokerFence st id f now = (st', Success r) /\ store_inv st'
    /\ Snapshot st' = with_broker (Snapshot st) id (with_fenced b f).
Proof.
  intros Hs Hb. destruct (meta_broker _ (store_meta st Hs) _ _ Hb) as [_ Hid].
  unfold SetBrokerFence. destruct (Z.ltb_spec id 0); [lia|].
  destruct (apply_fence st id b f now Hs Hb) as [Hok Hsnap].
  pose proof (apply_inv st (set_broker_fence (mkFenceUpdate id f)) now Hs) as Hi.
  destruct (Apply st _ now) as [st' [r|e]]; [|done].
  exists st', r. split; [done|]. split; [|done]. apply Hi. by intros ? ? ? ?.
Qed.

Lemma fence_by_age_same timeout now b :
  refenced timeout now b = false -> fence_by_age timeout now b = b.
Proof.
  unfold refenced, fence_by_age. intros E%negb_false_iff%Bool.eqb_prop. rewrite <- E.
  by destruct b.
Qed.

Lemma reconcile_loop_spec snap timeout now ids st changes :
  store_inv st -> NoDup ids ->
  (forall id, id ∈ ids -> is_Some (Brokers snap !! id)
     /\ Brokers (Snapshot st) !! id = Brokers snap !! id) ->
  0 <= changes -> changes + Z.of_nat (length ids) <= int_max ->
  exists st', store_inv st'
    /\ reconcile_loop st snap timeout now ids changes
       = (st', (changes + Z.of_nat (count_keys (refenced timeout now) (Brokers snap) ids), None))
    /\ Topics (Snapshot st') = Topics (Snapshot st)
    /\ forall id, Brokers (Snapshot st') !! id
         = if decide (id ∈ ids) then fence_by_age timeout now <$> Brokers snap !! id
           else Brokers (Snapshot st) !! id.
Proof.
  revert st changes. induction ids as [|id ids IH]; intros st changes Hs Hnd Hin Hpos Hmax.
  { exists st. split; [done|]. split; [by rewrite Z.add_0_r|]. split; [done|].
    intros id. rewrite decide_False; [done|apply not_elem_of_nil]. }
  apply NoDup_cons in Hnd as [Hnotin Hnd]. simpl length in Hmax.
  destruct (Hin id) as [[b Hb] Hbs]; [left|]. rewrite Hb in Hbs.
  assert (Hstep : exists st1, store_inv st1
    /\ Topics (Snapshot st1) = Topics (Snapshot st)
    /\ Brokers (Snapshot st1) = <[id := fence_by_age timeout now b]> (Brokers (Snapshot st))
    /\ reconcile_loop st snap timeout now (id :: ids) changes
       = reconcile_loop st1 snap timeout now ids
           (changes + (if refenced timeout now b then 1 else 0))).
  { cbn [reconcile_loop]. rewrite Hb. unfold refenced. fold (stale timeout now b).
    destruct (Bool.eqb (Fenced b) (stale timeout now b)) eqn:E; cbn [negb].
    - exists st. rewrite fence_by_age_same by (unfold refenced; by rewrite E).
      rewrite insert_id by done. by rewrite Z.add_0_r.
    - destruct (SetBrokerFence_ok st id b (stale timeout now b) now Hs Hbs) as (st1 & r & -> & Hs1 & Hsnap).
      exists st1. rewrite Hsnap. rewrite int_add_id by ints. done. }
  destruct Hstep as (st1 & Hs1 & Ht1 & Hb1 & ->).
  destruct (IH st1 (changes + (if refenced timeout now b then 1 else 0)))
    as (st' & Hs' & Hloop & Ht & Hlk); clear IH; [done|done|..].
  - intros id' Hid'. destruct (Hin id') as [Hsome Heq]; [by right|]. split; [done|].
    rewrite Hb1, <- Heq. apply lookup_insert_ne. by intros ->.
  - destruct (refenced _ _ _); lia.
  - destruct (refenced _ _ _); lia.
  - exists st'. split; [done|]. split; [|split; [congruence|]].
    + rewrite Hloop, (count_keys_cons _ _ id b) by done. do 2 f_equal. destruct (refenced _ _ _); lia.
    + intros id'. rewrite Hlk, Hb1. destruct (decide (id' ∈ ids)) as [Hi|Ho].
      { by rewrite decide_True by (by right). }
      destruct (decide (id = id')) as [<-|Hne].
      * rewrite lookup_insert_eq, decide_True, Hb by left. done.
      * rewrite lookup_insert_ne by done. rewrite decide_False; [done|].
        by intros [->|?]%elem_of_cons.
Qed.

(** C19: health reconciliation. With a positive timeout [ReconcileBrokerHealth]
    never fails; afterwards a broker is fenced exactly when it never sent a
    heartbeat or its last one is older than the timeout, nothing else about
    brokers or topics changes, and the returned number is the number of brokers
    whose fence flag flipped. *)
Theorem ReconcileBrokerHealth_spec st timeout now :
  store_inv st -> 0 < timeout -> Z.of_nat (size (Brokers (Snapshot st))) <= int_max ->
  exists st', store_inv st'
    /\ ReconcileBrokerHealth st timeout now
       = (st', (Z.of_nat (count_map (refenced timeout now) (Brokers (Snapshot st))), None))
    /\ Topics (Snapshot st') = Topics (Snapshot st)
    /\ Brokers (Snapshot st') = fence_by_age timeout now <$> Brokers (Snapshot st)
    /\ forall id b, Brokers (Snapshot st') !! id = Some b ->
         Fenced b = true <-> LastHeartbeat b = zero_time \/ timeout < time_sub now (LastHeartbeat b).
Proof.
  intros Hs Hto Hsize. unfold ReconcileBrokerHealth. destruct (Z.leb_spec timeout 0); [lia|].
  set (ids := sort_ints (map fst (map_range (Brokers (Snapshot st))))).
  assert (Hlen : length ids = size (Brokers (Snapshot st))).
  { unfold ids. rewrite sort_ints_perm, length_map, map_range_perm. apply length_map_to_list. }
  destruct (reconcile_loop_spec (Snapshot st) timeout now ids st 0) as (st' & Hs' & Hloop & Ht & Hlk);
    [done|apply NoDup_sorted_keys|..].
  { intros id Hid. split; [|done]. by apply elem_of_sorted_keys in Hid. }
  { done. } { lia. }
  assert (Hmap : Brokers (Snapshot st') = fence_by_age timeout now <$> Brokers (Snapshot st)).
  { apply map_eq. intros id. rewrite Hlk, lookup_fmap. case_decide as Hd; [done|].
    destruct (Brokers (Snapshot st) !! id) eqn:E; [|done].
    destruct Hd. apply elem_of_sorted_keys. by eauto. }
  exists st'. split; [done|]. split; [rewrite Hloop; unfold ids; by rewrite count_sorted_keys|].
  split; [done|]. split; [done|]. intros id b. rewrite Hmap, lookup_fmap, fmap_Some.
  intros (b0 & _ & ->). simpl. unfold stale, IsZero. rewrite orb_true_iff, Z.eqb_eq, Z.ltb_lt. done.
Qed.

(** *** Topics *)
Lemma new_topic_lookup name n rf pid :
  Partitions (new_topic name n rf) !! pid
  = if decide (0 <= pid < n)
    then Some (mkPartitionMetadata pid (-1) (zrange 0 rf) (zrange 0 rf)) else None.
Proof.
  simpl. rewrite (lookup_list_to_map_keys (fun i => mkPartitionMetadata i (-1) (zrange 0 rf) (zrange 0 rf))).
  apply decide_ext, elem_of_zrange.
Qed.

(** topic creation. For a named topic with positive counts that fit an
    allocation, [CreateTopic] succeeds and files exactly the partitions
    0 .. n-1, each with replicas and ISR 0 .. rf-1 and no leader, leaving
    brokers and other topics alone. It does so also when the topic already
    exists, whose partitions and leaders are thereby replaced; and any
    replication factor above the allocation limit panics instead of being
    refused. *)
Theorem CreateTopic_spec st name n rf now :
  store_inv st -> name <> "" -> 0 < n -> 0 < rf ->
  if rf <=? max_int_cap then
    exists st' r t, CreateTopic st name n rf now = Returns (st', Success r)
      /\ store_inv st' /\ Snapshot st' = with_topic (Snapshot st) name t
      /\ forall pid, Partitions t !! pid
           = if decide (0 <= pid < n)
             then Some (mkPartitionMetadata pid (-1) (zrange 0 rf) (zrange 0 rf)) else None
  else CreateTopic st name n rf now = Panics "makeslice: cap out of range".
Proof.
  intros Hs Hname Hn Hrf. unfold CreateTopic.
  destruct (String.eqb_spec name ""); [done|].
  destruct (Z.leb_spec n 0); [lia|]. destruct (Z.leb_spec rf 0); [lia|].
  destruct (Z.leb_spec rf max_int_cap), (Z.ltb_spec max_int_cap rf); try lia; [|done].
  destruct (apply_upsert st (new_topic name n rf) now Hname) as [Hok Hsnap].
  pose proof (apply_inv st (upsert_topic (new_topic name n rf)) now Hs) as Hi.
  destruct (Apply st _ now) as [st' [r|e]]; [|done].
  exists st', r, (new_topic name n rf). split; [done|]. split.
  - apply Hi. intros t pid p [= <-]. rewrite new_topic_lookup. case_decide; [lia|done].
  - split; [done|]. intros pid. apply new_topic_lookup.
Qed.
End Sweeps.

(** ** Witnesses: a store with two brokers and a topic *)
Lemma new_store_inv : store_inv NewRaftMetadataStore.
Proof. constructor; simpl; intros *; by rewrite lookup_empty. Qed.

Lemma apply_all_inv s log :
  store_inv s -> Forall (fun e => cmd_ok e.1) log -> store_inv (apply_all s log).
Proof.
  intros Hs Hlog. revert s Hs. induction Hlog as [|e log He _ IH]; intros s Hs; [done|].
  simpl. apply IH. exact (@apply_inv _ raft_store raft_store_laws s e.1 e.2 Hs He).
Qed.

Definition demo_store : RaftMetadataStore :=
  apply_all NewRaftMetadataStore
    [(register_broker (mkBrokerMetadata 0 "a" 9092 1 (5 * Second) true), 0);
     (register_broker (mkBrokerMetadata 1 "b" 9092 1 (90 * Second) false), 0);
     (upsert_topic (new_topic "orders" 2 2), 0)].

Lemma demo_store_inv : store_inv demo_store.
Proof.
  apply apply_all_inv; [apply new_store_inv|]. repeat constructor; try done.
  intros t pid p [= <-]. rewrite new_topic_lookup. by case_decide; [lia|].
Qed.

Lemma ElectTopicLeaders_spec_witness :
  exists st' t', @ElectTopicLeaders _ raft_store canonical_order demo_store "orders" 0 = (st', (2, None))
  /\ Topics (Snapshot st') !! "orders" = Some t' /\ LeaderID <$> Partitions t' !! 0 = Some 1.
Proof.
  destruct (@ElectTopicLeaders_spec _ raft_store raft_store_laws canonical_order demo_store "orders"
    (new_topic "orders" 2 2) 0 demo_store_inv) as (st' & t' & n & E & _ & Hsnap & Hn & _ & Hp).
  - vm_compute. reflexivity.
  - vm_compute. discriminate.
  - exists st', t'. split; [rewrite E, Hn; vm_compute; reflexivity|].
    split; [rewrite Hsnap; apply lookup_insert_eq|].
    destruct (Hp 0 (mkPartitionMetadata 0 (-1) [0; 1] [0; 1])) as (p' & Hp' & _ & _ & Hl);
      [vm_compute; reflexivity|]. rewrite Hp'. simpl. f_equal.
    destruct Hl as [(He & (before & after & Hr & _) & _)|(_ & _ & Hno)]; [vm_compute; reflexivity| |].
    + cbn [Replicas] in Hr. destruct before as [|b0 [|b1 before]].
      * injection Hr as Hr _. rewrite <- Hr in He. vm_compute in He. discriminate He.
      * injection Hr as _ Hr _. by symmetry.
      * apply (f_equal length) in Hr. cbn [app length] in Hr. rewrite length_app in Hr. simpl in Hr. lia.
    + specialize (Hno 1). vm_compute in Hno. discriminate Hno. right; left.
Defined.

Lemma ReconcileBrokerHealth_spec_witness :
  exists st', @ReconcileBrokerHealth _ raft_store canonical_order demo_store (10 * Second) (120 * Second)
    = (st', (1, None)) /\ Fenced <$> Brokers (Snapshot st') !! 1 = Some true.
Proof.
  destruct (@ReconcileBrokerHealth_spec _ raft_store raft_store_laws canonical_order demo_store
    (10 * Second) (120 * Second) demo_store_inv) as (st' & _ & E & _ & Hb & _).
  - vm_compute. reflexivity.
  - vm_compute. discriminate.
  - exists st'. split; [rewrite E; vm_compute; reflexivity|]. rewrite Hb. vm_compute. reflexivity.
Defined.

Lemma CreateTopic_spec_witness :
  exists st' r, @CreateTopic _ raft_store demo_store "orders" 1 3 0 = Returns (st', Success r)
  /\ is_Some (Topics (Snapshot st') !! "orders").
Proof.
  destruct (CreateTopic_spec demo_store "orders" 1 3 0 demo_store_inv) as (st' & r & t & E & _ & Hs & _).
  - discriminate.
  - lia.
  - lia.
  - exists st', r. split; [exact E|]. rewrite Hs. exists t. apply lookup_insert_eq.
Defined.
