(* ===== verification/Worker.v ===== *)
(** * Follower replication: internal/replication/worker.go

    A follower worker repeats one cycle: fetch from the leader at its next
    offset, append the fetched records to the local store, acknowledge the last
    one. The leader (reached through a [Transport]) and the local store (a
    [ReplicaStorage]) are interfaces in the code; here they are records of
    operations on a world [W]. The theorem says what a cycle does for every
    implementation of them; EndToEnd.v connects it to the transport, the leader's
    handlers and the store of this repository. *)
From S2P Require Import Prelude GoStrings.

(** [ReplicationRecord] and [FetchResult]. *)
Record ReplicationRecord := mkRecord { recOffset : Z; recValue : string }.
Record FetchResult := mkFetchResult { frHighWatermark : Z; frRecords : list ReplicationRecord }.

#[global] Instance ReplicationRecord_eq_dec : EqDecision ReplicationRecord.
Proof. solve_decision. Defined.

(** The interfaces [Transport] and [ReplicaStorage]. *)
Record Transport (W : Type) := mkTransport {
  Fetch : W -> string -> Z -> Z -> Z -> Z -> W * result FetchResult;
  Ack : W -> string -> Z -> Z -> Z -> W * result unit
}.
Arguments mkTransport {W}.
Arguments Fetch {W}.
Arguments Ack {W}.

Record ReplicaStorage (W : Type) := mkReplicaStorage {
  AppendReplicated : W -> string -> Z -> Z -> string -> W * result unit
}.
Arguments mkReplicaStorage {W}.
Arguments AppendReplicated {W}.

(** [WorkerConfig] and [FollowerWorker]. *)
Record WorkerConfig := mkWorkerConfig {
  wcFollowerID : Z;
  wcTopic : string;
  wcPartition : Z;
  wcStartOffset : Z;
  wcMaxBatch : Z
}.

Record FollowerWorker (W : Type) := mkWorker {
  wkTransport : Transport W;
  wkStorage : ReplicaStorage W;
  wkFollowerID : Z;
  wkTopic : string;
  wkPartition : Z;
  wkNextOffset : Z;
  wkMaxBatch : Z
}.
Arguments mkWorker {W}.
Arguments wkTransport {W}.
Arguments wkStorage {W}.
Arguments wkFollowerID {W}.
Arguments wkTopic {W}.
Arguments wkPartition {W}.
Arguments wkNextOffset {W}.
Arguments wkMaxBatch {W}.

Section Worker.
Context {W : Type}.
Implicit Types (wk : FollowerWorker W) (w : W).

(** [NewFollowerWorker]; [None] is a nil interface. *)
Definition NewFollowerWorker (cfg : WorkerConfig) (transport : option (Transport W))
    (storage : option (ReplicaStorage W)) : result (FollowerWorker W) :=
  match transport, storage with
  | None, _ => Failure "transport is required"
  | _, None => Failure "storage is required"
  | Some transport, Some storage =>
      if wcFollowerID cfg <=? 0 then Failure "follower id must be > 0"
      else if String.eqb (wcTopic cfg) "" then Failure "topic is required"
      else if wcPartition cfg <? 0 then Failure "partition must be >= 0"
      else if wcStartOffset cfg <? 0 then Failure "start offset must be >= 0"
      else
        let maxBatch := if wcMaxBatch cfg <=? 0 then 100 else wcMaxBatch cfg in
        Success (mkWorker transport storage (wcFollowerID cfg) (wcTopic cfg)
                   (wcPartition cfg) (wcStartOffset cfg) maxBatch)
  end.

Definition with_next wk (next : Z) : FollowerWorker W :=
  mkWorker (wkTransport wk) (wkStorage wk) (wkFollowerID wk) (wkTopic wk) (wkPartition wk) next (wkMaxBatch wk).

(** The loop of [StepOnce] over the fetched records: it stops at the first gap or
    failed append. The result carries [applied], [lastApplied] and the error. *)
Fixpoint apply_records wk w (records : list ReplicationRecord) (applied lastApplied : Z)
    : FollowerWorker W * W * (Z * Z * option string) :=
  match records with
  | [] => (wk, w, (applied, lastApplied, None))
  | record :: rest =>
      if negb (recOffset record =? wkNextOffset wk) then
        (wk, w, (applied, lastApplied,
           Some ("replication gap: expected offset=" +:+ Itoa (wkNextOffset wk)
                 +:+ " got=" +:+ Itoa (recOffset record))))
      else
        match AppendReplicated (wkStorage wk) w (wkTopic wk) (wkPartition wk)
                (recOffset record) (recValue record) with
        | (w', Failure err) => (wk, w', (applied, lastApplied, Some err))
        | (w', Success _) =>
            apply_records (with_next wk (int_add (wkNextOffset wk) 1)) w' rest
              (int_add applied 1) (recOffset record)
        end
  end.

(** [StepOnce]: the number of applied records, and an error if there was one. *)
Definition StepOnce wk w : FollowerWorker W * W * (Z * option string) :=
  match Fetch (wkTransport wk) w (wkTopic wk) (wkPartition wk) (wkFollowerID wk)
          (wkNextOffset wk) (wkMaxBatch wk) with
  | (w1, Failure err) => (wk, w1, (0, Some err))
  | (w1, Success r) =>
      match frRecords r with
      | [] => (wk, w1, (0, None))
      | records =>
          match apply_records wk w1 records 0 (-1) with
          | (wk', w2, (applied, _, Some err)) => (wk', w2, (applied, Some err))
          | (wk', w2, (applied, lastApplied, None)) =>
              if 0 <=? lastApplied then
                match Ack (wkTransport wk) w2 (wkTopic wk) (wkPartition wk) (wkFollowerID wk) lastApplied with
                | (w3, Failure err) => (wk', w3, (applied, Some err))
                | (w3, Success _) => (wk', w3, (applied, None))
                end
              else (wk', w2, (applied, None))
          end
      end
  end.

(** [NextOffset]. *)
Definition NextOffset wk : Z := wkNextOffset wk.

(** Repeated cycles, as the cluster loop runs them while they succeed. *)
Fixpoint StepMany (n : nat) wk w : FollowerWorker W * W :=
  match n with
  | O => (wk, w)
  | S n' => let '(wk', w', _) := StepOnce wk w in StepMany n' wk' w'
  end.
End Worker.

(** ** One cycle, whatever the leader and the store do

    [appends wk w n recs w']: the records follow one another from offset [n] on, and
    appending them one by one takes [w] to [w'] without an error. *)
Section Cycle.
Context {W : Type}.
Implicit Types (wk : FollowerWorker W) (w : W) (recs : list ReplicationRecord).

Inductive appends wk : W -> Z -> list ReplicationRecord -> W -> Prop :=
| appends_nil w n : appends wk w n [] w
| appends_cons w w1 w2 n rec recs :
    recOffset rec = n ->
    AppendReplicated (wkStorage wk) w (wkTopic wk) (wkPartition wk) n (recValue rec) = (w1, Success ()) ->
    appends wk w1 (n + 1) recs w2 -> appends wk w n (rec :: recs) w2.

(** Where a cycle stops early: at offset [n] in world [w], with [w'] as the result. *)
Inductive stopped wk (w : W) (n : Z) (rec : ReplicationRecord) : W -> string -> Prop :=
| stopped_gap : recOffset rec <> n ->
    stopped wk w n rec w ("replication gap: expected offset=" +:+ Itoa n +:+ " got=" +:+ Itoa (recOffset rec))
| stopped_append w' e : recOffset rec = n ->
    AppendReplicated (wkStorage wk) w (wkTopic wk) (wkPartition wk) n (recValue rec) = (w', Failure e) ->
    stopped wk w n rec w' e.

Lemma appends_with_next wk next w n recs w' : appends (with_next wk next) w n recs w' -> appends wk w n recs w'.
Proof. induction 1; econstructor; eauto. Qed.

Lemma stopped_with_next wk next w n rec w' e : stopped (with_next wk next) w n rec w' e -> stopped wk w n rec w' e.
Proof. destruct 1; [by constructor|by eapply stopped_append]. Qed.

(** The loop: it applies a prefix of the records and stops where one does not fit. *)
Lemma apply_records_cases recs : forall wk w a la wk' w' a' la' e,
  0 <= wkNextOffset wk -> wkNextOffset wk + Z.of_nat (length recs) <= int_max ->
  0 <= a -> a + Z.of_nat (length recs) <= int_max ->
  apply_records wk w recs a la = (wk', w', (a', la', e)) ->
  exists good rest w2, recs = good ++ rest /\ appends wk w (wkNextOffset wk) good w2
  /\ wk' = with_next wk (wkNextOffset wk + Z.of_nat (length good)) /\ a' = a + Z.of_nat (length good)
  /\ la' = (if decide (good = []) then la else wkNextOffset wk + Z.of_nat (length good) - 1)
  /\ match rest with
     | [] => e = None /\ w' = w2
     | rec :: _ => exists err, e = Some err
                   /\ stopped wk w2 (wkNextOffset wk + Z.of_nat (length good)) rec w' err
     end.
Proof.
  induction recs as [|rec recs IH]; intros wk w a la wk' w' a' la' e Hn Hmax Ha Hamax; cbn [apply_records].
  { intros [= <- <- <- <- <-]. exists [], [], w. split; [done|]. split; [constructor|]. rewrite !Z.add_0_r.
    split; [by destruct wk|]. by rewrite decide_True. }
  assert (Hstop : forall w1 e1, stopped wk w (wkNextOffset wk) rec w1 e1 ->
    (wk, w1, (a, la, Some e1)) = (wk', w', (a', la', e)) -> exists good rest w2,
    rec :: recs = good ++ rest /\ appends wk w (wkNextOffset wk) good w2
    /\ wk' = with_next wk (wkNextOffset wk + Z.of_nat (length good)) /\ a' = a + Z.of_nat (length good)
    /\ la' = (if decide (good = []) then la else wkNextOffset wk + Z.of_nat (length good) - 1)
    /\ match rest with
       | [] => e = None /\ w' = w2
       | rec :: _ => exists err, e = Some err
                     /\ stopped wk w2 (wkNextOffset wk + Z.of_nat (length good)) rec w' err
       end).
  { intros w1 e1 Hs [= <- <- <- <- <-]. exists [], (rec :: recs), w. split; [done|]. split; [constructor|].
    rewrite !Z.add_0_r. split; [by destruct wk|]. split; [done|]. split; [by rewrite decide_True|]. eauto. }
  simpl length in *. destruct (Z.eqb_spec (recOffset rec) (wkNextOffset wk)) as [Eo|Hne]; cbn [negb];
    [|by apply Hstop; constructor].
  destruct (AppendReplicated _ _ _ _ _ _) as [w1 [[]|e1]] eqn:E1; rewrite Eo in E1;
    [|by apply Hstop; eapply stopped_append].
  rewrite !int_add_id by ints. intros E.
  apply IH in E as (good & rest & w2 & -> & Happ & -> & -> & -> & Hrest);
    cbn [with_next wkNextOffset] in *; [|lia..].
  exists (rec :: good), rest, w2. simpl length. rewrite Nat2Z.inj_succ.
  split; [done|]. split; [econstructor; [done|done|by eapply appends_with_next]|].
  replace (wkNextOffset wk + 1 + Z.of_nat (length good)) with (wkNextOffset wk + Z.succ (Z.of_nat (length good))) in * by lia.
  split; [done|]. split; [lia|]. split; [rewrite (decide_False (P := rec :: good = [])) by done; case_decide; [subst; simpl; lia|lia]|].
  destruct rest; [done|]. destruct Hrest as (err & -> & Hs). exists err. split; [done|]. by eapply stopped_with_next.
Qed.

(** C12: one replication cycle, for every transport and store. A failed or empty fetch
    changes nothing of the worker. Otherwise the worker appends a prefix of the
    fetched records, each one at the offset after the one before, starting at its own
    position, and moves its position past exactly these. If a record does not follow
    or is not accepted, the cycle ends there with that error: later records are not
    tried and nothing is acknowledged. Only when all were appended is the leader told,
    once, the offset of the last one, and the cycle reports that call's error. *)
Theorem StepOnce_spec wk w wk' w' n err w1 r :
  StepOnce wk w = (wk', w', (n, err)) ->
  Fetch (wkTransport wk) w (wkTopic wk) (wkPartition wk) (wkFollowerID wk) (wkNextOffset wk) (wkMaxBatch wk) = (w1, r) ->
  0 <= wkNextOffset wk ->
  match r with
  | Failure e => wk' = wk /\ w' = w1 /\ n = 0 /\ err = Some e
  | Success fr =>
      wkNextOffset wk + Z.of_nat (length (frRecords fr)) <= int_max ->
      exists good rest w2, frRecords fr = good ++ rest /\ appends wk w1 (wkNextOffset wk) good w2
      /\ wk' = with_next wk (wkNextOffset wk + Z.of_nat (length good)) /\ n = Z.of_nat (length good)
      /\ match rest, good with
         | rec :: _, _ => exists e, err = Some e /\ stopped wk w2 (wkNextOffset wk + n) rec w' e
         | [], [] => w' = w1 /\ err = None
         | [], _ :: _ => exists ack,
             Ack (wkTransport wk) w2 (wkTopic wk) (wkPartition wk) (wkFollowerID wk) (wkNextOffset wk + n - 1) = (w', ack)
             /\ err = match ack with Success _ => None | Failure e => Some e end
         end
  end.
Proof.
  intros Hstep Ef Hn. unfold StepOnce in Hstep. rewrite Ef in Hstep.
  destruct r as [fr|e]; [|by injection Hstep as <- <- <- <-]. intros Hmax.
  destruct (frRecords fr) as [|rec recs].
  { injection Hstep as <- <- <- <-. exists [], [], w1. rewrite Z.add_0_r.
    split; [done|]. split; [constructor|]. by destruct wk. }
  destruct (apply_records wk w1 (rec :: recs) 0 (-1)) as [[wk2 w2] [[a la] e]] eqn:E.
  apply apply_records_cases in E as (good & rest & w3 & Eg & Happ & -> & -> & -> & Hrest); [|lia..].
  rewrite Z.add_0_l in Hstep. exists good, rest, w3. rewrite Eg. split; [done|]. split; [done|].
  destruct rest as [|r0 rest].
  - destruct Hrest as [-> ->]. destruct good as [|g good]; [done|]. rewrite decide_False in Hstep by done.
    destruct (Z.leb_spec 0 (wkNextOffset wk + Z.of_nat (length (g :: good)) - 1)) as [_|]; [|simpl length in *; lia].
    destruct (Ack _ _ _ _ _ _) as [w4 [u|e4]] eqn:Ea; (injection Hstep as <- <- <- <-; split; [done|]; split; eauto).
  - destruct Hrest as (e1 & -> & Hs). injection Hstep as <- <- <- <-. split; [done|]. split; [done|]. eauto.
Qed.
End Cycle.

(** ** Witness: the leader sends offsets 0, 1 and 3 *)
Definition gap_records : list ReplicationRecord := [mkRecord 0 "a"; mkRecord 1 "b"; mkRecord 3 "d"].
Definition gap_worker : FollowerWorker (list string) :=
  mkWorker (mkTransport (fun w _ _ _ _ _ => (w, Success (mkFetchResult 3 gap_records)))
                        (fun w _ _ _ _ => (w ++ ["acknowledged"], Success ())))
    (mkReplicaStorage (fun w _ _ _ v => (w ++ [v], Success ()))) 1 "orders" 0 0 100.

(** The first two are stored, the gap is reported, nothing is acknowledged. *)
Lemma StepOnce_spec_witness :
  let '(wk', w', (n, err)) := StepOnce gap_worker [] in
  n = 2 /\ wkNextOffset wk' = 2 /\ w' = ["a"; "b"]
  /\ exists good rec rest e, gap_records = good ++ rec :: rest /\ appends gap_worker [] 0 good w'
      /\ err = Some e /\ stopped gap_worker w' 2 rec w' e.
Proof.
  destruct (StepOnce gap_worker []) as [[wk' w'] [n err]] eqn:E.
  pose proof (StepOnce_spec gap_worker [] wk' w' n err [] (Success (mkFetchResult 3 gap_records)) E eq_refl) as H.
  vm_compute in E. injection E as <- <- <- <-.
  destruct H as (good & rest & w2 & Er & Ha & _ & Hn & Hr); [vm_compute; discriminate|vm_compute; discriminate|].
  destruct rest as [|rec rest].
  { rewrite app_nil_r in Er. cbn [frRecords] in Er. rewrite <- Er in Hn. vm_compute in Hn. discriminate Hn. }
  destruct Hr as (e & He & Hs).
  assert (w2 = ["a"; "b"]) as ->.
  { destruct Hs as [_|w3 e3 _ Hf]; [reflexivity|]. vm_compute in Hf. discriminate Hf. }
  split; [reflexivity|]. split; [reflexivity|]. split; [reflexivity|].
  exists good, rec, rest, e. split; [exact Er|]. split; [exact Ha|]. split; [exact He|exact Hs].
Defined.
