(* ===== verification/Assignors.v ===== *)
(** * Partition assignment: the assignors of internal/coordinator/group.go

    [assignRoundRobinLocked] and [assignRangeLocked] distribute the partitions
    [0 .. numPartitions-1] over the sorted members of a consumer group. Both are
    shown to implement the same contract, [assignment_ok]: every partition has
    exactly one owner, nobody else owns anything, each share is in increasing
    order, and shares differ by at most one. *)
From S2P Require Import Prelude.

Definition assignorRoundRobin : string := "round_robin".
Definition assignorRange : string := "range".

Abbreviation assignment := (gmap string (list Z)).

(** [assignRoundRobinLocked]. The caller passes a non-empty member list, so the
    index is in range. *)
Definition round_robin_step (members : list string) (assignments : assignment) (partition : Z)
    : assignment :=
  match members !! Z.to_nat (Z.rem partition (Z.of_nat (length members))) with
  | Some memberID => <[memberID := default [] (assignments !! memberID) ++ [partition]]> assignments
  | None => assignments
  end.

Definition assignRoundRobinLocked (numPartitions : Z) (members : list string)
    (assignments : assignment) : assignment :=
  fold_left (round_robin_step members) (zrange 0 numPartitions) assignments.

(** [assignRangeLocked]: the loop carries the index and the next start. *)
Fixpoint range_loop (base extra idx start : Z) (members : list string) (assignments : assignment)
    : assignment :=
  match members with
  | [] => assignments
  | memberID :: rest =>
      let count := if idx <? extra then base + 1 else base in
      if count =? 0 then
        range_loop base extra (idx + 1) start rest (<[memberID := []]> assignments)
      else
        range_loop base extra (idx + 1) (start + count) rest
          (<[memberID := zrange start (start + count)]> assignments)
  end.

Definition assignRangeLocked (numPartitions : Z) (members : list string)
    (assignments : assignment) : assignment :=
  let k := Z.of_nat (length members) in
  range_loop (Z.quot numPartitions k) (Z.rem numPartitions k) 0 0 members assignments.

(** [sort.Strings] and the switch of [rebalanceLocked]. *)
Definition assign (numPartitions : Z) (assignor : string) (memberOrder : list string) : assignment :=
  match memberOrder with
  | [] => ∅
  | _ =>
      let members := sort_strings memberOrder in
      if String.eqb assignor assignorRange then assignRangeLocked numPartitions members ∅
      else assignRoundRobinLocked numPartitions members ∅
  end.

(** ** The contract *)
Definition owned (asg : assignment) (m : string) : list Z := default [] (asg !! m).

Record assignment_ok (n : Z) (members : list string) (asg : assignment) : Prop := {
  ao_members : forall m, m ∉ members -> asg !! m = None;
  ao_range : forall m p, p ∈ owned asg m -> 0 <= p < n;
  ao_total : forall p, 0 <= p < n -> exists m, m ∈ members /\ p ∈ owned asg m;
  ao_unique : forall p m m', p ∈ owned asg m -> p ∈ owned asg m' -> m = m';
  ao_sorted : forall m, StronglySorted Z.lt (owned asg m);
  ao_balanced : forall m, m ∈ members ->
    n / Z.of_nat (length members) <= Z.of_nat (length (owned asg m))
      <= n / Z.of_nat (length members) + (if n mod Z.of_nat (length members) =? 0 then 0 else 1)
}.

(** The share of the member at index [i] among [k]. *)
Definition share (n k i : Z) : Z := n / k + (if i <? n mod k then 1 else 0).

(** An assignment given by one slot of partitions per member index meets the
    contract when the slots cover the partitions, are disjoint and sorted, and
    have the right sizes. *)
Lemma slots_ok n members asg (slot : nat -> list Z) :
  NoDup members -> members <> [] -> 0 <= n ->
  (forall m, m ∉ members -> asg !! m = None) ->
  (forall i m, members !! i = Some m -> owned asg m = slot i) ->
  (forall p, 0 <= p < n -> exists i, (i < length members)%nat /\ p ∈ slot i) ->
  (forall i p, (i < length members)%nat -> p ∈ slot i -> 0 <= p < n) ->
  (forall i j p, (i < length members)%nat -> (j < length members)%nat ->
     p ∈ slot i -> p ∈ slot j -> i = j) ->
  (forall i, (i < length members)%nat -> StronglySorted Z.lt (slot i)) ->
  (forall i, (i < length members)%nat ->
     Z.of_nat (length (slot i)) = share n (Z.of_nat (length members)) (Z.of_nat i)) ->
  assignment_ok n members asg.
Proof.
  intros Hnd Hne Hn Hout Hslot Hcover Hrange Hdisj Hsort Hlen.
  assert (forall m p, p ∈ owned asg m -> exists i, members !! i = Some m /\ p ∈ slot i) as Hin.
  { intros m p Hp. destruct (decide (m ∈ members)) as [[i Hi]%list_elem_of_lookup|Hm].
    - exists i. by rewrite <- (Hslot i m).
    - unfold owned in Hp. rewrite Hout in Hp by done. by apply elem_of_nil in Hp. }
  constructor.
  - done.
  - intros m p (i & Hi & Hp)%Hin. apply lookup_lt_Some in Hi. eauto.
  - intros p (i & Hi & Hp)%Hcover. apply lookup_lt_is_Some in Hi as [m Hi].
    exists m. split; [by apply list_elem_of_lookup; exists i|]. by rewrite (Hslot i).
  - intros p m m' (i & Hi & Hp)%Hin (j & Hj & Hp')%Hin.
    assert (i = j) as -> by (eapply Hdisj; eauto using lookup_lt_Some). congruence.
  - intros m. destruct (decide (m ∈ members)) as [[i Hi]%list_elem_of_lookup|Hm].
    + rewrite (Hslot i) by done. eauto using lookup_lt_Some.
    + unfold owned. rewrite Hout by done. constructor.
  - intros m [i Hi]%list_elem_of_lookup. rewrite (Hslot i m Hi). apply lookup_lt_Some in Hi.
    rewrite Hlen by done. unfold share.
    pose proof (Z.mod_pos_bound n (Z.of_nat (length members))).
    destruct (Z.ltb_spec (Z.of_nat i) (n mod Z.of_nat (length members))),
      (Z.eqb_spec (n mod Z.of_nat (length members)) 0); lia.
Qed.

(** ** Round robin *)
Lemma rr_members n members m :
  m ∉ members -> fold_left (round_robin_step members) (zrange 0 n) ∅ !! m = None.
Proof.
  intros Hm. assert (forall l asg, asg !! m = None ->
    fold_left (round_robin_step members) l asg !! m = None) as H.
  { induction l as [|p l IH]; intros asg Ha; [done|]. simpl. apply IH. unfold round_robin_step.
    destruct (members !! _) as [m'|] eqn:E; [|done]. rewrite lookup_insert_ne; [done|].
    intros ->. apply Hm. apply list_elem_of_lookup. eauto. }
  apply H, lookup_empty.
Qed.

Definition rr_slot (n : Z) (k i : nat) : list Z :=
  base.filter (fun p => p mod Z.of_nat k = Z.of_nat i) (zrange 0 n).

Lemma rr_owned members i m n :
  NoDup members -> members !! i = Some m -> 0 <= n ->
  owned (assignRoundRobinLocked n members ∅) m = rr_slot n (length members) i.
Proof.
  intros Hnd Hi Hn. pose proof (lookup_lt_Some _ _ _ Hi) as Hlt. pattern n.
  apply (Zlt_lower_bound_ind _ 0); [|done]. clear n Hn. intros n IH Hn.
  unfold assignRoundRobinLocked, rr_slot in *.
  destruct (decide (n = 0)) as [->|]; [done|].
  replace n with (n - 1 + 1) by lia. rewrite zrange_snoc by lia.
  rewrite fold_left_app, filter_app. specialize (IH (n - 1) ltac:(lia)).
  rewrite <- IH. simpl. unfold round_robin_step at 1. rewrite Z.rem_mod_nonneg by lia.
  pose proof (Z.mod_pos_bound (n - 1) (Z.of_nat (length members)) ltac:(lia)) as Hmod.
  destruct (lookup_lt_is_Some_2 members (Z.to_nat ((n - 1) mod Z.of_nat (length members))))
    as [m' Hm']; [lia|]. rewrite Hm'. unfold owned. rewrite filter_cons. case_decide as E.
  - rewrite E, Nat2Z.id, Hi in Hm'. injection Hm' as <-.
    by rewrite lookup_insert_eq, filter_nil.
  - rewrite lookup_insert_ne; [by rewrite filter_nil, app_nil_r|]. intros ->. apply E.
    pose proof (NoDup_lookup _ _ _ _ Hnd Hi Hm'). lia.
Qed.

Lemma share_step n k i :
  0 <= n -> 0 <= i < k ->
  share (n + 1) k i = share n k i + (if n mod k =? i then 1 else 0).
Proof.
  intros Hn Hi. unfold share.
  pose proof (Z.div_mod n k ltac:(lia)) as E. pose proof (Z.mod_pos_bound n k ltac:(lia)).
  destruct (Z.eqb_spec (n mod k) (k - 1)) as [Ek|Ek].
  - assert ((n + 1) / k = n / k + 1 /\ (n + 1) mod k = 0) as [-> ->].
    { split; symmetry; [apply (Z.div_unique_pos _ _ _ 0)|apply (Z.mod_unique_pos _ _ (n / k + 1))]; nia. }
    destruct (Z.ltb_spec i 0), (Z.ltb_spec i (n mod k)), (Z.eqb_spec (n mod k) i); lia.
  - assert ((n + 1) / k = n / k /\ (n + 1) mod k = n mod k + 1) as [-> ->].
    { split; symmetry; [apply (Z.div_unique_pos _ _ _ (n mod k + 1))|apply (Z.mod_unique_pos _ _ (n / k))]; nia. }
    destruct (Z.ltb_spec i (n mod k + 1)), (Z.ltb_spec i (n mod k)), (Z.eqb_spec (n mod k) i); lia.
Qed.

Lemma rr_slot_length n k i :
  0 <= n -> (i < k)%nat ->
  Z.of_nat (length (rr_slot n k i)) = share n (Z.of_nat k) (Z.of_nat i).
Proof.
  intros Hn Hi. pattern n. apply (Zlt_lower_bound_ind _ 0); [|done]. clear n Hn. intros n IH Hn.
  unfold rr_slot in *. destruct (decide (n = 0)) as [->|].
  { unfold share. rewrite Zdiv_0_l, Zmod_0_l. destruct (Z.ltb_spec (Z.of_nat i) 0); [lia|done]. }
  replace n with (n - 1 + 1) by lia. rewrite zrange_snoc, share_step, <- IH by lia.
  rewrite filter_app, length_app, filter_cons, filter_nil.
  case_decide as E; [rewrite E, Z.eqb_refl|]; simpl; [lia|].
  destruct (Z.eqb_spec ((n - 1) mod Z.of_nat k) (Z.of_nat i)); [done|lia].
Qed.

Lemma StronglySorted_zrange a b : StronglySorted Z.lt (zrange a b).
Proof.
  destruct (Z.le_gt_cases a b) as [Hab|]; [|rewrite zrange_nil by lia; constructor].
  remember (Z.to_nat (b - a)) as d eqn:Hd. revert a Hab Hd.
  induction d as [|d IH]; intros a Hab Hd; [rewrite zrange_nil by lia; constructor|].
  rewrite (zrange_app a (a + 1) b), (zrange_snoc a a), (zrange_nil a a) by lia. simpl.
  constructor; [apply IH; lia|]. apply Forall_forall. intros x Hx%elem_of_zrange. lia.
Qed.

Lemma StronglySorted_filter (P : Z -> Prop) `{!forall x, Decision (P x)} l :
  StronglySorted Z.lt l -> StronglySorted Z.lt (base.filter P l).
Proof.
  induction 1 as [|x l Hl IH Hx]; [constructor|]. rewrite filter_cons. case_decide; [|done].
  constructor; [done|]. apply Forall_forall. intros y Hy%list_elem_of_filter.
  rewrite Forall_forall in Hx. apply Hx. tauto.
Qed.

Lemma round_robin_ok n members :
  NoDup members -> members <> [] -> 0 <= n ->
  assignment_ok n members (assignRoundRobinLocked n members ∅).
Proof.
  intros Hnd Hne Hn. assert (0 < length members)%nat as Hk by (destruct members; simpl; [done|lia]).
  assert (forall i p, p ∈ rr_slot n (length members) i <->
            p mod Z.of_nat (length members) = Z.of_nat i /\ 0 <= p < n) as Hin.
  { intros. unfold rr_slot. by rewrite list_elem_of_filter, elem_of_zrange. }
  apply (slots_ok _ _ _ (rr_slot n (length members))); try done.
  - intros m Hm. by apply rr_members.
  - intros i m Hi. by apply rr_owned.
  - intros p Hp. exists (Z.to_nat (p mod Z.of_nat (length members))). rewrite Hin.
    pose proof (Z.mod_pos_bound p (Z.of_nat (length members))). lia.
  - intros i p _ [_ ?]%Hin. done.
  - intros i j p _ _ [? _]%Hin [? _]%Hin. lia.
  - intros i _. apply StronglySorted_filter, StronglySorted_zrange.
  - intros i Hi. by apply rr_slot_length.
Qed.

(** ** Ranges: member [i] starts at [i * base + min i extra] *)
Definition range_start (base extra i : Z) : Z := i * base + Z.min i extra.

Lemma range_loop_lookup base extra members asg idx m :
  m ∉ members ->
  range_loop base extra idx (range_start base extra idx) members asg !! m = asg !! m.
Proof.
  revert asg idx. generalize (range_start base extra) as st. intros st asg idx.
  generalize (st idx). revert asg idx. induction members as [|x members IH]; intros asg idx s Hm; [done|].
  apply not_elem_of_cons in Hm as [Hx Hm]. cbn [range_loop].
  destruct (_ =? 0); rewrite IH by done; by rewrite lookup_insert_ne by done.
Qed.

Lemma range_loop_spec base extra members asg idx i m :
  NoDup members -> members !! i = Some m -> 0 <= base -> 0 <= idx ->
  range_loop base extra idx (range_start base extra idx) members asg !! m
  = Some (zrange (range_start base extra (idx + Z.of_nat i))
                 (range_start base extra (idx + Z.of_nat i + 1))).
Proof.
  intros Hnd. revert asg idx i. induction Hnd as [|x members Hx Hnd IH]; intros asg idx i Hi Hb Hidx; [done|].
  cbn [range_loop]. set (c := if idx <? extra then base + 1 else base).
  assert (range_start base extra (idx + 1) = range_start base extra idx + c) as Hstart.
  { unfold range_start, c. destruct (Z.ltb_spec idx extra); lia. }
  destruct i as [|i]; simpl in Hi.
  - injection Hi as <-. rewrite Z.add_0_r, Hstart. destruct (Z.eqb_spec c 0) as [Ec|].
    + pose proof (range_loop_lookup base extra members (<[x:=[]]> asg) (idx + 1) x Hx) as L.
      rewrite Hstart, Ec, Z.add_0_r in L. rewrite L, lookup_insert_eq.
      rewrite Ec, zrange_nil by lia. done.
    + rewrite <- Hstart, range_loop_lookup by done. by rewrite lookup_insert_eq.
  - specialize (IH (if c =? 0 then <[x:=[]]> asg
      else <[x:=zrange (range_start base extra idx) (range_start base extra idx + c)]> asg)
      (idx + 1) i Hi Hb ltac:(lia)).
    replace (idx + Z.of_nat (S i)) with (idx + 1 + Z.of_nat i) by lia. rewrite <- IH, Hstart.
    destruct (Z.eqb_spec c 0) as [Ec|]; [by rewrite Ec, Z.add_0_r|done].
Qed.

Lemma range_start_mono base extra i j :
  0 <= base -> i <= j -> range_start base extra i <= range_start base extra j.
Proof. unfold range_start. nia. Qed.

Lemma range_ok n members :
  NoDup members -> members <> [] -> 0 <= n ->
  assignment_ok n members (assignRangeLocked n members ∅).
Proof.
  intros Hnd Hne Hn. assert (0 < length members)%nat as Hk by (destruct members; simpl; [done|lia]).
  unfold assignRangeLocked. rewrite Z.quot_div_nonneg, Z.rem_mod_nonneg by lia.
  set (k := Z.of_nat (length members)). set (b := n / k). set (e := n mod k).
  assert (0 <= b) by (apply Z.div_pos; lia).
  pose proof (Z.mod_pos_bound n k ltac:(lia)) as He. fold e in He.
  pose proof (Z.div_mod n k ltac:(lia)) as Hdm. fold b e in Hdm.
  assert (range_start b e k = n) as Hend by (unfold range_start; lia).
  set (slot := fun i : nat => zrange (range_start b e (Z.of_nat i)) (range_start b e (Z.of_nat i + 1))).
  assert (range_start b e 0 = 0) as H0 by (unfold range_start; lia).
  apply (slots_ok _ _ _ slot); try done.
  - intros m Hm. rewrite <- H0 at 2. rewrite range_loop_lookup by done. apply lookup_empty.
  - intros i m Hi. unfold owned. rewrite <- H0 at 2.
    rewrite (range_loop_spec _ _ _ _ _ i) by (done || lia). done.
  - intros p Hp. assert (forall j : nat, p < range_start b e (Z.of_nat j) ->
      exists i, (i < j)%nat /\ p ∈ slot i) as Hfind.
    { induction j as [|j IHj]; intros Hj; [change (Z.of_nat 0) with 0 in Hj; lia|].
      destruct (Z.lt_ge_cases p (range_start b e (Z.of_nat j))) as [Hlt|Hge].
      - destruct (IHj Hlt) as (i & ? & ?). exists i. split; [lia|done].
      - exists j. split; [lia|]. unfold slot. apply elem_of_zrange.
        replace (Z.of_nat j + 1) with (Z.of_nat (S j)) by lia. lia. }
    apply Hfind. fold k. lia.
  - intros i p Hi Hp%elem_of_zrange.
    pose proof (range_start_mono b e 0 (Z.of_nat i)). pose proof (range_start_mono b e (Z.of_nat i + 1) k). lia.
  - intros i j p _ _ Hp%elem_of_zrange Hq%elem_of_zrange. destruct (lt_eq_lt_dec i j) as [[?|?]|?]; [|done|].
    + pose proof (range_start_mono b e (Z.of_nat i + 1) (Z.of_nat j)). lia.
    + pose proof (range_start_mono b e (Z.of_nat j + 1) (Z.of_nat i)). lia.
  - intros i _. apply StronglySorted_zrange.
  - intros i Hi. unfold slot. rewrite length_zrange. unfold share. fold k b e. unfold range_start.
    destruct (Z.ltb_spec (Z.of_nat i) e); lia.
Qed.

Lemma assignment_ok_perm n l1 l2 asg : l1 ≡ₚ l2 -> assignment_ok n l1 asg -> assignment_ok n l2 asg.
Proof.
  intros HP [Hm Hr Ht Hu Hs Hb]. constructor; try done.
  - intros m. rewrite <- HP. apply Hm.
  - intros p Hp. destruct (Ht p Hp) as (m & ? & ?). exists m. by rewrite <- HP.
  - intros m. rewrite <- HP. apply Hb.
Qed.

Lemma assign_ok n assignor order :
  NoDup order -> order <> [] -> 0 <= n -> assignment_ok n order (assign n assignor order).
Proof.
  intros Hnd Hne Hn. pose proof (sort_strings_perm order) as HP.
  apply (assignment_ok_perm _ _ _ _ HP).
  assert (NoDup (sort_strings order)) by (by rewrite HP).
  assert (sort_strings order <> []) as Hs.
  { intros E. rewrite E in HP. by apply Permutation_nil in HP. }
  unfold assign. destruct order; [done|].
  case_match; [by apply range_ok|by apply round_robin_ok].
Qed.

(** C21: partition assignment. Whatever the assignor, the partitions
    [0 .. n-1] are divided among the members of a non-empty group: each has
    exactly one owner, only members own anything, every share is listed in
    increasing order, and shares differ in size by at most one. *)
Theorem assign_exactly_once n assignor order :
  NoDup order -> order <> [] -> 0 <= n ->
  let asg := assign n assignor order in
  (forall p, 0 <= p < n -> exists! m, p ∈ owned asg m)
  /\ (forall m p, p ∈ owned asg m -> m ∈ order /\ 0 <= p < n)
  /\ (forall m, StronglySorted Z.lt (owned asg m))
  /\ (forall m m', m ∈ order -> m' ∈ order ->
        Z.of_nat (length (owned asg m)) <= Z.of_nat (length (owned asg m')) + 1).
Proof.
  intros Hnd Hne Hn asg. destruct (assign_ok n assignor order Hnd Hne Hn) as [Hm Hr Ht Hu Hs Hb].
  fold asg in Hm, Hr, Ht, Hu, Hs, Hb. split_and!.
  - intros p Hp. destruct (Ht p Hp) as (m & ? & Hpm). exists m. split; [done|]. intros; by eapply Hu.
  - intros m p Hp. split; [|by eapply Hr]. destruct (decide (m ∈ order)); [done|].
    unfold owned in Hp. rewrite Hm in Hp by done. by apply elem_of_nil in Hp.
  - done.
  - intros m m' H1%Hb H2%Hb. case_match; lia.
Qed.

Lemma assign_exactly_once_witness :
  exists! m, 3 ∈ owned (assign 5 assignorRange ["c2"; "c1"]) m.
Proof.
  apply (assign_exactly_once 5 assignorRange ["c2"; "c1"]); [|discriminate|lia|lia].
  apply NoDup_cons. split; [|apply NoDup_singleton].
  intros H. apply list_elem_of_singleton in H. discriminate H.
Defined.
