(* ===== verification/Persist.v ===== *)
(** * JSON state files with faults

    The coordinator keeps [groups.json] and [offsets.json]: each save rewrites the
    whole file ([os.MkdirAll], [os.Create], [json.Encoder.Encode]) and only logs
    failures; each start reads it back. The encoding is a parameter (class
    [Json]): [decode] into an empty value returns what was filled in and whether
    there was no error, and [JsonLaws] states the documented round trip for the
    values that JSON represents. A save may fail in three ways: before the file
    is touched ([MkdirAll] or [Create] fails), or after [Create] truncated it. *)
From S2P Require Import Prelude.

Class Json (A : Type) := {
  text : Type;
  encode : A -> text;
  decode : text -> A * bool
}.
Arguments text A {_}.

(** [representable]: the values JSON writes and reads back unchanged (strings
    that are valid UTF-8, say). *)
Class JsonLaws (A : Type) `{Json A} := {
  representable : A -> Prop;
  decode_encode : forall a, representable a -> decode (encode a) = (a, true)
}.

(** A fault of one save: nothing was written, or the file was left torn. *)
Inductive save_fault (T : Type) : Type :=
| NotWritten
| Torn (t : T).
Arguments NotWritten {T}.
Arguments Torn {T} t.

(** One file and the faults of the coming saves ([None]: no fault). *)
Record Disk (T : Type) := mkDisk {
  file : option T;
  faults : list (option (save_fault T))
}.
Arguments mkDisk {T}.
Arguments file {T}.
Arguments faults {T}.

Definition save_file {T : Type} (d : Disk T) (new : T) : Disk T :=
  match faults d with
  | [] => mkDisk (Some new) []
  | None :: rest => mkDisk (Some new) rest
  | Some NotWritten :: rest => mkDisk (file d) rest
  | Some (Torn t) :: rest => mkDisk (Some t) rest
  end.

(** A torn file is no JSON document: reading it reports an error. *)
Definition torn_ok {A : Type} `{Json A} (d : Disk (text A)) : Prop :=
  Forall (fun f => forall l, f = Some (Torn l) -> (decode l).2 = false) (faults d).

Lemma torn_ok_save {A : Type} `{Json A} (d : Disk (text A)) new :
  torn_ok d -> torn_ok (save_file d new).
Proof.
  unfold torn_ok, save_file. destruct d as [fl [|[[|l]|] rest]]; simpl; intros Hd;
    try done; by apply Forall_cons in Hd as [_ Hd].
Qed.

(** What the file holds after a save: the new text, the old one, or a torn one. *)
Lemma save_file_cases {A : Type} `{Json A} (d : Disk (text A)) new :
  torn_ok d ->
  file (save_file d new) = Some new \/ file (save_file d new) = file d
  \/ exists l, file (save_file d new) = Some l /\ (decode l).2 = false.
Proof.
  unfold torn_ok, save_file. destruct d as [fl [|[[|l]|] rest]]; simpl; intros Hd; auto.
  right; right. apply Forall_cons in Hd as [Hl _]. eauto.
Qed.

(** A codec that stores the value itself, for examples. *)
Definition value_json {A : Type} (empty : A) : Json A :=
  {| text := option A; encode := Some;
     decode := fun t => match t with Some a => (a, true) | None => (empty, false) end |}.

Definition value_json_laws {A : Type} (empty : A) : @JsonLaws A (value_json empty).
Proof. by refine {| representable := fun _ : A => True : Prop |}. Defined.
