(* ===== verification/Groups.v ===== *)
(** * Consumer groups: internal/coordinator/group.go

    The group manager keeps one [ConsumerGroup] per name: its members with their
    last heartbeats, the order they joined in, the generation and the current
    assignment; every change is saved to [groups.json]. Operations run under one
    mutex, so each is one step; the clock readings an operation makes are its
    arguments. The theorems: the assignment always is the assignor's for the
    current members, so partitions have exactly one owner; a generation number
    identifies a topic, a member list and an assignment; commits are fenced;
    expired members lose their partitions; saving and loading is a round trip up
    to milliseconds. *)
From S2P Require Import Prelude GoStrings Assignors Persist.

Module Groups.

(** [JoinResult], [GroupMember], [ConsumerGroup]. *)
Record JoinResult := mkJoinResult { Generation : Z; Assigned : list Z }.
Record GroupMember := mkMember { consumerID : string; lastHeartbeat : Z }.
Record ConsumerGroup := mkGroup {
  name : string;
  topic : string;
  generation : Z;
  assignor : string;
  members : gmap string GroupMember;
  memberOrder : list string;
  assignments : gmap string (list Z)
}.

(** [persistedGroupMember] and [persistedGroupState]. *)
Record persistedGroupMember := mkPersistedMember { pmConsumerID : string; pmLastHeartbeat : Z }.
Record persistedGroupState := mkPersisted {
  psTopic : string;
  psGeneration : Z;
  psAssignor : string;
  psMemberOrder : list string;
  psAssignments : gmap string (list Z);
  psMembers : list persistedGroupMember
}.

Abbreviation persisted_groups := (gmap string persistedGroupState).

(** Setters for the fields the code assigns. *)
Definition set_members (g : ConsumerGroup) m : ConsumerGroup :=
  mkGroup (name g) (topic g) (generation g) (assignor g) m (memberOrder g) (assignments g).
Definition set_order (g : ConsumerGroup) o : ConsumerGroup :=
  mkGroup (name g) (topic g) (generation g) (assignor g) (members g) o (assignments g).
Definition set_assignments (g : ConsumerGroup) a : ConsumerGroup :=
  mkGroup (name g) (topic g) (generation g) (assignor g) (members g) (memberOrder g) a.
Definition set_assignor (g : ConsumerGroup) a : ConsumerGroup :=
  mkGroup (name g) (topic g) (generation g) a (members g) (memberOrder g) (assignments g).
Definition bump (g : ConsumerGroup) : ConsumerGroup :=
  mkGroup (name g) (topic g) (int_add (generation g) 1) (assignor g) (members g)
    (memberOrder g) (assignments g).
Definition touch (g : ConsumerGroup) (id : string) (now : Z) : ConsumerGroup :=
  set_members g (alter (fun m => mkMember (consumerID m) now) id (members g)).

Section Manager.
Context `{J : Json persisted_groups}.

(** [GroupManager], with the file [groups.json] of its data directory. *)
Record GroupManager := mkManager {
  numPartitions : Z;
  sessionTimeout : Z;
  groups : gmap string ConsumerGroup;
  disk : Disk (text persisted_groups)
}.

Definition put (gm : GroupManager) (groupName : string) (g : ConsumerGroup) : GroupManager :=
  mkManager (numPartitions gm) (sessionTimeout gm) (<[groupName := g]> (groups gm)) (disk gm).

(** What [saveLocked] writes for one group. *)
Definition persist_member (g : ConsumerGroup) (memberID : string) : list persistedGroupMember :=
  match members g !! memberID with
  | None => []
  | Some m => [mkPersistedMember (consumerID m) (UnixMilli (lastHeartbeat m))]
  end.

Definition persist_group (g : ConsumerGroup) : persistedGroupState :=
  mkPersisted (topic g) (generation g) (assignor g) (memberOrder g) (assignments g)
    (mjoin (map (persist_member g) (memberOrder g))).

(** [saveLocked]. *)
Definition saveLocked (gm : GroupManager) : GroupManager :=
  mkManager (numPartitions gm) (sessionTimeout gm) (groups gm)
    (save_file (disk gm) (encode (persist_group <$> groups gm))).

(** What [load] makes of one persisted group. *)
Definition load_members (l : list persistedGroupMember) : gmap string GroupMember :=
  fold_left (fun acc pm => <[pmConsumerID pm :=
    mkMember (pmConsumerID pm) (time_of_UnixMilli (pmLastHeartbeat pm))]> acc) l ∅.

Definition load_group (nm : string) (st : persistedGroupState) : ConsumerGroup :=
  mkGroup nm (psTopic st)
    (if psGeneration st <=? 0 then 1 else psGeneration st)
    (if String.eqb (psAssignor st) "" then assignorRoundRobin else psAssignor st)
    (load_members (psMembers st)) (psMemberOrder st) (psAssignments st).

(** [load]. *)
Definition load (gm : GroupManager) : GroupManager :=
  match file (disk gm) with
  | None => gm
  | Some t =>
      match decode t with
      | (_, false) => gm
      | (persisted, true) =>
          mkManager (numPartitions gm) (sessionTimeout gm)
            (map_imap (fun nm st => Some (load_group nm st)) persisted ∪ groups gm) (disk gm)
      end
  end.

(** [NewGroupManager]. *)
Definition NewGroupManager (numPartitions : Z) (disk : Disk (text persisted_groups)) : GroupManager :=
  load (mkManager numPartitions (10 * Second) ∅ disk).

(** [rebalanceLocked]. *)
Definition rebalanceLocked (gm : GroupManager) (g : ConsumerGroup) : ConsumerGroup :=
  set_assignments g (assign (numPartitions gm) (assignor g) (memberOrder g)).

(** [ensureGroupLocked]. *)
Definition ensureGroupLocked (gm : GroupManager) (groupName topicName assignorName : string)
    : GroupManager * ConsumerGroup :=
  match groups gm !! groupName with
  | None =>
      let assignorName := if String.eqb assignorName "" then assignorRoundRobin else assignorName in
      let group := mkGroup groupName topicName 1 assignorName ∅ [] ∅ in
      (put gm groupName group, group)
  | Some group =>
      let group :=
        if negb (String.eqb (topic group) topicName) then
          bump (mkGroup (name group) topicName (generation group) (assignor group) ∅ [] ∅)
        else group in
      let group :=
        if negb (String.eqb assignorName "") && negb (String.eqb assignorName (assignor group)) then
          rebalanceLocked gm (bump (set_assignor group assignorName))
        else group in
      (put gm groupName group, group)
  end.

(** The loop of [cleanupExpiredLocked] over [memberOrder]: the members still
    active, in order, and whether one was removed. *)
Fixpoint expire (timeout now : Z) (order : list string) (g : ConsumerGroup)
    : ConsumerGroup * list string * bool :=
  match order with
  | [] => (g, [], false)
  | memberID :: rest =>
      match members g !! memberID with
      | None =>
          let '(g, active, _) := expire timeout now rest g in (g, active, true)
      | Some member =>
          if timeout <? time_sub now (lastHeartbeat member) then
            let g := set_assignments (set_members g (delete memberID (members g)))
                       (delete memberID (assignments g)) in
            let '(g, active, _) := expire timeout now rest g in (g, active, true)
          else
            let '(g, active, removed) := expire timeout now rest g in
            (g, memberID :: active, removed)
      end
  end.

(** [cleanupExpiredLocked]. *)
Definition cleanupExpiredLocked (gm : GroupManager) (groupName : string) (g : ConsumerGroup)
    (now : Z) : GroupManager * ConsumerGroup :=
  let '(g, active, removed) := expire (sessionTimeout gm) now (memberOrder g) g in
  let g := set_order g active in
  if removed then
    let g := rebalanceLocked gm (bump g) in
    (saveLocked (put gm groupName g), g)
  else (put gm groupName g, g).

(** [JoinGroup]. *)
Definition JoinGroup (gm : GroupManager) (groupName topicName consumer assignorName : string) (now : Z)
    : GroupManager * JoinResult :=
  let '(gm, group) := ensureGroupLocked gm groupName topicName assignorName in
  let '(gm, group) := cleanupExpiredLocked gm groupName group now in
  let group :=
    match members group !! consumer with
    | None =>
        let group := set_order group (memberOrder group ++ [consumer]) in
        let group := set_members group (<[consumer := mkMember consumer now]> (members group)) in
        rebalanceLocked gm (bump group)
    | Some _ => touch group consumer now
    end in
  let gm := saveLocked (put gm groupName group) in
  (gm, mkJoinResult (generation group) (default [] (assignments group !! consumer))).

(** The checks the other operations start with: the group exists for the topic,
    expired members go, the generation is current and the caller is a member. *)
Definition check_member (gm : GroupManager) (groupName topicName consumer : string) (gen now : Z)
    : GroupManager * result ConsumerGroup :=
  match groups gm !! groupName with
  | None => (gm, Failure "group not found")
  | Some group =>
      if negb (String.eqb (topic group) topicName) then (gm, Failure "group not found")
      else
        let '(gm, group) := cleanupExpiredLocked gm groupName group now in
        if negb (gen =? generation group) then (gm, Failure "stale generation")
        else match members group !! consumer with
             | None => (gm, Failure "unknown member")
             | Some _ => (gm, Success group)
             end
  end.

(** [LeaveGroup]. *)
Definition LeaveGroup (gm : GroupManager) (groupName topicName consumer : string) (gen now : Z)
    : GroupManager * result unit :=
  match check_member gm groupName topicName consumer gen now with
  | (gm, Failure e) => (gm, Failure e)
  | (gm, Success group) =>
      let group := set_members group (delete consumer (members group)) in
      let group := set_assignments group (delete consumer (assignments group)) in
      let group := set_order group (base.filter (fun id => id <> consumer) (memberOrder group)) in
      let group := rebalanceLocked gm (bump group) in
      (saveLocked (put gm groupName group), Success ())
  end.

(** [SyncGroup]: the clock is read once for expiry and once for the heartbeat. *)
Definition SyncGroup (gm : GroupManager) (groupName topicName consumer : string) (gen now now2 : Z)
    : GroupManager * result JoinResult :=
  match check_member gm groupName topicName consumer gen now with
  | (gm, Failure e) => (gm, Failure e)
  | (gm, Success group) =>
      let group := touch group consumer now2 in
      (saveLocked (put gm groupName group),
       Success (mkJoinResult (generation group) (default [] (assignments group !! consumer))))
  end.

(** [Heartbeat]. *)
Definition Heartbeat (gm : GroupManager) (groupName topicName consumer : string) (gen now now2 : Z)
    : GroupManager * result unit :=
  match check_member gm groupName topicName consumer gen now with
  | (gm, Failure e) => (gm, Failure e)
  | (gm, Success group) =>
      (saveLocked (put gm groupName (touch group consumer now2)), Success ())
  end.

(** [ValidateCommit]. *)
Definition ValidateCommit (gm : GroupManager) (groupName topicName consumer : string)
    (gen partition now : Z) : GroupManager * result unit :=
  match check_member gm groupName topicName consumer gen now with
  | (gm, Failure e) => (gm, Failure e)
  | (gm, Success group) =>
      if bool_decide (partition ∈ default [] (assignments group !! consumer))
      then (gm, Success ())
      else (gm, Failure "partition not assigned to member")
  end.
End Manager.

(** ** The invariant of a group *)
Record group_ok (n : Z) (g : ConsumerGroup) : Prop := {
  go_nodup : NoDup (memberOrder g);
  go_dom : forall id, id ∈ memberOrder g <-> is_Some (members g !! id);
  go_ids : forall id m, members g !! id = Some m -> consumerID m = id;
  go_assign : assignments g = assign n (assignor g) (memberOrder g)
}.

(** A member is alive when its last heartbeat is within the session timeout. *)
Definition alive (timeout now : Z) (ms : gmap string GroupMember) (id : string) : bool :=
  match ms !! id with
  | None => false
  | Some m => negb (timeout <? time_sub now (lastHeartbeat m))
  end.

Lemma alive_delete timeout now ms id x :
  x <> id -> alive timeout now (delete id ms) x = alive timeout now ms x.
Proof. intros Hx. unfold alive. by rewrite lookup_delete_ne. Qed.

(** Nothing removed: nothing changed. *)
Lemma expire_none timeout now order g g' active :
  expire timeout now order g = (g', active, false) -> g' = g /\ active = order.
Proof.
  revert g g' active. induction order as [|id order IH]; intros g g' active; simpl;
    [by intros [= <- <-]|].
  destruct (members g !! id) as [m|].
  - destruct (timeout <? _); [by destruct (expire _ _ _ _) as [[] ?]|].
    destruct (expire timeout now order g) as [[g1 a1] r1] eqn:E. intros [= <- <- ->].
    apply IH in E as [-> ->]. done.
  - by destruct (expire _ _ _ _) as [[] ?].
Qed.

(** The other fields are not touched by the loop. *)
Lemma expire_frame timeout now order g g' active r :
  expire timeout now order g = (g', active, r) ->
  name g' = name g /\ topic g' = topic g /\ generation g' = generation g
  /\ assignor g' = assignor g.
Proof.
  revert g g' active r. induction order as [|id order IH]; intros g g' active r; simpl;
    [by intros [= <- <- <-]|].
  destruct (members g !! id) as [m|].
  - destruct (timeout <? _).
    + destruct (expire timeout now order _) as [[g1 a1] r1] eqn:E. intros [= <- <- <-].
      by apply IH in E.
    + destruct (expire timeout now order g) as [[g1 a1] r1] eqn:E. intros [= <- <- <-].
      by apply IH in E.
  - destruct (expire timeout now order g) as [[g1 a1] r1] eqn:E. intros [= <- <- <-].
    by apply IH in E.
Qed.

(** The loop keeps the live members, in order, and forgets the others. *)
Lemma expire_spec timeout now order g g' active r :
  NoDup order -> expire timeout now order g = (g', active, r) ->
  active = List.filter (alive timeout now (members g)) order
  /\ (forall id, members g' !! id
        = if decide (id ∈ order /\ alive timeout now (members g) id = false) then None
          else members g !! id)
  /\ r = negb (forallb (alive timeout now (members g)) order).
Proof.
  intros Hnd. revert g g' active r. induction Hnd as [|id order Hid Hnd IH];
    intros g g' active r; simpl.
  { by intros [= <- <- <-]. }
  destruct (members g !! id) as [m|] eqn:Em; [destruct (timeout <? _) eqn:Et|].
  - destruct (expire timeout now order _) as [[g1 a1] r1] eqn:E. intros [= <- <- <-].
    apply IH in E as (-> & Hm & _). cbn [set_assignments set_members members] in *.
    assert (alive timeout now (members g) id = false) as Ha by (unfold alive; by rewrite Em, Et).
    rewrite Ha. split_and!; [|intros x; rewrite Hm|done].
    + apply List.filter_ext_in. intros x Hx. apply alive_delete. intros ->.
      by apply list_elem_of_In in Hx.
    + destruct (decide (x = id)) as [->|Hne].
      * rewrite lookup_delete_eq. destruct (decide (id ∈ id :: order /\ _)) as [|N]; [by case_decide|].
        exfalso. apply N. split; [left|done].
      * rewrite alive_delete, lookup_delete_ne by done.
        apply decide_ext. rewrite elem_of_cons. split; [tauto|]. intros [[->|?] ?]; [congruence|tauto].
  - destruct (expire timeout now order g) as [[g1 a1] r1] eqn:E. intros [= <- <- <-].
    apply IH in E as (-> & Hm & ->).
    assert (alive timeout now (members g) id = true) as Ha by (unfold alive; by rewrite Em, Et).
    rewrite Ha. split_and!; [done|intros x; rewrite Hm|done].
    apply decide_ext. rewrite elem_of_cons. split; [tauto|]. intros [[->|?] ?]; [congruence|tauto].
  - destruct (expire timeout now order g) as [[g1 a1] r1] eqn:E. intros [= <- <- <-].
    apply IH in E as (-> & Hm & _).
    assert (alive timeout now (members g) id = false) as Ha by (unfold alive; by rewrite Em).
    rewrite Ha. split_and!; [done|intros x; rewrite Hm|done].
    destruct (decide (x = id)) as [->|Hne].
    + rewrite Em. by repeat case_decide.
    + apply decide_ext. rewrite elem_of_cons. split; [tauto|]. intros [[->|?] ?]; [congruence|tauto].
Qed.

(** ** Every change of a group keeps its invariant *)
Lemma assign_nil n a : assign n a [] = ∅.
Proof. done. Qed.

Lemma empty_group_ok n nm tp gen a : group_ok n (mkGroup nm tp gen a ∅ [] ∅).
Proof.
  constructor; simpl; [constructor| | |done].
  - intros id. rewrite lookup_empty. split; [by intros ?%elem_of_nil|by intros [? ?]].
  - intros id m. by rewrite lookup_empty.
Qed.

Lemma bump_ok n g : group_ok n g -> group_ok n (bump g).
Proof. by intros [? ? ? ?]. Qed.

Lemma touch_ok n g id now : group_ok n g -> group_ok n (touch g id now).
Proof.
  intros [Hnd Hdom Hids Has]. constructor; cbn [touch set_members members memberOrder assignments assignor]; try done.
  - intros x. rewrite Hdom. destruct (decide (x = id)) as [->|].
    + rewrite lookup_alter_eq. by rewrite fmap_is_Some.
    + by rewrite lookup_alter_ne.
  - intros x m. destruct (decide (x = id)) as [->|].
    + rewrite lookup_alter_eq. destruct (members g !! id) eqn:E; [|done].
      intros [= <-]. simpl. by apply Hids.
    + rewrite lookup_alter_ne by done. apply Hids.
Qed.

Section ManagerSpec.
Context `{J : Json persisted_groups}.
Implicit Types gm : GroupManager.

(** A rebalance restores the last clause whatever happened to the members. *)
Lemma rebalance_ok gm g :
  NoDup (memberOrder g) -> (forall id, id ∈ memberOrder g <-> is_Some (members g !! id)) ->
  (forall id m, members g !! id = Some m -> consumerID m = id) ->
  group_ok (numPartitions gm) (rebalanceLocked gm g).
Proof. intros. by constructor. Qed.

(** The group after a cleanup at [now]: the live members in order; unchanged when
    everybody is alive, otherwise one generation later. *)
Lemma cleanup_spec gm nm g now gm' g' :
  group_ok (numPartitions gm) g ->
  cleanupExpiredLocked gm nm g now = (gm', g') ->
  (gm' = put gm nm g' \/ gm' = saveLocked (put gm nm g'))
  /\ group_ok (numPartitions gm) g'
  /\ name g' = name g /\ topic g' = topic g /\ assignor g' = assignor g
  /\ memberOrder g' = List.filter (alive (sessionTimeout gm) now (members g)) (memberOrder g)
  /\ (forall id m, members g' !! id = Some m <->
        members g !! id = Some m /\ alive (sessionTimeout gm) now (members g) id = true)
  /\ (g' = g \/ generation g' = int_add (generation g) 1).
Proof.
  intros [Hnd Hdom Hids Has] Hc. unfold cleanupExpiredLocked in Hc.
  destruct (expire (sessionTimeout gm) now (memberOrder g) g) as [[g1 active] removed] eqn:E.
  pose proof (expire_spec _ _ _ _ _ _ _ Hnd E) as (Ha & Hm & Hr).
  pose proof (expire_frame _ _ _ _ _ _ _ E) as (Hn & Ht & Hg & Hasr).
  assert (forall id m, members g1 !! id = Some m <->
    members g !! id = Some m /\ alive (sessionTimeout gm) now (members g) id = true) as Hlook.
  { intros id m. rewrite Hm. case_decide as D.
    - split; [done|]. intros [_ D']. destruct D as [_ D]. congruence.
    - split; [|tauto]. intros Hid. split; [done|].
      destruct (alive _ _ _ id) eqn:Al; [done|]. exfalso. apply D. split; [|done].
      apply Hdom. by rewrite Hid. }
  destruct removed.
  - injection Hc as <- <-. split; [by right|]. split.
    { apply rebalance_ok; cbn [bump set_order memberOrder members].
      - rewrite Ha. rewrite NoDup_ListNoDup in Hnd |- *. by apply List.NoDup_filter.
      - intros id. rewrite Ha, list_elem_of_In, List.filter_In, <- list_elem_of_In, Hdom. split.
        + intros [[m Hid] Al]. exists m. by apply Hlook.
        + intros [m [Hid Al]%Hlook]. by split; [exists m|].
      - intros id m [Hid _]%Hlook. by apply Hids. }
    cbn [rebalanceLocked bump set_order set_assignments memberOrder members name topic assignor generation].
    rewrite Hn, Ht, Hasr, Hg. split_and!; auto.
  - apply expire_none in E as [-> ->]. injection Hc as <- <-.
    assert (set_order g (memberOrder g) = g) as -> by (by destruct g).
    split; [by left|]. split_and!; auto. done.
Qed.

(** ** Saving and loading *)

(** Heartbeats as the file keeps them: whole milliseconds. *)
Definition trunc_member (m : GroupMember) : GroupMember :=
  mkMember (consumerID m) (time_of_UnixMilli (UnixMilli (lastHeartbeat m))).
Definition trunc_group (g : ConsumerGroup) : ConsumerGroup :=
  set_members g (trunc_member <$> members g).

Lemma load_members_fold g order (acc : gmap string GroupMember) id :
  NoDup order -> (forall x m, members g !! x = Some m -> consumerID m = x) ->
  fold_left (fun acc pm => <[pmConsumerID pm :=
      mkMember (pmConsumerID pm) (time_of_UnixMilli (pmLastHeartbeat pm))]> acc)
    (mjoin (map (persist_member g) order)) acc !! id
  = match (if decide (id ∈ order) then members g !! id else None) with
    | Some m => Some (trunc_member m)
    | None => acc !! id
    end.
Proof.
  intros Hnd Hids. revert acc. induction Hnd as [|x order Hx Hnd IH]; intros acc; [done|].
  cbn [map mjoin list_join]. unfold persist_member at 1. destruct (members g !! x) as [m|] eqn:Em.
  - cbn [app fold_left]. rewrite IH. cbn [pmConsumerID pmLastHeartbeat].
    pose proof (Hids _ _ Em) as Hc. rewrite Hc. destruct (decide (id = x)) as [->|Hne].
    + rewrite (decide_False (P := x ∈ order)), lookup_insert_eq by done.
      rewrite (decide_True (P := x ∈ x :: order)) by left. rewrite Em.
      unfold trunc_member. by rewrite Hc.
    + rewrite lookup_insert_ne by done. erewrite (decide_ext (id ∈ order) (id ∈ x :: order));
        [done|]. rewrite elem_of_cons. tauto.
  - cbn [app]. rewrite IH. destruct (decide (id = x)) as [->|Hne].
    + rewrite Em. by repeat case_decide.
    + erewrite (decide_ext (id ∈ order) (id ∈ x :: order)); [done|]. rewrite elem_of_cons. tauto.
Qed.

Lemma load_persist_members n g :
  group_ok n g -> load_members (psMembers (persist_group g)) = trunc_member <$> members g.
Proof.
  intros [Hnd Hdom Hids _]. apply map_eq. intros id. cbn [persist_group psMembers].
  unfold load_members. rewrite load_members_fold, lookup_fmap, lookup_empty by done.
  case_decide as D; [by destruct (members g !! id)|].
  destruct (members g !! id) eqn:E; [|done]. exfalso. apply D, Hdom. by rewrite E.
Qed.

Lemma trunc_group_ok n g : group_ok n g -> group_ok n (trunc_group g).
Proof.
  intros [Hnd Hdom Hids Has]. constructor;
    cbn [trunc_group set_members members memberOrder assignments assignor]; try done.
  - intros id. rewrite lookup_fmap, fmap_is_Some. apply Hdom.
  - intros id m. rewrite lookup_fmap. destruct (members g !! id) eqn:E; [|done].
    intros [= <-]. simpl. by apply Hids.
Qed.

(** What is kept under a name: the invariant, and strings JSON can carry. *)
Record stored_ok (n : Z) (nm : string) (g : ConsumerGroup) : Prop := {
  so_name : name g = nm;
  so_group : group_ok n g;
  so_assignor : assignor g <> "";
  so_ascii : is_ascii nm && is_ascii (topic g) && is_ascii (assignor g) = true;
  so_members : Forall (fun id => is_ascii id = true) (memberOrder g)
}.

Lemma load_persist_group n nm g :
  stored_ok n nm g -> 1 <= generation g -> load_group nm (persist_group g) = trunc_group g.
Proof.
  intros [Hn Hok Ha _ _] Hgen. unfold load_group. rewrite (load_persist_members n) by done.
  cbn [persist_group psTopic psGeneration psAssignor psMemberOrder psAssignments].
  apply String.eqb_neq in Ha. rewrite Ha. destruct (Z.leb_spec (generation g) 0); [lia|].
  unfold trunc_group, set_members. by rewrite Hn.
Qed.

Lemma load_stored_ok n nm g : stored_ok n nm g -> stored_ok n nm (load_group nm (persist_group g)).
Proof.
  intros Hs. pose proof Hs as [Hn Hok Ha Has Hm].
  assert (load_group nm (persist_group g)
    = trunc_group (mkGroup nm (topic g) (if generation g <=? 0 then 1 else generation g)
        (assignor g) (members g) (memberOrder g) (assignments g))) as ->.
  { unfold load_group. rewrite (load_persist_members n) by done.
    cbn [persist_group psTopic psGeneration psAssignor psMemberOrder psAssignments].
    apply String.eqb_neq in Ha. by rewrite Ha. }
  constructor; try done. apply trunc_group_ok. by destruct Hok; constructor.
Qed.

(** Persisted groups all of whose strings are ASCII. *)
Definition ascii_groups (ps : persisted_groups) : Prop :=
  forall nm st, ps !! nm = Some st ->
    is_ascii nm = true /\ is_ascii (psTopic st) = true /\ is_ascii (psAssignor st) = true
    /\ Forall (fun id => is_ascii id = true) (psMemberOrder st)
    /\ (forall id, is_Some (psAssignments st !! id) -> is_ascii id = true)
    /\ Forall (fun pm => is_ascii (pmConsumerID pm) = true) (psMembers st).

Lemma assign_member n a order id : NoDup order -> 0 <= n -> is_Some (assign n a order !! id) -> id ∈ order.
Proof.
  intros Hnd Hn [l Hl]. destruct order as [|x order]; [by rewrite assign_nil, lookup_empty in Hl|].
  destruct (assign_ok n a (x :: order) Hnd ltac:(done) Hn) as [Hout _ _ _ _ _].
  destruct (decide (id ∈ x :: order)); [done|]. by rewrite Hout in Hl.
Qed.

Lemma persist_ascii n (gs : gmap string ConsumerGroup) :
  0 <= n -> (forall nm g, gs !! nm = Some g -> stored_ok n nm g) -> ascii_groups (persist_group <$> gs).
Proof.
  intros Hn Hgs nm st. rewrite lookup_fmap. destruct (gs !! nm) as [g|] eqn:E; [|done].
  intros [= <-]. destruct (Hgs _ _ E) as [_ [Hnd Hdom Hids Has] _ Hasc Hm].
  rewrite !andb_true_iff in Hasc. destruct Hasc as [[? ?] ?].
  cbn [persist_group psTopic psAssignor psMemberOrder psAssignments psMembers]. split_and!; try done.
  - intros id Hid. rewrite Has in Hid. apply assign_member in Hid; [|done..].
    rewrite Forall_forall in Hm. by apply Hm.
  - apply Forall_forall. intros pm (l & Hpm & Hl)%list_elem_of_join.
    apply list_elem_of_In, in_map_iff in Hl as (id & <- & Hid%list_elem_of_In).
    unfold persist_member in Hpm. destruct (members g !! id) eqn:Em; [|by apply elem_of_nil in Hpm].
    apply list_elem_of_singleton in Hpm as ->. cbn [pmConsumerID]. rewrite (Hids _ _ Em).
    rewrite Forall_forall in Hm. by apply Hm.
Qed.

(** ** The manager's invariant, restarts included *)
Context `{L : !JsonLaws persisted_groups}.
Hypothesis representable_ascii : forall ps : persisted_groups, ascii_groups ps -> representable ps.

(** A file that reads back without error holds groups that satisfy the invariant
    once loaded. *)
Definition disk_ok (n : Z) (d : Disk (text persisted_groups)) : Prop :=
  torn_ok d /\ forall t ps, file d = Some t -> decode t = (ps, true) ->
    forall nm st, ps !! nm = Some st -> stored_ok n nm (load_group nm st).

Record manager_ok gm : Prop := {
  mo_parts : 0 <= numPartitions gm;
  mo_groups : forall nm g, groups gm !! nm = Some g -> stored_ok (numPartitions gm) nm g;
  mo_disk : disk_ok (numPartitions gm) (disk gm)
}.

Lemma put_ok gm nm g : manager_ok gm -> stored_ok (numPartitions gm) nm g -> manager_ok (put gm nm g).
Proof.
  intros [Hn Hg Hd] Hs. constructor; try done. intros nm' g'. cbn [put groups numPartitions].
  destruct (decide (nm' = nm)) as [->|]; [rewrite lookup_insert_eq|rewrite lookup_insert_ne by done; apply Hg].
  by intros [= <-].
Qed.

Lemma save_ok gm : manager_ok gm -> manager_ok (saveLocked gm).
Proof.
  intros [Hn Hg [Ht Hd]]. constructor; [done|done|]. cbn [saveLocked disk numPartitions].
  split; [by apply torn_ok_save|]. intros t ps Hfile Hdec nm st Hst.
  destruct (save_file_cases (disk gm) (encode (persist_group <$> groups gm)) Ht)
    as [E|[E|(l & E & Hl)]]; rewrite E in Hfile.
  - injection Hfile as <-. rewrite decode_encode in Hdec
      by (eapply representable_ascii, persist_ascii; eauto).
    injection Hdec as <-. rewrite lookup_fmap in Hst.
    destruct (groups gm !! nm) as [g|] eqn:Eg; [|done]. injection Hst as <-.
    by apply load_stored_ok, Hg.
  - exact (Hd t ps Hfile Hdec nm st Hst).
  - injection Hfile as <-. by rewrite Hdec in Hl.
Qed.

Lemma put_save_ok gm nm g gm' :
  manager_ok gm -> stored_ok (numPartitions gm) nm g ->
  gm' = put gm nm g \/ gm' = saveLocked (put gm nm g) -> manager_ok gm'.
Proof. intros ? ? [-> | ->]; [by apply put_ok|by apply save_ok, put_ok]. Qed.

Lemma new_manager_ok n d : 0 <= n -> disk_ok n d -> manager_ok (NewGroupManager n d).
Proof.
  intros Hn Hdisk. unfold NewGroupManager, load. cbn [disk].
  assert (manager_ok (mkManager n (10 * Second) ∅ d)) as Hempty.
  { constructor; [done| |done]. intros nm g. cbn [groups]. by rewrite lookup_empty. }
  destruct (file d) as [t|] eqn:Ef; [|done].
  destruct (decode t) as [ps []] eqn:Ed; [|done]. pose proof Hdisk as [_ Hd].
  constructor; [done| |done]. cbn [groups numPartitions]. intros nm g.
  rewrite (right_id_L ∅ (∪)), map_lookup_imap. destruct (ps !! nm) as [st|] eqn:Es; [|done].
  intros [= <-]. exact (Hd t ps Ef Ed nm st Es).
Qed.

Lemma stored_ok_same n nm g g' :
  stored_ok n nm g -> name g' = name g -> topic g' = topic g -> assignor g' = assignor g ->
  Forall (fun id => is_ascii id = true) (memberOrder g') -> group_ok n g' -> stored_ok n nm g'.
Proof. intros [Hn Hok Ha Has Hm] En Et Ea Hm' Hok'. constructor; rewrite ?En, ?Et, ?Ea; done. Qed.

Lemma rebalance_bump_ok gm nm g :
  stored_ok (numPartitions gm) nm g -> stored_ok (numPartitions gm) nm (rebalanceLocked gm (bump g)).
Proof.
  intros Hs. pose proof Hs as [_ [Hnd Hdom Hids Has] _ _ Hm].
  eapply stored_ok_same; [exact Hs|done..|]. by apply rebalance_ok.
Qed.

Lemma ensure_ok gm nm tp a gm' g :
  manager_ok gm -> is_ascii nm && is_ascii tp && is_ascii a = true ->
  ensureGroupLocked gm nm tp a = (gm', g) ->
  gm' = put gm nm g /\ stored_ok (numPartitions gm) nm g /\ topic g = tp.
Proof.
  intros [Hn Hg _] Hasc. rewrite !andb_true_iff in Hasc. destruct Hasc as [[Hnm Htp] Ha].
  unfold ensureGroupLocked. destruct (groups gm !! nm) as [g0|] eqn:E.
  2: { intros [= <- <-]. split; [done|]. split; [|done].
       constructor; cbn [name topic assignor memberOrder]; auto using empty_group_ok;
         destruct (String.eqb_spec a ""); try done; by rewrite Hnm, Htp, ?Ha. }
  pose proof (Hg _ _ E) as Hs. set (g1 := if negb (String.eqb (topic g0) tp) then _ else g0).
  assert (stored_ok (numPartitions gm) nm g1 /\ topic g1 = tp) as [Hs1 Ht1].
  { unfold g1. destruct (String.eqb_spec (topic g0) tp); simpl; [done|]. split; [|done].
    destruct Hs as [Hname _ Hne Has _]. rewrite !andb_true_iff in Has.
    constructor; cbn [bump name topic assignor memberOrder]; try done.
    - apply (bump_ok _ (mkGroup _ _ _ _ _ _ _)), empty_group_ok.
    - rewrite Hnm, Htp. simpl. tauto. }
  intros [= <- <-]. split; [done|].
  destruct (String.eqb_spec a ""), (String.eqb_spec a (assignor g1)); simpl; try done.
  split; [|done]. destruct Hs1 as [Hn1 [? ? ? ?] Hne1 Has1 Hm1].
  rewrite !andb_true_iff in Has1.
  constructor; cbn [rebalanceLocked bump set_assignments set_assignor name topic assignor memberOrder];
    try done.
  rewrite Ha, Hnm. simpl. rewrite andb_true_r. tauto.
Qed.

Lemma put_put gm nm g g' : put (put gm nm g) nm g' = put gm nm g'.
Proof. unfold put. simpl. by rewrite insert_insert_eq. Qed.

Lemma Forall_filter_ascii f (l : list string) :
  Forall (fun id => is_ascii id = true) l -> Forall (fun id => is_ascii id = true) (List.filter f l).
Proof.
  rewrite !Forall_forall. intros Hl x Hx. apply list_elem_of_In, List.filter_In in Hx as [Hx _].
  by apply Hl, list_elem_of_In.
Qed.

Lemma cleanup_ok gm nm g now gm' g' :
  manager_ok gm -> stored_ok (numPartitions gm) nm g ->
  cleanupExpiredLocked gm nm g now = (gm', g') ->
  manager_ok gm' /\ stored_ok (numPartitions gm) nm g' /\ numPartitions gm' = numPartitions gm.
Proof.
  intros Hok Hs Hc. apply cleanup_spec in Hc as (Hgm & Hg' & En & Et & Ea & Eo & _); [|apply Hs].
  assert (stored_ok (numPartitions gm) nm g') as Hs'.
  { eapply stored_ok_same; try done. rewrite Eo. apply Forall_filter_ascii, Hs. }
  split; [by eapply put_save_ok|]. split; [done|]. by destruct Hgm as [-> | ->].
Qed.

Lemma check_member_ok gm nm tp c gen now gm' r :
  manager_ok gm -> check_member gm nm tp c gen now = (gm', r) ->
  manager_ok gm' /\ numPartitions gm' = numPartitions gm
  /\ forall g, r = Success g -> stored_ok (numPartitions gm) nm g /\ is_Some (members g !! c).
Proof.
  intros Hok. unfold check_member. destruct (groups gm !! nm) as [g0|] eqn:E;
    [|intros [= <- <-]; done].
  pose proof (mo_groups _ Hok _ _ E) as Hs. case_match; [intros [= <- <-]; done|].
  destruct (cleanupExpiredLocked gm nm g0 now) as [gm1 g1] eqn:Ec.
  destruct (cleanup_ok _ _ _ _ _ _ Hok Hs Ec) as (Hok1 & Hs1 & Hn1).
  case_match; [intros [= <- <-]; done|].
  destruct (members g1 !! c) as [m|] eqn:Em; intros [= <- <-]; [|done].
  split; [done|]. split; [done|]. intros g [= <-]. split; [done|]. by rewrite Em.
Qed.

Lemma touch_stored_ok n nm g c now : stored_ok n nm g -> stored_ok n nm (touch g c now).
Proof.
  intros Hs. eapply stored_ok_same; [exact Hs|done..|apply Hs|]. apply touch_ok, Hs.
Qed.

Lemma join_member_ok gm nm g c now :
  stored_ok (numPartitions gm) nm g -> is_ascii c = true -> members g !! c = None ->
  stored_ok (numPartitions gm) nm (rebalanceLocked gm (bump
    (set_members (set_order g (memberOrder g ++ [c])) (<[c := mkMember c now]> (members g))))).
Proof.
  intros Hs Hc Hnew. pose proof Hs as [_ [Hnd Hdom Hids _] _ _ Hm].
  eapply stored_ok_same; [exact Hs|done..| |].
  - cbn [rebalanceLocked bump set_assignments set_members set_order memberOrder].
    apply Forall_app. split; [done|by constructor].
  - apply rebalance_ok; cbn [bump set_members set_order memberOrder members].
    + apply NoDup_app. split; [done|]. split; [|apply NoDup_singleton].
      intros x Hx ->%list_elem_of_singleton. apply Hdom in Hx as [? Hx]. congruence.
    + intros id. rewrite elem_of_app, list_elem_of_singleton, Hdom.
      destruct (decide (id = c)) as [->|].
      * rewrite lookup_insert_eq. split; [by eexists|by right].
      * rewrite lookup_insert_ne by done. tauto.
    + intros id m. destruct (decide (id = c)) as [->|];
        [rewrite lookup_insert_eq; by intros [= <-]|]. rewrite lookup_insert_ne by done. apply Hids.
Qed.

Lemma leave_member_ok gm nm g c :
  stored_ok (numPartitions gm) nm g ->
  stored_ok (numPartitions gm) nm (rebalanceLocked gm (bump (set_order
    (set_assignments (set_members g (delete c (members g))) (delete c (assignments g)))
    (base.filter (fun id => id <> c) (memberOrder g))))).
Proof.
  intros Hs. pose proof Hs as [_ [Hnd Hdom Hids _] _ _ Hm].
  eapply stored_ok_same; [exact Hs|done..| |].
  - cbn [rebalanceLocked bump set_assignments set_members set_order memberOrder].
    rewrite Forall_forall in Hm |- *. intros x [_ Hx]%list_elem_of_filter. by apply Hm.
  - apply rebalance_ok; cbn [bump set_members set_order set_assignments memberOrder members].
    + by apply NoDup_filter.
    + intros id. rewrite list_elem_of_filter, Hdom. destruct (decide (id = c)) as [->|].
      * rewrite lookup_delete_eq. split; [by intros []|by intros []].
      * rewrite lookup_delete_ne by done. tauto.
    + intros id m. destruct (decide (id = c)) as [->|]; [by rewrite lookup_delete_eq|].
      rewrite lookup_delete_ne by done. apply Hids.
Qed.

(** ** Runs *)
Inductive op : Type :=
| OpJoin (nm tp c a : string) (now : Z)
| OpLeave (nm tp c : string) (gen now : Z)
| OpSync (nm tp c : string) (gen now now2 : Z)
| OpHeartbeat (nm tp c : string) (gen now now2 : Z)
| OpCommit (nm tp c : string) (gen partition now : Z)
| OpRestart.

Definition step gm (o : op) : GroupManager :=
  match o with
  | OpJoin nm tp c a now => (JoinGroup gm nm tp c a now).1
  | OpLeave nm tp c gen now => (LeaveGroup gm nm tp c gen now).1
  | OpSync nm tp c gen now now2 => (SyncGroup gm nm tp c gen now now2).1
  | OpHeartbeat nm tp c gen now now2 => (Heartbeat gm nm tp c gen now now2).1
  | OpCommit nm tp c gen p now => (ValidateCommit gm nm tp c gen p now).1
  | OpRestart => NewGroupManager (numPartitions gm) (disk gm)
  end.

Definition run gm (ops : list op) : GroupManager := fold_left step ops gm.

(** Names a client may send: ASCII. *)
Definition op_ascii (o : op) : bool :=
  match o with
  | OpJoin nm tp c a _ => is_ascii nm && is_ascii tp && is_ascii c && is_ascii a
  | _ => true
  end.

Definition no_restart (o : op) : bool := match o with OpRestart => false | _ => true end.

(** How an operation changes the groups: at most one of them, to [g']. *)
Lemma join_effect gm nm tp c a now :
  manager_ok gm -> is_ascii nm && is_ascii tp && is_ascii c && is_ascii a = true ->
  exists gm1 gm2 g0 g1 g2,
    ensureGroupLocked gm nm tp a = (gm1, g0)
    /\ cleanupExpiredLocked gm1 nm g0 now = (gm2, g1)
    /\ g2 = match members g1 !! c with
            | None => rebalanceLocked gm2 (bump (set_members
                        (set_order g1 (memberOrder g1 ++ [c])) (<[c := mkMember c now]> (members g1))))
            | Some _ => touch g1 c now
            end
    /\ JoinGroup gm nm tp c a now
      = (saveLocked (put gm2 nm g2), mkJoinResult (generation g2) (default [] (assignments g2 !! c)))
    /\ manager_ok gm2 /\ numPartitions gm2 = numPartitions gm
    /\ gm1 = put gm nm g0 /\ stored_ok (numPartitions gm) nm g0
    /\ stored_ok (numPartitions gm) nm g1 /\ stored_ok (numPartitions gm) nm g2 /\ topic g0 = tp.
Proof.
  intros Hok Hasc. rewrite !andb_true_iff in Hasc. destruct Hasc as [[[Hnm Htp] Hc] Ha].
  unfold JoinGroup. destruct (ensureGroupLocked gm nm tp a) as [gm1 g0] eqn:E0.
  destruct (ensure_ok _ _ _ _ _ _ Hok ltac:(by rewrite Hnm, Htp, Ha) E0) as (Egm1 & Hs0 & Ht0).
  assert (manager_ok gm1) as Hok1 by (rewrite Egm1; by apply put_ok).
  destruct (cleanupExpiredLocked gm1 nm g0 now) as [gm2 g1] eqn:E1.
  assert (numPartitions gm1 = numPartitions gm) as Hn1 by (by rewrite Egm1).
  destruct (cleanup_ok _ _ _ _ _ _ Hok1 ltac:(by rewrite Hn1) E1) as (Hok2 & Hs1 & Hn2).
  rewrite Hn1 in Hs1, Hn2. eexists gm1, gm2, g0, g1, _.
  split_and!; [done|done|reflexivity|done|done|done|done|done|done| |done].
  destruct (members g1 !! c) eqn:Em; [by apply touch_stored_ok|].
  rewrite <- Hn2. apply join_member_ok; [by rewrite Hn2|done..].
Qed.

Lemma step_ok gm o : manager_ok gm -> op_ascii o = true -> manager_ok (step gm o).
Proof.
  intros Hok Hasc. destruct o as [nm tp c a now|nm tp c gen now|nm tp c gen now now2
    |nm tp c gen now now2|nm tp c gen p now|]; cbn [step].
  - destruct (join_effect gm nm tp c a now Hok Hasc)
      as (gm1 & gm2 & g0 & g1 & g2 & _ & _ & _ & -> & Hok2 & Hn2 & _ & _ & _ & Hs2 & _).
    apply save_ok, put_ok; [done|by rewrite Hn2].
  - unfold LeaveGroup. destruct (check_member gm nm tp c gen now) as [gm1 [g|e]] eqn:E;
      destruct (check_member_ok _ _ _ _ _ _ _ _ Hok E) as (Hok1 & Hn1 & Hs); [|done].
    destruct (Hs g eq_refl) as [Hs1 _]. apply save_ok, put_ok; [done|].
    rewrite <- Hn1 in Hs1. exact (leave_member_ok gm1 nm g c Hs1).
  - unfold SyncGroup. destruct (check_member gm nm tp c gen now) as [gm1 [g|e]] eqn:E;
      destruct (check_member_ok _ _ _ _ _ _ _ _ Hok E) as (Hok1 & Hn1 & Hs); [|done].
    destruct (Hs g eq_refl) as [Hs1 _]. apply save_ok, put_ok; [done|]. rewrite Hn1.
    by apply touch_stored_ok.
  - unfold Heartbeat. destruct (check_member gm nm tp c gen now) as [gm1 [g|e]] eqn:E;
      destruct (check_member_ok _ _ _ _ _ _ _ _ Hok E) as (Hok1 & Hn1 & Hs); [|done].
    destruct (Hs g eq_refl) as [Hs1 _]. apply save_ok, put_ok; [done|]. rewrite Hn1.
    by apply touch_stored_ok.
  - unfold ValidateCommit. destruct (check_member gm nm tp c gen now) as [gm1 [g|e]] eqn:E;
      destruct (check_member_ok _ _ _ _ _ _ _ _ Hok E) as (Hok1 & Hn1 & Hs); [|done].
    by case_match.
  - destruct Hok. by apply new_manager_ok.
Qed.

Lemma run_manager_ok gm ops : manager_ok gm -> forallb op_ascii ops = true -> manager_ok (run gm ops).
Proof.
  revert gm. induction ops as [|o ops IH]; intros gm Hok Hasc; [done|]. simpl in Hasc.
  apply andb_true_iff in Hasc as [Ho Hops]. apply IH; [by apply step_ok|done].
Qed.

Lemma step_parts gm o : numPartitions (step gm o) = numPartitions gm.
Proof.
  assert (forall g nm now, numPartitions (cleanupExpiredLocked gm nm g now).1 = numPartitions gm) as Hcl.
  { intros g nm now. unfold cleanupExpiredLocked. destruct (expire _ _ _ _) as [[] []]; done. }
  assert (forall nm tp c gen now, numPartitions (check_member gm nm tp c gen now).1 = numPartitions gm) as Hck.
  { intros. unfold check_member. destruct (groups gm !! nm) as [g|]; [|done]. case_match; [done|].
    specialize (Hcl g nm now). destruct (cleanupExpiredLocked gm nm g now) as [gm1 g1].
    case_match; [done|]. by case_match. }
  destruct o as [nm tp c a now|nm tp c gen now|nm tp c gen now now2
    |nm tp c gen now now2|nm tp c gen p now|]; cbn [step].
  - unfold JoinGroup. assert (numPartitions (ensureGroupLocked gm nm tp a).1 = numPartitions gm) as He.
    { unfold ensureGroupLocked. by case_match. }
    destruct (ensureGroupLocked gm nm tp a) as [gm1 g0]. unfold cleanupExpiredLocked.
    destruct (expire _ _ _ _) as [[] []]; done.
  - unfold LeaveGroup. specialize (Hck nm tp c gen now). by destruct (check_member _ _ _ _ _ _) as [? []].
  - unfold SyncGroup. specialize (Hck nm tp c gen now). by destruct (check_member _ _ _ _ _ _) as [? []].
  - unfold Heartbeat. specialize (Hck nm tp c gen now). by destruct (check_member _ _ _ _ _ _) as [? []].
  - unfold ValidateCommit. specialize (Hck nm tp c gen now).
    destruct (check_member _ _ _ _ _ _) as [? []]; [by case_match|done].
  - unfold NewGroupManager, load. cbn [disk]. by repeat case_match.
Qed.

Lemma run_parts gm ops : numPartitions (run gm ops) = numPartitions gm.
Proof. revert gm. induction ops as [|o ops IH]; intros gm; [done|]. simpl. by rewrite IH, step_parts. Qed.

(** A manager on an empty data directory. *)
Lemma fresh_disk_ok n fs :
  torn_ok (A := persisted_groups) (mkDisk None fs) -> disk_ok n (mkDisk None fs).
Proof. intros. split; [done|]. by intros. Qed.

(** C3: group ownership is exact. Start on an empty directory and perform any
    joins, leaves, syncs, heartbeats, commits and restarts, in any order, with any
    clock readings and any failed or torn saves: in every group with members each
    partition [0 .. n-1] is assigned to exactly one consumer, which is a member,
    and members are listed once, in step with the member table. *)
Theorem groups_partitioned n fs ops nm g :
  0 <= n -> torn_ok (A := persisted_groups) (mkDisk None fs) -> forallb op_ascii ops = true ->
  groups (run (NewGroupManager n (mkDisk None fs)) ops) !! nm = Some g ->
  NoDup (memberOrder g)
  /\ (forall c, c ∈ memberOrder g <-> is_Some (members g !! c))
  /\ (memberOrder g <> [] -> forall p, 0 <= p < n -> exists! c, p ∈ owned (assignments g) c)
  /\ (forall c p, p ∈ owned (assignments g) c -> c ∈ memberOrder g /\ 0 <= p < n).
Proof.
  intros Hn Ht Hops Hg.
  assert (manager_ok (NewGroupManager n (mkDisk None fs))) as H0 by (by apply new_manager_ok, fresh_disk_ok).
  pose proof (run_manager_ok _ _ H0 Hops) as [_ Hgs _]. pose proof (run_parts (NewGroupManager n (mkDisk None fs)) ops) as Hp.
  replace (numPartitions (NewGroupManager n (mkDisk None fs))) with n in Hp by done.
  rewrite Hp in Hgs. destruct (Hgs _ _ Hg) as [_ [Hnd Hdom _ Has] _ _ _].
  split; [done|]. split; [done|]. rewrite Has.
  destruct (decide (memberOrder g = [])) as [E|Hne].
  { rewrite E, assign_nil. split; [done|]. intros c p. unfold owned. rewrite lookup_empty.
    by intros ?%elem_of_nil. }
  destruct (assign_ok n (assignor g) _ Hnd Hne Hn) as [Hm Hr Htot Hu _ _]. split.
  - intros _ p Hpp. destruct (Htot p Hpp) as (c & _ & Hc). exists c. split; [done|]. intros; by eapply Hu.
  - intros c p Hc. split; [|by eapply Hr]. destruct (decide (c ∈ memberOrder g)); [done|].
    unfold owned in Hc. rewrite Hm in Hc by done. by apply elem_of_nil in Hc.
Qed.

(** ** Generations *)

(** [later k g g']: at most [k] generations later, and the same topic, members and
    assignment if none. *)
Definition later (k : Z) (g g' : ConsumerGroup) : Prop :=
  generation g <= generation g' <= generation g + k
  /\ (generation g' = generation g ->
      topic g' = topic g /\ memberOrder g' = memberOrder g /\ assignments g' = assignments g).

Lemma later_refl g : later 0 g g.
Proof. split; [lia|done]. Qed.

Lemma later_trans a b g1 g2 g3 : later a g1 g2 -> later b g2 g3 -> later (a + b) g1 g3.
Proof.
  intros [H1 E1] [H2 E2]. split; [lia|]. intros E.
  destruct E1 as (T1 & O1 & A1); [lia|]. destruct E2 as (T2 & O2 & A2); [lia|].
  split_and!; congruence.
Qed.

Lemma later_weaken a b g g' : later a g g' -> a <= b -> later b g g'.
Proof. intros [? ?] ?. split; [lia|done]. Qed.

Lemma later_bump g g' :
  int_min <= generation g -> generation g + 1 <= int_max ->
  generation g' = int_add (generation g) 1 -> later 1 g g'.
Proof.
  intros Hmin Hmax E. rewrite int_add_id in E by ints. split; lia.
Qed.

Lemma later_touch g c now : later 0 g (touch g c now).
Proof. split; [simpl; lia|done]. Qed.

Lemma ensure_later gm nm tp a gm' g g' :
  groups gm !! nm = Some g -> int_min <= generation g -> generation g + 2 <= int_max ->
  ensureGroupLocked gm nm tp a = (gm', g') -> later 2 g g'.
Proof.
  intros Hg Hmin Hmax. unfold ensureGroupLocked. rewrite Hg.
  set (g1 := if negb (String.eqb (topic g) tp) then _ else g).
  assert (later 1 g g1) as H1.
  { unfold g1. destruct (String.eqb (topic g) tp); simpl;
      [eapply later_weaken; [apply later_refl|lia]|apply later_bump; [done|lia|done]]. }
  intros [= <- <-]. apply (later_trans 1 1 _ g1); [done|].
  destruct (_ && _); [|eapply later_weaken; [apply later_refl|lia]].
  destruct H1 as [H1 _]. apply later_bump; [ints|lia|done].
Qed.

Lemma cleanup_later gm nm g now gm' g' :
  group_ok (numPartitions gm) g -> int_min <= generation g -> generation g + 1 <= int_max ->
  cleanupExpiredLocked gm nm g now = (gm', g') -> later 1 g g'.
Proof.
  intros Hok Hmin Hmax Hc. apply cleanup_spec in Hc as (_ & _ & _ & _ & _ & _ & _ & [-> | Hg]); [| |done].
  - eapply later_weaken; [apply later_refl|lia].
  - by apply later_bump.
Qed.

(** What an operation other than a restart does to the group under a name. *)
Definition group_later gm gm' (nm : string) : Prop :=
  forall g, groups gm !! nm = Some g -> int_min <= generation g -> generation g + 4 <= int_max ->
  exists g', groups gm' !! nm = Some g' /\ later 4 g g'.

Lemma group_later_put gm gm' nm g' k :
  k <= 4 -> groups gm' = <[nm := g']> (groups gm) ->
  (forall g, groups gm !! nm = Some g -> int_min <= generation g -> generation g + 4 <= int_max ->
     later k g g') ->
  forall x, group_later gm gm' x.
Proof.
  intros Hk Hgm Hl x g Hg Hmin Hmax. rewrite Hgm. destruct (decide (x = nm)) as [->|].
  - rewrite lookup_insert_eq. exists g'. split; [done|]. eapply later_weaken; [|exact Hk]. by apply Hl.
  - rewrite lookup_insert_ne by done. exists g. split; [done|].
    eapply later_weaken; [apply later_refl|lia].
Qed.

Lemma cleanup_groups gm nm g now gm' g' :
  cleanupExpiredLocked gm nm g now = (gm', g') -> groups gm' = <[nm := g']> (groups gm).
Proof. unfold cleanupExpiredLocked. destruct (expire _ _ _ _) as [[] []]; by intros [= <- <-]. Qed.

(** The checks leave the groups alone or expire members of the named one. *)
Lemma check_member_effect gm nm tp c gen now gm' r :
  manager_ok gm -> check_member gm nm tp c gen now = (gm', r) ->
  (groups gm' = groups gm /\ is_success r = false)
  \/ exists g g1, groups gm !! nm = Some g /\ topic g = tp
      /\ cleanupExpiredLocked gm nm g now = (gm', g1)
      /\ forall g2, r = Success g2 -> g2 = g1 /\ generation g1 = gen /\ is_Some (members g1 !! c).
Proof.
  intros Hok. unfold check_member. destruct (groups gm !! nm) as [g|] eqn:E;
    [|intros [= <- <-]; by left].
  destruct (String.eqb_spec (topic g) tp) as [Et|]; simpl; [|intros [= <- <-]; by left].
  destruct (cleanupExpiredLocked gm nm g now) as [gm1 g1] eqn:Ec. intros Hr. right.
  exists g, g1. destruct (Z.eqb_spec gen (generation g1)) as [Eg|]; simpl in Hr;
    [|injection Hr as <- <-; by split_and!].
  destruct (members g1 !! c) as [m|] eqn:Em; injection Hr as <- <-; split_and!; try done.
  intros g2 [= E2]. rewrite <- E2. split; [done|]. split; [done|]. by exists m.
Qed.

Lemma group_later_check gm gm1 nm g g1 g2 k now :
  manager_ok gm -> 0 <= k <= 3 -> groups gm !! nm = Some g ->
  cleanupExpiredLocked gm nm g now = (gm1, g1) ->
  (int_min <= generation g1 -> generation g1 + k <= int_max -> later k g1 g2) ->
  forall x, group_later gm (put gm1 nm g2) x.
Proof.
  intros Hok Hk Hg Hc Hl. apply (group_later_put _ _ nm g2 (1 + k)); [lia| |].
  - cbn [put groups]. rewrite (cleanup_groups _ _ _ _ _ _ Hc). apply insert_insert_eq.
  - intros g' Hg' Hmin Hmax. rewrite Hg in Hg'. injection Hg' as <-.
    pose proof (so_group _ _ _ (mo_groups _ Hok _ _ Hg)) as Hgo.
    pose proof (cleanup_later _ _ _ _ _ _ Hgo Hmin ltac:(lia) Hc) as H1.
    eapply later_trans; [exact H1|]. destruct H1 as [? _]. apply Hl; ints.
Qed.

Lemma group_later_same gm gm' x : groups gm' = groups gm -> group_later gm gm' x.
Proof.
  intros E g Hg _ _. rewrite E. exists g. split; [done|]. eapply later_weaken; [apply later_refl|lia].
Qed.

Lemma group_later_clean gm gm' nm g g1 now :
  manager_ok gm -> groups gm !! nm = Some g -> cleanupExpiredLocked gm nm g now = (gm', g1) ->
  forall x, group_later gm gm' x.
Proof.
  intros Hok Hg Hc x. pose proof (group_later_check gm gm' nm g g1 g1 0 now Hok ltac:(lia) Hg Hc
    (fun _ _ => later_refl g1) x) as H. unfold group_later in *. cbn [put groups] in H.
  rewrite (cleanup_groups _ _ _ _ _ _ Hc) in H |- *. by rewrite insert_insert_eq in H.
Qed.

Lemma step_later gm o x :
  manager_ok gm -> op_ascii o = true -> no_restart o = true -> group_later gm (step gm o) x.
Proof.
  intros Hok Hasc Hnr. destruct o as [nm tp c a now|nm tp c gen now|nm tp c gen now now2
    |nm tp c gen now now2|nm tp c gen p now|]; cbn [step]; [..|done].
  - destruct (join_effect gm nm tp c a now Hok Hasc)
      as (gm1 & gm2 & g0 & g1 & g2 & E0 & E1 & E2 & -> & _ & _ & Egm1 & Hs0 & _).
    apply (group_later_put _ _ nm g2 4); [lia| |].
    + cbn [fst saveLocked put groups]. rewrite (cleanup_groups _ _ _ _ _ _ E1), Egm1. cbn [put groups].
      by rewrite !insert_insert_eq.
    + intros g Hg Hmin Hmax. pose proof (ensure_later _ _ _ _ _ _ _ Hg Hmin ltac:(lia) E0) as L0.
      pose proof L0 as [? _].
      assert (later 1 g0 g1) as L1.
      { apply (cleanup_later gm1 nm g0 now gm2 g1); [rewrite Egm1; apply Hs0|ints|lia|exact E1]. }
      pose proof L1 as [? _].
      apply (later_trans 2 2 _ g0); [done|]. apply (later_trans 1 1 _ g1); [done|].
      rewrite E2. destruct (members g1 !! c);
        [eapply later_weaken; [apply later_touch|lia]|apply later_bump; [ints|lia|done]].
  - unfold LeaveGroup. destruct (check_member gm nm tp c gen now) as [gm1 r] eqn:E.
    destruct (check_member_effect _ _ _ _ _ _ _ _ Hok E) as [[Eg Er]|(g & g1 & Hg & _ & Ec & Hr)].
    { destruct r; [done|]. by apply group_later_same. }
    destruct r as [g2|e]; [|by eapply group_later_clean]. destruct (Hr g2 eq_refl) as (-> & _).
    cbn [fst saveLocked put groups]. apply (group_later_check gm gm1 nm g g1 _ 1 now Hok ltac:(lia) Hg Ec).
    intros. by apply later_bump.
  - unfold SyncGroup. destruct (check_member gm nm tp c gen now) as [gm1 r] eqn:E.
    destruct (check_member_effect _ _ _ _ _ _ _ _ Hok E) as [[Eg Er]|(g & g1 & Hg & _ & Ec & Hr)].
    { destruct r; [done|]. by apply group_later_same. }
    destruct r as [g2|e]; [|by eapply group_later_clean]. destruct (Hr g2 eq_refl) as (-> & _).
    apply (group_later_check gm gm1 nm g g1 _ 0 now Hok ltac:(lia) Hg Ec). intros. apply later_touch.
  - unfold Heartbeat. destruct (check_member gm nm tp c gen now) as [gm1 r] eqn:E.
    destruct (check_member_effect _ _ _ _ _ _ _ _ Hok E) as [[Eg Er]|(g & g1 & Hg & _ & Ec & Hr)].
    { destruct r; [done|]. by apply group_later_same. }
    destruct r as [g2|e]; [|by eapply group_later_clean]. destruct (Hr g2 eq_refl) as (-> & _).
    apply (group_later_check gm gm1 nm g g1 _ 0 now Hok ltac:(lia) Hg Ec). intros. apply later_touch.
  - unfold ValidateCommit. destruct (check_member gm nm tp c gen now) as [gm1 r] eqn:E.
    destruct (check_member_effect _ _ _ _ _ _ _ _ Hok E) as [[Eg Er]|(g & g1 & Hg & _ & Ec & Hr)].
    { destruct r; [done|]. by apply group_later_same. }
    assert (group_later gm gm1 x) by (by eapply group_later_clean).
    destruct r as [g2|e]; [|done]. by case_match.
Qed.

Lemma run_later gm ops x g :
  manager_ok gm -> forallb op_ascii ops = true -> forallb no_restart ops = true ->
  groups gm !! x = Some g -> int_min <= generation g ->
  generation g + 4 * Z.of_nat (length ops) <= int_max ->
  exists g', groups (run gm ops) !! x = Some g' /\ later (4 * Z.of_nat (length ops)) g g'.
Proof.
  revert gm g. induction ops as [|o ops IH]; intros gm g Hok Hasc Hnr Hg Hmin Hmax.
  { exists g. split; [done|]. apply later_refl. }
  cbn [forallb length] in *. apply andb_true_iff in Hasc as [Ho Hasc], Hnr as [Hr Hnr].
  destruct (step_later gm o x Hok Ho Hr g Hg Hmin ltac:(lia)) as (g1 & Hg1 & L1).
  pose proof L1 as [? _].
  destruct (IH (step gm o) g1) as (g2 & Hg2 & L2); auto using step_ok; [ints|lia|].
  exists g2. split; [done|]. eapply later_weaken; [by eapply later_trans|lia].
Qed.

(** A commit that is accepted names the group's current state. *)
Lemma commit_accepted gm nm tp c gen p now gm' :
  manager_ok gm -> ValidateCommit gm nm tp c gen p now = (gm', Success ()) ->
  exists g0 g, groups gm !! nm = Some g0 /\ cleanupExpiredLocked gm nm g0 now = (gm', g)
  /\ groups gm' !! nm = Some g /\ manager_ok gm' /\ group_ok (numPartitions gm) g
  /\ topic g = tp /\ generation g = gen /\ p ∈ owned (assignments g) c
  /\ exists m, members g !! c = Some m /\ time_sub now (lastHeartbeat m) <= sessionTimeout gm.
Proof.
  intros Hok. unfold ValidateCommit. destruct (check_member gm nm tp c gen now) as [gm1 r] eqn:E.
  pose proof (check_member_ok _ _ _ _ _ _ _ _ Hok E) as (Hok1 & _).
  destruct (check_member_effect _ _ _ _ _ _ _ _ Hok E) as [[_ Er]|(g0 & g1 & Hg & Ht & Ec & Hr)].
  { by destruct r. }
  destruct r as [g2|e]; [|done]. destruct (Hr g2 eq_refl) as (-> & Hgen & [m Hm]).
  case_bool_decide as Hp; [|done]. intros [= <-]. exists g0, g1.
  pose proof (cleanup_groups _ _ _ _ _ _ Ec) as Eg. pose proof Ec as Ec'.
  apply cleanup_spec in Ec' as (_ & Hok' & _ & Ht' & _ & _ & Hmem & _);
    [|apply (so_group _ _ _ (mo_groups _ Hok _ _ Hg))].
  split_and!; try done; [by rewrite Eg, lookup_insert_eq|congruence|].
  exists m. split; [done|]. apply Hmem in Hm as [Hm Hal]. unfold alive in Hal. rewrite Hm in Hal.
  apply negb_true_iff, Z.ltb_ge in Hal. done.
Qed.

(** C2: commits are fenced. In one generation of a group at most one consumer can
    commit to a partition: if a commit is accepted, then after any operations of
    any clients a commit by another consumer for the same generation and partition
    is refused. Every accepted commit comes from a member whose last heartbeat is
    within the session timeout, for a partition of the range. *)
Theorem commit_fenced gm nm tp1 c1 tp2 c2 gen p now1 now2 ops gm1 gm2 :
  manager_ok gm -> forallb op_ascii ops = true -> forallb no_restart ops = true ->
  int_min <= gen -> gen + 4 * Z.of_nat (length ops) + 4 <= int_max ->
  ValidateCommit gm nm tp1 c1 gen p now1 = (gm1, Success ()) ->
  ValidateCommit (run gm1 ops) nm tp2 c2 gen p now2 = (gm2, Success ()) ->
  c1 = c2 /\ tp1 = tp2 /\ 0 <= p < numPartitions gm
  /\ exists g m, groups gm1 !! nm = Some g /\ members g !! c1 = Some m
       /\ time_sub now1 (lastHeartbeat m) <= sessionTimeout gm.
Proof.
  intros Hok Hasc Hnr Hmin Hmax H1 H2.
  destruct (commit_accepted _ _ _ _ _ _ _ _ Hok H1)
    as (g0 & g & _ & _ & Hg & Hok1 & Hgo & Ht & Hgen & Hp & m & Hm & Hlive).
  destruct (run_later _ _ _ _ Hok1 Hasc Hnr Hg ltac:(lia) ltac:(lia)) as (g' & Hg' & L1).
  pose proof (run_manager_ok _ _ Hok1 Hasc) as Hok1'.
  destruct (commit_accepted _ _ _ _ _ _ _ _ Hok1' H2)
    as (g0' & g2 & Hg0 & Hc & _ & _ & _ & Ht2 & Hgen2 & Hp2 & _).
  rewrite Hg' in Hg0. injection Hg0 as <-. pose proof L1 as [? _].
  pose proof (cleanup_later _ _ _ _ _ _ (so_group _ _ _ (mo_groups _ Hok1' _ _ Hg'))
    ltac:(lia) ltac:(lia) Hc) as L2.
  destruct (later_trans _ _ _ _ _ L1 L2) as [_ Hsame].
  destruct Hsame as (Et & _ & Ea); [congruence|]. rewrite Ea in Hp2.
  destruct (decide (memberOrder g = [])) as [Ho|Hne].
  { rewrite (go_assign _ _ Hgo), Ho, assign_nil in Hp. unfold owned in Hp.
    rewrite lookup_empty in Hp. by apply elem_of_nil in Hp. }
  rewrite (go_assign _ _ Hgo) in Hp, Hp2.
  destruct (assign_ok (numPartitions gm) (assignor g) _ (go_nodup _ _ Hgo) Hne (mo_parts _ Hok))
    as [_ Hr _ Hu _ _].
  split; [by eapply Hu|]. split; [congruence|]. split; [by eapply Hr|]. by exists g, m.
Qed.

(** *** Expiry *)

(** The group, topic, caller and time of a client's operation, whether it is a
    join, and whether the call succeeds (a join always does). *)
Definition op_call (o : op) : option (string * string * string * Z) :=
  match o with
  | OpJoin nm tp c _ now => Some (nm, tp, c, now)
  | OpLeave nm tp c _ now => Some (nm, tp, c, now)
  | OpSync nm tp c _ now _ => Some (nm, tp, c, now)
  | OpHeartbeat nm tp c _ now _ => Some (nm, tp, c, now)
  | OpCommit nm tp c _ _ now => Some (nm, tp, c, now)
  | OpRestart => None
  end.

Definition is_join (o : op) : bool := match o with OpJoin _ _ _ _ _ => true | _ => false end.

Definition accepted gm (o : op) : bool :=
  match o with
  | OpLeave nm tp c gen now => is_success (LeaveGroup gm nm tp c gen now).2
  | OpSync nm tp c gen now now2 => is_success (SyncGroup gm nm tp c gen now now2).2
  | OpHeartbeat nm tp c gen now now2 => is_success (Heartbeat gm nm tp c gen now now2).2
  | OpCommit nm tp c gen p now => is_success (ValidateCommit gm nm tp c gen p now).2
  | OpJoin _ _ _ _ _ | OpRestart => true
  end.

(** Whoever is not a member owns nothing. *)
Lemma stranger_owns_nothing n g c :
  group_ok n g -> 0 <= n -> c ∉ memberOrder g -> members g !! c = None /\ owned (assignments g) c = [].
Proof.
  intros Hgo Hn Hc. split.
  - destruct (members g !! c) eqn:E; [|done]. destruct Hc. apply (go_dom _ _ Hgo). by rewrite E.
  - unfold owned. destruct (assignments g !! c) eqn:E; [|done]. destruct Hc.
    apply (assign_member n (assignor g)); [apply Hgo|done|]. by rewrite <- (go_assign _ _ Hgo), E.
Qed.

(** [cleanupExpiredLocked] with an expired member: the next generation, of exactly
    the members alive. *)
Lemma cleanup_expels gm nm g now gm' g1 c m :
  group_ok (numPartitions gm) g -> members g !! c = Some m ->
  sessionTimeout gm < time_sub now (lastHeartbeat m) ->
  int_min <= generation g -> generation g + 1 <= int_max ->
  cleanupExpiredLocked gm nm g now = (gm', g1) ->
  generation g1 = generation g + 1 /\ members g1 !! c = None
  /\ alive (sessionTimeout gm) now (members g) c = false
  /\ forall id, id ∈ memberOrder g1 <-> alive (sessionTimeout gm) now (members g) id = true.
Proof.
  intros Hg Hm Hexp Hmin Hmax Hc. apply cleanup_spec in Hc as (_ & _ & _ & _ & _ & Ho & Hmem & Hgen); [|done].
  assert (alive (sessionTimeout gm) now (members g) c = false) as Hdead.
  { unfold alive. rewrite Hm. apply negb_false_iff. by apply Z.ltb_lt. }
  assert (members g1 !! c = None) as Hgone.
  { destruct (members g1 !! c) eqn:E; [|done]. apply Hmem in E as [_ E]. congruence. }
  split_and!; [|done|done|].
  - destruct Hgen as [-> |Hgen]; [congruence|]. rewrite Hgen. apply int_add_id; ints.
  - intros id. rewrite Ho, list_elem_of_In, List.filter_In, <- list_elem_of_In, (go_dom _ _ Hg).
    split; [tauto|]. intros Hal. split; [|done]. unfold alive in Hal.
    destruct (members g !! id); [by eauto|done].
Qed.

(** What [silent_member_expelled] says of the group left by an operation of [who]. *)
Definition expelled gm g now who (joins : bool) g' : Prop :=
  generation g < generation g'
  /\ (forall id, id <> who -> id ∈ memberOrder g' <-> alive (sessionTimeout gm) now (members g) id = true)
  /\ (who ∈ memberOrder g' ->
      joins = true \/ alive (sessionTimeout gm) now (members g) who = true).

Lemma join_expels gm nm g c m who a now :
  manager_ok gm -> is_ascii nm && is_ascii (topic g) && is_ascii who && is_ascii a = true ->
  groups gm !! nm = Some g -> members g !! c = Some m ->
  sessionTimeout gm < time_sub now (lastHeartbeat m) ->
  int_min <= generation g -> generation g + 4 <= int_max ->
  exists g', groups (JoinGroup gm nm (topic g) who a now).1 !! nm = Some g'
  /\ expelled gm g now who true g'.
Proof.
  intros Hok Hasc Hg Hm Hexp Hmin Hmax.
  destruct (join_effect gm nm (topic g) who a now Hok Hasc)
    as (gm1 & gm2 & g0 & g1 & g2 & E0 & E1 & E2 & -> & _ & _ & Egm1 & Hs0 & _).
  pose proof (ensure_later _ _ _ _ _ _ _ Hg Hmin ltac:(lia) E0) as [? _].
  assert (members g0 = members g) as Hm0.
  { unfold ensureGroupLocked in E0. rewrite Hg, String.eqb_refl in E0. cbn [negb] in E0.
    injection E0 as _ <-. by case_match. }
  destruct (cleanup_expels gm1 nm g0 now gm2 g1 c m) as (Hgen & _ & _ & Hmem);
    [by rewrite Egm1; apply Hs0|by rewrite Hm0|by rewrite Egm1|ints|lia|done|].
  rewrite Hm0 in Hmem. replace (sessionTimeout gm1) with (sessionTimeout gm) in Hmem by (by rewrite Egm1).
  exists g2. cbn [fst saveLocked put groups]. split; [by rewrite lookup_insert_eq|]. rewrite E2.
  destruct (members g1 !! who) as [mw|]; (split; [|split; [|by left]]).
  - cbn. lia.
  - intros id _. apply Hmem.
  - cbn. rewrite int_add_id by ints. lia.
  - intros id Hid. cbn. rewrite elem_of_app, list_elem_of_singleton, Hmem. tauto.
Qed.

(** The checks of the other operations expel as well, and let only living members
    through. *)
Lemma check_member_expels gm nm g c m who gen now gm1 r :
  manager_ok gm -> groups gm !! nm = Some g -> members g !! c = Some m ->
  sessionTimeout gm < time_sub now (lastHeartbeat m) ->
  int_min <= generation g -> generation g + 4 <= int_max ->
  check_member gm nm (topic g) who gen now = (gm1, r) ->
  exists g1, groups gm1 !! nm = Some g1 /\ expelled gm g now who false g1
  /\ generation g1 = generation g + 1
  /\ forall g2, r = Success g2 -> g2 = g1 /\ who <> c.
Proof.
  intros Hok Hg Hm Hexp Hmin Hmax E.
  destruct (check_member_effect _ _ _ _ _ _ _ _ Hok E) as [[_ Er]|(g0 & g1 & Hg0 & _ & Ec & Hr)].
  { unfold check_member in E. rewrite Hg, String.eqb_refl in E. cbn [negb] in E.
    destruct (cleanupExpiredLocked gm nm g now) as [gm' g1] eqn:Ec.
    destruct (cleanup_expels gm nm g now gm' g1 c m) as (Hgen & Hgone & Hdead & Hmem);
      [apply (mo_groups _ Hok _ _ Hg)|done|done|done|lia|done|].
    pose proof (cleanup_groups _ _ _ _ _ _ Ec) as Eg.
    assert (gm1 = gm') as -> by (repeat case_match; by simplify_eq). exists g1.
    split; [by rewrite Eg, lookup_insert_eq|].
    split; [split; [lia|]; split; [intros; apply Hmem|intros; right; by apply Hmem]|].
    split; [done|]. intros g2 ->. done. }
  rewrite Hg in Hg0. injection Hg0 as <-.
  destruct (cleanup_expels gm nm g now gm1 g1 c m) as (Hgen & Hgone & Hdead & Hmem);
    [apply (mo_groups _ Hok _ _ Hg)|done|done|done|lia|done|].
  exists g1. split; [by rewrite (cleanup_groups _ _ _ _ _ _ Ec), lookup_insert_eq|].
  split; [split; [lia|]; split; [intros; apply Hmem|intros; right; by apply Hmem]|].
  split; [done|]. intros g2 Hg2. destruct (Hr g2 Hg2) as (-> & _ & [? Hw]).
  split; [done|]. intros ->. congruence.
Qed.

Lemma step_expels gm nm g c m o who now :
  manager_ok gm -> op_ascii o = true -> op_call o = Some (nm, topic g, who, now) ->
  groups gm !! nm = Some g -> members g !! c = Some m ->
  sessionTimeout gm < time_sub now (lastHeartbeat m) ->
  int_min <= generation g -> generation g + 4 <= int_max ->
  exists g', groups (step gm o) !! nm = Some g' /\ expelled gm g now who (is_join o) g'
  /\ (who = c -> is_join o = false -> accepted gm o = false).
Proof.
  intros Hok Hasc Hcall Hg Hm Hexp Hmin Hmax.
  destruct o as [nm' tp c' a now'|nm' tp c' gen now'|nm' tp c' gen now' now2
    |nm' tp c' gen now' now2|nm' tp c' gen p now'|]; simplify_eq/=; cbn [op_ascii is_join] in *.
  { destruct (join_expels gm nm g c m who a now) as (g' & Hg' & He); try done. by exists g'. }
  all: unfold LeaveGroup, SyncGroup, Heartbeat, ValidateCommit;
    destruct (check_member gm nm (topic g) who gen now) as [gm1 r] eqn:E;
    destruct (check_member_expels _ _ _ _ _ _ _ _ _ _ Hok Hg Hm Hexp Hmin Hmax E)
      as (g1 & Hg1 & He & Hgen & Hr);
    (destruct r as [g2|e]; [destruct (Hr g2 eq_refl) as [-> Hne]|by exists g1]).
  - eexists. cbn [fst saveLocked put groups]. rewrite lookup_insert_eq. split; [reflexivity|].
    split; [|done]. destruct He as (_ & Hmem & _).
    split; [cbn; rewrite int_add_id by ints; lia|]. cbn [rebalanceLocked bump set_order set_assignments memberOrder].
    split.
    + intros id Hid. rewrite list_elem_of_filter, <- Hmem by done. tauto.
    + intros [? _]%list_elem_of_filter. done.
  - eexists. cbn [fst saveLocked put groups]. rewrite lookup_insert_eq. split; [reflexivity|]. by split.
  - eexists. cbn [fst saveLocked put groups]. rewrite lookup_insert_eq. split; [reflexivity|]. by split.
  - exists g1. case_match; by split_and!.
Qed.

(** C26: silent members are expelled. When a member's last heartbeat is older than
    the session timeout, the next operation on the group, whoever sends it and
    whether it is a join, a leave, a sync, a heartbeat or a commit, accepted or
    refused, starts a new generation. Apart from its sender that generation has
    exactly the members that were alive; the sender is in it only when it was
    alive or is joining. The silent member is out and owns no partition, unless
    the operation is its own join, and any other operation of its own is
    refused. *)
Theorem silent_member_expelled gm nm g c m o who now :
  manager_ok gm -> op_ascii o = true -> op_call o = Some (nm, topic g, who, now) ->
  groups gm !! nm = Some g -> members g !! c = Some m ->
  sessionTimeout gm < time_sub now (lastHeartbeat m) ->
  int_min <= generation g -> generation g + 4 <= int_max ->
  exists g', groups (step gm o) !! nm = Some g' /\ generation g < generation g'
  /\ (forall id, id <> who ->
       id ∈ memberOrder g' <-> alive (sessionTimeout gm) now (members g) id = true)
  /\ (who ∈ memberOrder g' ->
       is_join o = true \/ alive (sessionTimeout gm) now (members g) who = true)
  /\ (who <> c \/ is_join o = false -> members g' !! c = None /\ owned (assignments g') c = [])
  /\ (who = c -> is_join o = false -> accepted gm o = false).
Proof.
  intros Hok Hasc Hcall Hg Hm Hexp Hmin Hmax.
  destruct (step_expels gm nm g c m o who now) as (g' & Hg' & (Hgen & Hmem & Hwho) & Hacc); try done.
  assert (alive (sessionTimeout gm) now (members g) c = false) as Hdead.
  { unfold alive. rewrite Hm. apply negb_false_iff. by apply Z.ltb_lt. }
  exists g'. split_and!; try done. intros Hor.
  pose proof (step_ok gm o Hok Hasc) as Hok'.
  apply (stranger_owns_nothing (numPartitions (step gm o))); [apply (mo_groups _ Hok' _ _ Hg')|apply Hok'|].
  intros Hin. destruct (decide (who = c)) as [->|Hne].
  - destruct Hor as [|Hj]; [done|]. destruct (Hwho Hin); congruence.
  - apply Hmem in Hin; [congruence|]. by apply not_eq_sym.
Qed.

(** C40: a group name holds one topic at a time. A join of a group name for another
    topic replaces the group: the members of the former topic are gone, the joiner
    is alone, and any commit, heartbeat, sync or leave for the former topic is
    answered "group not found". *)
Theorem join_other_topic_evicts gm nm g tp c a now :
  manager_ok gm -> is_ascii nm && is_ascii tp && is_ascii c && is_ascii a = true ->
  groups gm !! nm = Some g -> topic g <> tp ->
  exists gm' r g', JoinGroup gm nm tp c a now = (gm', r)
  /\ groups gm' !! nm = Some g' /\ topic g' = tp /\ memberOrder g' = [c]
  /\ Assigned r = owned (assignments g') c
  /\ forall c' gen p now' now2,
     ValidateCommit gm' nm (topic g) c' gen p now' = (gm', Failure "group not found")
     /\ Heartbeat gm' nm (topic g) c' gen now' now2 = (gm', Failure "group not found")
     /\ SyncGroup gm' nm (topic g) c' gen now' now2 = (gm', Failure "group not found")
     /\ LeaveGroup gm' nm (topic g) c' gen now' = (gm', Failure "group not found").
Proof.
  intros Hok Hasc Hg Ht.
  destruct (join_effect gm nm tp c a now Hok Hasc)
    as (gm1 & gm2 & g0 & g1 & g2 & E0 & E1 & E2 & -> & _ & _ & Egm1 & Hs0 & _ & _ & Ht0).
  assert (memberOrder g0 = [] /\ members g0 = ∅) as [Ho0 Hm0].
  { unfold ensureGroupLocked in E0. rewrite Hg in E0. apply String.eqb_neq in Ht. rewrite Ht in E0.
    injection E0 as _ <-. by case_match. }
  assert (topic g1 = tp /\ memberOrder g1 = [] /\ members g1 !! c = None) as (Ht1 & Ho1 & Hm1).
  { apply cleanup_spec in E1 as (_ & _ & _ & Et1 & _ & Eo1 & Em1 & _);
      [|rewrite Egm1; apply (so_group _ _ _ Hs0)].
    rewrite Ho0 in Eo1. split; [congruence|]. split; [done|].
    destruct (members g1 !! c) eqn:E; [|done]. apply Em1 in E as [E _].
    by rewrite Hm0, lookup_empty in E. }
  rewrite Hm1 in E2. eexists _, _, g2. split; [reflexivity|].
  cbn [saveLocked put groups]. rewrite lookup_insert_eq, E2. split; [done|].
  split; [done|]. split; [cbn; by rewrite Ho1|]. split; [done|].
  intros c' gen p now' now2. unfold ValidateCommit, Heartbeat, SyncGroup, LeaveGroup, check_member.
  cbn [saveLocked put groups].
  rewrite lookup_insert_eq. cbn [rebalanceLocked bump set_members set_order set_assignments topic].
  rewrite Ht1. destruct (String.eqb_spec tp (topic g)); [congruence|done].
Qed.

(** ** The file follows the groups *)
Definition synced gm : Prop :=
  faults (disk gm) = []
  /\ (file (disk gm) = Some (encode (persist_group <$> groups gm))
      \/ (file (disk gm) = None /\ groups gm = ∅)).

Lemma synced_save gm : faults (disk gm) = [] -> synced (saveLocked gm).
Proof. intros Hf. unfold synced, saveLocked, save_file. cbn [disk groups]. rewrite Hf. simpl. auto. Qed.

Lemma synced_cleanup gm nm g now gm' g' :
  manager_ok gm -> synced gm -> groups gm !! nm = Some g ->
  cleanupExpiredLocked gm nm g now = (gm', g') -> synced gm'.
Proof.
  intros Hok Hs Hg. unfold cleanupExpiredLocked.
  destruct (expire _ _ _ _) as [[g1 act] []] eqn:E; intros [= <- <-].
  - apply synced_save. cbn [put disk]. apply Hs.
  - apply expire_none in E as [-> ->].
    replace (put gm nm _) with gm; [done|]. unfold put.
    replace (set_order g (memberOrder g)) with g by (by destruct g).
    rewrite insert_id by done. by destruct gm.
Qed.

Lemma synced_check gm nm tp c gen now gm' r :
  manager_ok gm -> synced gm -> check_member gm nm tp c gen now = (gm', r) -> synced gm'.
Proof.
  intros Hok Hs. unfold check_member. destruct (groups gm !! nm) as [g|] eqn:Hg; [|by intros [= <- <-]].
  case_match; [by intros [= <- <-]|].
  destruct (cleanupExpiredLocked gm nm g now) as [gm1 g1] eqn:Ec.
  pose proof (synced_cleanup _ _ _ _ _ _ Hok Hs Hg Ec).
  case_match; [by intros [= <- <-]|]. case_match; by intros [= <- <-].
Qed.

Lemma synced_step gm o :
  manager_ok gm -> op_ascii o = true -> no_restart o = true -> synced gm -> synced (step gm o).
Proof.
  intros Hok Hasc Hnr Hs. destruct o as [nm tp c a now|nm tp c gen now|nm tp c gen now now2
    |nm tp c gen now now2|nm tp c gen p now|]; cbn [step]; [..|done].
  - destruct (join_effect gm nm tp c a now Hok Hasc)
      as (gm1 & gm2 & g0 & g1 & g2 & _ & E1 & _ & -> & _ & _ & Egm1 & _).
    apply synced_save. cbn [put disk]. unfold cleanupExpiredLocked in E1. subst gm1.
    destruct Hs as [Hf _].
    destruct (expire _ _ _ _) as [[? ?] []]; injection E1 as <- <-; cbn [saveLocked put disk];
      unfold save_file; rewrite ?Hf; done.
  - unfold LeaveGroup. destruct (check_member gm nm tp c gen now) as [gm1 [g|e]] eqn:E;
      apply synced_check in E; try done. apply synced_save, E.
  - unfold SyncGroup. destruct (check_member gm nm tp c gen now) as [gm1 [g|e]] eqn:E;
      apply synced_check in E; try done. apply synced_save, E.
  - unfold Heartbeat. destruct (check_member gm nm tp c gen now) as [gm1 [g|e]] eqn:E;
      apply synced_check in E; try done. apply synced_save, E.
  - unfold ValidateCommit. destruct (check_member gm nm tp c gen now) as [gm1 [g|e]] eqn:E;
      apply synced_check in E; try done. by case_match.
Qed.

Lemma run_synced gm ops :
  manager_ok gm -> forallb op_ascii ops = true -> forallb no_restart ops = true ->
  synced gm -> synced (run gm ops).
Proof.
  revert gm. induction ops as [|o ops IH]; intros gm Hok Hasc Hnr Hs; [done|].
  cbn [forallb] in *. apply andb_true_iff in Hasc as [Ho Hasc], Hnr as [Hr Hnr].
  apply IH; auto using step_ok, synced_step.
Qed.

(** C24: a restart loses nothing. As long as saves succeed, after any operations a
    new manager on the same directory has exactly the groups of the old one, with
    heartbeats rounded down to milliseconds. *)
Theorem restart_preserves_groups n ops :
  0 <= n -> forallb op_ascii ops = true -> forallb no_restart ops = true ->
  let gm := run (NewGroupManager n (mkDisk None [])) ops in
  (forall nm g, groups gm !! nm = Some g -> 1 <= generation g) ->
  groups (NewGroupManager n (disk gm)) = trunc_group <$> groups gm.
Proof.
  intros Hn Hasc Hnr gm Hgen.
  assert (manager_ok (NewGroupManager n (mkDisk None []))) as H0.
  { apply new_manager_ok; [done|]. apply fresh_disk_ok. constructor. }
  pose proof (run_manager_ok _ _ H0 Hasc) as Hok. fold gm in Hok.
  destruct (run_synced _ ops H0 Hasc Hnr) as [_ Hfile]; [split; [done|by right]|]. fold gm in Hfile.
  unfold NewGroupManager, load. cbn [disk]. destruct Hfile as [-> |[-> Hg]];
    [|cbn [groups]; by rewrite Hg, fmap_empty].
  rewrite decode_encode.
  2: { eapply representable_ascii, persist_ascii; [apply Hok|]. apply (mo_groups _ Hok). }
  cbn [groups]. rewrite (right_id_L ∅ (∪)). apply map_eq. intros nm.
  rewrite map_lookup_imap, !lookup_fmap. destruct (groups gm !! nm) as [g|] eqn:E; [|done]. simpl.
  f_equal. eapply load_persist_group; [by apply (mo_groups _ Hok)|by eapply Hgen].
Qed.
End ManagerSpec.

(** ** Witnesses *)
Definition demo_json : Json persisted_groups := value_json ∅.
Definition demo_laws : @JsonLaws persisted_groups demo_json := value_json_laws ∅.

Definition demo_ops : list op :=
  [OpJoin "g" "orders" "c1" "" (100 * Second); OpJoin "g" "orders" "c2" "range" (101 * Second)].
Definition demo_manager : @GroupManager demo_json :=
  @run demo_json (@NewGroupManager demo_json 3 (mkDisk None [])) demo_ops.

Lemma demo_torn : @torn_ok persisted_groups demo_json (mkDisk None []).
Proof. constructor. Qed.

Lemma demo_manager_ok : @manager_ok demo_json demo_manager.
Proof.
  apply (@run_manager_ok demo_json demo_laws (fun _ _ => I)); [|reflexivity].
  apply (@new_manager_ok demo_json); [lia|]. apply fresh_disk_ok, demo_torn.
Qed.

Lemma groups_partitioned_witness :
  exists g, @groups demo_json demo_manager !! "g" = Some g
    /\ exists! c, 2 ∈ owned (assignments g) c.
Proof.
  eexists. split; [vm_compute; reflexivity|].
  apply (@groups_partitioned demo_json demo_laws (fun _ _ => I) 3 [] demo_ops "g" _
    ltac:(lia) demo_torn eq_refl).
  - vm_compute. reflexivity.
  - discriminate.
  - lia.
Defined.

Lemma commit_fenced_witness :
  exists g m, groups (@ValidateCommit demo_json demo_manager "g" "orders" "c1" 4 1 (102 * Second)).1
                !! "g" = Some g
    /\ members g !! "c1" = Some m
    /\ time_sub (102 * Second) (lastHeartbeat m) <= @sessionTimeout demo_json demo_manager.
Proof.
  apply (@commit_fenced demo_json demo_laws (fun _ _ => I) demo_manager "g" "orders" "c1" "orders" "c1"
    4 1 (102 * Second) (104 * Second) [OpHeartbeat "g" "orders" "c2" 4 (103 * Second) (103 * Second)]
    (@ValidateCommit demo_json demo_manager "g" "orders" "c1" 4 1 (102 * Second)).1
    (@ValidateCommit demo_json (@run demo_json
       (@ValidateCommit demo_json demo_manager "g" "orders" "c1" 4 1 (102 * Second)).1
       [OpHeartbeat "g" "orders" "c2" 4 (103 * Second) (103 * Second)])
       "g" "orders" "c1" 4 1 (104 * Second)).1 demo_manager_ok eq_refl eq_refl).
  - vm_compute. discriminate.
  - vm_compute. discriminate.
  - vm_compute. reflexivity.
  - vm_compute. reflexivity.
Defined.

Definition demo_group : ConsumerGroup :=
  mkGroup "g" "orders" 4 "range"
    {["c1" := mkMember "c1" (100 * Second); "c2" := mkMember "c2" (101 * Second)]}
    ["c1"; "c2"] {["c1" := [0; 1]; "c2" := [2]]}.

(** Ten and a half seconds after its join, "c1" has expired and "c2" has not: the
    heartbeat of "c2" expels "c1". *)
Lemma silent_member_expelled_witness :
  exists g', @groups demo_json (@step demo_json demo_manager
      (OpHeartbeat "g" "orders" "c2" 4 (110500 * Millisecond) (110500 * Millisecond))) !! "g" = Some g'
    /\ 4 < generation g' /\ ("c1" ∉ memberOrder g') /\ owned (assignments g') "c1" = [].
Proof.
  destruct (@silent_member_expelled demo_json demo_laws (fun _ _ => I) demo_manager "g" demo_group "c1"
    (mkMember "c1" (100 * Second))
    (OpHeartbeat "g" "orders" "c2" 4 (110500 * Millisecond) (110500 * Millisecond)) "c2" (110500 * Millisecond)
    demo_manager_ok eq_refl eq_refl) as (g' & Hg' & Hgen & Hmem & _ & Hout & _).
  - vm_compute. reflexivity.
  - vm_compute. reflexivity.
  - vm_compute. reflexivity.
  - vm_compute. discriminate.
  - vm_compute. discriminate.
  - exists g'. split; [exact Hg'|]. split; [exact Hgen|]. destruct Hout as [_ Hown]; [by right|].
    split; [|exact Hown]. intros Hin. apply Hmem in Hin; [|discriminate].
    vm_compute in Hin. discriminate Hin.
Defined.

(** "c9" joins "g" for "payments": it is alone in the group, and the commit of
    "c1", good a moment before, is refused. *)
Lemma join_other_topic_evicts_witness :
  (@ValidateCommit demo_json demo_manager "g" "orders" "c1" 4 0 (102 * Second)).2 = Success ()
  /\ let gm' := (@JoinGroup demo_json demo_manager "g" "payments" "c9" "" (102 * Second)).1 in
     memberOrder <$> (groups gm' !! "g") = Some ["c9"]
     /\ (ValidateCommit gm' "g" "orders" "c1" 4 0 (102 * Second)).2 = Failure "group not found".
Proof.
  split; [vm_compute; reflexivity|]. cbv zeta.
  destruct (@join_other_topic_evicts demo_json demo_laws (fun _ _ => I) demo_manager "g" demo_group
    "payments" "c9" "" (102 * Second) demo_manager_ok eq_refl) as (gm' & r & g' & -> & Hg & _ & Ho & _ & Hv).
  - vm_compute. reflexivity.
  - discriminate.
  - cbn [fst]. rewrite Hg. split; [simpl; by rewrite Ho|]. exact (f_equal snd (proj1 (Hv "c1" 4 0 (102 * Second) 0))).
Defined.

Lemma restart_preserves_groups_witness :
  @groups demo_json (@NewGroupManager demo_json 3 (@disk demo_json demo_manager))
  = trunc_group <$> @groups demo_json demo_manager.
Proof.
  apply (@restart_preserves_groups demo_json demo_laws (fun _ _ => I) 3 demo_ops); [lia|reflexivity|reflexivity|].
  intros nm g Hg.
  assert (map_Forall (fun _ g => 1 <= generation g) (@groups demo_json demo_manager)) as H.
  { refine (bool_decide_unpack _ _). vm_compute. exact I. }
  exact (H nm g Hg).
Defined.
End Groups.
