(* ===== verification/Offsets.v ===== *)
(** * Committed offsets: internal/coordinator/offset.go and coordinator.go

    The offset manager keeps a map from group, topic and partition to the last
    committed offset and rewrites [offsets.json] at every commit. The theorems:
    a read returns the last commit for its key, and after a crash the offsets are
    those of one moment of the past (every save is a whole snapshot), or none if
    the file was torn. [Coordinator] bundles the two managers. *)
From S2P Require Import Prelude GoStrings Persist Groups Config.

Module Offsets.
Import Groups.

Abbreviation offset_map := (gmap string (gmap string (gmap Z Z))).

Section Manager.
Context `{J : Json offset_map}.

(** [OffsetManager], with the file [offsets.json]. *)
Record OffsetManager := mkOffsets {
  offsets : offset_map;
  odisk : Disk (text offset_map)
}.

(** [save]. *)
Definition save (om : OffsetManager) : OffsetManager :=
  mkOffsets (offsets om) (save_file (odisk om) (encode (offsets om))).

(** [Commit]: missing inner maps are created on the way. *)
Definition Commit (om : OffsetManager) (group topic : string) (partition offset : Z) : OffsetManager :=
  let byTopic := default ∅ (offsets om !! group) in
  let byPartition := default ∅ (byTopic !! topic) in
  save (mkOffsets (<[group := <[topic := <[partition := offset]> byPartition]> byTopic]> (offsets om))
          (odisk om)).

(** [GetOffset]. *)
Definition GetOffset (om : OffsetManager) (group topic : string) (partition : Z) : Z :=
  match offsets om !! group with
  | None => 0
  | Some groupData =>
      match groupData !! topic with
      | None => 0
      | Some topicData =>
          match topicData !! partition with
          | None => 0
          | Some offset => offset
          end
      end
  end.

(** [load]: a failed decode leaves what it had filled in. *)
Definition load_offsets (om : OffsetManager) : OffsetManager :=
  match file (odisk om) with
  | None => om
  | Some t => mkOffsets (decode t).1 (odisk om)
  end.

(** [NewOffsetManager]. *)
Definition NewOffsetManager (disk : Disk (text offset_map)) : OffsetManager :=
  load_offsets (mkOffsets ∅ disk).

(** ** Properties *)
Record commit := mkCommit { cGroup : string; cTopic : string; cPartition : Z; cOffset : Z }.

Definition commit_all (om : OffsetManager) (cs : list commit) : OffsetManager :=
  fold_left (fun om c => Commit om (cGroup c) (cTopic c) (cPartition c) (cOffset c)) cs om.

Definition commit_key (c : commit) : string * string * Z := (cGroup c, cTopic c, cPartition c).

(** The last commit for a key, the specification of a read. *)
Definition last_commit (cs : list commit) (key : string * string * Z) (initial : Z) : Z :=
  fold_left (fun acc c => if decide (commit_key c = key) then cOffset c else acc) cs initial.

Lemma Commit_get om g t p o g' t' p' :
  GetOffset (Commit om g t p o) g' t' p'
  = if decide ((g, t, p) = (g', t', p')) then o else GetOffset om g' t' p'.
Proof.
  unfold GetOffset, Commit, save. cbn [offsets].
  destruct (decide (g = g')) as [->|Hg].
  2: { rewrite lookup_insert_ne by done. case_decide; [congruence|done]. }
  rewrite lookup_insert_eq. destruct (decide (t = t')) as [->|Ht].
  2: { rewrite lookup_insert_ne by done. rewrite decide_False by congruence.
       by destruct (offsets om !! g'). }
  rewrite lookup_insert_eq. destruct (decide (p = p')) as [->|Hp].
  - by rewrite lookup_insert_eq, decide_True.
  - rewrite lookup_insert_ne, decide_False by congruence.
    destruct (offsets om !! g') as [m|]; simpl; [|by rewrite !lookup_empty].
    by destruct (m !! t').
Qed.

(** a committed offset is read back. After any sequence of commits, reading a
    group, topic and partition returns the last offset committed for exactly that
    key, and what was stored before if there was none. *)
Theorem GetOffset_last_commit om cs g t p :
  GetOffset (commit_all om cs) g t p = last_commit cs (g, t, p) (GetOffset om g t p).
Proof.
  revert om. induction cs as [|c cs IH]; intros om; [done|].
  cbn [commit_all fold_left last_commit]. fold (commit_all (Commit om (cGroup c) (cTopic c) (cPartition c) (cOffset c)) cs).
  rewrite IH. unfold last_commit. f_equal. apply Commit_get.
Qed.

(** ** Crash consistency *)
Context `{L : !JsonLaws offset_map}.

(** Group and topic names the file can carry. *)
Definition ascii_offsets (m : offset_map) : Prop :=
  forall g byTopic, m !! g = Some byTopic -> is_ascii g = true /\
    forall t byPartition, byTopic !! t = Some byPartition -> is_ascii t = true.

Hypothesis representable_offsets : forall m : offset_map, ascii_offsets m -> representable m.

(** A torn file is rejected before anything is filled in. *)
Definition torn_empty (d : Disk (text offset_map)) : Prop :=
  Forall (fun f => forall l, f = Some (Torn l) -> decode l = (∅, false)) (faults d).

Definition commit_ascii (c : commit) : bool := is_ascii (cGroup c) && is_ascii (cTopic c).

Lemma Commit_ascii om g t p o :
  ascii_offsets (offsets om) -> is_ascii g = true -> is_ascii t = true ->
  ascii_offsets (offsets (Commit om g t p o)).
Proof.
  intros Hom Hg Ht g' bt. unfold Commit, save. cbn [offsets].
  destruct (decide (g' = g)) as [->|]; [|rewrite lookup_insert_ne by done; apply Hom].
  rewrite lookup_insert_eq. intros [= <-]. split; [done|]. intros t' bp.
  destruct (decide (t' = t)) as [->|]; [done|]. rewrite lookup_insert_ne by done.
  destruct (offsets om !! g) as [m|] eqn:E; simpl; [|by rewrite lookup_empty].
  intros Hm. by eapply (Hom g m E).
Qed.

(** What a restart would read: the offsets after some prefix of the commits, or
    nothing. *)
Definition restart_view (om : OffsetManager) (seen : offset_map -> Prop) : Prop :=
  let m := offsets (NewOffsetManager (odisk om)) in m = ∅ \/ seen m.

Lemma Commit_restart om g t p o (seen : offset_map -> Prop) :
  torn_empty (odisk om) -> ascii_offsets (offsets (Commit om g t p o)) -> restart_view om seen ->
  torn_empty (odisk (Commit om g t p o))
  /\ restart_view (Commit om g t p o) (fun m => seen m \/ m = offsets (Commit om g t p o)).
Proof.
  intros Ht Hasc Hv. set (om' := Commit om g t p o) in *.
  assert (decode (encode (offsets om')) = (offsets om', true)) as Hdec
    by (by apply decode_encode, representable_offsets).
  assert (odisk om' = save_file (odisk om) (encode (offsets om'))) as Hd by done.
  unfold restart_view, NewOffsetManager, load_offsets in *. cbn [odisk] in *. rewrite Hd.
  unfold torn_empty, save_file in *. destruct (faults (odisk om)) as [|[[|l]|] rest] eqn:Ef; cbn [file faults].
  - split; [constructor|]. rewrite Hdec. cbn [offsets]. tauto.
  - apply Forall_cons in Ht as [_ Ht]. split; [done|]. destruct (file (odisk om)); cbn [offsets] in *; tauto.
  - apply Forall_cons in Ht as [Hl Ht]. split; [done|]. rewrite (Hl l eq_refl). cbn [offsets]. tauto.
  - apply Forall_cons in Ht as [_ Ht]. split; [done|]. rewrite Hdec. cbn [offsets]. tauto.
Qed.

(** C23: crash consistency of offsets. Start on an empty directory, commit in any
    order with any saves failing or tearing the file, and restart at any point:
    the offsets found are those after some prefix of the commits (never a mixture
    of different moments), or none at all. *)
Theorem offsets_crash_consistent fs cs :
  torn_empty (mkDisk None fs) -> forallb commit_ascii cs = true ->
  let om0 := NewOffsetManager (mkDisk None fs) in
  let m := offsets (NewOffsetManager (odisk (commit_all om0 cs))) in
  m = ∅ \/ exists k, (k <= length cs)%nat /\ m = offsets (commit_all om0 (take k cs)).
Proof.
  intros Ht Hasc om0 m.
  assert (torn_empty (odisk (commit_all om0 cs)) /\ ascii_offsets (offsets (commit_all om0 cs))
    /\ restart_view (commit_all om0 cs)
         (fun m => exists k, (k <= length cs)%nat /\ m = offsets (commit_all om0 (take k cs))))
    as (_ & _ & H); [|exact H]. clear m.
  revert Hasc. induction cs as [|c cs IH] using rev_ind; intros Hasc.
  { split; [done|]. split; [intros g b; cbn; by rewrite lookup_empty|]. left. done. }
  rewrite forallb_app in Hasc. apply andb_true_iff in Hasc as [Hcs Hc]. cbn in Hc.
  rewrite andb_true_r in Hc. apply andb_true_iff in Hc as [Hg Htp].
  destruct (IH Hcs) as (Ht' & Ha' & Hv'). unfold commit_all in *. rewrite fold_left_app. cbn [fold_left].
  set (om := fold_left _ cs om0) in *.
  pose proof (Commit_ascii om _ _ (cPartition c) (cOffset c) Ha' Hg Htp) as Ha.
  destruct (Commit_restart om _ _ _ _ _ Ht' Ha Hv') as [Ht2 Hv2].
  split; [done|]. split; [done|]. destruct Hv2 as [Hv2|[(k & Hk & Hm)|Hm]]; [by left|right..].
  - exists k. rewrite length_app. split; [lia|]. by rewrite take_app_le by lia.
  - exists (length (cs ++ [c])). split; [lia|]. rewrite firstn_all. rewrite fold_left_app. done.
Qed.
End Manager.

(** ** [Coordinator] and [NewCoordinator] *)
Record Coordinator `{Json persisted_groups, Json offset_map} := mkCoordinator {
  coGroups : GroupManager;
  coOffsets : OffsetManager
}.

Definition NewCoordinator `{Json persisted_groups, Json offset_map} (cfg : Config)
    (groupDisk : Disk (text persisted_groups)) (offsetDisk : Disk (text offset_map)) : Coordinator :=
  mkCoordinator _ _ (NewGroupManager (NumPartitions cfg) groupDisk) (NewOffsetManager offsetDisk).

Lemma offsets_crash_consistent_witness :
  let d := mkDisk None [None; Some NotWritten] in
  let om := @commit_all (value_json ∅) (@NewOffsetManager (value_json ∅) d)
              [mkCommit "g" "orders" 0 5; mkCommit "g" "orders" 0 9] in
  let m := offsets (NewOffsetManager (odisk om)) in
  m = ∅ \/ exists k, (k <= 2)%nat
    /\ m = offsets (@commit_all (value_json ∅) (@NewOffsetManager (value_json ∅) d)
                      (take k [mkCommit "g" "orders" 0 5; mkCommit "g" "orders" 0 9])).
Proof.
  apply (@offsets_crash_consistent (value_json ∅) (value_json_laws ∅) (fun _ _ => I));
    [|reflexivity].
  repeat constructor; intros l H; discriminate H.
Defined.
End Offsets.
