(* ===== verification/TcpTransport.v ===== *)
(** * The inter-broker transport: internal/replication/tcp_transport.go

    [TCPTransport] speaks the text protocol to a leader: one connection, one
    request line and one response line per call. The socket is a parameter (the
    record [Network]); everything else (request formatting, response status,
    field extraction, record decoding) is executable here. The properties: what
    [protocol.Ok] and [protocol.Err] print is read back; a fetch response in the
    format the leader prints is decoded to exactly the records it encodes as long
    as no value contains a comma; a value with a comma is never decoded intact: it
    is truncated, forges a record or makes the whole batch be refused. *)
From S2P Require Import Prelude GoStrings Protocol Worker.

(** A TCP connection used for one exchange: [net.DialTimeout], [conn.Write] and
    [ReadString] up to a line break (the line with its break, or an error). *)
Record Network (W : Type) := mkNetwork {
  DialTimeout : W -> string -> Z -> W * result unit;
  ConnWrite : W -> string -> W * result unit;
  ReadLine : W -> W * result string
}.
Arguments DialTimeout {W}.
Arguments ConnWrite {W}.
Arguments ReadLine {W}.

(** [TCPTransport]; [seq] is a [uint64]. *)
Record TCPTransport := mkTCPTransport { LeaderAddr : string; Timeout : Z; seq : Z }.

(** [NewTCPTransport]. *)
Definition NewTCPTransport (leaderAddr : string) (timeout : Z) : TCPTransport :=
  mkTCPTransport leaderAddr (if timeout <=? 0 then 3 * Second else timeout) 0.

(** [parseOKPayload]. *)
Definition parseOKPayload (line : string) : result string :=
  match Split line "|" with
  | _ :: _ :: status :: rest =>
      if String.eqb status "ERR" then
        let code := match rest with c :: _ => c | [] => "UNKNOWN_ERROR" end in
        let msg := match rest with _ :: (_ :: _) as m => Join m "|" | _ => "unknown error" end in
        Failure (code +:+ ": " +:+ msg)
      else if negb (String.eqb status "OK") then
        Failure ("unknown response status: " +:+ status)
      else match rest with
           | [] => Success ""
           | _ => Success (Join rest "|")
           end
  | _ => Failure ("invalid response line: " +:+ line)
  end.

(** [extractStringField]. *)
Definition extractStringField (payload key : string) : string :=
  match Cut (key +:+ "=") payload with
  | None => ""
  | Some (_, rest) => match Cut " " rest with None => rest | Some (v, _) => v end
  end.

(** The loop of [Fetch] over the comma-separated items. *)
Fixpoint parse_records (payload : string) (items : list string)
    : result (list ReplicationRecord) :=
  match items with
  | [] => Success []
  | item :: rest =>
      if String.eqb item "" then parse_records payload rest
      else match SplitN item ":" 2 with
           | [o; v] =>
               match Atoi o with
               | None => Failure ("invalid record offset: " +:+ o)
               | Some off =>
                   let? records := parse_records payload rest in
                   Success (mkRecord off v :: records)
               end
           | _ => Failure ("malformed record payload: " +:+ payload)
           end
  end.

Section Transport.
Context {W : Type} (net : Network W).
(** The text of the error [strconv.Atoi] returns for an input. *)
Variable NumError : string -> string.

(** [extractIntField]. *)
Definition extractIntField (payload key : string) : result Z :=
  let raw := extractStringField payload key in
  if String.eqb raw "" then Failure ("missing field " +:+ key +:+ " in payload: " +:+ payload)
  else match Atoi raw with Some z => Success z | None => Failure (NumError raw) end.

(** [send]: the sequence number moves once the connection is open. *)
Definition send (t : TCPTransport) (w : W) (command args : string)
    : TCPTransport * W * result string :=
  if String.eqb (LeaderAddr t) "" then (t, w, Failure "leader address is required")
  else
    match DialTimeout net w (LeaderAddr t) (Timeout t) with
    | (w, Failure err) => (t, w, Failure err)
    | (w, Success _) =>
        let n := (seq t + 1) mod 2 ^ 64 in
        let t := mkTCPTransport (LeaderAddr t) (Timeout t) n in
        match ConnWrite net w (request_line (Itoa n) command args) with
        | (w, Failure err) => (t, w, Failure err)
        | (w, Success _) =>
            match ReadLine net w with
            | (w, Failure err) => (t, w, Failure err)
            | (w, Success resp) => (t, w, Success (TrimSpace resp))
            end
        end
    end.

(** What [Fetch] does with the response line. *)
Definition decode_fetch (line : string) : result FetchResult :=
  let? payload := parseOKPayload line in
  let? hw := extractIntField payload "hw" in
  let recordsField := extractStringField payload "records" in
  if String.eqb recordsField "" then Success (mkFetchResult hw [])
  else
    let? records := parse_records payload (Split recordsField ",") in
    Success (mkFetchResult hw records).

(** [Fetch]. *)
Definition tcp_Fetch (t : TCPTransport) (w : W) (topic : string)
    (partition followerID offset maxMessages : Z) : TCPTransport * W * result FetchResult :=
  let maxMessages := if maxMessages <=? 0 then 100 else maxMessages in
  let args := Join [topic; Itoa partition; Itoa followerID; Itoa offset; Itoa maxMessages] " " in
  match send t w "BROKER_FETCH" args with
  | (t, w, Failure err) => (t, w, Failure err)
  | (t, w, Success line) => (t, w, decode_fetch line)
  end.

(** [Ack]. *)
Definition tcp_Ack (t : TCPTransport) (w : W) (topic : string)
    (partition followerID ackedOffset : Z) : TCPTransport * W * result unit :=
  let args := Join [topic; Itoa partition; Itoa followerID; Itoa ackedOffset] " " in
  match send t w "BROKER_REPLICA_ACK" args with
  | (t, w, Failure err) => (t, w, Failure err)
  | (t, w, Success line) =>
      (t, w, let? _ := parseOKPayload line in Success ())
  end.

(** The transport as the worker's interface: the world is the network together
    with the transport's own state. *)
Definition tcp_transport : Transport (TCPTransport * W) := {|
  Fetch := fun tw topic partition followerID offset max =>
    let '(t, w, r) := tcp_Fetch tw.1 tw.2 topic partition followerID offset max in ((t, w), r);
  Ack := fun tw topic partition followerID acked =>
    let '(t, w, r) := tcp_Ack tw.1 tw.2 topic partition followerID acked in ((t, w), r)
|}.
End Transport.

(** ** The response the leader prints (the end of [handleBrokerFetch]) *)
Definition print_record (r : ReplicationRecord) : string :=
  Itoa (recOffset r) +:+ ":" +:+ recValue r.

Definition broker_fetch_payload (topic : string) (partition followerID hw : Z)
    (records : list string) : string :=
  "topic=" +:+ topic +:+ " partition=" +:+ Itoa partition +:+ " follower=" +:+ Itoa followerID
  +:+ " hw=" +:+ Itoa hw +:+ " records=" +:+ Join records ",".

(** ** Responses are read back *)
Lemma Split_bars a b c d :
  no_char "|" a = true -> no_char "|" b = true -> no_char "|" c = true ->
  Split (a +:+ "|" +:+ b +:+ "|" +:+ c +:+ "|" +:+ d) "|" = a :: b :: c :: Split d "|".
Proof.
  intros Ha Hb Hc. change "|" with (str1 "|"). simpl String.append.
  rewrite (Split_cons "|" a) by done. by rewrite (Split_cons "|" b), (Split_cons "|" c).
Qed.

Lemma Split_bar_nonempty d : Split d "|" <> [].
Proof. apply SplitN_nonempty. Qed.

Lemma parseOKPayload_ok cid payload :
  no_char "|" cid = true ->
  parseOKPayload ("V1|" +:+ cid +:+ "|OK|" +:+ payload) = Success payload.
Proof.
  intros Hcid. unfold parseOKPayload.
  pose proof (Split_bars "V1" cid "OK" payload eq_refl Hcid eq_refl) as E. simpl String.append in E.
  simpl String.append. rewrite E. simpl.
  pose proof (Split_bar_nonempty payload). destruct (Split payload "|") eqn:Es; [done|].
  rewrite <- Es. f_equal. apply (Join_Split "|").
Qed.

Lemma parseOKPayload_err cid code msg :
  no_char "|" cid = true -> no_char "|" code = true ->
  parseOKPayload ("V1|" +:+ cid +:+ "|ERR|" +:+ code +:+ "|" +:+ msg)
  = Failure (code +:+ ": " +:+ msg).
Proof.
  intros Hcid Hcode. unfold parseOKPayload.
  pose proof (Split_bars "V1" cid "ERR" (code +:+ "|" +:+ msg) eq_refl Hcid eq_refl) as E.
  simpl String.append in E. simpl String.append. rewrite E.
  rewrite (Split_cons "|" code) by done. simpl.
  pose proof (Split_bar_nonempty msg). destruct (Split msg (str1 "|")) eqn:Es; [done|].
  rewrite <- Es. change (Join ?l "|") with (Join l (str1 "|")). by rewrite Join_Split.
Qed.

Lemma parseOKPayload_bare cid :
  no_char "|" cid = true -> parseOKPayload ("V1|" +:+ cid +:+ "|OK") = Success "".
Proof.
  intros Hcid. unfold parseOKPayload.
  replace (Split ("V1|" +:+ cid +:+ "|OK") "|") with ["V1"; cid; "OK"]; [done|]. symmetry.
  change (Split ("V1" +:+ String "|" (cid +:+ String "|" "OK")) (str1 "|") = ["V1"; cid; "OK"]).
  by rewrite !Split_cons.
Qed.

Lemma edged_line (a m b : string) :
  str_forall plain a = true -> a <> EmptyString -> edged b -> b <> EmptyString ->
  TrimSpace ((a +:+ m +:+ b) +:+ nl) = a +:+ m +:+ b.
Proof.
  intros Ha Hane Hb Hbne. apply TrimSpace_nl; [apply edged_app; auto using word_edged|].
  by destruct a.
Qed.

Lemma Ok_roundtrip cid payload :
  no_char "|" cid = true -> edged payload ->
  parseOKPayload (TrimSpace (Ok cid payload)) = Success payload.
Proof.
  intros Hcid Hp. unfold Ok. destruct (String.eqb_spec payload "") as [->|Hpne].
  - pose proof (edged_line "V1" ("|" +:+ cid) "|OK") as E. strs. simpl String.append in *.
    rewrite E by (try apply word_edged; done). by apply parseOKPayload_bare.
  - pose proof (edged_line "V1" ("|" +:+ cid +:+ "|OK|") payload) as E. strs.
    simpl String.append in *. rewrite E by done. by apply parseOKPayload_ok.
Qed.

Lemma Err_roundtrip cid code msg :
  no_char "|" cid = true -> cid <> EmptyString -> no_char "|" code = true ->
  edged msg -> msg <> EmptyString ->
  parseOKPayload (TrimSpace (Err cid code msg)) = Failure (code +:+ ": " +:+ msg).
Proof.
  intros Hcid Hne Hcode Hm Hmne. unfold Err. apply String.eqb_neq in Hne. rewrite Hne.
  pose proof (edged_line "V1" ("|" +:+ cid +:+ "|ERR|" +:+ code +:+ "|") msg) as E. strs.
  simpl String.append in *. rewrite E by done. by apply parseOKPayload_err.
Qed.

(** responses survive the wire. The line [protocol.Ok] prints for a payload
    is read back by the transport as that payload, bars included, and the line
    [protocol.Err] prints becomes an error with its code and message; payloads
    and messages only need to begin and end with visible ASCII characters, and
    the correlation id to be free of bars, which parsing guarantees. *)
Theorem response_roundtrip cid payload code msg :
  no_char "|" cid = true -> cid <> EmptyString -> no_char "|" code = true ->
  edged payload -> edged msg -> msg <> EmptyString ->
  parseOKPayload (TrimSpace (Ok cid payload)) = Success payload
  /\ parseOKPayload (TrimSpace (Err cid code msg)) = Failure (code +:+ ": " +:+ msg).
Proof.
  intros Hcid Hne Hcode Hp Hm Hmne. split; [by apply Ok_roundtrip|by apply Err_roundtrip].
Qed.

Lemma response_roundtrip_witness :
  parseOKPayload (TrimSpace (Ok "7" "hw=3 records=0:a|b")) = Success "hw=3 records=0:a|b".
Proof.
  apply (response_roundtrip "7" "hw=3 records=0:a|b" "BAD_REQUEST" "no"); try reflexivity; try discriminate.
  - right. split; [by exists "h"%char, "w=3 records=0:a|b"|by exists "hw=3 records=0:a|", "b"%char].
  - right. split; [by exists "n"%char, "o"|by exists "n", "o"%char].
Defined.

(** ** Fetch responses are decoded *)

(** A topic name that does not look like one of the extracted fields. *)
Definition clean_topic (topic : string) : bool :=
  word topic && negb (Contains ("topic=" +:+ topic) "hw=")
  && negb (Contains ("topic=" +:+ topic) "records=").

(** A value without blanks (argument words have none) and without commas. *)
Definition clean_value (v : string) : bool := str_forall plain v && no_char "," v.

Definition record_ok (r : ReplicationRecord) : bool :=
  in_int (recOffset r) && clean_value (recValue r).

Lemma extract_after payload key :
  extractStringField payload key
  = match after (key +:+ "=") payload with
    | None => ""
    | Some rest => match Cut " " rest with None => rest | Some (v, _) => v end
    end.
Proof. unfold extractStringField, after. by destruct (Cut _ payload) as [[]|]. Qed.

Lemma Itoa_no_char c z : num_byte c = false -> no_char c (Itoa z) = true.
Proof. intros. apply num_no_char; [done|apply Itoa_num]. Qed.

Lemma payload_hw topic p f hw recs :
  clean_topic topic = true ->
  extractStringField (broker_fetch_payload topic p f hw recs) "hw" = Itoa hw.
Proof.
  unfold clean_topic. rewrite !andb_true_iff, !negb_true_iff. intros [[_ Hhw] _].
  rewrite extract_after. unfold broker_fetch_payload.
  pose proof (after_field " " "hw=" ("topic=" +:+ topic)
    (("partition=" +:+ Itoa p +:+ " follower=" +:+ Itoa f +:+ " ")
      +:+ ("hw=" +:+ Itoa hw +:+ " records=" +:+ Join recs ","))) as E.
  rewrite (after_skip "h" "w=" ("partition=" +:+ _)), (after_here "hw=" (Itoa hw +:+ _)) in E.
  - strs. simpl String.append in *. rewrite E by done.
    change (String " " ?s) with (str1 " " +:+ s).
    pose proof (Cut_char " " (Itoa hw) ("records=" +:+ Join recs ",")) as C.
    change (str1 " ") with " " in C. simpl String.append in *.
    rewrite C by (by apply Itoa_no_char). done.
  - rewrite !no_char_app, !Itoa_no_char by done. done.
Qed.

Lemma payload_records topic p f hw recs :
  clean_topic topic = true -> no_char " " (Join recs ",") = true ->
  extractStringField (broker_fetch_payload topic p f hw recs) "records" = Join recs ",".
Proof.
  unfold clean_topic. rewrite !andb_true_iff, !negb_true_iff. intros [_ Hrec] Hsp.
  rewrite extract_after. unfold broker_fetch_payload.
  pose proof (after_field " " "records=" ("topic=" +:+ topic)
    ("partition=" +:+ Itoa p +:+ " follower=" +:+ Itoa f +:+ " hw=" +:+ Itoa hw
      +:+ " records=" +:+ Join recs ",")) as E.
  strs. simpl String.append in *. rewrite E by done. clear E.
  rewrite !after_step by reflexivity. rewrite (after_skip "r" "ecords=") by (by apply Itoa_no_char).
  rewrite !after_step by reflexivity. rewrite (after_skip "r" "ecords=") by (by apply Itoa_no_char).
  rewrite !after_step by reflexivity. rewrite (after_skip "r" "ecords=") by (by apply Itoa_no_char).
  rewrite after_step by reflexivity.
  pose proof (after_here "records=" (Join recs ",")) as H. simpl String.append in H. rewrite H.
  pose proof (Cut_char_none " " _ Hsp) as C. change (str1 " ") with " " in C. by rewrite C.
Qed.

Lemma no_char_Join c sep l :
  Forall (fun x => no_char c x = true) l -> no_char c sep = true -> no_char c (Join l sep) = true.
Proof.
  intros Hl Hsep. induction Hl as [|x l Hx Hl IH]; [done|].
  destruct l; [done|]. rewrite Join_cons by done. rewrite !no_char_app, Hx, Hsep, IH. done.
Qed.

Lemma plain_Join sep l :
  Forall (fun x => str_forall plain x = true) l -> str_forall plain sep = true ->
  str_forall plain (Join l sep) = true.
Proof.
  intros Hl Hsep. induction Hl as [|x l Hx Hl IH]; [done|].
  destruct l; [done|]. rewrite Join_cons by done. by rewrite !str_forall_app, Hx, Hsep, IH.
Qed.

Lemma print_record_plain r :
  str_forall plain (recValue r) = true -> str_forall plain (print_record r) = true.
Proof.
  intros Hv. unfold print_record. rewrite !str_forall_app, Hv.
  rewrite (num_plain _ (Itoa_num _)). done.
Qed.

Lemma print_record_no_comma r :
  no_char "," (recValue r) = true -> no_char "," (print_record r) = true.
Proof. intros Hv. unfold print_record. by rewrite !no_char_app, Hv, Itoa_no_char. Qed.

Lemma record_ok_parts r :
  record_ok r = true ->
  in_int (recOffset r) = true /\ str_forall plain (recValue r) = true
  /\ no_char "," (recValue r) = true.
Proof. unfold record_ok, clean_value. rewrite !andb_true_iff. tauto. Qed.

Lemma parse_print_record payload r rest :
  in_int (recOffset r) = true ->
  parse_records payload (print_record r :: rest)
  = let? records := parse_records payload rest in Success (r :: records).
Proof.
  intros Hr. cbn [parse_records]. unfold print_record at 1.
  destruct (String.eqb_spec (Itoa (recOffset r) +:+ ":" +:+ recValue r) "") as [E|_].
  { destruct (Itoa (recOffset r)) eqn:Ei; [by apply Itoa_nonempty in Ei|done]. }
  unfold SplitN, print_record. pose proof (Cut_char ":" (Itoa (recOffset r)) (recValue r)) as C.
  change (str1 ":") with ":" in C. change (":" +:+ ?v) with (String ":" v).
  rewrite C by (by apply Itoa_no_char). rewrite Atoi_Itoa by done. by destruct r.
Qed.

Lemma parse_print_records payload recs :
  Forall (fun r => record_ok r = true) recs ->
  parse_records payload (map print_record recs) = Success recs.
Proof.
  induction 1 as [|r recs Hr _ IH]; [done|]. cbn [map].
  rewrite parse_print_record by (by apply record_ok_parts in Hr as (? & _)). by rewrite IH.
Qed.

(** Decoding a fetch payload whose record text has no blank comes down to
    decoding its items. *)
Lemma decode_payload NumError cid topic p f hw recs :
  no_char "|" cid = true -> clean_topic topic = true -> in_int hw = true ->
  str_forall plain (Join recs ",") = true ->
  decode_fetch NumError (TrimSpace (Ok cid (broker_fetch_payload topic p f hw recs)))
  = if String.eqb (Join recs ",") "" then Success (mkFetchResult hw [])
    else let? records := parse_records (broker_fetch_payload topic p f hw recs)
                           (Split (Join recs ",") ",") in
         Success (mkFetchResult hw records).
Proof.
  intros Hcid Htopic Hhw Hplain. unfold decode_fetch. rewrite Ok_roundtrip; [|done|].
  - cbn [result_bind]. unfold extractIntField. rewrite payload_hw by done.
    destruct (String.eqb_spec (Itoa hw) "") as [E|_]; [by apply Itoa_nonempty in E|].
    rewrite Atoi_Itoa by done. cbn [result_bind].
    by rewrite payload_records by (by try apply plain_no_space).
  - unfold broker_fetch_payload.
    pose proof (edged_app "topic=" (topic +:+ " partition=" +:+ Itoa p +:+ " follower=" +:+ Itoa f
      +:+ " hw=" +:+ Itoa hw +:+ " ") ("records=" +:+ Join recs ",")) as E. strs.
    apply E; try done; apply word_edged; [done|by rewrite str_forall_app, Hplain].
Qed.

Lemma decode_print NumError cid topic p f hw recs :
  no_char "|" cid = true -> clean_topic topic = true -> in_int hw = true ->
  Forall (fun r => record_ok r = true) recs ->
  decode_fetch NumError (TrimSpace (Ok cid (broker_fetch_payload topic p f hw (map print_record recs))))
  = Success (mkFetchResult hw recs).
Proof.
  intros Hcid Htopic Hhw Hrecs.
  assert (Forall (fun x => str_forall plain x = true) (map print_record recs)
          /\ Forall (fun x => no_char "," x = true) (map print_record recs)) as [Hp Hc].
  { rewrite !Forall_map. split; eapply Forall_impl; try exact Hrecs;
      intros r (? & ? & ?)%record_ok_parts; auto using print_record_plain, print_record_no_comma. }
  rewrite decode_payload by auto using plain_Join.
  destruct recs as [|r recs]; [done|].
  destruct (String.eqb_spec (Join (map print_record (r :: recs)) ",") "") as [E|_].
  { cbn [map] in E. unfold print_record in E at 1. pose proof (Itoa_nonempty (recOffset r)).
    destruct (Itoa (recOffset r)); [done|]. by destruct (map print_record recs). }
  pose proof (Split_Join "," (map print_record (r :: recs))) as S. change (str1 ",") with "," in S.
  rewrite S by done. by rewrite parse_print_records.
Qed.

(** C15: a replica fetch round trip. When the leader's answer arrives (the
    connection opens, the request is written and a line is read), the transport
    returns exactly the high watermark and the records the leader printed, in
    order, for records whose values have no comma; the request it sent is the
    line the leader parses. *)
Theorem fetch_roundtrip {W} (net : Network W) NumError t w w1 w2 w3 cid topic p f off max hw recs :
  let n := (seq t + 1) mod 2 ^ 64 in
  let args := [topic; Itoa p; Itoa f; Itoa off; Itoa (if max <=? 0 then 100 else max)] in
  LeaderAddr t <> "" ->
  DialTimeout net w (LeaderAddr t) (Timeout t) = (w1, Success ()) ->
  ConnWrite net w1 (request_line (Itoa n) "BROKER_FETCH" (Join args " ")) = (w2, Success ()) ->
  ReadLine net w2
  = (w3, Success (Ok cid (broker_fetch_payload topic p f hw (map print_record recs)))) ->
  no_char "|" cid = true -> clean_topic topic = true -> in_int hw = true ->
  Forall (fun r => record_ok r = true) recs ->
  tcp_Fetch net NumError t w topic p f off max
  = (mkTCPTransport (LeaderAddr t) (Timeout t) n, w3, Success (mkFetchResult hw recs)).
Proof.
  intros n args Haddr Hdial Hwrite Hread Hcid Htopic Hhw Hrecs. unfold tcp_Fetch, send.
  apply String.eqb_neq in Haddr. rewrite Haddr, Hdial. fold n.
  change (Join _ " ") with (Join args " "). rewrite Hwrite, Hread. by rewrite decode_print.
Qed.

(** A network that answers every request with one line. *)
Definition scripted (line : string) : Network unit :=
  {| DialTimeout := fun w _ _ => (w, Success ()); ConnWrite := fun w _ => (w, Success ());
     ReadLine := fun w => (w, Success line) |}.

Lemma fetch_roundtrip_witness :
  (tcp_Fetch (scripted (Ok "1" (broker_fetch_payload "orders" 0 1 4 ["3:a"; "4:b|c:d"])))
     (fun _ => "") (NewTCPTransport "leader:9092" 0) () "orders" 0 1 3 256).2
  = Success (mkFetchResult 4 [mkRecord 3 "a"; mkRecord 4 "b|c:d"]).
Proof.
  rewrite (fetch_roundtrip (scripted (Ok "1" (broker_fetch_payload "orders" 0 1 4 ["3:a"; "4:b|c:d"])))
    (fun _ => "") (NewTCPTransport "leader:9092" 0) () () () () "1" "orders" 0 1 3 256 4
    [mkRecord 3 "a"; mkRecord 4 "b|c:d"]); try reflexivity.
  - discriminate.
  - repeat constructor.
Defined.

(** *** Values with a comma *)
Lemma Split_no_char c s : Forall (fun x => no_char c x = true) (Split s (str1 c)).
Proof.
  assert (forall n s, (String.length s < n)%nat -> Forall (fun x => no_char c x = true) (SplitN s (str1 c) n)) as H.
  { clear s. induction n as [|[|n] IH]; intros s Hn; [lia|by destruct s; [repeat constructor|simpl in Hn; lia]|].
    change (SplitN s (str1 c) (S (S n))) with
      (match Cut (str1 c) s with Some (a, b) => a :: SplitN b (str1 c) (S n) | None => [s] end).
    destruct (Cut (str1 c) s) as [[a b]|] eqn:E; [|repeat constructor; by apply Cut_None_char].
    apply Cut_char_inv in E as [-> Ha]. constructor; [done|]. apply IH.
    rewrite str_length_app in Hn. simpl in Hn. lia. }
  apply H. lia.
Qed.

Lemma parse_records_no_comma payload items : forall records,
  Forall (fun x => no_char "," x = true) items -> parse_records payload items = Success records ->
  Forall (fun r => no_char "," (recValue r) = true) records.
Proof.
  induction items as [|item items IH]; intros records Hi; cbn [parse_records]; [by intros [= <-]|].
  apply Forall_cons in Hi as [Hi His]. destruct (String.eqb item ""); [by apply IH|].
  unfold SplitN. destruct (Cut ":" item) as [[o v]|] eqn:E; [|done].
  destruct (Atoi o); [|done]. destruct (parse_records payload items) as [rs|] eqn:Er; [|done].
  intros [= <-]. constructor; [|by apply IH].
  change ":" with (str1 ":") in E. apply Cut_char_inv in E as [-> _].
  rewrite no_char_app in Hi. apply andb_true_iff in Hi as [_ Hi]. exact Hi.
Qed.

Lemma decode_no_comma NumError line fr :
  decode_fetch NumError line = Success fr ->
  Forall (fun r => no_char "," (recValue r) = true) (frRecords fr).
Proof.
  unfold decode_fetch. destruct (parseOKPayload line) as [payload|]; [|done]. cbn [result_bind].
  destruct (extractIntField NumError payload "hw") as [hw|]; [|done]. cbn [result_bind].
  destruct (String.eqb _ ""); [intros [= <-]; by constructor|].
  destruct (parse_records payload _) as [rs|] eqn:E; [|done]. intros [= <-].
  by eapply parse_records_no_comma; [apply (Split_no_char ",")|].
Qed.

(** Splitting at commas cuts a value with a comma in two. *)
Lemma Join_cut l a b l' :
  Join (l ++ (a +:+ "," +:+ b) :: l') "," = Join (l ++ a :: b :: l') ",".
Proof.
  induction l as [|x l IH]; cbn [app].
  - destruct l' as [|y l']; [done|]. rewrite !Join_cons by done. by strs.
  - rewrite !Join_cons, IH; [done|by destruct l|by destruct l].
Qed.

Lemma parse_prefix payload recs items :
  Forall (fun r => record_ok r = true) recs ->
  parse_records payload (map print_record recs ++ items)
  = let? records := parse_records payload items in Success (recs ++ records).
Proof.
  induction 1 as [|r recs Hr _ IH]; cbn [map app]; [by destruct (parse_records _ _)|].
  rewrite parse_print_record by (by apply record_ok_parts in Hr as (? & _)). rewrite IH.
  by destruct (parse_records payload items).
Qed.

(** What the follower makes of a batch in which one value is [v1,v2]: [v1] stands
    for the value, [v2] for a record. *)
Lemma decode_cut NumError cid topic p f hw before o v1 v2 after :
  no_char "|" cid = true -> clean_topic topic = true -> in_int hw = true -> in_int o = true ->
  Forall (fun r => record_ok r = true) before -> Forall (fun r => record_ok r = true) after ->
  clean_value v1 = true -> clean_value v2 = true ->
  exists payload,
  decode_fetch NumError (TrimSpace (Ok cid (broker_fetch_payload topic p f hw
    (map print_record (before ++ mkRecord o (v1 +:+ "," +:+ v2) :: after)))))
  = let? records := parse_records payload (v2 :: map print_record after) in
    Success (mkFetchResult hw (before ++ mkRecord o v1 :: records)).
Proof.
  intros Hcid Htopic Hhw Ho Hb Ha Hv1 Hv2.
  unfold clean_value in Hv1, Hv2. apply andb_true_iff in Hv1 as [Hp1 Hc1], Hv2 as [Hp2 Hc2].
  set (items := map print_record before ++ print_record (mkRecord o v1) :: v2 :: map print_record after).
  assert (forall recs, Forall (fun r => record_ok r = true) recs ->
    Forall (fun x => str_forall plain x = true /\ no_char "," x = true) (map print_record recs)) as Hprint.
  { intros recs Hr. rewrite Forall_map. eapply Forall_impl; [exact Hr|].
    intros r (? & ? & ?)%record_ok_parts. auto using print_record_plain, print_record_no_comma. }
  assert (Forall (fun x => str_forall plain x = true /\ no_char "," x = true) items) as Hitems.
  { apply Forall_app. split; [by apply Hprint|]. constructor.
    - split; [by apply print_record_plain|by apply print_record_no_comma].
    - constructor; [done|by apply Hprint]. }
  apply Forall_and in Hitems as [Hplain Hcomma].
  assert (Join (map print_record (before ++ mkRecord o (v1 +:+ "," +:+ v2) :: after)) "," = Join items ",") as E.
  { rewrite map_app. cbn [map]. unfold items. rewrite <- Join_cut. f_equal. f_equal. f_equal.
    unfold print_record. simpl. by strs. }
  exists (broker_fetch_payload topic p f hw
    (map print_record (before ++ mkRecord o (v1 +:+ "," +:+ v2) :: after))).
  rewrite decode_payload by (rewrite ?E; auto using plain_Join). rewrite E.
  destruct (String.eqb_spec (Join items ",") "") as [En|_].
  { exfalso. unfold items, print_record in En. pose proof (Itoa_nonempty o).
    destruct before as [|r before]; cbn [map app] in En.
    - rewrite Join_cons in En by done. cbn [recOffset] in En. by destruct (Itoa o).
    - rewrite Join_cons in En by (by destruct before). pose proof (Itoa_nonempty (recOffset r)).
      by destruct (Itoa (recOffset r)). }
  pose proof (Split_Join "," items) as S. change (str1 ",") with "," in S.
  rewrite S; [|unfold items; by destruct before|done]. unfold items. rewrite parse_prefix by done.
  rewrite parse_print_record by done. by destruct (parse_records _ (v2 :: map print_record after)).
Qed.

(** C34: values with a comma are never replicated. Whatever line the transport
    reads, no record it decodes has a comma in its value. A stored value [v1,v2],
    anywhere in a batch of otherwise plain records, is cut at the comma: with
    nothing behind the comma the follower gets the record truncated to [v1]; with
    [N:v] behind it the follower gets the truncated record and a second one whose
    offset and value the producer chose; with anything that has no colon the whole
    batch is refused. *)
Theorem comma_breaks_replication NumError :
  (forall line fr, decode_fetch NumError line = Success fr ->
     Forall (fun r => no_char "," (recValue r) = true) (frRecords fr))
  /\ forall cid topic p f hw before o v1 after,
     no_char "|" cid = true -> clean_topic topic = true -> in_int hw = true -> in_int o = true ->
     Forall (fun r => record_ok r = true) before -> Forall (fun r => record_ok r = true) after ->
     clean_value v1 = true ->
     let decoded v := decode_fetch NumError (TrimSpace (Ok cid (broker_fetch_payload topic p f hw
       (map print_record (before ++ mkRecord o v :: after))))) in
     decoded (v1 +:+ ",") = Success (mkFetchResult hw (before ++ mkRecord o v1 :: after))
     /\ (forall n v, in_int n = true -> clean_value v = true ->
         decoded (v1 +:+ "," +:+ Itoa n +:+ ":" +:+ v)
         = Success (mkFetchResult hw (before ++ mkRecord o v1 :: mkRecord n v :: after)))
     /\ forall v2, clean_value v2 = true -> no_char ":" v2 = true -> v2 <> "" ->
         is_success (decoded (v1 +:+ "," +:+ v2)) = false.
Proof.
  split; [apply decode_no_comma|].
  intros cid topic p f hw before o v1 after Hcid Htopic Hhw Ho Hb Ha Hv1 decoded.
  assert (forall v2, clean_value v2 = true -> exists payload, decoded (v1 +:+ "," +:+ v2)
    = let? records := parse_records payload (v2 :: map print_record after) in
      Success (mkFetchResult hw (before ++ mkRecord o v1 :: records))) as Hcut by (intros; by apply decode_cut).
  split_and!.
  - destruct (Hcut "" eq_refl) as (payload & E). change ("," +:+ "") with "," in E. rewrite E. cbn [parse_records String.eqb].
    by rewrite parse_print_records.
  - intros n v Hn Hv. destruct (Hcut (print_record (mkRecord n v))) as (payload & E).
    { unfold clean_value in Hv |- *. apply andb_true_iff in Hv as [Hp Hc]. apply andb_true_iff.
      split; [by apply print_record_plain|by apply print_record_no_comma]. }
    unfold print_record in E at 1. cbn [recOffset recValue] in E. rewrite E.
    rewrite parse_print_record by done. by rewrite parse_print_records.
  - intros v2 Hv2 Hcolon Hne. destruct (Hcut v2 Hv2) as (payload & ->). cbn [parse_records].
    apply String.eqb_neq in Hne. rewrite Hne. unfold SplitN.
    pose proof (Cut_char_none ":" _ Hcolon) as C. change (str1 ":") with ":" in C. by rewrite C.
Qed.

Lemma comma_breaks_replication_witness :
  let decoded v := decode_fetch (fun _ => "") (TrimSpace (Ok "1" (broker_fetch_payload "orders" 0 1 2
    (map print_record [mkRecord 0 "a"; mkRecord 1 v; mkRecord 2 "b"])))) in
  decoded "x," = Success (mkFetchResult 2 [mkRecord 0 "a"; mkRecord 1 "x"; mkRecord 2 "b"])
  /\ decoded "x,9:forged"
     = Success (mkFetchResult 2 [mkRecord 0 "a"; mkRecord 1 "x"; mkRecord 9 "forged"; mkRecord 2 "b"])
  /\ is_success (decoded "x,y") = false.
Proof.
  destruct (proj2 (comma_breaks_replication (fun _ => "")) "1" "orders" 0 1 2 [mkRecord 0 "a"] 1 "x"
    [mkRecord 2 "b"]) as (H1 & H2 & H3); try reflexivity; [by repeat constructor..|].
  split; [exact H1|]. split; [exact (H2 9 "forged" eq_refl eq_refl)|].
  apply (H3 "y"); [reflexivity|reflexivity|discriminate].
Defined.
