(* ===== verification/StorageCodec.v ===== *)
(** * Storage formats: checksums, log lines and file names of internal/storage/storage.go

    A record is stored as the line [offset|timestamp|crc32|value] in a segment
    file [topic-partition-segment-NNNNNN.log]; the producer's key is hashed to a
    partition. Here are the CRC-32 and FNV-1a functions, the two formats with
    their parsers, and the theorems about them: both formats round trip, a change
    of one byte of a value is always detected, key hashing stays in range, and the
    names of the mirror files written beside a segment parse as segments of
    another topic. *)
From S2P Require Import Prelude GoStrings.

(** [crc32.ChecksumIEEE]: reflected polynomial 0xEDB88320, bit by bit. *)
Definition crc_poly : Z := 0xEDB88320.
Definition crc_bit (c : Z) : Z :=
  if Z.odd c then Z.lxor (Z.shiftr c 1) crc_poly else Z.shiftr c 1.
Definition crc_byte (c : Z) (b : ascii) : Z :=
  Nat.iter 8 crc_bit (Z.lxor c (byte_of b)).
Fixpoint crc_update (c : Z) (s : string) : Z :=
  match s with
  | EmptyString => c
  | String b s' => crc_update (crc_byte c b) s'
  end.
Definition ChecksumIEEE (value : string) : Z :=
  Z.lxor (crc_update 0xFFFFFFFF value) 0xFFFFFFFF.

(** [fnv.New32a]. *)
Fixpoint fnv_update (h : Z) (s : string) : Z :=
  match s with
  | EmptyString => h
  | String b s' => fnv_update ((Z.lxor h (byte_of b) * 16777619) mod 2 ^ 32) s'
  end.
Definition Sum32a (key : string) : Z := fnv_update 2166136261 key.

(** [getPartition]; the conversion of a [uint32] to [int] is exact. *)
Definition getPartition (key : string) (numPartitions : Z) : outcome Z :=
  if numPartitions =? 0 then Panics "integer divide by zero"
  else Returns (Z.rem (Sum32a key) numPartitions).

(** The line format of [ProduceToPartition] and [AppendReplicated]. *)
Definition log_line (offset timestamp : Z) (value : string) : string :=
  Itoa offset +:+ "|" +:+ Itoa timestamp +:+ "|" +:+ hex8 (ChecksumIEEE value) +:+ "|" +:+ value.

(** [parseLogLine]. *)
Definition parseLogLine (line : string) : option (Z * Z * string) :=
  match SplitN line "|" 4 with
  | [p0; p1; p2; value] =>
      match Atoi p0 with
      | None => None
      | Some offset =>
          match Atoi p1 with
          | None => None
          | Some ts =>
              if EqualFold (hex8 (ChecksumIEEE value)) p2 then Some (offset, ts, value) else None
          end
      end
  | _ => None
  end.

(** [DebugChecksum]. *)
Definition DebugChecksum (value : string) : string := hex8 (ChecksumIEEE value).

(** [strings.HasSuffix] and [strings.TrimSuffix]. *)
Fixpoint CutSuffix (suf s : string) : option string :=
  if String.eqb s suf then Some EmptyString
  else match s with
       | EmptyString => None
       | String c s' => match CutSuffix suf s' with Some a => Some (String c a) | None => None end
       end.

(** File names inside the data directory. *)
Definition segment_name (topic : string) (partition segmentID : Z) : string :=
  topic +:+ "-" +:+ Itoa partition +:+ "-segment-" +:+ Itoa06 segmentID +:+ ".log".
Definition offset_index_name (topic : string) (partition : Z) : string :=
  topic +:+ "-" +:+ Itoa partition +:+ "-offset.idx".
Definition timestamp_index_name (topic : string) (partition : Z) : string :=
  topic +:+ "-" +:+ Itoa partition +:+ "-time.idx".
Definition replica_segment_name (topic : string) (partition replicaID segmentID : Z) : string :=
  topic +:+ "-" +:+ Itoa partition +:+ "-replica-" +:+ Itoa replicaID
  +:+ "-segment-" +:+ Itoa06 segmentID +:+ ".log".

(** Lines of the side indexes. *)
Definition offset_index_line (offset segmentID : Z) : string :=
  Itoa offset +:+ ":" +:+ Itoa06 segmentID +:+ nl.
Definition timestamp_index_line (ts segmentID offset : Z) : string :=
  Itoa ts +:+ ":" +:+ Itoa06 segmentID +:+ ":" +:+ Itoa offset +:+ nl.

(** [parseSegmentFileName]. *)
Definition parseSegmentFileName (filename : string) : option (string * Z * Z) :=
  match CutSuffix ".log" filename with
  | None => None
  | Some base =>
      if negb (Contains filename "-segment-") then None
      else
        match Split base "-segment-" with
        | [left_part; right_part] =>
            match Atoi right_part with
            | None => None
            | Some segID =>
                match CutLast "-" left_part with
                | None | Some (EmptyString, _) => None
                | Some (topic, p) =>
                    match Atoi p with
                    | None => None
                    | Some partition => Some (topic, partition, segID)
                    end
                end
            end
        | _ => None
        end
  end.

Example crc_check : ChecksumIEEE "123456789" = 0xCBF43926.
Proof. vm_compute. reflexivity. Qed.
Example fnv_check : Sum32a "a" = 0xE40C292C.
Proof. vm_compute. reflexivity. Qed.
Example segment_check : parseSegmentFileName (segment_name "orders" 2 13) = Some ("orders", 2, 13).
Proof. vm_compute. reflexivity. Qed.

(** ** Checksums are 32-bit words *)
Definition word32 (c : Z) : Prop := 0 <= c < 2 ^ 32.

Lemma word32_bits c : 0 <= c -> (forall i, 32 <= i -> Z.testbit c i = false) -> word32 c.
Proof.
  intros Hc Hb. split; [done|]. destruct (Z.lt_ge_cases c (2 ^ 32)) as [|Hge]; [done|].
  pose proof (Z.log2_le_mono _ _ Hge) as Hl. rewrite Z.log2_pow2 in Hl by lia.
  pose proof (Z.bit_log2 c ltac:(lia)) as Hbit. rewrite Hb in Hbit by lia. done.
Qed.

Lemma bits_word32 c i : word32 c -> 32 <= i -> Z.testbit c i = false.
Proof.
  intros [H0 H1] Hi. destruct (decide (c = 0)) as [->|]; [apply Z.testbit_0_l|].
  apply Z.bits_above_log2; [done|]. apply Z.log2_lt_pow2 in H1; lia.
Qed.

Lemma lxor_word32 a b : word32 a -> word32 b -> word32 (Z.lxor a b).
Proof.
  intros Ha Hb. apply word32_bits.
  - apply Z.lxor_nonneg. unfold word32 in *. lia.
  - intros i Hi. by rewrite Z.lxor_spec, !bits_word32.
Qed.

Lemma poly_word32 : word32 crc_poly.
Proof. unfold word32, crc_poly. lia. Qed.

Lemma shiftr_word32 c : word32 c -> word32 (Z.shiftr c 1).
Proof.
  intros [H0 H1]. split; [by apply Z.shiftr_nonneg|]. rewrite Z.shiftr_div_pow2 by lia.
  apply Z.div_lt_upper_bound; lia.
Qed.

Lemma crc_bit_word32 c : word32 c -> word32 (crc_bit c).
Proof.
  intros Hc. unfold crc_bit. destruct (Z.odd c); auto using lxor_word32, shiftr_word32, poly_word32.
Qed.

Lemma byte_word32 b : word32 (byte_of b).
Proof. unfold word32, byte_of. pose proof (N_ascii_bounded b). lia. Qed.

Lemma iter_crc_word32 n c : word32 c -> word32 (Nat.iter n crc_bit c).
Proof. intros Hc. induction n; [done|]. simpl. by apply crc_bit_word32. Qed.

Lemma crc_byte_word32 c b : word32 c -> word32 (crc_byte c b).
Proof. intros Hc. apply iter_crc_word32, lxor_word32; [done|apply byte_word32]. Qed.

Lemma crc_update_word32 s c : word32 c -> word32 (crc_update c s).
Proof. revert c. induction s as [|b s IH]; intros c Hc; [done|]. simpl. by apply IH, crc_byte_word32. Qed.

(** ** One step of the register is reversible, so a changed byte is detected *)
Lemma crc_bit_top c : word32 c -> Z.testbit (crc_bit c) 31 = Z.odd c.
Proof.
  intros Hc. unfold crc_bit. assert (Z.testbit (Z.shiftr c 1) 31 = false) as Hs.
  { rewrite Z.shiftr_spec by lia. by apply bits_word32. }
  destruct (Z.odd c); [|done]. by rewrite Z.lxor_spec, Hs.
Qed.

Lemma lxor_cancel_r a b c : Z.lxor a c = Z.lxor b c -> a = b.
Proof.
  intros H. rewrite <- (Z.lxor_0_r a), <- (Z.lxor_0_r b), <- (Z.lxor_nilpotent c), <- !Z.lxor_assoc. by rewrite H.
Qed.

Lemma lxor_cancel_l a b c : Z.lxor c a = Z.lxor c b -> a = b.
Proof. rewrite !(Z.lxor_comm c). apply lxor_cancel_r. Qed.

Lemma half_odd c : c = 2 * Z.shiftr c 1 + Z.b2z (Z.odd c).
Proof. rewrite <- Z.div2_spec. apply Z.div2_odd. Qed.

Lemma crc_bit_inj a b : word32 a -> word32 b -> crc_bit a = crc_bit b -> a = b.
Proof.
  intros Ha Hb E. assert (Z.odd a = Z.odd b) as Ho by (by rewrite <- !crc_bit_top, E).
  assert (Z.shiftr a 1 = Z.shiftr b 1) as Hs.
  { unfold crc_bit in E. rewrite Ho in E. destruct (Z.odd b); [by apply lxor_cancel_r in E|done]. }
  rewrite (half_odd a), (half_odd b). by rewrite Hs, Ho.
Qed.

Lemma iter_crc_inj n a b :
  word32 a -> word32 b -> Nat.iter n crc_bit a = Nat.iter n crc_bit b -> a = b.
Proof.
  intros Ha Hb. induction n as [|n IH]; [done|]. simpl. intros E.
  apply crc_bit_inj in E; auto using iter_crc_word32.
Qed.

Lemma crc_byte_inj_l a b x : word32 a -> word32 b -> crc_byte a x = crc_byte b x -> a = b.
Proof.
  intros Ha Hb E. apply iter_crc_inj in E; auto using lxor_word32, byte_word32.
  by apply lxor_cancel_r in E.
Qed.

Lemma byte_of_inj x y : byte_of x = byte_of y -> x = y.
Proof. unfold byte_of. intros E. apply N_of_ascii_inj. lia. Qed.

Lemma crc_byte_inj_r c x y : word32 c -> crc_byte c x = crc_byte c y -> x = y.
Proof.
  intros Hc E. apply iter_crc_inj in E; auto using lxor_word32, byte_word32.
  apply lxor_cancel_l in E. by apply byte_of_inj.
Qed.

Lemma crc_update_inj s a b :
  word32 a -> word32 b -> crc_update a s = crc_update b s -> a = b.
Proof.
  revert a b. induction s as [|x s IH]; intros a b Ha Hb E; [done|]. simpl in E.
  apply IH in E; auto using crc_byte_word32. by apply crc_byte_inj_l in E.
Qed.

Lemma crc_update_app c s t : crc_update c (s +:+ t) = crc_update (crc_update c s) t.
Proof. revert c. induction s as [|x s IH]; intros c; [done|]. simpl. apply IH. Qed.

Lemma init_word32 : word32 0xFFFFFFFF.
Proof. unfold word32. lia. Qed.

(** Changing one byte changes the checksum. *)
Lemma checksum_one_byte pre x y post :
  x <> y -> ChecksumIEEE (pre +:+ String x post) <> ChecksumIEEE (pre +:+ String y post).
Proof.
  intros Hxy E. apply Hxy. unfold ChecksumIEEE in E. apply lxor_cancel_r in E.
  rewrite !crc_update_app in E. simpl in E.
  pose proof (crc_update_word32 pre _ init_word32) as Hp.
  apply crc_update_inj in E; auto using crc_byte_word32. by apply crc_byte_inj_r in E.
Qed.

(** ** Hexadecimal digits determine the word *)
Lemma hex_chr_inj a b :
  0 <= a < 16 -> 0 <= b < 16 -> lower_byte (hex_chr a) = lower_byte (hex_chr b) -> a = b.
Proof.
  intros Ha Hb E.
  assert (forall d, 0 <= d < 16 -> byte_of (lower_byte (hex_chr d)) = if d <? 10 then 48 + d else 87 + d) as Hd.
  { intros d Hd. unfold hex_chr, lower_byte. destruct (Z.ltb_spec d 10); rewrite byte_chr by lia.
    all: destruct (Z.leb_spec 65 (48 + d)), (Z.leb_spec 65 (87 + d)), (Z.leb_spec (48 + d) 90),
      (Z.leb_spec (87 + d) 90); simpl; try lia; by rewrite byte_chr by lia. }
  apply (f_equal byte_of) in E. rewrite !Hd in E by done.
  destruct (Z.ltb_spec a 10), (Z.ltb_spec b 10); lia.
Qed.

Lemma str_map_app f a b : str_map f (a +:+ b) = str_map f a +:+ str_map f b.
Proof. induction a as [|x a IH]; simpl; [done|]. by rewrite IH. Qed.

Lemma str_snoc_inj a b x y : a +:+ str1 x = b +:+ str1 y -> a = b /\ x = y.
Proof.
  revert b. induction a as [|c a IH]; intros [|d b]; simpl; intros E.
  - by injection E.
  - injection E as -> E. destruct b; done.
  - injection E as -> E. destruct a; done.
  - injection E as -> E. apply IH in E as [-> ->]. done.
Qed.

Lemma hex_digits_inj n a b :
  0 <= a < 16 ^ Z.of_nat n -> 0 <= b < 16 ^ Z.of_nat n ->
  str_map lower_byte (hex_digits n a) = str_map lower_byte (hex_digits n b) -> a = b.
Proof.
  revert a b. induction n as [|n IH]; intros a b Ha Hb E; [simpl in *; lia|].
  cbn [hex_digits] in E. rewrite !str_map_app in E. cbn [str_map str1] in E.
  change (String (lower_byte ?c) EmptyString) with (str1 (lower_byte c)) in E.
  apply str_snoc_inj in E as [E1 E2].
  rewrite Nat2Z.inj_succ, Z.pow_succ_r in Ha, Hb by lia.
  apply IH in E1; [|split; [apply Z.div_pos; lia|apply Z.div_lt_upper_bound; lia]..].
  apply hex_chr_inj in E2; [|apply Z.mod_pos_bound; lia..].
  rewrite (Z.div_mod a 16), (Z.div_mod b 16) by lia. by rewrite E1, E2.
Qed.

Lemma checksum_word32 v : word32 (ChecksumIEEE v).
Proof. apply lxor_word32; [apply crc_update_word32|]; apply init_word32. Qed.

Lemma EqualFold_hex8 v w :
  EqualFold (hex8 (ChecksumIEEE v)) (hex8 (ChecksumIEEE w)) = true -> ChecksumIEEE v = ChecksumIEEE w.
Proof.
  unfold EqualFold, hex8. intros E%String.eqb_eq. apply hex_digits_inj in E; [done|..].
  all: pose proof (checksum_word32 v); pose proof (checksum_word32 w); unfold word32 in *; simpl; lia.
Qed.

(** ** Log lines *)
Lemma hex_no_char c n z :
  forallb (fun d => negb (Ascii.eqb (hex_chr d) c)) (zrange 0 16) = true -> no_char c (hex_digits n z) = true.
Proof.
  intros Hc. revert z. induction n as [|n IH]; intros z; [done|]. cbn [hex_digits].
  rewrite no_char_app, IH. unfold no_char. cbn [andb str_forall str1]. rewrite andb_true_r.
  rewrite forallb_forall in Hc. apply Hc, list_elem_of_In, elem_of_zrange, Z.mod_pos_bound. lia.
Qed.

Lemma hex8_no_bar z : no_char "|" (hex8 z) = true.
Proof. by apply hex_no_char. Qed.

Lemma bar_Itoa z : no_char "|" (Itoa z) = true.
Proof. apply num_no_char; [done|apply Itoa_num]. Qed.

(** A stored line with any value, parsed: only the checksum decides. *)
Lemma parse_line o ts h v :
  in_int o = true -> in_int ts = true -> no_char "|" h = true ->
  parseLogLine (Itoa o +:+ "|" +:+ Itoa ts +:+ "|" +:+ h +:+ "|" +:+ v)
  = if EqualFold (hex8 (ChecksumIEEE v)) h then Some (o, ts, v) else None.
Proof.
  intros Ho Hts Hh. unfold parseLogLine, SplitN.
  pose proof (Cut_char "|") as C. change (str1 "|") with "|" in C.
  simpl String.append.
  rewrite C by apply bar_Itoa. rewrite C by apply bar_Itoa. rewrite C by done.
  by rewrite !Atoi_Itoa.
Qed.

Lemma EqualFold_refl s : EqualFold s s = true.
Proof. apply String.eqb_refl. Qed.

Lemma parse_log_line o ts v :
  in_int o = true -> in_int ts = true -> parseLogLine (log_line o ts v) = Some (o, ts, v).
Proof. intros. unfold log_line. by rewrite parse_line, EqualFold_refl by auto using hex8_no_bar. Qed.

(** C11: log lines round trip and detect damage. The line written for a record is
    parsed back to its offset, timestamp and value, whatever the value holds; and
    if one byte of the stored value is changed to another, the line is rejected at
    recovery instead of being served. *)
Theorem log_line_roundtrip_detects o ts pre x post :
  in_int o = true -> in_int ts = true ->
  let v := pre +:+ String x post in
  parseLogLine (log_line o ts v) = Some (o, ts, v)
  /\ forall y, y <> x ->
     parseLogLine (Itoa o +:+ "|" +:+ Itoa ts +:+ "|" +:+ hex8 (ChecksumIEEE v) +:+ "|"
                   +:+ (pre +:+ String y post)) = None.
Proof.
  intros Ho Hts v. split; [by apply parse_log_line|]. intros y Hy.
  rewrite parse_line by auto using hex8_no_bar.
  destruct (EqualFold _ _) eqn:E; [|done]. apply EqualFold_hex8 in E.
  by apply checksum_one_byte in E.
Qed.

Lemma log_line_roundtrip_detects_witness :
  parseLogLine (log_line 7 1700000000000 "hello") = Some (7, 1700000000000, "hello")
  /\ log_line 7 1700000000000 "hello" = "7|1700000000000|3610a686|hello"
  /\ parseLogLine "7|1700000000000|3610a686|heLlo" = None.
Proof.
  destruct (log_line_roundtrip_detects 7 1700000000000 "he" "l" "lo") as [H1 H2]; [reflexivity..|].
  split; [exact H1|]. split; [vm_compute; reflexivity|]. apply (H2 "L"%char). discriminate.
Defined.

(** ** Key hashing *)
Lemma fnv_update_word32 s h : word32 h -> word32 (fnv_update h s).
Proof.
  revert h. induction s as [|b s IH]; intros h Hh; [done|]. simpl. apply IH.
  apply Z.mod_pos_bound. lia.
Qed.

(** Key hashing stays in range. For a positive partition count every key is
    mapped to a partition between 0 and the count, always the same one for the same
    key and count; a zero count would panic. *)
Theorem getPartition_range key n :
  (0 < n -> exists p, getPartition key n = Returns p /\ 0 <= p < n)
  /\ getPartition key 0 = Panics "integer divide by zero".
Proof.
  split; [|done]. intros Hn. unfold getPartition. destruct (Z.eqb_spec n 0); [lia|].
  eexists. split; [reflexivity|].
  assert (word32 (Sum32a key)) as [H0 _] by (apply fnv_update_word32; unfold word32; lia).
  rewrite Z.rem_mod_nonneg by lia. apply Z.mod_pos_bound. lia.
Qed.

Lemma getPartition_range_witness : exists p, getPartition "user-42" 3 = Returns p /\ 0 <= p < 3.
Proof. apply (getPartition_range "user-42" 3). lia. Defined.

(** ** File names *)
Lemma CutSuffix_app suf a : CutSuffix suf (a +:+ suf) = Some a.
Proof.
  induction a as [|x a IH].
  - change (EmptyString +:+ suf) with suf. destruct suf; simpl; [done|].
    by rewrite Ascii.eqb_refl, String.eqb_refl.
  - change (String x a +:+ suf) with (String x (a +:+ suf)). cbn [CutSuffix].
    destruct (String.eqb_spec (String x (a +:+ suf)) suf) as [E|_]; [|by rewrite IH].
    apply (f_equal String.length) in E. simpl in E. rewrite str_length_app in E. lia.
Qed.

Lemma Cut_app_inv tok s a b : Cut tok s = Some (a, b) -> s = a +:+ tok +:+ b.
Proof.
  assert (forall t s, String.prefix t s = true -> s = t +:+ str_drop (String.length t) s) as Hpre.
  { induction t as [|x t IH]; intros [|y u]; simpl; try done.
    destruct (ascii_dec x y) as [->|]; [|done]. intros H. f_equal. by apply IH. }
  revert a b. induction s as [|x s IH]; intros a b H; cbn [Cut] in H;
    destruct (String.prefix tok _) eqn:E; try done.
  - injection H as <- <-. by apply Hpre.
  - injection H as <- <-. by apply Hpre.
  - destruct (Cut tok s) as [[a' b']|]; [|done]. injection H as <- <-. simpl. f_equal. by apply IH.
Qed.

Lemma str_app_inv_r a b c : a +:+ c = b +:+ c -> a = b.
Proof.
  revert b. induction a as [|x a IH]; intros [|y b] E; simpl in *; [done| | |].
  - apply (f_equal String.length) in E. simpl in E. rewrite str_length_app in E. lia.
  - apply (f_equal String.length) in E. simpl in E. rewrite str_length_app in E. lia.
  - injection E as -> E. f_equal. by apply IH.
Qed.

Lemma Cut_after tok a b : after tok (a +:+ tok +:+ b) = Some b -> Cut tok (a +:+ tok +:+ b) = Some (a, b).
Proof.
  unfold after. destruct (Cut tok (a +:+ tok +:+ b)) as [[a' b']|] eqn:E; [|done].
  intros [= ->]. apply Cut_app_inv in E. by apply str_app_inv_r in E as <-.
Qed.

Lemma after_Contains tok s : Contains s tok = match after tok s with Some _ => true | None => false end.
Proof. unfold Contains, after. by destruct (Cut tok s) as [[]|]. Qed.

(** A printed non-negative number starts with a digit and has no dash. *)
Lemma Itoa_digits z : 0 <= z -> exists d ds, Itoa z = String d ds /\ is_digit d = true /\ no_char "-" ds = true.
Proof.
  intros Hz. unfold Itoa. destruct (Z.ltb_spec z 0); [lia|].
  pose proof (dec_digits z Hz) as Hd. pose proof (dec_nonempty z) as Hne.
  destruct (dec z) as [|d ds]; [done|]. simpl in Hd. apply andb_true_iff in Hd as [Hd Hds].
  exists d, ds. split; [done|]. split; [done|]. eapply str_forall_impl; [|exact Hds].
  intros c Hc. apply negb_true_iff, Ascii.eqb_neq. by apply digit_not_sign in Hc as [? _].
Qed.

Definition seg_token : string := "-segment-".

(** The topics whose segment files are found again. *)
Definition segment_topic (topic : string) : bool :=
  negb (String.eqb topic "") && negb (Contains (topic +:+ "-") seg_token).

Lemma digit_not_in_token d : is_digit d = true -> no_char d seg_token = true.
Proof. destruct d as [[] [] [] [] [] [] [] []]; vm_compute; congruence. Qed.

(** Nothing before the partition number looks like the token. *)
Lemma after_topic topic p rest :
  0 <= p -> Contains (topic +:+ "-") seg_token = false ->
  after seg_token (topic +:+ "-" +:+ Itoa p +:+ "-" +:+ rest) = after seg_token ("-" +:+ rest).
Proof.
  intros Hp Hc. destruct (Itoa_digits p Hp) as (d & ds & -> & Hd & Hds).
  replace (topic +:+ "-" +:+ String d ds +:+ "-" +:+ rest)
    with ((topic +:+ "-") +:+ String d (ds +:+ "-" +:+ rest)) by (by strs).
  rewrite (after_field d seg_token) by (done || by apply digit_not_in_token).
  apply (after_skip "-" "segment-"). done.
Qed.

Lemma Split_two tok s a b :
  Cut tok s = Some (a, b) -> Cut tok b = None -> s <> EmptyString -> Split s tok = [a; b].
Proof.
  intros Ha Hb Hs. unfold Split. destruct s as [|x s]; [done|].
  change (SplitN (String x s) tok (S (String.length (String x s))))
    with (match Cut tok (String x s) with
          | Some (a, b) => a :: SplitN b tok (String.length (String x s))
          | None => [String x s] end).
  rewrite Ha. f_equal. cbn [String.length]. destruct (String.length s); simpl; [done|]. by rewrite Hb.
Qed.

Lemma Itoa06_no_dash z : 0 <= z -> no_char "-" (Itoa06 z) = true.
Proof.
  intros Hz. unfold Itoa06. destruct (Z.ltb_spec z 0); [lia|]. rewrite no_char_app.
  apply andb_true_iff. split; (eapply str_forall_impl; [|by first [apply zeros_digits|apply dec_digits]]);
    intros c Hc; apply negb_true_iff, Ascii.eqb_neq; by apply digit_not_sign in Hc as [? _].
Qed.

Lemma Itoa_no_dash z : 0 <= z -> no_char "-" (Itoa z) = true.
Proof.
  intros Hz. destruct (Itoa_digits z Hz) as (d & ds & -> & Hd & Hds). unfold no_char in *. simpl.
  rewrite Hds, andb_true_r. apply negb_true_iff, Ascii.eqb_neq. by apply digit_not_sign in Hd as [? _].
Qed.

Lemma Cut_no_dash s : no_char "-" s = true -> Cut seg_token s = None.
Proof.
  intros Hs. pose proof (after_skip "-" "segment-" s EmptyString Hs) as E.
  rewrite str_app_nil_r in E. unfold after in E. change (String "-" "segment-") with seg_token in E.
  by destruct (Cut seg_token s) as [[]|].
Qed.

Lemma parse_segment_name topic p seg :
  segment_topic topic = true -> 0 <= p <= int_max -> 0 <= seg <= int_max ->
  parseSegmentFileName (segment_name topic p seg) = Some (topic, p, seg).
Proof.
  intros Ht Hp Hseg. unfold segment_topic in Ht. rewrite andb_true_iff, !negb_true_iff in Ht.
  destruct Ht as [Hne Hc]. unfold parseSegmentFileName. change "-segment-" with seg_token.
  set (lp := topic +:+ "-" +:+ Itoa p). set (rp := Itoa06 seg).
  assert (segment_name topic p seg = (lp +:+ seg_token +:+ rp) +:+ ".log") as ->.
  { unfold segment_name, lp, rp, seg_token. by strs. }
  rewrite CutSuffix_app.
  assert (forall r, after seg_token (lp +:+ seg_token +:+ r) = Some r) as Hafter.
  { intros r. unfold lp. pose proof (after_topic topic p ("segment-" +:+ r) ltac:(lia) Hc) as E.
    strs. simpl String.append in *. rewrite E. apply (after_here seg_token). }
  assert (Contains ((lp +:+ seg_token +:+ rp) +:+ ".log") seg_token = true) as ->.
  { rewrite after_Contains, !str_app_assoc. by rewrite Hafter. }
  cbn [negb]. rewrite (Split_two seg_token _ lp rp).
  - unfold rp. rewrite Atoi_Itoa06 by (apply in_int_spec; ints).
    assert (CutLast "-" lp = Some (topic, Itoa p)) as ->.
    { unfold lp. change ("-" +:+ Itoa p) with (String "-" (Itoa p)).
      apply CutLast_char, Itoa_no_dash. lia. }
    rewrite Atoi_Itoa by (apply in_int_spec; ints). by destruct topic.
  - by apply Cut_after.
  - apply Cut_no_dash, Itoa06_no_dash. lia.
  - unfold lp. by destruct topic.
Qed.

(** segment files are found again at start-up. The name of a segment file
    determines its topic, partition and segment number, for every topic that is
    not empty and does not contain "-segment-" (a final "-segment" included). *)
Theorem segment_name_roundtrip topic p seg topic' p' seg' :
  segment_topic topic = true -> segment_topic topic' = true ->
  0 <= p <= int_max -> 0 <= seg <= int_max -> 0 <= p' <= int_max -> 0 <= seg' <= int_max ->
  parseSegmentFileName (segment_name topic p seg) = Some (topic, p, seg)
  /\ (segment_name topic p seg = segment_name topic' p' seg' -> (topic, p, seg) = (topic', p', seg')).
Proof.
  intros. split; [by apply parse_segment_name|]. intros E.
  apply (f_equal parseSegmentFileName) in E. rewrite !parse_segment_name in E by done. by injection E as -> -> ->.
Qed.

Lemma segment_name_roundtrip_witness :
  parseSegmentFileName (segment_name "orders-eu" 2 13) = Some ("orders-eu", 2, 13).
Proof.
  apply (segment_name_roundtrip "orders-eu" 2 13 "a" 0 0); try (vm_compute; reflexivity);
    unfold int_max; lia.
Defined.

(** The mirror of a segment is named like a segment of another topic. *)
Definition mirror_topic (topic : string) (p : Z) : string := topic +:+ "-" +:+ Itoa p +:+ "-replica".

Lemma replica_name_eq topic p r seg :
  replica_segment_name topic p r seg = segment_name (mirror_topic topic p) r seg.
Proof. unfold replica_segment_name, segment_name, mirror_topic. by strs. Qed.

Lemma mirror_segment_topic topic p :
  segment_topic topic = true -> 0 <= p -> segment_topic (mirror_topic topic p) = true.
Proof.
  intros Ht Hp. unfold segment_topic, mirror_topic in *.
  rewrite andb_true_iff, !negb_true_iff in Ht |- *. destruct Ht as [Hne Hc]. split.
  - by destruct topic.
  - rewrite after_Contains. pose proof (after_topic topic p "replica-" ltac:(lia) Hc) as E.
    strs. simpl String.append in *. by rewrite E.
Qed.

(** C39: mirror files come back as phantom topics. The mirror of a segment that
    every produce writes under a "-replica-R-" name is itself parsed as a segment:
    of the topic [topic-p-replica], partition [R], so a restart serves it as an
    extra topic. *)
Theorem replica_files_are_phantom_topics topic p r seg :
  segment_topic topic = true -> 0 <= p <= int_max -> 0 <= r <= int_max -> 0 <= seg <= int_max ->
  parseSegmentFileName (replica_segment_name topic p r seg)
  = Some (topic +:+ "-" +:+ Itoa p +:+ "-replica", r, seg).
Proof.
  intros Ht Hp Hr Hseg. rewrite replica_name_eq. apply parse_segment_name; [|done..].
  apply mirror_segment_topic; [done|lia].
Qed.

Lemma replica_files_are_phantom_topics_witness :
  parseSegmentFileName (replica_segment_name "orders" 0 1 0) = Some ("orders-0-replica", 1, 0).
Proof.
  apply (replica_files_are_phantom_topics "orders" 0 1 0); try (vm_compute; reflexivity);
    unfold int_max; lia.
Defined.
