(* ===== verification/FileSystem.v ===== *)
(** * The data directory

    The files of one directory with their contents and modification times, and
    the [os] calls the storage makes on them. Every call may fail: [schedule] says
    what happens to the coming calls, in order ([None]: the call succeeds; a
    failing write may still have written some bytes). The clock advances by the
    coming [ticks] whenever the program reads it. *)
From S2P Require Import Prelude GoStrings.

Module FS.

Record File := mkFile { content : string; modTime : Z }.

(** A failing call: the error text, and for a write the bytes already written. *)
Record fault := mkFault { fault_text : string; fault_bytes : nat }.

Record World := mkWorld {
  files : gmap string File;
  schedule : list (option fault);
  clock : Z;
  ticks : list Z
}.

Definition set_files (w : World) (fs : gmap string File) : World :=
  mkWorld fs (schedule w) (clock w) (ticks w).

(** [time.Now()]. *)
Definition Now (w : World) : World * Z :=
  match ticks w with
  | [] => (w, clock w)
  | d :: rest =>
      let t := clock w + d in (mkWorld (files w) (schedule w) t rest, t)
  end.

(** The fate of the next call. *)
Definition next_call (w : World) : World * option fault :=
  match schedule w with
  | [] => (w, None)
  | f :: rest => (mkWorld (files w) rest (clock w) (ticks w), f)
  end.

(** [os.MkdirAll] of the data directory. *)
Definition MkdirAll (w : World) : World * result unit :=
  match next_call w with
  | (w, Some f) => (w, Failure (fault_text f))
  | (w, None) => (w, Success ())
  end.

(** [os.OpenFile] with [O_APPEND|O_CREATE|O_WRONLY]. *)
Definition OpenAppend (w : World) (name : string) : World * result unit :=
  match next_call w with
  | (w, Some f) => (w, Failure (fault_text f))
  | (w, None) =>
      match files w !! name with
      | Some _ => (w, Success ())
      | None => (set_files w (<[name := mkFile "" (clock w)]> (files w)), Success ())
      end
  end.

(** [f.WriteString] on a file opened for appending. *)
Definition append_bytes (w : World) (name bytes : string) : World :=
  let old := match files w !! name with Some f => content f | None => "" end in
  set_files w (<[name := mkFile (old +:+ bytes) (clock w)]> (files w)).

Definition WriteString (w : World) (name line : string) : World * result unit :=
  match next_call w with
  | (w, Some f) => (append_bytes w name (String.substring 0 (fault_bytes f) line), Failure (fault_text f))
  | (w, None) => (append_bytes w name line, Success ())
  end.

(** [f.Sync]. *)
Definition Sync (w : World) : World * result unit :=
  match next_call w with
  | (w, Some f) => (w, Failure (fault_text f))
  | (w, None) => (w, Success ())
  end.

(** [os.Stat]: size and modification time; [None] stands for an error. *)
Definition Stat (w : World) (name : string) : World * option (Z * Z) :=
  match next_call w with
  | (w, Some _) => (w, None)
  | (w, None) =>
      (w, match files w !! name with
          | Some f => Some (Z.of_nat (String.length (content f)), modTime f)
          | None => None
          end)
  end.

(** [os.Remove], its error ignored. *)
Definition Remove (w : World) (name : string) : World :=
  match next_call w with
  | (w, Some _) => w
  | (w, None) => set_files w (delete name (files w))
  end.

(** [os.Open] ([None] is its error) and reading to the end, as [bufio.Scanner]
    does it: when a read fails, the scanner is left with the bytes before the
    failure and treats them like the end of the file. *)
Definition ReadFile (w : World) (name : string) : World * option string :=
  match next_call w with
  | (w, Some _) => (w, None)
  | (w, None) =>
      match files w !! name with
      | None => (w, None)
      | Some f =>
          match next_call w with
          | (w, Some e) => (w, Some (String.substring 0 (fault_bytes e) (content f)))
          | (w, None) => (w, Some (content f))
          end
      end
  end.

(** [os.ReadDir]: names in increasing order. *)
Definition ReadDir (w : World) : World * option (list string) :=
  match next_call w with
  | (w, Some _) => (w, None)
  | (w, None) => (w, Some (sort_strings (elements (dom (files w)))))
  end.

(** [appendLine] of storage.go. *)
Definition appendLine (w : World) (path line : string) : World * result unit :=
  match OpenAppend w path with
  | (w, Failure e) => (w, Failure e)
  | (w, Success _) => WriteString w path line
  end.

(** A directory on which no call fails. *)
Definition healthy (w : World) : Prop := Forall (fun f => f = None) (schedule w).

End FS.
