(* ===== verification/Storage.v ===== *)
(** * The partition log: internal/storage/storage.go

    The in-memory logs, the per-partition write state, and the operations that
    keep them in step with the segment files of the data directory: produce,
    replicated append, consume, recovery at start-up, rotation, fsync policy and
    retention. The mutex makes each exported operation atomic. Partition states
    are pointers in the code; here an operation writes a changed state back under
    its topic and partition, which is where every alias reads it. *)
From S2P Require Import Prelude GoStrings Config StorageCodec FileSystem.

Module Storage.
Import FS.

(** [types.Message]. *)
Record Message := mkMessage { Offset : Z; Value : string }.

(** [partitionState]. *)
Record partitionState := mkState {
  nextOffset : Z;
  activeSegmentID : Z;
  segments : list Z;
  lastFsyncAt : Z;
  pendingBytes : Z
}.

(** [Storage]; file names are relative to [dataDir]. *)
Record Storage := mkStorage {
  data : gmap string (gmap Z (list Message));
  numPartitions : Z;
  segmentMaxBytes : Z;
  retentionMaxBytes : Z;
  retentionMaxAge : Z;
  flushInterval : Z;
  flushBytes : Z;
  fsyncMode : string;
  states : gmap string (gmap Z partitionState);
  localReplicaCount : Z
}.

Definition set_data (s : Storage) d : Storage :=
  mkStorage d (numPartitions s) (segmentMaxBytes s) (retentionMaxBytes s) (retentionMaxAge s)
    (flushInterval s) (flushBytes s) (fsyncMode s) (states s) (localReplicaCount s).
Definition set_state (s : Storage) (topic : string) (partition : Z) (st : partitionState) : Storage :=
  mkStorage (data s) (numPartitions s) (segmentMaxBytes s) (retentionMaxBytes s) (retentionMaxAge s)
    (flushInterval s) (flushBytes s) (fsyncMode s) (insert2 topic partition st (states s))
    (localReplicaCount s).
Definition set_next (st : partitionState) n : partitionState :=
  mkState n (activeSegmentID st) (segments st) (lastFsyncAt st) (pendingBytes st).
Definition set_segments (st : partitionState) l : partitionState :=
  mkState (nextOffset st) (activeSegmentID st) l (lastFsyncAt st) (pendingBytes st).
Definition set_active (st : partitionState) a : partitionState :=
  mkState (nextOffset st) a (segments st) (lastFsyncAt st) (pendingBytes st).
Definition set_pending (st : partitionState) b : partitionState :=
  mkState (nextOffset st) (activeSegmentID st) (segments st) (lastFsyncAt st) b.
Definition set_synced (st : partitionState) t : partitionState :=
  mkState (nextOffset st) (activeSegmentID st) (segments st) t 0.

(** The messages of a partition. *)
Definition log_of (s : Storage) (topic : string) (partition : Z) : list Message :=
  default [] (lookup2 (data s) topic partition).

(** [ensurePartitionState]. *)
Definition ensurePartitionState (s : Storage) (w : World) (topic : string) (partition : Z)
    : Storage * World * partitionState :=
  match lookup2 (states s) topic partition with
  | Some st => (s, w, st)
  | None =>
      let '(w, now) := Now w in
      let st := mkState 0 0 [0] now 0 in
      (set_state s topic partition st, w, st)
  end.

(** [shouldRotate]. *)
Definition shouldRotate (s : Storage) (w : World) (topic : string) (partition segmentID appendBytes : Z)
    : World * bool :=
  match Stat w (segment_name topic partition segmentID) with
  | (w, None) => (w, false)
  | (w, Some (size, _)) => (w, segmentMaxBytes s <? int_add size appendBytes)
  end.

(** Rotation, as both append paths write it. *)
Definition rotate (st : partitionState) : partitionState :=
  let seg := int_add (activeSegmentID st) 1 in
  set_segments (set_active st seg) (segments st ++ [seg]).

(** [applyFsyncPolicy]: the new state and the error, if any. *)
Definition applyFsyncPolicy (s : Storage) (w : World) (st : partitionState) (written : Z)
    : World * partitionState * option string :=
  let sync w :=
    match Sync w with (w, Failure e) => (w, Some e) | (w, Success _) => (w, None) end in
  if String.eqb (fsyncMode s) "never" then (w, st, None)
  else if String.eqb (fsyncMode s) "always" then
    let '(w, e) := sync w in (w, st, e)
  else if String.eqb (fsyncMode s) "interval" then
    let st := set_pending st (int_add (pendingBytes st) written) in
    let '(w, due) :=
      if flushBytes s <=? pendingBytes st then (w, true)
      else let '(w, now) := Now w in (w, flushInterval s <=? time_sub now (lastFsyncAt st)) in
    if due then
      match sync w with
      | (w, Some e) => (w, st, Some e)
      | (w, None) => let '(w, now) := Now w in (w, set_synced st now, None)
      end
    else (w, st, None)
  else let '(w, e) := sync w in (w, st, e).

(** [appendOffsetIndex] and [appendTimestampIndex]; errors are ignored. *)
Definition appendOffsetIndex (w : World) (topic : string) (partition offset segmentID : Z) : World :=
  (appendLine w (offset_index_name topic partition) (offset_index_line offset segmentID)).1.
Definition appendTimestampIndex (w : World) (topic : string) (partition ts segmentID offset : Z) : World :=
  (appendLine w (timestamp_index_name topic partition) (timestamp_index_line ts segmentID offset)).1.

(** [writeLocalReplicas]; errors are logged. *)
Definition writeLocalReplicas (s : Storage) (w : World) (topic : string) (partition segmentID : Z)
    (line : string) : World :=
  fold_left (fun w replicaID =>
      (appendLine w (replica_segment_name topic partition replicaID segmentID) line).1)
    (zrange 1 (localReplicaCount s + 1)) w.

(** [s.data[topic][partition] = append(...)], creating the inner map. *)
Definition push_message (s : Storage) (topic : string) (partition : Z) (m : Message) : Storage :=
  set_data s (insert2 topic partition (log_of s topic partition ++ [m]) (data s)).

(** [loadSegment]: the scanned lines, one by one. *)
Definition load_line (topic : string) (partition segmentID : Z) (sw : Storage * World) (line : string)
    : Storage * World :=
  let '(s, w) := sw in
  match parseLogLine line with
  | None => (s, w)
  | Some (offset, ts, val) =>
      let s := push_message s topic partition (mkMessage offset val) in
      let '(s, w, st) := ensurePartitionState s w topic partition in
      let s := if nextOffset st <=? offset
               then set_state s topic partition (set_next st (int_add offset 1)) else s in
      let w := appendOffsetIndex w topic partition offset segmentID in
      let w := appendTimestampIndex w topic partition ts segmentID offset in
      (s, w)
  end.

Definition loadSegment (s : Storage) (w : World) (topic : string) (partition segmentID : Z)
    (path : string) : Storage * World :=
  match ReadFile w path with
  | (w, None) => (s, w)
  | (w, Some text) => fold_left (load_line topic partition segmentID) (scan_lines text) (s, w)
  end.

(** [rebuildPartitionFromSegments]. *)
Definition rebuildPartitionFromSegments (s : Storage) (w : World) (topic : string) (partition : Z)
    (st : partitionState) : Storage * World :=
  let s := match data s !! topic with
           | Some _ => set_data s (insert2 topic partition [] (data s))
           | None => s
           end in
  let s := set_state s topic partition (set_next st 0) in
  fold_left (fun '(s, w) segID =>
      loadSegment s w topic partition segID (segment_name topic partition segID))
    (segments st) (s, w).

(** [deleteSegment]. *)
Definition deleteSegment (s : Storage) (w : World) (topic : string) (partition : Z)
    (st : partitionState) (segID : Z) : Storage * World :=
  let w := Remove w (segment_name topic partition segID) in
  let st := set_segments st (tail (segments st)) in
  rebuildPartitionFromSegments (set_state s topic partition st) w topic partition st.

(** The state under a key, where the key exists. *)
Definition state_of (s : Storage) (topic : string) (partition : Z) : partitionState :=
  default (mkState 0 0 [0] 0 0) (lookup2 (states s) topic partition).

(** The loop of [applyAgeRetention]; each round drops one segment or stops. *)
Fixpoint age_loop (fuel : nat) (s : Storage) (w : World) (topic : string) (partition cutoff : Z)
    : Storage * World :=
  match fuel with
  | O => (s, w)
  | S fuel =>
      let st := state_of s topic partition in
      match segments st with
      | segID :: (_ :: _) =>
          match Stat w (segment_name topic partition segID) with
          | (w, None) =>
              age_loop fuel (set_state s topic partition (set_segments st (tail (segments st)))) w
                topic partition cutoff
          | (w, Some (_, modTime)) =>
              if time_after modTime cutoff then (s, w)
              else
                let '(s, w) := deleteSegment s w topic partition st segID in
                age_loop fuel s w topic partition cutoff
          end
      | _ => (s, w)
      end
  end.

(** [applyAgeRetention]. *)
Definition applyAgeRetention (s : Storage) (w : World) (topic : string) (partition : Z)
    : Storage * World :=
  if retentionMaxAge s <=? 0 then (s, w)
  else
    let '(w, now) := Now w in
    age_loop (length (segments (state_of s topic partition))) s w topic partition
      (now - retentionMaxAge s).

(** The loop of [applySizeRetention]. *)
Fixpoint size_loop (fuel : nat) (s : Storage) (w : World) (topic : string) (partition total : Z)
    : Storage * World :=
  match fuel with
  | O => (s, w)
  | S fuel =>
      let st := state_of s topic partition in
      match segments st with
      | segID :: (_ :: _) =>
          if retentionMaxBytes s <? total then
            let '(w, info) := Stat w (segment_name topic partition segID) in
            let total := match info with Some (size, _) => int_sub total size | None => total end in
            let '(s, w) := deleteSegment s w topic partition st segID in
            size_loop fuel s w topic partition total
          else (s, w)
      | _ => (s, w)
      end
  end.

(** [applySizeRetention]. *)
Definition applySizeRetention (s : Storage) (w : World) (topic : string) (partition : Z)
    : Storage * World :=
  if retentionMaxBytes s <=? 0 then (s, w)
  else
    let segs := segments (state_of s topic partition) in
    let '(w, total) :=
      fold_left (fun '(w, total) segID =>
          match Stat w (segment_name topic partition segID) with
          | (w, Some (size, _)) => (w, int_add total size)
          | (w, None) => (w, total)
          end) segs (w, 0) in
    size_loop (length segs) s w topic partition total.

Section Operations.
Context `{MO : MapOrder}.

(** The keys [enforceRetentionLocked] visits: it adds none while it runs. *)
Definition state_keys (s : Storage) : list (string * Z) :=
  mjoin (map (fun '(topic, parts) => map (fun '(partition, _) => (topic, partition)) (map_range parts))
    (map_range (states s))).

(** [enforceRetentionLocked]. *)
Definition enforceRetentionLocked (s : Storage) (w : World) : Storage * World :=
  fold_left (fun '(s, w) '(topic, partition) =>
      let '(s, w) := applyAgeRetention s w topic partition in
      applySizeRetention s w topic partition)
    (state_keys s) (s, w).

(** [ProduceToPartition]: the partition and the offset it reports. *)
Definition ProduceToPartition (s : Storage) (w : World) (topic : string) (partition : Z) (value : string)
    : Storage * World * (Z * Z) :=
  let '(s, w, st) := ensurePartitionState s w topic partition in
  let offset := nextOffset st in
  let '(w, now) := Now w in
  let timestamp := UnixMilli now in
  let line := log_line offset timestamp value +:+ nl in
  let len := Z.of_nat (String.length line) in
  match MkdirAll w with
  | (w, Failure _) => (s, w, (partition, offset))
  | (w, Success _) =>
      let '(w, full) := shouldRotate s w topic partition (activeSegmentID st) len in
      let st := if full then rotate st else st in
      let s := set_state s topic partition st in
      let path := segment_name topic partition (activeSegmentID st) in
      match OpenAppend w path with
      | (w, Failure _) => (s, w, (partition, offset))
      | (w, Success _) =>
          match WriteString w path line with
          | (w, Failure _) => (s, w, (partition, offset))
          | (w, Success _) =>
              let '(w, st, _) := applyFsyncPolicy s w st len in
              let w := writeLocalReplicas s w topic partition (activeSegmentID st) line in
              let w := appendOffsetIndex w topic partition offset (activeSegmentID st) in
              let w := appendTimestampIndex w topic partition timestamp (activeSegmentID st) offset in
              let s := push_message s topic partition (mkMessage offset value) in
              let s := set_state s topic partition (set_next st (int_add (nextOffset st) 1)) in
              let '(s, w) := enforceRetentionLocked s w in
              (s, w, (partition, offset))
          end
      end
  end.

(** [Produce]. *)
Definition Produce (s : Storage) (w : World) (topic key value : string)
    : outcome (Storage * World * (Z * Z)) :=
  let! partition := getPartition key (numPartitions s) in
  Returns (ProduceToPartition s w topic partition value).

(** [AppendReplicated]. *)
Definition AppendReplicated (s : Storage) (w : World) (topic : string) (partition offset : Z)
    (value : string) : Storage * World * result unit :=
  let '(s, w, st) := ensurePartitionState s w topic partition in
  if offset <? nextOffset st then (s, w, Success ())
  else if nextOffset st <? offset then
    (s, w, Failure ("non-contiguous replicated offset: expected=" +:+ Itoa (nextOffset st)
                    +:+ " got=" +:+ Itoa offset))
  else
    let '(w, now) := Now w in
    let timestamp := UnixMilli now in
    let line := log_line offset timestamp value +:+ nl in
    let len := Z.of_nat (String.length line) in
    match MkdirAll w with
    | (w, Failure e) => (s, w, Failure e)
    | (w, Success _) =>
        let '(w, full) := shouldRotate s w topic partition (activeSegmentID st) len in
        let st := if full then rotate st else st in
        let s := set_state s topic partition st in
        let path := segment_name topic partition (activeSegmentID st) in
        match OpenAppend w path with
        | (w, Failure e) => (s, w, Failure e)
        | (w, Success _) =>
            match WriteString w path line with
            | (w, Failure e) => (s, w, Failure e)
            | (w, Success _) =>
                match applyFsyncPolicy s w st len with
                | (w, st, Some e) => (set_state s topic partition st, w, Failure e)
                | (w, st, None) =>
                    let w := appendOffsetIndex w topic partition offset (activeSegmentID st) in
                    let w := appendTimestampIndex w topic partition timestamp (activeSegmentID st) offset in
                    let s := push_message s topic partition (mkMessage offset value) in
                    let s := set_state s topic partition (set_next st (int_add offset 1)) in
                    let '(s, w) := enforceRetentionLocked s w in
                    (s, w, Success ())
                end
            end
        end
    end.

(** [segmentEntry], [loadData]. *)
Record segmentEntry := mkEntry { eTopic : string; ePartition : Z; eSegment : Z; ePath : string }.

Definition entry_le (a b : segmentEntry) : Prop :=
  if negb (String.eqb (eTopic a) (eTopic b)) then string_le (eTopic a) (eTopic b)
  else if negb (ePartition a =? ePartition b) then ePartition a <= ePartition b
  else eSegment a <= eSegment b.

#[export] Instance entry_le_dec : RelDecision entry_le.
Proof. intros a b. unfold entry_le. repeat case_match; apply _. Defined.

Definition entries_of (names : list string) : list segmentEntry :=
  omap (fun name =>
      match parseSegmentFileName name with
      | Some (topic, partition, segID) => Some (mkEntry topic partition segID name)
      | None => None
      end) names.

Definition load_entry (sw : Storage * World) (e : segmentEntry) : Storage * World :=
  let '(s, w) := sw in
  let '(s, w, st) := ensurePartitionState s w (eTopic e) (ePartition e) in
  let st := match last (segments st) with
            | Some seg => if seg =? eSegment e then st else set_segments st (segments st ++ [eSegment e])
            | None => set_segments st (segments st ++ [eSegment e])
            end in
  let st := if activeSegmentID st <? eSegment e then set_active st (eSegment e) else st in
  loadSegment (set_state s (eTopic e) (ePartition e) st) w (eTopic e) (ePartition e) (eSegment e) (ePath e).

Definition loadData (s : Storage) (w : World) : Storage * World :=
  match MkdirAll w with
  | (w, Failure _) => (s, w)
  | (w, Success _) =>
      match ReadDir w with
      | (w, None) => (s, w)
      | (w, Some names) => fold_left load_entry (merge_sort entry_le (entries_of names)) (s, w)
      end
  end.

(** [valueOrDefaultInt64], [valueOrDefaultDuration], [valueOrDefaultString]. *)
Definition valueOrDefaultInt (v fallback : Z) : Z := if 0 <? v then v else fallback.
Definition valueOrDefaultDuration (v fallback : Z) : Z := if 0 <? v then v else fallback.
Definition valueOrDefaultString (v fallback : string) : string :=
  if String.eqb (TrimSpace v) "" then fallback else v.

(** [NewStorage]. *)
Definition empty_storage (cfg : Config) : Storage :=
  mkStorage ∅ (NumPartitions cfg)
    (valueOrDefaultInt (SegmentMaxBytes cfg) (1 * 1024 * 1024))
    (valueOrDefaultInt (RetentionMaxBytes cfg) (50 * 1024 * 1024))
    (valueOrDefaultDuration (int_mul (RetentionMaxAgeSeconds cfg) Second) (24 * 3600 * Second))
    (valueOrDefaultDuration (int_mul (FlushIntervalMs cfg) Millisecond) (1000 * Millisecond))
    (valueOrDefaultInt (FlushBytes cfg) (64 * 1024))
    (valueOrDefaultString (FsyncMode cfg) "always")
    ∅ 2.

Definition NewStorage (cfg : Config) (w : World) : Storage * World :=
  let '(s, w) := loadData (empty_storage cfg) w in
  enforceRetentionLocked s w.
End Operations.

(** [PartitionForKeyWithCount] and [PartitionForKey]. *)
Definition PartitionForKeyWithCount (key : string) (partitionCount : Z) : outcome Z :=
  getPartition key partitionCount.
Definition PartitionForKey (s : Storage) (key : string) : outcome Z :=
  getPartition key (numPartitions s).

(** [LastOffset]. *)
Definition LastOffset (s : Storage) (topic : string) (partition : Z) : Z :=
  match data s !! topic with
  | None => -1
  | Some partitions =>
      match partitions !! partition with
      | None => -1
      | Some messages => match last messages with None => -1 | Some m => Offset m end
      end
  end.

(** [Consume]: the slice expression panics on a negative offset. *)
Definition Consume (s : Storage) (topic : string) (partition offset : Z) : outcome (list Message) :=
  match data s !! topic with
  | None => Returns []
  | Some partitions =>
      match partitions !! partition with
      | None => Returns []
      | Some messages =>
          if Z.of_nat (length messages) <=? offset then Returns []
          else if offset <? 0 then Panics "slice bounds out of range"
          else Returns (drop (Z.to_nat offset) messages)
      end
  end.
End Storage.
