(* ===== verification/StorageLog.v ===== *)
(** * What the log promises its readers and writers

    Theorems about the operations of [Storage]: what [Consume] returns for a
    contiguous log (by position, which is by offset only while nothing was
    removed), that a negative offset panics, and what [ProduceToPartition] reports
    when the disk fails. *)
From S2P Require Import Prelude GoStrings StorageCodec FileSystem Storage.

Module StorageLog.
Import FS Storage.

(** Offsets count up from [b]. *)
Definition numbered (b : Z) (l : list Message) : Prop :=
  forall i m, l !! i = Some m -> Offset m = b + Z.of_nat i.

Lemma lookup_log s t p : lookup2 (data s) t p = None -> log_of s t p = [].
Proof. unfold log_of. by intros ->. Qed.

(** [Consume] in terms of the log. *)
Lemma Consume_log s t p o :
  Consume s t p o
  = match lookup2 (data s) t p with
    | None => Returns []
    | Some l => if Z.of_nat (length l) <=? o then Returns []
                else if o <? 0 then Panics "slice bounds out of range"
                else Returns (drop (Z.to_nat o) l)
    end.
Proof. unfold Consume, lookup2. by destruct (data s !! t). Qed.

(** C30: reads go by position. On a log whose offsets count up from [b], reading at
    [o >= 0] returns, in log order, exactly the messages with offset at least
    [b + o]: the requested suffix while nothing has been removed ([b = 0]), but after retention
    has removed [b] messages the [b] messages from [o] on are skipped. Reading a
    non-empty log at a negative offset panics. *)
Theorem Consume_by_position s t p b o :
  numbered b (log_of s t p) ->
  (0 <= o -> exists ms, Consume s t p o = Returns ms /\ ms `suffix_of` log_of s t p
     /\ forall m, m ∈ ms <-> m ∈ log_of s t p /\ b + o <= Offset m)
  /\ (o < 0 -> log_of s t p <> [] -> Consume s t p o = Panics "slice bounds out of range").
Proof.
  intros Hnum. rewrite Consume_log. unfold log_of in *.
  destruct (lookup2 (data s) t p) as [l|] eqn:E; simpl in *.
  2: { split; [|done]. intros Ho. exists []. split; [done|]. split; [done|].
       intros m. rewrite elem_of_nil. tauto. }
  split.
  - intros Ho. destruct (Z.leb_spec (Z.of_nat (length l)) o).
    + exists []. split; [done|]. split; [apply suffix_nil|]. intros m. rewrite elem_of_nil. split; [done|].
      intros [[i Hi]%list_elem_of_lookup Hle]. pose proof (lookup_lt_Some _ _ _ Hi).
      apply Hnum in Hi. lia.
    + destruct (Z.ltb_spec o 0); [lia|]. eexists. split; [reflexivity|]. split; [apply suffix_drop|].
      intros m. split.
      * intros [i Hi]%list_elem_of_lookup. rewrite lookup_drop in Hi.
        split; [apply list_elem_of_lookup; eauto|]. apply Hnum in Hi. lia.
      * intros [[i Hi]%list_elem_of_lookup Hle]. pose proof (Hnum _ _ Hi).
        apply list_elem_of_lookup. exists (i - Z.to_nat o)%nat. rewrite lookup_drop, <- Hi. f_equal. lia.
  - intros Ho Hne. assert (0 < length l)%nat by (destruct l; simpl; [done|lia]).
    destruct (Z.leb_spec (Z.of_nat (length l)) o); [lia|].
    destruct (Z.ltb_spec o 0); [done|lia].
Qed.

(** ** Frames *)
Lemma push_log s t p m t' p' :
  log_of (push_message s t p m) t' p'
  = if decide ((t, p) = (t', p')) then log_of s t' p' ++ [m] else log_of s t' p'.
Proof.
  unfold push_message, log_of at 1. cbn [set_data data]. rewrite lookup2_insert2.
  case_decide as E; [by injection E as -> ->|done].
Qed.

Lemma ensure_data s w t p s' w' st :
  ensurePartitionState s w t p = (s', w', st) ->
  data s' = data s /\ lookup2 (states s') t p = Some st
  /\ nextOffset st = nextOffset (state_of s t p).
Proof.
  unfold ensurePartitionState, state_of. destruct (lookup2 (states s) t p) as [st0|] eqn:E.
  - intros [= <- <- <-]. split; [done|]. by rewrite E.
  - destruct (Now w) as [w0 now]. intros [= <- <- <-]. split; [done|].
    split; [|done]. cbn [set_state states]. apply lookup2_insert2_eq.
Qed.

Section Writers.
Context `{MO : MapOrder}.

(** Consuming the schedule. *)
Lemma next_call_cons w f rest :
  schedule w = f :: rest -> exists w', next_call w = (w', f) /\ schedule w' = rest.
Proof. intros E. unfold next_call. rewrite E. eexists. split; [reflexivity|done]. Qed.

Lemma Now_schedule w : schedule (Now w).1 = schedule w.
Proof. unfold Now. by destruct (ticks w). Qed.

Lemma ensure_schedule s w t p : schedule (ensurePartitionState s w t p).1.2 = schedule w.
Proof.
  unfold ensurePartitionState. destruct (lookup2 (states s) t p); [done|].
  pose proof (Now_schedule w). by destruct (Now w).
Qed.

Lemma MkdirAll_fate w f rest :
  schedule w = f :: rest ->
  schedule (MkdirAll w).1 = rest /\ (is_success (MkdirAll w).2 = true <-> f = None).
Proof.
  intros E. unfold MkdirAll. destruct (next_call_cons _ _ _ E) as (w' & -> & Hw). destruct f; done.
Qed.

Lemma rotate_fate s w t p seg n f rest :
  schedule w = f :: rest -> schedule (shouldRotate s w t p seg n).1 = rest.
Proof.
  intros E. unfold shouldRotate, Stat. destruct (next_call_cons _ _ _ E) as (w' & -> & Hw).
  destruct f; [done|]. by destruct (files w' !! _).
Qed.

Lemma OpenAppend_fate w name f rest :
  schedule w = f :: rest ->
  schedule (OpenAppend w name).1 = rest /\ (is_success (OpenAppend w name).2 = true <-> f = None).
Proof.
  intros E. unfold OpenAppend. destruct (next_call_cons _ _ _ E) as (w' & -> & Hw).
  destruct f; [done|]. by destruct (files w' !! _).
Qed.

Lemma WriteString_fate w name line f rest :
  schedule w = f :: rest -> (is_success (WriteString w name line).2 = true <-> f = None).
Proof.
  intros E. unfold WriteString. destruct (next_call_cons _ _ _ E) as (w' & -> & Hw). by destruct f.
Qed.

Lemma set_state_keeps s t p st st' :
  lookup2 (states s) t p = Some st -> nextOffset st' = nextOffset st ->
  (forall t' p', log_of (set_state s t p st') t' p' = log_of s t' p')
  /\ nextOffset (state_of (set_state s t p st') t p) = nextOffset st.
Proof.
  intros Hl Hn. split; [done|]. unfold state_of. cbn [set_state states].
  by rewrite lookup2_insert2_eq.
Qed.

(** One of the file operations that store a record fails: the directory (first
    operation), the open (third) or the write (fourth); the second one is the
    [Stat] of [shouldRotate], whose failure is ignored. *)
Definition write_fails (fates : list (option fault)) : Prop :=
  match fates with
  | f0 :: _ :: f2 :: f3 :: _ => f0 <> None \/ f2 <> None \/ f3 <> None
  | _ => False
  end.

(** C31: failed writes are reported as written. [ProduceToPartition] always
    reports its partition and the partition's next offset. When the directory
    cannot be created, the segment cannot be opened or the line cannot be written,
    it reports just the same, but the log is unchanged and the next produce reuses
    the offset. *)
Theorem produce_reports_failed_writes s w t p v s' w' r :
  ProduceToPartition s w t p v = (s', w', r) ->
  r = (p, nextOffset (state_of s t p))
  /\ (write_fails (schedule w) ->
     (forall t' p', log_of s' t' p' = log_of s t' p')
     /\ nextOffset (state_of s' t p) = nextOffset (state_of s t p)).
Proof.
  unfold ProduceToPartition. pose proof (ensure_schedule s w t p) as Hs1.
  destruct (ensurePartitionState s w t p) as [[s1 w1] st] eqn:E1. cbn [fst snd] in Hs1.
  destruct (ensure_data _ _ _ _ _ _ _ E1) as (Hd & Hl & Hn). pose proof (Now_schedule w1) as Hs2.
  destruct (Now w1) as [w2 now]. cbn [fst] in Hs2. rewrite <- Hn. intros H.
  assert (forall t' p', log_of s1 t' p' = log_of s t' p') as Hlog by (intros; unfold log_of; by rewrite Hd).
  destruct (MkdirAll w2) as [w3 r3] eqn:E3.
  destruct r3 as [[]|e3].
  2: { injection H as <- <- <-. split; [done|]. intros. split; [done|]. unfold state_of. by rewrite Hl. }
  destruct (shouldRotate s1 w3 t p _ _) as [w4 full] eqn:E4.
  set (st1 := if full then rotate st else st) in *.
  assert (nextOffset st1 = nextOffset st) as Hn1 by (unfold st1; by destruct full).
  destruct (set_state_keeps s1 t p st st1 Hl Hn1) as [Hk1 Hk2].
  destruct (OpenAppend w4 _) as [w5 r5] eqn:E5. destruct r5 as [[]|e5].
  2: { injection H as <- <- <-. split; [done|]. intros. split; [|done]. intros. by rewrite Hk1. }
  destruct (WriteString w5 _ _) as [w6 r6] eqn:E6. destruct r6 as [[]|e6].
  2: { injection H as <- <- <-. split; [done|]. intros. split; [|done]. intros. by rewrite Hk1. }
  destruct (applyFsyncPolicy _ _ _ _) as [[w7 st2] e]. destruct (enforceRetentionLocked _ _) as [s8 w8].
  injection H as <- <- <-. split; [done|]. intros Hf. exfalso.
  rewrite <- Hs1, <- Hs2 in Hf.
  destruct (schedule w2) as [|f0 [|f1 [|f2 [|f3 rest]]]] eqn:Hw; try done. cbn [write_fails] in Hf.
  destruct (MkdirAll_fate _ _ _ Hw) as [Hw3 H0]. rewrite E3 in Hw3, H0. cbn in Hw3, H0.
  pose proof (rotate_fate s1 w3 t p (activeSegmentID st)
    (Z.of_nat (String.length (log_line (nextOffset st) (UnixMilli now) v +:+ nl))) _ _ Hw3) as Hw4.
  rewrite E4 in Hw4. cbn in Hw4.
  destruct (OpenAppend_fate _ (segment_name t p (activeSegmentID st1)) _ _ Hw4) as [Hw5 H2].
  rewrite E5 in Hw5, H2. cbn in Hw5, H2.
  pose proof (WriteString_fate _ (segment_name t p (activeSegmentID st1))
    (log_line (nextOffset st) (UnixMilli now) v +:+ nl) _ _ Hw5) as H3. rewrite E6 in H3. cbn in H3.
  destruct H0 as [H0 _], H2 as [H2 _], H3 as [H3 _].
  rewrite H0, H2, H3 in Hf by done. tauto.
Qed.
End Writers.

(** ** Witnesses *)
Definition demo_storage : Storage :=
  mkStorage ∅ 3 1048576 1048576 Second Second 65536 "always" ∅ 2.
Definition demo_world (fs : list (option fault)) : World := mkWorld ∅ fs (unix_epoch + 5 * Second) [].

Lemma produce_reports_failed_writes_witness :
  exists s' w', @ProduceToPartition canonical_order demo_storage
      (demo_world [None; None; None; Some (mkFault "disk full" 3)]) "orders" 0 "hello" = (s', w', (0, 0))
    /\ log_of s' "orders" 0 = [].
Proof.
  destruct (@ProduceToPartition canonical_order demo_storage
    (demo_world [None; None; None; Some (mkFault "disk full" 3)]) "orders" 0 "hello") as [[s' w'] r] eqn:E.
  destruct (@produce_reports_failed_writes canonical_order _ _ _ _ _ _ _ _ E) as [Hr Hk].
  exists s', w'. split; [f_equal; exact Hr|].
  destruct Hk as [Hlog _]; [right; right; discriminate|]. rewrite Hlog. vm_compute. reflexivity.
Defined.

(** A log that retention has cut to offsets 4 and 5: reading at offset 1 skips
    record 4, reading at a negative offset panics. *)
Lemma Consume_by_position_witness :
  let s := set_data demo_storage {["orders" := {[0 := [mkMessage 4 "e"; mkMessage 5 "f"]]}]} in
  Consume s "orders" 0 (-1) = Panics "slice bounds out of range"
  /\ exists ms, Consume s "orders" 0 1 = Returns ms /\ mkMessage 5 "f" ∈ ms /\ mkMessage 4 "e" ∉ ms.
Proof.
  intros s.
  assert (numbered 4 (log_of s "orders" 0)) as Hnum.
  { intros i m Hm. change (log_of _ _ _) with [mkMessage 4 "e"; mkMessage 5 "f"] in Hm.
    destruct i as [|[|i]]; simpl in Hm; [injection Hm as <-; reflexivity..|discriminate]. }
  split.
  - apply (Consume_by_position s "orders" 0 4 (-1) Hnum); [lia|]. vm_compute. discriminate.
  - destruct (proj1 (Consume_by_position s "orders" 0 4 1 Hnum) ltac:(lia)) as (ms & E & _ & Hin).
    exists ms. split; [exact E|]. split.
    + apply Hin. change (log_of _ _ _) with [mkMessage 4 "e"; mkMessage 5 "f"]. simpl. split; [|lia]. right; left.
    + intros [_ H4]%Hin. simpl in H4. lia.
Defined.
End StorageLog.
