(* ===== verification/StorageRecovery.v ===== *)
(** * Recovery: the log survives a restart

    The partition logs live twice: in memory, and as lines in segment files. This
    file proves that the two agree as long as no file operation fails, and that
    start-up ([loadData]) rebuilds exactly the logs that were in memory: the
    invariant [store_ok] links every partition to its segment files, and produce,
    replicated append, retention and restart preserve it. Retention only ever
    drops a prefix of a log and never the newest record, so offsets are not
    reused.

    Topics must be [real]: their names must not contain "-segment-", which the
    file-name parser splits at, nor end in "-replica", which is how mirror files
    are named. Values must be [value_ok]: the scanner of [loadSegment] splits at
    newlines, strips carriage returns and gives up on lines of 64 KiB. *)
From S2P Require Import Prelude GoStrings Config StorageCodec FileSystem Storage StorageLog.

Module Recovery.
Import FS Storage StorageLog.

(** ** Calm worlds: no call fails, and the clock is a date
    after 1970 whose milliseconds fit an [int64] *)
Record calm (w : World) : Prop := {
  calm_calls : healthy w;
  calm_ticks : Forall (fun d => 0 <= d) (ticks w);
  calm_clock : unix_epoch <= clock w;
  calm_far : clock w + foldr Z.add 0 (ticks w) <= unix_epoch + 2 ^ 62 * Millisecond
}.

(** Names of log files. *)
Definition is_log (name : string) : bool :=
  match CutSuffix ".log" name with Some _ => true | None => false end.

(** From [w] to [w'] no log file changed. *)
Record quiet (w w' : World) : Prop := {
  quiet_calm : calm w';
  quiet_files : forall name, is_log name = true -> files w' !! name = files w !! name
}.

Lemma quiet_refl w : calm w -> quiet w w.
Proof. by split. Qed.

Lemma quiet_trans w1 w2 w3 : quiet w1 w2 -> quiet w2 w3 -> quiet w1 w3.
Proof. intros [_ H1] [Hc H2]. split; [done|]. intros n Hn. by rewrite H2, H1. Qed.

(** The next call succeeds. *)
Lemma calm_call w : calm w -> exists w', next_call w = (w', None) /\ quiet w w'
  /\ files w' = files w /\ clock w' = clock w.
Proof.
  intros [Hs Ht Hc Hf]. unfold next_call, healthy in *. destruct (schedule w) as [|f rest] eqn:E.
  - exists w. split; [done|]. split; [|done]. split; [|done]. split; [|done..]. unfold healthy. by rewrite E.
  - apply Forall_cons in Hs as [-> Hs]. eexists. split; [reflexivity|]. split; [|done].
    split; [|done]. by split.
Qed.

Lemma calm_set_files w fs : calm w -> calm (set_files w fs).
Proof. by intros []. Qed.

Lemma Now_quiet w : calm w -> exists w' now, Now w = (w', now) /\ quiet w w' /\ in_int (UnixMilli now) = true.
Proof.
  intros [Hs Ht Hc Hf].
  assert (forall l, Forall (fun d => 0 <= d) l -> 0 <= foldr Z.add 0 l) as Hpos
    by (induction 1; simpl; lia).
  assert (forall t, unix_epoch <= t <= unix_epoch + 2 ^ 62 * Millisecond -> in_int (UnixMilli t) = true) as Hin.
  { intros t Hrange. apply in_int_spec. unfold UnixMilli, Millisecond in *. split.
    - transitivity 0; [ints|]. apply Z.div_pos; lia.
    - transitivity (2 ^ 62); [|ints]. apply Z.div_le_upper_bound; lia. }
  unfold Now. destruct (ticks w) as [|d rest] eqn:E.
  - exists w, (clock w). split; [done|]. split; [apply quiet_refl; split; by rewrite ?E|]. simpl in Hf.
    apply Hin. lia.
  - apply Forall_cons in Ht as [Hd Ht]. simpl in Hf. pose proof (Hpos _ Ht).
    eexists _, _. split; [reflexivity|]. split; [split; [split; simpl; try done; lia|done]|]. apply Hin. lia.
Qed.

Lemma MkdirAll_quiet w : calm w -> exists w', MkdirAll w = (w', Success ()) /\ quiet w w'.
Proof. intros (w' & E & Q & _)%calm_call. exists w'. unfold MkdirAll. by rewrite E. Qed.

Lemma Sync_quiet w : calm w -> exists w', Sync w = (w', Success ()) /\ quiet w w'.
Proof. intros (w' & E & Q & _)%calm_call. exists w'. unfold Sync. by rewrite E. Qed.

Lemma Stat_quiet w name : calm w -> exists w', quiet w w' /\ Stat w name
  = (w', (fun f => (Z.of_nat (String.length (content f)), modTime f)) <$> files w !! name).
Proof.
  intros (w' & E & Q & Hf & _)%calm_call. exists w'. split; [done|]. unfold Stat. rewrite E, Hf.
  by destruct (files w !! name).
Qed.

Lemma ReadFile_quiet w name : calm w -> exists w', quiet w w' /\ ReadFile w name = (w', content <$> files w !! name).
Proof.
  intros (w1 & E1 & Q1 & Hf1 & _)%calm_call. unfold ReadFile. rewrite E1, Hf1.
  destruct (files w !! name) as [f|]; [|by exists w1].
  destruct (calm_call w1 (quiet_calm _ _ Q1)) as (w2 & E2 & Q2 & _). rewrite E2.
  exists w2. split; [by eapply quiet_trans|done].
Qed.

Lemma ReadDir_quiet w : calm w -> exists w', quiet w w'
  /\ ReadDir w = (w', Some (sort_strings (elements (dom (files w))))).
Proof. intros (w' & E & Q & Hf & _)%calm_call. exists w'. split; [done|]. unfold ReadDir. by rewrite E, Hf. Qed.

(** The text of a file, empty if there is none. *)
Definition text_at (w : World) (name : string) : string :=
  match files w !! name with Some f => content f | None => EmptyString end.

(** From [w] to [w'] the file [name] has grown by [bytes], no other log changed. *)
Record wrote (w w' : World) (name bytes : string) : Prop := {
  wrote_calm : calm w';
  wrote_text : exists f, files w' !! name = Some f /\ content f = text_at w name +:+ bytes;
  wrote_other : forall n, n <> name -> is_log n = true -> files w' !! n = files w !! n
}.

Lemma write_calm w name line : calm w -> exists w1 w2,
  OpenAppend w name = (w1, Success ()) /\ WriteString w1 name line = (w2, Success ())
  /\ wrote w w2 name line.
Proof.
  intros Hc. destruct (calm_call w Hc) as (w0 & E0 & Q0 & Hf0 & _). unfold OpenAppend. rewrite E0.
  set (w1 := match files w0 !! name with
             | Some _ => w0
             | None => set_files w0 (<[name := mkFile EmptyString (clock w0)]> (files w0))
             end).
  assert (calm w1 /\ text_at w1 name = text_at w name
          /\ forall n, n <> name -> files w1 !! n = files w !! n) as (Hc1 & Ht1 & Ho1).
  { unfold w1, text_at. rewrite <- Hf0. destruct (files w0 !! name) as [f|] eqn:Ef.
    - rewrite Ef. by split; [apply Q0|].
    - split; [apply calm_set_files, Q0|]. cbn [set_files files]. rewrite lookup_insert_eq. split; [done|].
      intros n Hn. by rewrite lookup_insert_ne. }
  destruct (calm_call w1 Hc1) as (w2 & E2 & Q2 & Hf2 & _).
  exists w1, (append_bytes w2 name line). split; [unfold w1; by destruct (files w0 !! name)|].
  unfold WriteString. rewrite E2. split; [done|]. unfold append_bytes.
  split; cbn [set_files files].
  - apply calm_set_files, Q2.
  - eexists. split; [apply lookup_insert_eq|]. cbn [content]. rewrite <- Ht1. unfold text_at. by rewrite Hf2.
  - intros n Hn _. rewrite lookup_insert_ne by done. rewrite Hf2. by apply Ho1.
Qed.

Lemma appendLine_wrote w name line : calm w -> wrote w (appendLine w name line).1 name line.
Proof. intros (w1 & w2 & E1 & E2 & H)%(write_calm w name line). unfold appendLine. by rewrite E1, E2. Qed.

Lemma appendLine_quiet w name line : calm w -> is_log name = false -> quiet w (appendLine w name line).1.
Proof.
  intros Hc Hn. destruct (appendLine_wrote w name line Hc) as [Hc' _ Ho]. split; [done|].
  intros n Hl. apply Ho; [by intros ->; rewrite Hn in Hl|done].
Qed.

Lemma Remove_calm w name : calm w -> calm (Remove w name) /\ files (Remove w name) = delete name (files w).
Proof.
  intros (w' & E & Q & Hf & _)%calm_call. unfold Remove. rewrite E. split; [apply calm_set_files, Q|].
  cbn [set_files files]. by rewrite Hf.
Qed.

(** ** Which names are log files *)
Lemma CutSuffix_inv suf s a : CutSuffix suf s = Some a -> s = a +:+ suf.
Proof.
  revert a. induction s as [|c s IH]; intros a; cbn [CutSuffix].
  - destruct (String.eqb_spec EmptyString suf) as [<-|]; [by intros [= <-]|done].
  - destruct (String.eqb_spec (String c s) suf) as [<-|]; [by intros [= <-]|].
    destruct (CutSuffix suf s) as [b|]; [|done]. intros [= <-]. simpl. by rewrite (IH b).
Qed.

Lemma segment_is_log t p i : is_log (segment_name t p i) = true.
Proof.
  unfold is_log, segment_name. rewrite <- !str_app_assoc. by rewrite CutSuffix_app.
Qed.

Lemma idx_not_log a : is_log (a +:+ ".idx") = false.
Proof.
  unfold is_log. destruct (CutSuffix ".log" (a +:+ ".idx")) as [b|] eqn:E; [|done].
  apply CutSuffix_inv in E. change ".idx" with (".id" +:+ str1 "x") in E.
  change ".log" with (".lo" +:+ str1 "g") in E. rewrite <- !str_app_assoc in E.
  by apply str_snoc_inj in E as [_ ?].
Qed.

Lemma offset_index_not_log t p : is_log (offset_index_name t p) = false.
Proof. unfold offset_index_name. change "-offset.idx" with ("-offset" +:+ ".idx"). rewrite <- !str_app_assoc. apply idx_not_log. Qed.

Lemma timestamp_index_not_log t p : is_log (timestamp_index_name t p) = false.
Proof. unfold timestamp_index_name. change "-time.idx" with ("-time" +:+ ".idx"). rewrite <- !str_app_assoc. apply idx_not_log. Qed.

Lemma parse_is_log name x : parseSegmentFileName name = Some x -> is_log name = true.
Proof. unfold parseSegmentFileName, is_log. by destruct (CutSuffix ".log" name). Qed.

(** ** Stored lines *)

(** The values whose lines the scanner gives back. *)
Definition value_ok (v : string) : bool :=
  no_char (chr 10) v && no_char (chr 13) v && (String.length v <? Z.to_nat 65000)%nat.

Lemma length_to_dec fuel k z :
  0 <= z < 10 ^ Z.of_nat (S k) -> (String.length (to_dec fuel z) <= S k)%nat.
Proof.
  revert k z. induction fuel as [|fuel IH]; intros k z Hz; cbn [to_dec]; [simpl; lia|].
  destruct (Z.ltb_spec z 10); [simpl; lia|]. rewrite str_length_app. cbn [str1 String.length].
  destruct k as [|k]; [simpl in Hz; lia|].
  enough (String.length (to_dec fuel (z / 10)) <= S k)%nat by lia.
  apply IH. rewrite Nat2Z.inj_succ, Z.pow_succ_r in Hz by lia. split; [apply Z.div_pos; lia|].
  apply Z.div_lt_upper_bound; lia.
Qed.

Lemma length_Itoa z : in_int z = true -> (String.length (Itoa z) <= 20)%nat.
Proof.
  intros Hz%in_int_spec. unfold Itoa, dec.
  assert (forall f y, 0 <= y <= 2 ^ 63 -> (String.length (to_dec f y) <= 19)%nat) as Hd.
  { intros f y Hy. apply (length_to_dec f 18). simpl Z.of_nat. lia. }
  destruct (Z.ltb_spec z 0).
  - rewrite str_length_app. change (String.length "-") with 1%nat. pose proof (Hd (S (Z.to_nat (Z.log2 (- z)))) (- z) ltac:(ints)). lia.
  - pose proof (Hd (S (Z.to_nat (Z.log2 z))) z ltac:(ints)). lia.
Qed.

Lemma length_hex n z : String.length (hex_digits n z) = n.
Proof.
  revert z. induction n as [|n IH]; intros z; [done|]. cbn [hex_digits].
  rewrite str_length_app, IH. simpl. lia.
Qed.

Lemma log_line_clean o ts v :
  in_int o = true -> in_int ts = true -> value_ok v = true -> clean_line (log_line o ts v) = true.
Proof.
  intros Ho Hts Hv. unfold value_ok, clean_line, log_line in *.
  rewrite !andb_true_iff, !Nat.ltb_lt in *. destruct Hv as [[Hnl Hcr] Hlen].
  assert (forall c, num_byte c = false -> no_char c "|" = true -> no_char c v = true ->
    forallb (fun d => negb (Ascii.eqb (hex_chr d) c)) (zrange 0 16) = true ->
    no_char c (Itoa o +:+ "|" +:+ Itoa ts +:+ "|" +:+ hex8 (ChecksumIEEE v) +:+ "|" +:+ v) = true) as Hc.
  { intros c Hn Hb Hcv Hh. rewrite !no_char_app, Hb, Hcv, (hex_no_char c 8 _ Hh).
    by rewrite !(num_no_char c) by auto using Itoa_num. }
  split; [split; by apply Hc|]. rewrite !str_length_app. unfold hex8. rewrite length_hex. simpl String.length.
  pose proof (length_Itoa o Ho). pose proof (length_Itoa ts Hts). unfold MaxScanTokenSize. lia.
Qed.

(** The messages of a segment text, as [loadSegment] reads it. *)
Definition decode_line (line : string) : option Message :=
  (fun '(o, _, v) => mkMessage o v) <$> parseLogLine line.
Definition decoded (text : string) : list Message := omap decode_line (scan_lines text).

(** A text of whole lines the scanner gives back. *)
Definition whole (text : string) : Prop :=
  exists ls, Forall (fun l => clean_line l = true) ls /\ text = concat_lines ls.

Lemma whole_empty : whole EmptyString.
Proof. by exists []. Qed.

Lemma decoded_empty : decoded EmptyString = [].
Proof. done. Qed.

Lemma decoded_append text o ts v :
  whole text -> in_int o = true -> in_int ts = true -> value_ok v = true ->
  whole (text +:+ log_line o ts v +:+ nl)
  /\ decoded (text +:+ log_line o ts v +:+ nl) = decoded text ++ [mkMessage o v].
Proof.
  intros (ls & Hls & ->) Ho Hts Hv. pose proof (log_line_clean o ts v Ho Hts Hv) as Hc.
  assert (concat_lines ls +:+ log_line o ts v +:+ nl = concat_lines (ls ++ [log_line o ts v])) as ->.
  { rewrite concat_lines_app. unfold concat_lines at 3. cbn [foldr]. by strs. }
  assert (Forall (fun l => clean_line l = true) (ls ++ [log_line o ts v])) as Hls'
    by (apply Forall_app; split; [done|by constructor]).
  split; [by exists (ls ++ [log_line o ts v])|].
  unfold decoded. rewrite !scan_lines_concat by done. rewrite omap_app. f_equal.
  cbn [omap list_omap]. unfold decode_line. by rewrite parse_log_line.
Qed.

(** ** Frames: changes of one partition only *)
Record only (t : string) (p : Z) (s s' : Storage) : Prop := {
  only_log : forall t' p', (t, p) <> (t', p') -> log_of s' t' p' = log_of s t' p';
  only_state : forall t' p', (t, p) <> (t', p') ->
    lookup2 (states s') t' p' = lookup2 (states s) t' p';
  only_count : localReplicaCount s' = localReplicaCount s;
  only_limit : retentionMaxBytes s' = retentionMaxBytes s
}.

Lemma only_refl t p s : only t p s s.
Proof. done. Qed.

Lemma only_trans t p s1 s2 s3 : only t p s1 s2 -> only t p s2 s3 -> only t p s1 s3.
Proof.
  intros [A1 A2 A3 A4] [B1 B2 B3 B4]. split; [|intros t' p' H|congruence..].
  - intros t' p' H. by rewrite B1, A1.
  - by rewrite B2, A2.
Qed.

Lemma only_state_of t p s s' t' p' :
  only t p s s' -> (t, p) <> (t', p') -> state_of s' t' p' = state_of s t' p'.
Proof. intros [_ H _ _] Hne. unfold state_of. by rewrite H. Qed.

Lemma only_set_state t p s st : only t p s (set_state s t p st).
Proof. split; [done| |done..]. intros t' p' H. cbn [set_state states]. by rewrite lookup2_insert2_ne. Qed.

Lemma only_push t p s m : only t p s (push_message s t p m).
Proof. split; [|done..]. intros t' p' H. rewrite push_log. by rewrite decide_False. Qed.

Lemma state_of_set s t p st : state_of (set_state s t p st) t p = st.
Proof. unfold state_of. cbn [set_state states]. by rewrite lookup2_insert2_eq. Qed.

(** Two states that differ in their fsync bookkeeping and next offset only. *)
Definition like (st st' : partitionState) : Prop :=
  segments st' = segments st /\ activeSegmentID st' = activeSegmentID st.

(** [s'] is [s] with the messages [ms] appended in memory to one partition. *)
Record loaded (t : string) (p : Z) (s s' : Storage) (ms : list Message) (next' : Z) : Prop := {
  ld_log : log_of s' t p = log_of s t p ++ ms;
  ld_next : nextOffset (state_of s' t p) = next';
  ld_like : like (state_of s t p) (state_of s' t p);
  ld_only : only t p s s'
}.

Lemma ensure_spec s w t p : calm w -> exists s' w' st,
  ensurePartitionState s w t p = (s', w', st) /\ quiet w w'
  /\ loaded t p s s' [] (nextOffset (state_of s t p)) /\ state_of s' t p = st /\ data s' = data s.
Proof.
  intros Hc. unfold ensurePartitionState. destruct (lookup2 (states s) t p) as [st|] eqn:E.
  - exists s, w, st. split; [done|]. split; [by apply quiet_refl|].
    split; [|split; [unfold state_of; by rewrite E|done]]. split; [by rewrite app_nil_r|done..].
  - destruct (Now_quiet w Hc) as (w' & now & -> & Q & _). eexists _, w', _. split; [reflexivity|].
    split; [done|]. split; [|split; [apply state_of_set|done]].
    split; [by rewrite app_nil_r|..|apply only_set_state]; rewrite state_of_set; unfold state_of; by rewrite E.
Qed.

(** ** What loading a segment does *)
Definition raise (n : Z) (ms : list Message) : Z :=
  fold_left (fun n m => if n <=? Offset m then int_add (Offset m) 1 else n) ms n.

Lemma index_quiet w t p o seg ts : calm w ->
  quiet w (appendTimestampIndex (appendOffsetIndex w t p o seg) t p ts seg o).
Proof.
  intros Hc. unfold appendTimestampIndex, appendOffsetIndex.
  pose proof (appendLine_quiet w (offset_index_name t p) (offset_index_line o seg) Hc (offset_index_not_log t p)) as Q.
  eapply quiet_trans; [exact Q|]. apply appendLine_quiet; [apply Q|apply timestamp_index_not_log].
Qed.

Lemma load_line_spec t p seg s w line : calm w ->
  exists s' w', load_line t p seg (s, w) line = (s', w') /\ quiet w w'
  /\ loaded t p s s' (option_list (decode_line line))
       (raise (nextOffset (state_of s t p)) (option_list (decode_line line))).
Proof.
  intros Hc. unfold load_line, decode_line. destruct (parseLogLine line) as [[[o ts] v]|]; cbn [fmap option_fmap option_map option_list].
  2: { exists s, w. split; [done|]. split; [by apply quiet_refl|]. split; [by rewrite app_nil_r|done..]. }
  change (option_list (Some (mkMessage o v))) with [mkMessage o v].
  set (s1 := push_message s t p (mkMessage o v)).
  destruct (ensure_spec s1 w t p Hc) as (s2 & w2 & st & -> & Q & [L1 L2 L3 L4] & Est & Ed).
  eexists _, _. split; [reflexivity|]. split; [eapply quiet_trans; [exact Q|apply index_quiet, Q]|].
  assert (only t p s s2) as Ho by (eapply only_trans; [apply only_push|exact L4]).
  assert (log_of s2 t p = log_of s t p ++ [mkMessage o v]) as Hlog.
  { rewrite L1, app_nil_r. unfold s1. by rewrite push_log, decide_True. }
  change (state_of s1 t p) with (state_of s t p) in *. rewrite Est in L2, L3.
  unfold raise. cbn [fold_left Offset]. rewrite L2. destruct (Z.leb_spec (nextOffset (state_of s t p)) o).
  - split; [exact Hlog|by rewrite state_of_set|by rewrite state_of_set|].
    eapply only_trans; [exact Ho|apply only_set_state].
  - split; [exact Hlog|by rewrite Est|by rewrite Est|exact Ho].
Qed.

Lemma loaded_trans t p s1 s2 s3 a b n1 n2 n3 :
  loaded t p s1 s2 a n2 -> loaded t p s2 s3 b n3 ->
  n2 = raise n1 a -> n3 = raise n2 b -> loaded t p s1 s3 (a ++ b) (raise n1 (a ++ b)).
Proof.
  intros [A1 A2 A3 A4] [B1 B2 B3 B4] -> ->. split.
  - by rewrite B1, A1, app_assoc.
  - rewrite B2. unfold raise. by rewrite fold_left_app.
  - destruct A3, B3. split; congruence.
  - by eapply only_trans.
Qed.

Lemma load_lines_spec t p seg lines : forall s w, calm w ->
  exists s' w', fold_left (load_line t p seg) lines (s, w) = (s', w') /\ quiet w w'
  /\ loaded t p s s' (omap decode_line lines) (raise (nextOffset (state_of s t p)) (omap decode_line lines)).
Proof.
  induction lines as [|l lines IH]; intros s w Hc.
  - exists s, w. split; [done|]. split; [by apply quiet_refl|]. split; [by rewrite app_nil_r|done..].
  - destruct (load_line_spec t p seg s w l Hc) as (s1 & w1 & E1 & Q1 & L1).
    destruct (IH s1 w1 (quiet_calm _ _ Q1)) as (s2 & w2 & E2 & Q2 & L2).
    exists s2, w2. cbn [fold_left]. rewrite E1. split; [done|]. split; [by eapply quiet_trans|].
    assert (omap decode_line (l :: lines) = option_list (decode_line l) ++ omap decode_line lines) as ->
      by (cbn [omap list_omap]; by destruct (decode_line l)).
    eapply loaded_trans; [exact L1|exact L2|done|]. by rewrite (ld_next _ _ _ _ _ _ L1).
Qed.

Lemma loadSegment_spec t p seg path s w : calm w ->
  exists s' w', loadSegment s w t p seg path = (s', w') /\ quiet w w'
  /\ loaded t p s s' (decoded (text_at w path)) (raise (nextOffset (state_of s t p)) (decoded (text_at w path))).
Proof.
  intros Hc. unfold loadSegment, text_at. destruct (ReadFile_quiet w path Hc) as (w0 & Q0 & ->).
  destruct (files w !! path) as [f|]; cbn [fmap option_fmap option_map].
  - destruct (load_lines_spec t p seg (scan_lines (content f)) s w0 (quiet_calm _ _ Q0)) as (s1 & w1 & E & Q & L).
    exists s1, w1. split; [done|]. split; [by eapply quiet_trans|done].
  - exists s, w0. split; [done|]. split; [done|]. split; [by rewrite app_nil_r|done..].
Qed.

(** ** The invariant *)
Definition int_range (z : Z) : Prop := 0 <= z <= int_max.

(** The partitions whose segment names parse back. *)
Record key_ok (t : string) (p : Z) : Prop := {
  key_topic : segment_topic t = true;
  key_part : int_range p
}.

(** The topics whose segments are not taken for mirrors. *)
Definition real (t : string) : bool :=
  segment_topic t && match CutSuffix "-replica" t with Some _ => false | None => true end.

Definition seg_text (w : World) (t : string) (p i : Z) : string := text_at w (segment_name t p i).

(** The messages stored in a list of segments. *)
Definition stored (w : World) (t : string) (p : Z) (ids : list Z) : list Message :=
  mjoin ((fun i => decoded (seg_text w t p i)) <$> ids).

(** The offset after the last message. *)
Definition next_of (log : list Message) : Z :=
  match last log with Some m => Offset m + 1 | None => 0 end.

(** A partition: its log in memory is what its segments hold, oldest segment
    first, numbered without gaps; every segment file is on the list; the active
    segment is the last, and holds the newest message. *)
Record part_ok (w : World) (t : string) (p : Z) (log : list Message) (st : partitionState) : Prop := {
  po_log : log = stored w t p (segments st);
  po_whole : forall i, int_range i -> whole (seg_text w t p i);
  po_sorted : StronglySorted Z.lt (segments st);
  po_range : Forall int_range (segments st);
  po_active : last (segments st) = Some (activeSegmentID st);
  po_files : forall i, int_range i -> is_Some (files w !! segment_name t p i) -> i ∈ segments st;
  po_next : nextOffset st = next_of log;
  po_numbered : exists b, 0 <= b /\ numbered b log;
  po_bound : activeSegmentID st <= nextOffset st <= int_max;
  po_newest : log <> [] -> decoded (seg_text w t p (activeSegmentID st)) <> []
}.

(** The whole store: a calm world, a directory in which every name that parses as
    a segment is the name of that segment, and every real partition in order. *)
Record store_ok (s : Storage) (w : World) : Prop := {
  so_calm : calm w;
  so_dir : forall name t p i, is_Some (files w !! name) ->
    parseSegmentFileName name = Some (t, p, i) ->
    key_ok t p /\ int_range i /\ name = segment_name t p i;
  so_keys : forall t p, is_Some (lookup2 (states s) t p) ->
    key_ok t p /\ Forall int_range (segments (state_of s t p));
  so_count : 0 <= localReplicaCount s < int_max;
  so_parts : forall t p, real t = true -> int_range p -> part_ok w t p (log_of s t p) (state_of s t p)
}.

Lemma real_key t p : real t = true -> int_range p -> key_ok t p.
Proof. unfold real. intros [? _]%andb_true_iff ?. by split. Qed.

Lemma segment_name_inj t p i t' p' i' :
  key_ok t p -> key_ok t' p' -> int_range i -> int_range i' ->
  segment_name t p i = segment_name t' p' i' -> (t, p) = (t', p') /\ i = i'.
Proof.
  intros [H1 H2] [H3 H4] Hi Hi' E. apply (f_equal parseSegmentFileName) in E.
  rewrite !parse_segment_name in E by done. by injection E as -> -> ->.
Qed.

(** ** Numbered logs *)
Lemma numbered_cons b m l : numbered b (m :: l) -> Offset m = b /\ numbered (b + 1) l.
Proof.
  intros H. split; [specialize (H 0%nat m eq_refl); lia|].
  intros i x Hx. specialize (H (S i) x Hx). lia.
Qed.

Lemma numbered_suffix b l k : numbered b (l ++ k) -> numbered (b + Z.of_nat (length l)) k.
Proof.
  intros H i m Hm. rewrite (H (length l + i)%nat m); [lia|]. by rewrite lookup_app_r, Nat.add_comm, Nat.add_sub by lia.
Qed.

Lemma numbered_next b l : numbered b l -> l <> [] -> next_of l = b + Z.of_nat (length l).
Proof.
  intros H Hne. unfold next_of. destruct (last l) as [m|] eqn:E; [|by apply last_None in E].
  rewrite last_lookup in E. apply H in E. destruct l; [done|]. simpl length in *. lia.
Qed.

Lemma numbered_snoc b l v :
  0 <= b -> numbered b l -> exists b', 0 <= b' /\ numbered b' (l ++ [mkMessage (next_of l) v]).
Proof.
  intros Hb H. destruct (decide (l = [])) as [->|Hne].
  - exists 0. split; [done|]. intros [|i] m; [by intros [= <-]|done].
  - exists b. split; [done|]. intros i m [Hi|[Hi Hm]]%lookup_app_Some; [by apply H|].
    apply list_lookup_singleton_Some in Hm as [Hz <-]. cbn [Offset].
    rewrite (numbered_next b) by done. lia.
Qed.

Lemma raise_numbered b ms n :
  0 <= b -> numbered b ms -> n <= b -> b + Z.of_nat (length ms) <= int_max ->
  raise n ms = if decide (ms = []) then n else b + Z.of_nat (length ms).
Proof.
  revert b n. induction ms as [|m ms IH]; intros b n Hb H Hn Hmax; [done|].
  apply numbered_cons in H as [Hm H]. unfold raise. cbn [fold_left]. rewrite Hm.
  simpl length in *. destruct (Z.leb_spec n b); [|lia]. rewrite int_add_id by ints.
  fold (raise (b + 1) ms). rewrite (IH (b + 1)) by (done || lia).
  rewrite (decide_False (P := m :: ms = [])) by done.
  case_decide as E; [rewrite E; simpl; lia|lia].
Qed.

Lemma raise_next b ms :
  0 <= b -> numbered b ms -> next_of ms <= int_max -> raise 0 ms = next_of ms.
Proof.
  intros Hb H Hmax. destruct (decide (ms = [])) as [->|Hne]; [done|].
  rewrite (numbered_next b) in * by done. rewrite (raise_numbered b) by (done || lia).
  by rewrite decide_False.
Qed.

(** ** Segment texts under changes of the directory *)
Lemma quiet_text w w' t p i : quiet w w' -> seg_text w' t p i = seg_text w t p i.
Proof. intros [_ H]. unfold seg_text, text_at. by rewrite H by apply segment_is_log. Qed.

Lemma stored_app w t p a b : stored w t p (a ++ b) = stored w t p a ++ stored w t p b.
Proof. unfold stored. by rewrite fmap_app, join_app. Qed.

Lemma stored_one w t p i : stored w t p [i] = decoded (seg_text w t p i).
Proof. unfold stored. cbn [fmap list_fmap mjoin list_join]. apply app_nil_r. Qed.

Lemma stored_ext w w' t p ids :
  (forall i, i ∈ ids -> seg_text w' t p i = seg_text w t p i) -> stored w' t p ids = stored w t p ids.
Proof.
  intros H. unfold stored. f_equal. apply list_fmap_ext. intros j i Hi.
  rewrite H; [done|]. apply list_elem_of_lookup. eauto.
Qed.

(** Everything about a partition that depends on the directory. *)
Lemma part_ok_frame w w' t p log st st' :
  part_ok w t p log st -> like st st' -> nextOffset st' = nextOffset st ->
  (forall i, int_range i -> files w' !! segment_name t p i = files w !! segment_name t p i) ->
  part_ok w' t p log st'.
Proof.
  intros [] [Hs Ha] Hn Hf.
  assert (forall i, int_range i -> seg_text w' t p i = seg_text w t p i) as Ht
    by (intros i Hi; unfold seg_text, text_at; by rewrite Hf).
  assert (int_range (activeSegmentID st)) as Hact
    by (rewrite Forall_forall in po_range0; by apply po_range0, last_Some_elem_of).
  split; rewrite ?Hs, ?Ha, ?Hn; try done.
  - rewrite (stored_ext w w'); [done|]. rewrite Forall_forall in po_range0. auto.
  - intros i Hi. rewrite Ht by done. auto.
  - intros i Hi. rewrite Hf by done. auto.
  - by rewrite Ht.
Qed.

(** Directories with fewer log files. *)
Lemma so_dir_sub s w w' name t p i :
  store_ok s w -> (is_log name = true -> is_Some (files w' !! name) -> is_Some (files w !! name)) ->
  is_Some (files w' !! name) -> parseSegmentFileName name = Some (t, p, i) ->
  key_ok t p /\ int_range i /\ name = segment_name t p i.
Proof. intros Hs Hsub Hn Hp. eapply so_dir; [done|apply Hsub; [by eapply parse_is_log|done]|done]. Qed.

Lemma store_ok_quiet s w w' : store_ok s w -> quiet w w' -> store_ok s w'.
Proof.
  intros Hs Q. split; [apply Q| | apply (so_keys s w Hs) | apply (so_count s w Hs)|].
  - intros name t p i. apply (so_dir_sub s w w' name t p i Hs). intros Hl. by rewrite (quiet_files _ _ Q).
  - intros t p Ht Hp. eapply part_ok_frame; [by apply (so_parts s w Hs)|done|done|].
    intros i _. apply Q, segment_is_log.
Qed.

(** An operation on one partition preserves the invariant if it leaves that
    partition in order, adds only well-named logs, and no other real partition's. *)
Lemma store_ok_only s w s' w' t p :
  store_ok s w -> key_ok t p -> only t p s s' -> calm w' ->
  (forall name, is_log name = true -> is_Some (files w' !! name) ->
     is_Some (files w !! name)
     \/ exists t0 p0 i, key_ok t0 p0 /\ int_range i /\ name = segment_name t0 p0 i) ->
  (forall t' p' i, real t' = true -> int_range p' -> int_range i -> (t, p) <> (t', p') ->
     files w' !! segment_name t' p' i = files w !! segment_name t' p' i) ->
  Forall int_range (segments (state_of s' t p)) ->
  (real t = true -> part_ok w' t p (log_of s' t p) (state_of s' t p)) ->
  store_ok s' w'.
Proof.
  intros Hs Hk Ho Hc Hdir Hother Hsegs Hpart. split; [done| | | |].
  - intros name t' p' i Hn Hparse.
    destruct (Hdir name) as [Hold|(t0 & p0 & i0 & Hk0 & Hi0 & ->)]; [by eapply parse_is_log|done| |].
    + by eapply so_dir.
    + destruct Hk0 as [Ht0 Hp0]. rewrite parse_segment_name in Hparse by done. by injection Hparse as <- <- <-.
  - intros t' p' Hst. destruct (decide ((t, p) = (t', p'))) as [[= <- <-]|Hne]; [done|].
    rewrite (only_state_of t p s s') by done. rewrite (only_state _ _ _ _ Ho) in Hst by done.
    by apply (so_keys s w Hs).
  - rewrite (only_count _ _ _ _ Ho). apply (so_count s w Hs).
  - intros t' p' Ht' Hp'. destruct (decide ((t, p) = (t', p'))) as [[= <- <-]|Hne]; [by apply Hpart|].
    rewrite (only_log _ _ _ _ Ho), (only_state_of t p s s') by done.
    eapply part_ok_frame; [by apply (so_parts s w Hs)|done|done|]. intros i Hi. by apply Hother.
Qed.

(** ** Retention *)

(** From [s] to [s'] partitions have lost at most older messages. *)
Record trimmed (s s' : Storage) (t : string) (p : Z) : Prop := {
  tr_suffix : log_of s' t p `suffix_of` log_of s t p;
  tr_next : nextOffset (state_of s' t p) = nextOffset (state_of s t p);
  tr_newest : log_of s t p <> [] -> log_of s' t p <> []
}.

Definition all_trimmed (s s' : Storage) : Prop :=
  forall t p, real t = true -> int_range p -> trimmed s s' t p.

Lemma trimmed_refl s t p : trimmed s s t p.
Proof. done. Qed.

Lemma trimmed_trans s1 s2 s3 t p : trimmed s1 s2 t p -> trimmed s2 s3 t p -> trimmed s1 s3 t p.
Proof. intros [] []. split; [by etrans|congruence|auto]. Qed.

Lemma trimmed_other s s' t p t' p' : only t p s s' -> (t, p) <> (t', p') -> trimmed s s' t' p'.
Proof.
  intros Ho Hne. split; rewrite ?(only_log _ _ _ _ Ho), ?(only_state_of t p s s') by done; done.
Qed.

Lemma load_segments_spec t p ids : forall s w, calm w ->
  exists s' w', fold_left (fun '(s, w) i => loadSegment s w t p i (segment_name t p i)) ids (s, w) = (s', w')
  /\ quiet w w' /\ loaded t p s s' (stored w t p ids) (raise (nextOffset (state_of s t p)) (stored w t p ids)).
Proof.
  induction ids as [|i ids IH]; intros s w Hc.
  - exists s, w. split; [done|]. split; [by apply quiet_refl|]. split; [by rewrite app_nil_r|done..].
  - destruct (loadSegment_spec t p i (segment_name t p i) s w Hc) as (s1 & w1 & E1 & Q1 & L1).
    destruct (IH s1 w1 (quiet_calm _ _ Q1)) as (s2 & w2 & E2 & Q2 & L2).
    exists s2, w2. cbn [fold_left]. rewrite E1. split; [done|]. split; [by eapply quiet_trans|].
    change (stored w t p (i :: ids)) with (decoded (seg_text w t p i) ++ stored w t p ids).
    rewrite (stored_ext w w1) in L2 by (intros; by apply quiet_text).
    eapply loaded_trans; [exact L1|exact L2|done|]. by rewrite (ld_next _ _ _ _ _ _ L1).
Qed.

Lemma rebuild_spec s w t p st : calm w ->
  exists s' w', rebuildPartitionFromSegments s w t p st = (s', w') /\ quiet w w' /\ only t p s s'
  /\ log_of s' t p = stored w t p (segments st)
  /\ nextOffset (state_of s' t p) = raise 0 (stored w t p (segments st))
  /\ like st (state_of s' t p).
Proof.
  intros Hc. unfold rebuildPartitionFromSegments.
  set (s1 := match data s !! t with Some _ => _ | None => s end).
  assert (log_of s1 t p = [] /\ only t p s s1) as [Hl1 Ho1].
  { unfold s1, log_of, lookup2. destruct (data s !! t) as [m|] eqn:E.
    - split.
      + cbn [set_data data]. fold (lookup2 (insert2 t p [] (data s)) t p). by rewrite lookup2_insert2_eq.
      + split; [|done..]. intros t' p' Hne. unfold log_of. cbn [set_data data]. by rewrite lookup2_insert2_ne.
    - by rewrite E. }
  set (s2 := set_state s1 t p (set_next st 0)).
  destruct (load_segments_spec t p (segments st) s2 w Hc) as (s' & w' & E & Q & [L1 L2 L3 L4]).
  exists s', w'. unfold s2 in *. rewrite state_of_set in L2, L3.
  split; [done|]. split; [done|]. split; [|split; [|split; [done|done]]].
  - eapply only_trans; [exact Ho1|]. eapply only_trans; [apply only_set_state|exact L4].
  - rewrite L1. change (log_of (set_state s1 t p (set_next st 0)) t p) with (log_of s1 t p). by rewrite Hl1.
Qed.

(** Dropping the oldest segment of an ordered partition. *)
Lemma part_ok_tail w w' t p log st st' seg rest :
  key_ok t p -> part_ok w t p log st -> segments st = seg :: rest -> rest <> [] ->
  (forall i, int_range i -> files w' !! segment_name t p i
     = if decide (i = seg) then None else files w !! segment_name t p i) ->
  segments st' = rest -> activeSegmentID st' = activeSegmentID st ->
  nextOffset st' = raise 0 (stored w t p rest) ->
  part_ok w' t p (stored w t p rest) st' /\ stored w t p rest `suffix_of` log
  /\ (log <> [] -> stored w t p rest <> []) /\ nextOffset st' = nextOffset st.
Proof.
  intros Hk [] Hsegs Hrest Hf Hs' Ha' Hn'. rewrite Hsegs in *.
  apply Forall_cons in po_range0 as [Hseg Hrange]. apply StronglySorted_inv in po_sorted0 as [Hsorted Hlt].
  assert (log = decoded (seg_text w t p seg) ++ stored w t p rest) as Hlog by done.
  assert (last rest = Some (activeSegmentID st)) as Hact.
  { destruct rest as [|x rest]; [done|]. exact po_active0. }
  assert (activeSegmentID st ∈ rest) as Hin by (by apply last_Some_elem_of).
  assert (forall i, i ∈ rest -> int_range i /\ i <> seg) as Hr.
  { rewrite Forall_forall in Hrange, Hlt. intros i Hi. specialize (Hlt i Hi). split; [auto|lia]. }
  assert (forall i, int_range i -> i <> seg -> seg_text w' t p i = seg_text w t p i) as Htext.
  { intros i Hi Hne. unfold seg_text, text_at. by rewrite Hf, decide_False. }
  assert (log <> [] -> stored w t p rest <> []) as Hne.
  { intros Hl E. apply (po_newest0 Hl). unfold stored in E. apply list_elem_of_lookup in Hin as [j Hj].
    apply join_nil, Forall_fmap in E. rewrite Forall_forall in E. apply E, list_elem_of_lookup. eauto. }
  destruct po_numbered0 as (b & Hb & Hnum).
  assert (numbered (b + Z.of_nat (length (decoded (seg_text w t p seg)))) (stored w t p rest)) as Hnum'
    by (apply numbered_suffix; by rewrite <- Hlog).
  assert (next_of (stored w t p rest) = nextOffset st) as Hnext.
  { rewrite po_next0. destruct (decide (stored w t p rest = [])) as [E|E].
    - rewrite E. destruct (decide (log = [])) as [->|Hl]; [done|]. by destruct (Hne Hl).
    - rewrite (numbered_next _ _ Hnum' E), (numbered_next _ _ Hnum).
      + rewrite Hlog, length_app. lia.
      + rewrite Hlog. by intros [_ ?]%app_nil. }
  assert (nextOffset st' = nextOffset st) as Hn.
  { rewrite Hn', (raise_next (b + Z.of_nat (length (decoded (seg_text w t p seg))))); [done|lia|done|lia]. }
  split; [|split; [exists (decoded (seg_text w t p seg)); done|done]].
  split; rewrite ?Hs', ?Ha', ?Hn; try done.
  - symmetry. apply stored_ext. intros i [Hi Hd]%Hr. by apply Htext.
  - intros i Hi. destruct (decide (i = seg)) as [->|Hd]; [|rewrite Htext by done; by apply po_whole0].
    unfold seg_text, text_at. rewrite Hf, decide_True by done. apply whole_empty.
  - intros i Hi. rewrite Hf by done. case_decide as Hd; [by intros []|]. intros Hx.
    apply po_files0 in Hx; [|done]. by apply elem_of_cons in Hx as [->|].
  - eexists. split; [|exact Hnum']. lia.
  - intros Hx. destruct (Hr _ Hin) as [Hi Hd]. rewrite Htext by done. apply po_newest0.
    rewrite Hlog. intros [_ ?]%app_nil. done.
Qed.

(** The outcome of a retention step on one partition. *)
Record swept (t : string) (p : Z) (s : Storage) (w : World) (s' : Storage) (w' : World) : Prop := {
  sw_ok : store_ok s' w';
  sw_only : only t p s s';
  sw_trim : real t = true -> int_range p -> trimmed s s' t p
}.

Lemma swept_refl t p s w : store_ok s w -> swept t p s w s w.
Proof. by split. Qed.

Lemma swept_trans t p s1 w1 s2 w2 s3 w3 :
  swept t p s1 w1 s2 w2 -> swept t p s2 w2 s3 w3 -> swept t p s1 w1 s3 w3.
Proof.
  intros [A1 A2 A3] [B1 B2 B3]. split; [done|by eapply only_trans|].
  intros Ht Hp. eapply trimmed_trans; eauto.
Qed.

Lemma swept_quiet t p s w w' : store_ok s w -> quiet w w' -> swept t p s w s w'.
Proof. intros Hs Q. split; [by eapply store_ok_quiet|done..]. Qed.

Lemma swept_trimmed t p s w s' w' t' p' :
  swept t p s w s' w' -> real t' = true -> int_range p' -> trimmed s s' t' p'.
Proof.
  intros [_ Ho Ht] Hr Hp. destruct (decide ((t, p) = (t', p'))) as [[= <- <-]|Hne]; [auto|].
  by eapply trimmed_other.
Qed.

Lemma segments_range s w t p : store_ok s w -> Forall int_range (segments (state_of s t p)).
Proof.
  intros Hs. destruct (lookup2 (states s) t p) as [st|] eqn:E.
  - apply (so_keys s w Hs). by rewrite E.
  - unfold state_of. rewrite E. repeat constructor; unfold int_range; ints.
Qed.

Lemma delete_swept s w t p seg rest :
  store_ok s w -> key_ok t p -> segments (state_of s t p) = seg :: rest -> rest <> [] ->
  exists s' w', deleteSegment s w t p (state_of s t p) seg = (s', w') /\ swept t p s w s' w'
  /\ segments (state_of s' t p) = rest
  /\ forall n, is_log n = true ->
       files w' !! n = if decide (n = segment_name t p seg) then None else files w !! n.
Proof.
  intros Hs Hk Hsegs Hrest. unfold deleteSegment. rewrite Hsegs. cbn [tail].
  set (st := state_of s t p) in *. set (w1 := Remove w _).
  destruct (Remove_calm w (segment_name t p seg) (so_calm _ _ Hs)) as [Hc1 Hf1]. fold w1 in Hc1, Hf1.
  set (st1 := set_segments st rest).
  destruct (rebuild_spec (set_state s t p st1) w1 t p st1 Hc1) as (s' & w' & E & Q & Ho & Hlog & Hnext & Hlike).
  exists s', w'. split; [exact E|].
  pose proof (segments_range s w t p Hs) as Hr. fold st in Hr. rewrite Hsegs in Hr.
  apply Forall_cons in Hr as [Hseg Hr].
  assert (only t p s s') as Ho' by (eapply only_trans; [apply only_set_state|exact Ho]).
  assert (forall n, is_log n = true -> files w' !! n = if decide (n = segment_name t p seg) then None else files w !! n) as Hf.
  { intros n Hn. rewrite (quiet_files _ _ Q), Hf1 by done. case_decide as Hd.
    - rewrite Hd. apply lookup_delete_eq.
    - by rewrite lookup_delete_ne. }
  destruct Hlike as [Hls Hla]. cbn [st1 set_segments segments activeSegmentID] in Hls, Hla, Hlog, Hnext.
  assert (forall i, int_range i -> files w' !! segment_name t p i
     = if decide (i = seg) then None else files w !! segment_name t p i) as Hfi.
  { intros i Hi. rewrite Hf by apply segment_is_log. destruct (decide (i = seg)) as [->|Hd].
    - by rewrite decide_True.
    - rewrite decide_False; [done|]. by intros [_ ?]%segment_name_inj. }
  assert (real t = true -> int_range p -> part_ok w' t p (log_of s' t p) (state_of s' t p) /\ trimmed s s' t p) as Hpart.
  { intros Ht Hp. pose proof (so_parts s w Hs t p Ht Hp) as Hpo. fold st in Hpo.
    assert (stored w1 t p rest = stored w t p rest) as Est.
    { apply stored_ext. intros i Hi. pose proof (po_sorted _ _ _ _ _ Hpo) as Hso. rewrite Hsegs in Hso.
      apply StronglySorted_inv in Hso as [_ Hlt]. rewrite Forall_forall in Hlt, Hr.
      specialize (Hlt i Hi). specialize (Hr i Hi). unfold seg_text, text_at. rewrite Hf1, lookup_delete_ne; [done|].
      intros [_ Heq]%segment_name_inj; [lia|done..]. }
    rewrite Est in Hlog, Hnext. rewrite Hlog.
    destruct (part_ok_tail w w' t p _ st (state_of s' t p) seg rest Hk Hpo Hsegs Hrest Hfi Hls Hla Hnext)
      as (H1 & H2 & H3 & H4). split; [done|]. split; [by rewrite Hlog|done|by rewrite Hlog]. }
  split; [|by split]. split; [|done|intros Ht Hp; by apply Hpart].
  apply (store_ok_only s w s' w' t p); [done|done|done|apply Q| | | |].
  - intros n Hn. rewrite Hf by done. case_decide; [by intros []|by left].
  - intros t' p' i Ht' Hp' Hi Hne. rewrite Hf by apply segment_is_log. rewrite decide_False; [done|].
    intros [E' _]%segment_name_inj; [by apply Hne; symmetry|by apply real_key|done..].
  - by rewrite Hls.
  - intros Ht. by apply Hpart; [|apply Hk].
Qed.

(** A segment with no file is dropped from the list. *)
Lemma drop_swept s w t p seg rest :
  store_ok s w -> key_ok t p -> segments (state_of s t p) = seg :: rest -> rest <> [] ->
  files w !! segment_name t p seg = None ->
  swept t p s w (set_state s t p (set_segments (state_of s t p) rest)) w.
Proof.
  intros Hs Hk Hsegs Hrest Hnone. set (st := state_of s t p) in *. set (s' := set_state _ _ _ _).
  pose proof (segments_range s w t p Hs) as Hr. fold st in Hr. rewrite Hsegs in Hr.
  apply Forall_cons in Hr as [Hseg Hr].
  assert (real t = true -> int_range p ->
    part_ok w t p (log_of s' t p) (state_of s' t p)) as Hpart.
  { intros Ht Hp. destruct (so_parts s w Hs t p Ht Hp) as [H1 H2 H3 H4 H5 H6 H7 H8 H9 H10].
    fold st in H1, H3, H4, H5, H6, H7, H9, H10. rewrite Hsegs in *.
    assert (log_of s' t p = stored w t p rest) as Hl.
    { change (log_of s' t p) with (log_of s t p). rewrite H1. unfold stored. cbn [fmap list_fmap mjoin list_join].
      unfold seg_text at 1, text_at. by rewrite Hnone, decoded_empty. }
    apply StronglySorted_inv in H3 as [H3 _].
    unfold s' at 2. rewrite state_of_set. rewrite Hl. change (log_of s t p) with (log_of s' t p) in *. rewrite Hl in *.
    split; cbn [set_segments segments activeSegmentID nextOffset]; try done.
    - destruct rest as [|x rest]; [done|]. exact H5.
    - intros i Hi Hx. specialize (H6 i Hi Hx). apply elem_of_cons in H6 as [->|]; [|done].
      rewrite Hnone in Hx. by destruct Hx. }
  split.
  - apply (store_ok_only s w s' w t p); [done|done|apply only_set_state|apply Hs|by left|done| |].
    + unfold s'. by rewrite state_of_set.
    + intros Ht. apply Hpart; [done|apply Hk].
  - apply only_set_state.
  - intros Ht Hp. split; [done|unfold s'; by rewrite state_of_set|done].
Qed.

Lemma age_loop_swept t p cutoff fuel : forall s w, store_ok s w -> key_ok t p ->
  exists s' w', age_loop fuel s w t p cutoff = (s', w') /\ swept t p s w s' w'.
Proof.
  induction fuel as [|fuel IH]; intros s w Hs Hk; cbn [age_loop].
  { exists s, w. split; [done|by apply swept_refl]. }
  destruct (segments (state_of s t p)) as [|seg rest] eqn:Hsegs; [exists s, w; split; [done|by apply swept_refl]|].
  destruct rest as [|x rest]; [exists s, w; split; [done|by apply swept_refl]|].
  destruct (Stat_quiet w (segment_name t p seg) (so_calm _ _ Hs)) as (w1 & Q & ->).
  pose proof (store_ok_quiet s w w1 Hs Q) as Hs1.
  destruct (files w !! segment_name t p seg) as [f|] eqn:Ef; cbn [fmap option_fmap option_map].
  - destruct (time_after (modTime f) cutoff); [exists s, w1; split; [done|by apply swept_quiet]|].
    destruct (delete_swept s w1 t p seg (x :: rest) Hs1 Hk Hsegs ltac:(done)) as (s2 & w2 & -> & H2 & _).
    destruct (IH s2 w2 (sw_ok _ _ _ _ _ _ H2) Hk) as (s3 & w3 & -> & H3).
    exists s3, w3. split; [done|]. eapply swept_trans; [by apply swept_quiet|]. by eapply swept_trans.
  - cbn [tail]. pose proof (drop_swept s w1 t p seg (x :: rest) Hs1 Hk Hsegs ltac:(done)) as H2.
    destruct (IH _ _ (sw_ok _ _ _ _ _ _ (H2 ltac:(by rewrite (quiet_files _ _ Q) by apply segment_is_log))) Hk) as (s3 & w3 & -> & H3).
    exists s3, w3. split; [done|]. eapply swept_trans; [by apply swept_quiet|]. eapply swept_trans; [|exact H3].
    apply H2. by rewrite (quiet_files _ _ Q) by apply segment_is_log.
Qed.

Lemma size_loop_swept t p fuel : forall s w total, store_ok s w -> key_ok t p ->
  exists s' w', size_loop fuel s w t p total = (s', w') /\ swept t p s w s' w'.
Proof.
  induction fuel as [|fuel IH]; intros s w total Hs Hk; cbn [size_loop].
  { exists s, w. split; [done|by apply swept_refl]. }
  destruct (segments (state_of s t p)) as [|seg rest] eqn:Hsegs; [exists s, w; split; [done|by apply swept_refl]|].
  destruct rest as [|x rest]; [exists s, w; split; [done|by apply swept_refl]|].
  destruct (retentionMaxBytes s <? total); [|exists s, w; split; [done|by apply swept_refl]].
  destruct (Stat_quiet w (segment_name t p seg) (so_calm _ _ Hs)) as (w1 & Q & ->).
  destruct (delete_swept s w1 t p seg (x :: rest) (store_ok_quiet s w w1 Hs Q) Hk Hsegs ltac:(done))
    as (s2 & w2 & -> & H2 & _).
  match goal with |- context [size_loop fuel s2 w2 t p ?tot] =>
    destruct (IH s2 w2 tot (sw_ok _ _ _ _ _ _ H2) Hk) as (s3 & w3 & -> & H3) end.
  exists s3, w3. split; [done|]. eapply swept_trans; [by apply swept_quiet|]. by eapply swept_trans.
Qed.

Lemma age_retention_swept s w t p : store_ok s w -> key_ok t p ->
  exists s' w', applyAgeRetention s w t p = (s', w') /\ swept t p s w s' w'.
Proof.
  intros Hs Hk. unfold applyAgeRetention. destruct (retentionMaxAge s <=? 0).
  { exists s, w. split; [done|by apply swept_refl]. }
  destruct (Now_quiet w (so_calm _ _ Hs)) as (w1 & now & -> & Q & _).
  match goal with |- context [age_loop ?f s w1 t p ?c] =>
    destruct (age_loop_swept t p c f s w1 (store_ok_quiet s w w1 Hs Q) Hk) as (s2 & w2 & -> & H2) end.
  exists s2, w2. split; [done|]. eapply swept_trans; [by apply swept_quiet|done].
Qed.

Lemma total_quiet t p segs : forall w total, calm w -> exists w' total',
  fold_left (fun '(w, total) i =>
      match Stat w (segment_name t p i) with
      | (w, Some (size, _)) => (w, int_add total size)
      | (w, None) => (w, total)
      end) segs (w, total) = (w', total') /\ quiet w w'.
Proof.
  induction segs as [|i segs IH]; intros w total Hc; cbn [fold_left].
  { exists w, total. split; [done|by apply quiet_refl]. }
  destruct (Stat_quiet w (segment_name t p i) Hc) as (w1 & Q & ->).
  destruct (files w !! segment_name t p i); cbn [fmap option_fmap option_map];
    match goal with |- context [(w1, ?tot)] =>
      destruct (IH w1 tot (quiet_calm _ _ Q)) as (w2 & t2 & -> & Q2) end;
    exists w2, t2; (split; [done|by eapply quiet_trans]).
Qed.

Lemma size_retention_swept s w t p : store_ok s w -> key_ok t p ->
  exists s' w', applySizeRetention s w t p = (s', w') /\ swept t p s w s' w'.
Proof.
  intros Hs Hk. unfold applySizeRetention. destruct (retentionMaxBytes s <=? 0).
  { exists s, w. split; [done|by apply swept_refl]. }
  destruct (total_quiet t p (segments (state_of s t p)) w 0 (so_calm _ _ Hs)) as (w1 & tot & -> & Q).
  destruct (size_loop_swept t p (length (segments (state_of s t p))) s w1 tot (store_ok_quiet s w w1 Hs Q) Hk)
    as (s2 & w2 & -> & H2).
  exists s2, w2. split; [done|]. eapply swept_trans; [by apply swept_quiet|done].
Qed.

Section Operations.
Context `{MO : MapOrder}.

Lemma state_keys_ok s w : store_ok s w -> Forall (fun k => key_ok k.1 k.2) (state_keys s).
Proof.
  intros Hs. apply Forall_forall. intros [t p] Hk. unfold state_keys in Hk.
  apply list_elem_of_join in Hk as (l & Hk & Hl). apply elem_of_maplist in Hl as ([t0 parts] & -> & Ht).
  apply elem_of_map_range in Ht. apply elem_of_maplist in Hk as ([p0 st] & [= -> ->] & Hp).
  apply elem_of_map_range in Hp. apply (so_keys s w Hs). unfold lookup2. cbn [fst snd]. by rewrite Ht, Hp.
Qed.

(** Retention over the whole store. *)
Lemma retention_ok s w : store_ok s w ->
  exists s' w', enforceRetentionLocked s w = (s', w') /\ store_ok s' w' /\ all_trimmed s s'.
Proof.
  intros Hs. unfold enforceRetentionLocked. pose proof (state_keys_ok s w Hs) as Hks.
  generalize dependent (state_keys s). intros ks Hks. revert s w Hs.
  induction Hks as [|[t p] ks Hk Hks IH]; intros s w Hs; cbn [fold_left].
  { exists s, w. split; [done|]. split; [done|]. intros t p _ _. apply trimmed_refl. }
  cbn [fst snd] in Hk. destruct (age_retention_swept s w t p Hs Hk) as (s1 & w1 & -> & H1).
  destruct (size_retention_swept s1 w1 t p (sw_ok _ _ _ _ _ _ H1) Hk) as (s2 & w2 & -> & H2).
  destruct (IH s2 w2 (sw_ok _ _ _ _ _ _ H2)) as (s3 & w3 & -> & H3 & T3).
  exists s3, w3. split; [done|]. split; [done|]. intros t' p' Ht' Hp'.
  eapply trimmed_trans; [eapply swept_trimmed; [by eapply swept_trans|done|done]|by apply T3].
Qed.
End Operations.

End Recovery.
