(* ===== verification/StorageDurability.v ===== *)
(** * Durability: appends and restarts keep memory and disk in step

    With the invariant of [StorageRecovery]: produce and replicated append extend
    exactly one log at its end and its newest segment file with it, start-up
    rebuilds the logs from the files, and so, for every sequence of appends and
    restarts on a disk that does not fail, a restart finds the logs as they were
    up to what retention drops. *)
From S2P Require Import Prelude GoStrings Config StorageCodec FileSystem Storage StorageLog StorageRecovery.

Module Durability.
Import FS Storage StorageLog Recovery.

(** ** Appending one record to a partition *)

(** What an append needs of the state it writes with: the current one, or the
    current one after a rotation. *)
Record writable (w : World) (t : string) (p : Z) (log : list Message) (st : partitionState) : Prop := {
  wr_log : log = stored w t p (segments st);
  wr_whole : forall i, int_range i -> whole (seg_text w t p i);
  wr_sorted : StronglySorted Z.lt (segments st);
  wr_range : Forall int_range (segments st);
  wr_active : last (segments st) = Some (activeSegmentID st);
  wr_files : forall i, int_range i -> is_Some (files w !! segment_name t p i) -> i ∈ segments st;
  wr_next : nextOffset st = next_of log;
  wr_numbered : exists b, 0 <= b /\ numbered b log;
  wr_bound : activeSegmentID st <= nextOffset st + 1 /\ nextOffset st < int_max
}.

Lemma sorted_le_last l x y : StronglySorted Z.lt l -> last l = Some y -> x ∈ l -> x <= y.
Proof.
  intros Hs Hl Hx. apply last_Some in Hl as [k ->]. apply elem_of_app in Hx as [Hx|Hx%list_elem_of_singleton]; [|lia].
  induction k as [|z k IH]; [by apply not_elem_of_nil in Hx|].
  simpl in Hs. apply StronglySorted_inv in Hs as [Hs Hz]. apply elem_of_cons in Hx as [->|Hx]; [|auto].
  rewrite Forall_forall in Hz. specialize (Hz y). rewrite elem_of_app, list_elem_of_singleton in Hz.
  specialize (Hz (or_intror eq_refl)). lia.
Qed.

Lemma StronglySorted_snoc l x :
  StronglySorted Z.lt l -> (forall y, y ∈ l -> y < x) -> StronglySorted Z.lt (l ++ [x]).
Proof.
  intros Hs Hx. induction Hs as [|y l Hs IH Hy]; simpl; [by repeat constructor|].
  constructor; [apply IH; intros z Hz; apply Hx; by right|].
  apply Forall_app. split; [done|]. constructor; [|done]. apply Hx. by left.
Qed.

Lemma writable_same w t p log st :
  part_ok w t p log st -> nextOffset st < int_max -> writable w t p log st.
Proof. intros [] ?. split; try done. lia. Qed.

Lemma writable_rotated w t p log st :
  part_ok w t p log st -> nextOffset st < int_max -> writable w t p log (rotate st).
Proof.
  intros [] Hn. set (a := activeSegmentID st) in *.
  assert (int_range a) as Ha.
  { rewrite Forall_forall in po_range0. by apply po_range0, last_Some_elem_of. }
  assert (int_add a 1 = a + 1) as Ea by (apply int_add_id; unfold int_range in *; ints).
  assert (forall x, x ∈ segments st -> x <= a) as Hmax by (intros x Hx; by eapply sorted_le_last).
  assert (int_range (a + 1)) as Ha1 by (unfold int_range in *; lia).
  assert (files w !! segment_name t p (a + 1) = None) as Hnone.
  { destruct (files w !! segment_name t p (a + 1)) eqn:E; [|done]. exfalso.
    assert (a + 1 ∈ segments st) as Hin by (apply po_files0; [done|by rewrite E]).
    apply Hmax in Hin. lia. }
  unfold rotate. fold a. rewrite Ea.
  split; cbn [set_segments set_active segments activeSegmentID nextOffset]; try done.
  - rewrite stored_app, <- po_log0, stored_one. unfold seg_text, text_at.
    by rewrite Hnone, decoded_empty, app_nil_r.
  - apply StronglySorted_snoc; [done|]. intros y Hy%Hmax. lia.
  - apply Forall_app. split; [done|by constructor].
  - apply last_snoc.
  - intros i Hi Hx. apply elem_of_app. left. auto.
  - lia.
Qed.

(** Writing the line of the next record to the active segment. *)
Lemma append_part w w' t p log st st' ts v :
  key_ok t p -> writable w t p log st -> in_int ts = true -> value_ok v = true ->
  wrote w w' (segment_name t p (activeSegmentID st)) (log_line (nextOffset st) ts v +:+ nl) ->
  like st st' -> nextOffset st' = nextOffset st + 1 ->
  part_ok w' t p (log ++ [mkMessage (nextOffset st) v]) st'.
Proof.
  intros Hk [] Hts Hv [Hc (f & Hf & Hcont) Hother] [Hs' Ha'] Hn'. set (a := activeSegmentID st) in *.
  assert (a ∈ segments st) as Hin by (by apply last_Some_elem_of).
  pose proof wr_range0 as Hr. rewrite Forall_forall in Hr. pose proof (Hr a Hin) as Ha.
  destruct wr_numbered0 as (b & Hb & Hnum). destruct wr_bound0 as [Hba Hbn].
  assert (0 <= nextOffset st) as Hpos.
  { rewrite wr_next0. destruct (decide (log = [])) as [->|Hne]; [done|].
    rewrite (numbered_next b) by done. lia. }
  assert (in_int (nextOffset st) = true) as Hno by (apply in_int_spec; ints).
  destruct (decoded_append (seg_text w t p a) (nextOffset st) ts v) as [Hwh Hdec]; [auto..|].
  assert (seg_text w' t p a = seg_text w t p a +:+ log_line (nextOffset st) ts v +:+ nl) as Hta.
  { unfold seg_text at 1, text_at. rewrite Hf, Hcont. by strs. }
  assert (forall i, int_range i -> i <> a -> files w' !! segment_name t p i = files w !! segment_name t p i) as Hfo.
  { intros i Hi Hne. apply Hother; [|apply segment_is_log]. by intros [_ ?]%segment_name_inj. }
  assert (forall i, int_range i -> i <> a -> seg_text w' t p i = seg_text w t p i) as Hto.
  { intros i Hi Hne. unfold seg_text, text_at. by rewrite Hfo. }
  assert (log ++ [mkMessage (nextOffset st) v] = stored w' t p (segments st)) as Hlog.
  { pose proof wr_active0 as Hl. apply last_Some in Hl as [l El]. rewrite El in *.
    rewrite stored_app in wr_log0 |- *. rewrite wr_log0, (stored_ext w w' t p l).
    - by rewrite !stored_one, Hta, Hdec, app_assoc.
    - intros i Hi. apply Hto; [apply Hr, elem_of_app; by left|]. intros ->.
      clear -wr_sorted0 Hi. induction l as [|x l IH]; [by apply not_elem_of_nil in Hi|].
      simpl in wr_sorted0. apply StronglySorted_inv in wr_sorted0 as [Hs Hx].
      apply elem_of_cons in Hi as [->|Hi]; [|auto]. rewrite Forall_forall in Hx.
      specialize (Hx x). rewrite elem_of_app, list_elem_of_singleton in Hx. specialize (Hx (or_intror eq_refl)). lia. }
  split; rewrite ?Hs', ?Ha', ?Hn'; try done.
  - intros i Hi. destruct (decide (i = a)) as [->|Hne]; [by rewrite Hta|]. rewrite Hto by done. auto.
  - intros i Hi Hx. destruct (decide (i = a)) as [->|Hne]; [done|]. rewrite Hfo in Hx by done. auto.
  - unfold next_of. by rewrite last_snoc.
  - rewrite wr_next0. by apply (numbered_snoc b).
  - fold a. lia.
  - intros _. fold a. rewrite Hta, Hdec. by intros [_ ?]%app_nil.
Qed.

(** ** Writes beside the logs *)

(** From [w] to [w'] no segment of a real partition changed, and every new log is
    named after some partition. *)
Record benign (w w' : World) : Prop := {
  bn_calm : calm w';
  bn_named : forall name, is_log name = true -> is_Some (files w' !! name) ->
    is_Some (files w !! name) \/ exists t p i, key_ok t p /\ int_range i /\ name = segment_name t p i;
  bn_same : forall t p i, real t = true -> int_range p -> int_range i ->
    files w' !! segment_name t p i = files w !! segment_name t p i
}.

Lemma quiet_benign w w' : quiet w w' -> benign w w'.
Proof.
  intros [Hc Hf]. split; [done| |].
  - intros n Hn. rewrite Hf by done. by left.
  - intros t p i _ _ _. apply Hf, segment_is_log.
Qed.

Lemma benign_trans w1 w2 w3 : benign w1 w2 -> benign w2 w3 -> benign w1 w3.
Proof.
  intros [A1 A2 A3] [B1 B2 B3]. split; [done| |].
  - intros n Hn Hx. destruct (B2 n Hn Hx) as [Hy|Hy]; [|by right]. by apply A2.
  - intros t p i Ht Hp Hi. by rewrite B3, A3.
Qed.

Lemma mirror_not_real t p : real (mirror_topic t p) = false.
Proof.
  unfold real, mirror_topic. rewrite <- !str_app_assoc, CutSuffix_app. by rewrite andb_false_r.
Qed.

Lemma mirror_benign w t p r i line :
  calm w -> key_ok t p -> int_range r -> int_range i ->
  benign w (appendLine w (replica_segment_name t p r i) line).1.
Proof.
  intros Hc [Ht Hp] Hr Hi. rewrite replica_name_eq.
  assert (key_ok (mirror_topic t p) r) as Hk by (split; [apply mirror_segment_topic; [done|apply Hp]|done]).
  destruct (appendLine_wrote w (segment_name (mirror_topic t p) r i) line Hc) as [Hc' _ Ho].
  split; [done| |].
  - intros n Hn Hx. destruct (decide (n = segment_name (mirror_topic t p) r i)) as [->|Hne].
    + right. eauto 6.
    + rewrite Ho in Hx by done. by left.
  - intros t' p' i' Ht' Hp' Hi'. apply Ho; [|apply segment_is_log].
    intros [E _]%segment_name_inj; [|by apply real_key|done..]. injection E as -> _.
    by rewrite mirror_not_real in Ht'.
Qed.

Lemma replicas_benign s w t p i line :
  calm w -> key_ok t p -> int_range i -> 0 <= localReplicaCount s < int_max ->
  benign w (writeLocalReplicas s w t p i line).
Proof.
  intros Hc Hk Hi Hn. unfold writeLocalReplicas.
  assert (Forall int_range (zrange 1 (localReplicaCount s + 1))) as Hr.
  { apply Forall_forall. intros r Hr%elem_of_zrange. unfold int_range. lia. }
  revert w Hc. induction Hr as [|r rs Hr Hrs IH]; intros w Hc; cbn [fold_left];
    [by apply quiet_benign, quiet_refl|].
  pose proof (mirror_benign w t p r i line Hc Hk Hr Hi) as B.
  eapply benign_trans; [exact B|]. apply IH, B.
Qed.

Lemma shouldRotate_quiet s w t p i n : calm w ->
  exists w' full, shouldRotate s w t p i n = (w', full) /\ quiet w w'.
Proof.
  intros Hc. unfold shouldRotate. destruct (Stat_quiet w (segment_name t p i) Hc) as (w' & Q & ->).
  destruct (files w !! _); eexists _, _; (split; [reflexivity|done]).
Qed.

Lemma fsync_quiet s w st n : calm w ->
  exists w' st', applyFsyncPolicy s w st n = (w', st', None) /\ quiet w w' /\ like st st'
  /\ nextOffset st' = nextOffset st.
Proof.
  intros Hc. unfold applyFsyncPolicy. destruct (Sync_quiet w Hc) as (w1 & E1 & Q1).
  destruct (String.eqb (fsyncMode s) "never"); [exists w, st; split; [done|]; split; [by apply quiet_refl|done]|].
  destruct (String.eqb (fsyncMode s) "always"); [rewrite E1; by exists w1, st|].
  destruct (String.eqb (fsyncMode s) "interval"); [|rewrite E1; by exists w1, st].
  set (st1 := set_pending _ _).
  destruct (Now_quiet w Hc) as (w2 & now & E2 & Q2 & _).
  assert (exists w3 due, (if flushBytes s <=? pendingBytes st1 then (w, true)
            else let '(w, now) := Now w in (w, flushInterval s <=? time_sub now (lastFsyncAt st1))) = (w3, due)
          /\ quiet w w3) as (w3 & due & -> & Q3).
  { destruct (flushBytes s <=? pendingBytes st1); [exists w, true; split; [done|by apply quiet_refl]|].
    rewrite E2. eexists _, _. split; [reflexivity|done]. }
  destruct due; [|by exists w3, st1].
  destruct (Sync_quiet w3 (quiet_calm _ _ Q3)) as (w4 & -> & Q4).
  destruct (Now_quiet w4 (quiet_calm _ _ Q4)) as (w5 & now' & -> & Q5 & _).
  exists w5, (set_synced st1 now'). split; [done|]. split; [|done].
  eapply quiet_trans; [exact Q3|]. by eapply quiet_trans.
Qed.

(** ** Append *)

(** [s'] is [s] with the message [m] at the end of one partition, up to retention. *)
Record appended (s s' : Storage) (t : string) (p : Z) (m : Message) : Prop := {
  ap_suffix : log_of s' t p `suffix_of` log_of s t p ++ [m];
  ap_last : last (log_of s' t p) = Some m;
  ap_next : nextOffset (state_of s' t p) = nextOffset (state_of s t p) + 1;
  ap_others : forall t' p', real t' = true -> int_range p' -> (t, p) <> (t', p') -> trimmed s s' t' p'
}.

(** The state after one record has been written and recorded in memory. *)
Definition recorded (s : Storage) (t : string) (p : Z) (st st' : partitionState) (v : string) : Storage :=
  set_state (push_message (set_state s t p st) t p (mkMessage (nextOffset st) v)) t p
    (set_next st' (int_add (nextOffset st) 1)).

Lemma recorded_ok s w w1 w2 w3 t p st st' ts v :
  store_ok s w -> real t = true -> int_range p -> value_ok v = true -> in_int ts = true ->
  nextOffset (state_of s t p) < int_max ->
  st = state_of s t p \/ st = rotate (state_of s t p) -> like st st' ->
  quiet w w1 -> wrote w1 w2 (segment_name t p (activeSegmentID st)) (log_line (nextOffset st) ts v +:+ nl) ->
  benign w2 w3 ->
  store_ok (recorded s t p st st' v) w3
  /\ log_of (recorded s t p st st' v) t p = log_of s t p ++ [mkMessage (nextOffset st) v]
  /\ nextOffset (state_of (recorded s t p st st' v) t p) = nextOffset st + 1
  /\ nextOffset st = nextOffset (state_of s t p)
  /\ only t p s (recorded s t p st st' v).
Proof.
  intros Hs Ht Hp Hv Hts Hmax Hst Hlike Q1 W2 B3. pose proof (real_key t p Ht Hp) as Hk.
  pose proof (store_ok_quiet s w w1 Hs Q1) as Hs1. pose proof (so_parts s w1 Hs1 t p Ht Hp) as Hpo.
  assert (writable w1 t p (log_of s t p) st) as Hwr
    by (destruct Hst as [->| ->]; [by apply writable_same|by apply writable_rotated]).
  assert (nextOffset st = nextOffset (state_of s t p)) as En by (by destruct Hst as [->| ->]).
  set (s' := recorded s t p st st' v). set (m := mkMessage (nextOffset st) v).
  assert (only t p s s') as Ho.
  { eapply only_trans; [apply only_set_state|]. eapply only_trans; [apply only_push|apply only_set_state]. }
  assert (log_of s' t p = log_of s t p ++ [m]) as Hlog.
  { unfold s', recorded. change (log_of (set_state ?x t p _) t p) with (log_of x t p). by rewrite push_log, decide_True. }
  destruct Hwr as [? ? ? Hr Ha ? Hnx (b & Hb & Hnum) Hbound] eqn:Ewr. clear Ewr.
  assert (0 <= nextOffset st) as Hpos.
  { rewrite Hnx. destruct (decide (log_of s t p = [])) as [->|Hne]; [done|].
    rewrite (numbered_next b) by done. lia. }
  assert (state_of s' t p = set_next st' (nextOffset st + 1)) as Hst'.
  { unfold s', recorded. rewrite state_of_set. by rewrite int_add_id by ints. }
  assert (part_ok w2 t p (log_of s' t p) (state_of s' t p)) as Hpart.
  { rewrite Hlog, Hst'. eapply append_part; [exact Hk|by split; eauto|exact Hts|exact Hv|exact W2| |done].
    by destruct Hlike. }
  split; [|split; [done|split; [by rewrite Hst'|done]]].
  apply (store_ok_only s w1 s' w3 t p); [done|done|done|apply B3| | | |].
  - intros n Hn Hx. destruct (bn_named _ _ B3 n Hn Hx) as [Hy|Hy]; [|by right].
    destruct (decide (n = segment_name t p (activeSegmentID st))) as [->|Hne].
    + right. exists t, p, (activeSegmentID st). split; [done|]. split; [|done].
      rewrite Forall_forall in Hr. by apply Hr, last_Some_elem_of.
    + left. by rewrite (wrote_other _ _ _ _ W2) in Hy.
  - intros t' p' i Ht' Hp' Hi Hne. rewrite (bn_same _ _ B3) by done.
    apply (wrote_other _ _ _ _ W2); [|apply segment_is_log].
    intros [E _]%segment_name_inj; [by apply Hne; symmetry|by apply real_key|done|done|].
    rewrite Forall_forall in Hr. by apply Hr, last_Some_elem_of.
  - rewrite Hst'. cbn [set_next segments]. by destruct Hlike as [-> _].
  - intros _. eapply part_ok_frame; [exact Hpart|done|done|]. intros i Hi. by apply (bn_same _ _ B3).
Qed.

Lemma ensure_store_ok s w t p : store_ok s w -> key_ok t p -> exists s1 w1,
  ensurePartitionState s w t p = (s1, w1, state_of s1 t p) /\ store_ok s1 w1 /\ only t p s s1
  /\ log_of s1 t p = log_of s t p /\ nextOffset (state_of s1 t p) = nextOffset (state_of s t p).
Proof.
  intros Hs Hk. destruct (ensure_spec s w t p (so_calm _ _ Hs)) as (s1 & w1 & st & E & Q & [L1 L2 L3 L4] & <- & _).
  exists s1, w1. rewrite app_nil_r in L1. split; [done|]. split; [|done].
  apply (store_ok_only s w s1 w1 t p); [done|done|done|apply Q| | | |].
  - intros n Hn. rewrite (quiet_files _ _ Q) by done. by left.
  - intros t' p' i _ _ _ _. apply Q, segment_is_log.
  - rewrite (proj1 L3). by eapply segments_range.
  - intros Ht. rewrite L1. eapply part_ok_frame; [apply (so_parts s w Hs t p Ht), Hk|done|done|].
    intros i _. apply Q, segment_is_log.
Qed.

(** The state the record is written with, rotated or not. *)
Lemma pick_state s w t p (full : bool) :
  store_ok s w -> real t = true -> int_range p -> nextOffset (state_of s t p) < int_max ->
  let st := if full then rotate (state_of s t p) else state_of s t p in
  (st = state_of s t p \/ st = rotate (state_of s t p))
  /\ nextOffset st = nextOffset (state_of s t p) /\ int_range (activeSegmentID st).
Proof.
  intros Hs Ht Hp Hmax st. destruct (so_parts s w Hs t p Ht Hp) as [_ _ _ Hr Hact _ _ _ Hb _].
  rewrite Forall_forall in Hr. pose proof (Hr _ (last_Some_elem_of _ _ Hact)) as Hra. unfold st.
  destruct full; [|auto]. split; [auto|]. split; [done|].
  cbn [rotate set_segments set_active activeSegmentID]. unfold int_range in *. rewrite int_add_id by ints. lia.
Qed.

Section Appends.
Context `{MO : MapOrder}.

(** Recording a message and enforcing retention. *)
Lemma recorded_appended s0 s w w1 w2 w3 t p st st' ts v :
  store_ok s w -> real t = true -> int_range p -> value_ok v = true -> in_int ts = true ->
  only t p s0 s -> log_of s t p = log_of s0 t p ->
  nextOffset (state_of s t p) = nextOffset (state_of s0 t p) -> nextOffset (state_of s t p) < int_max ->
  st = state_of s t p \/ st = rotate (state_of s t p) -> like st st' ->
  quiet w w1 -> wrote w1 w2 (segment_name t p (activeSegmentID st)) (log_line (nextOffset st) ts v +:+ nl) ->
  benign w2 w3 ->
  exists s' w', enforceRetentionLocked (recorded s t p st st' v) w3 = (s', w') /\ store_ok s' w'
  /\ appended s0 s' t p (mkMessage (nextOffset (state_of s0 t p)) v).
Proof.
  intros Hs Ht Hp Hv Hts Ho0 Hl0 Hn0 Hmax Hst Hlike Q1 W2 B3.
  destruct (recorded_ok s w w1 w2 w3 t p st st' ts v) as (Hs' & Hlog & Hnext & En & Ho); try done.
  destruct (retention_ok _ _ Hs') as (s' & w' & -> & Hok & Htrim).
  exists s', w'. split; [done|]. split; [done|]. destruct (Htrim t p Ht Hp) as [T1 T2 T3].
  rewrite Hlog, Hl0, En, Hn0 in T1, T3. split.
  - exact T1.
  - destruct T1 as [k Hk]. destruct (log_of s' t p) as [|x l _] eqn:El using rev_ind.
    + by destruct T3; [intros [_ ?]%app_nil|].
    + rewrite app_assoc in Hk. apply app_inj_tail in Hk as [_ <-]. apply last_snoc.
  - by rewrite T2, Hnext, En, Hn0.
  - intros t' p' Ht' Hp' Hne. eapply trimmed_trans; [|by apply Htrim].
    eapply trimmed_other; [by eapply only_trans|done].
Qed.

Lemma produce_ok s w t p v :
  store_ok s w -> real t = true -> int_range p -> value_ok v = true ->
  nextOffset (state_of s t p) < int_max ->
  exists s' w', ProduceToPartition s w t p v = (s', w', (p, nextOffset (state_of s t p)))
  /\ store_ok s' w' /\ appended s s' t p (mkMessage (nextOffset (state_of s t p)) v).
Proof.
  intros Hs Ht Hp Hv Hmax. pose proof (real_key t p Ht Hp) as Hk. unfold ProduceToPartition.
  destruct (ensure_store_ok s w t p Hs Hk) as (s1 & w1 & -> & Hs1 & Ho1 & Hl1 & Hn1).
  destruct (Now_quiet w1 (so_calm _ _ Hs1)) as (w2 & now & -> & Q2 & Hts).
  destruct (MkdirAll_quiet w2 (quiet_calm _ _ Q2)) as (w3 & -> & Q3).
  match goal with |- context [shouldRotate s1 w3 t p ?a ?n] =>
    destruct (shouldRotate_quiet s1 w3 t p a n (quiet_calm _ _ Q3)) as (w4 & full & -> & Q4) end.
  destruct (pick_state s1 w1 t p full Hs1 Ht Hp ltac:(lia)) as (Hst & En & Ha). cbv zeta in *.
  set (st := if full then rotate (state_of s1 t p) else state_of s1 t p) in *. rewrite <- En.
  set (line := log_line (nextOffset st) (UnixMilli now) v +:+ nl).
  destruct (write_calm w4 (segment_name t p (activeSegmentID st)) line (quiet_calm _ _ Q4))
    as (w5 & w6 & -> & -> & W6).
  match goal with |- context [applyFsyncPolicy ?x w6 st ?n] =>
    destruct (fsync_quiet x w6 st n (wrote_calm _ _ _ _ W6)) as (w7 & st7 & -> & Q7 & Hlike & Hn7) end.
  rewrite Hn7, (proj2 Hlike).
  set (w8 := writeLocalReplicas (set_state s1 t p st) w7 t p (activeSegmentID st) line).
  assert (benign w7 w8) as B8 by (apply replicas_benign; [apply Q7|done|done|apply (so_count s1 w1 Hs1)]).
  pose proof (index_quiet w8 t p (nextOffset st) (activeSegmentID st) (UnixMilli now) (bn_calm _ _ B8)) as Q9.
  set (w9 := appendTimestampIndex _ _ _ _ _ _) in *. fold (recorded s1 t p st st7 v).
  destruct (recorded_appended s s1 w1 w4 w6 w9 t p st st7 (UnixMilli now) v) as (s' & w' & -> & Hok & Hap); try done.
  - lia.
  - eapply quiet_trans; [exact Q2|]. by eapply quiet_trans.
  - eapply benign_trans; [by apply quiet_benign|]. eapply benign_trans; [exact B8|by apply quiet_benign].
  - exists s', w'. split; [by rewrite En, Hn1|done].
Qed.

(** From one store to the other no log, no position and no file changes. *)
Record unchanged (s : Storage) (w : World) (s' : Storage) (w' : World) : Prop := {
  un_data : data s' = data s;
  un_next : forall t p, nextOffset (state_of s' t p) = nextOffset (state_of s t p);
  un_active : forall t p, activeSegmentID (state_of s' t p) = activeSegmentID (state_of s t p);
  un_segments : forall t p, segments (state_of s' t p) = segments (state_of s t p);
  un_files : files w' = files w
}.

Lemma ensure_unchanged s w t p s1 w1 st :
  ensurePartitionState s w t p = (s1, w1, st) -> unchanged s w s1 w1.
Proof.
  unfold ensurePartitionState. destruct (lookup2 (states s) t p) as [st0|] eqn:E; [by intros [= <- <- _]|].
  destruct (Now w) as [w2 now] eqn:EN. intros [= <- <- _].
  assert (files w2 = files w) as Hf.
  { unfold Now in EN. destruct (ticks w); by injection EN as <- _. }
  assert (forall t' p', state_of (set_state s t p (mkState 0 0 [0] now 0)) t' p'
    = if decide ((t, p) = (t', p')) then mkState 0 0 [0] now 0 else state_of s t' p') as Hst.
  { intros t' p'. case_decide as D; [injection D as <- <-; apply state_of_set|].
    by apply (only_state_of t p); [apply only_set_state|]. }
  split; try done; intros t' p'; rewrite Hst; case_decide as D; try done;
    injection D as <- <-; unfold state_of; by rewrite E.
Qed.

Lemma unchanged_trimmed s w s' w' : unchanged s w s' w' -> all_trimmed s s'.
Proof.
  intros [Hd Hn _ _] t p _ _. assert (log_of s' t p = log_of s t p) as El by (unfold log_of; by rewrite Hd).
  split; [by rewrite El|done|by rewrite El].
Qed.

(** The replicated append, on its three branches. *)
Lemma append_replicated_ok s w t p off v :
  store_ok s w -> real t = true -> int_range p -> value_ok v = true ->
  nextOffset (state_of s t p) < int_max ->
  exists s' w' r, AppendReplicated s w t p off v = (s', w', r) /\ store_ok s' w'
  /\ (off < nextOffset (state_of s t p) -> r = Success () /\ unchanged s w s' w')
  /\ (nextOffset (state_of s t p) < off -> is_success r = false /\ unchanged s w s' w')
  /\ (off = nextOffset (state_of s t p) -> r = Success () /\ appended s s' t p (mkMessage off v)).
Proof.
  intros Hs Ht Hp Hv Hmax. pose proof (real_key t p Ht Hp) as Hk. unfold AppendReplicated.
  destruct (ensure_store_ok s w t p Hs Hk) as (s1 & w1 & Een & Hs1 & Ho1 & Hl1 & Hn1). rewrite Een.
  pose proof (ensure_unchanged _ _ _ _ _ _ _ Een) as Htr.
  rewrite Hn1. destruct (Z.ltb_spec off (nextOffset (state_of s t p))).
  { eexists _, _, _. split; [reflexivity|]. split; [done|]. split; [done|]. split; lia. }
  destruct (Z.ltb_spec (nextOffset (state_of s t p)) off).
  { eexists _, _, _. split; [reflexivity|]. split; [done|]. split; [lia|]. split; [done|lia]. }
  assert (off = nextOffset (state_of s t p)) as Eoff by lia.
  destruct (Now_quiet w1 (so_calm _ _ Hs1)) as (w2 & now & -> & Q2 & Hts).
  destruct (MkdirAll_quiet w2 (quiet_calm _ _ Q2)) as (w3 & -> & Q3).
  match goal with |- context [shouldRotate s1 w3 t p ?a ?n] =>
    destruct (shouldRotate_quiet s1 w3 t p a n (quiet_calm _ _ Q3)) as (w4 & full & -> & Q4) end.
  destruct (pick_state s1 w1 t p full Hs1 Ht Hp ltac:(lia)) as (Hst & En & Ha). cbv zeta in *.
  set (st := if full then rotate (state_of s1 t p) else state_of s1 t p) in *.
  assert (off = nextOffset st) as -> by congruence.
  set (line := log_line (nextOffset st) (UnixMilli now) v +:+ nl).
  destruct (write_calm w4 (segment_name t p (activeSegmentID st)) line (quiet_calm _ _ Q4))
    as (w5 & w6 & -> & -> & W6).
  match goal with |- context [applyFsyncPolicy ?x w6 st ?n] =>
    destruct (fsync_quiet x w6 st n (wrote_calm _ _ _ _ W6)) as (w7 & st7 & -> & Q7 & Hlike & Hn7) end.
  rewrite (proj2 Hlike).
  pose proof (index_quiet w7 t p (nextOffset st) (activeSegmentID st) (UnixMilli now) (quiet_calm _ _ Q7)) as Q9.
  set (w9 := appendTimestampIndex _ _ _ _ _ _) in *. fold (recorded s1 t p st st7 v).
  destruct (recorded_appended s s1 w1 w4 w6 w9 t p st st7 (UnixMilli now) v) as (s' & w' & -> & Hok & Hap); try done.
  - lia.
  - eapply quiet_trans; [exact Q2|]. by eapply quiet_trans.
  - eapply quiet_benign, quiet_trans; [exact Q7|done].
  - exists s', w', (Success ()). split; [done|]. split; [done|]. split; [lia|]. split; [lia|].
    by rewrite Eoff.
Qed.
End Appends.

(** ** Start-up *)
#[export] Instance entry_le_total : Total entry_le.
Proof.
  intros a b. unfold entry_le. rewrite (String.eqb_sym (eTopic b)), (Z.eqb_sym (ePartition b)).
  destruct (String.eqb (eTopic a) (eTopic b)); simpl; [|apply string_le_total].
  destruct (ePartition a =? ePartition b); simpl; lia.
Qed.

#[export] Instance entry_le_trans : Transitive entry_le.
Proof.
  intros a b c. unfold entry_le.
  destruct (String.eqb_spec (eTopic a) (eTopic b)) as [->|Hab]; simpl.
  - destruct (String.eqb_spec (eTopic b) (eTopic c)); simpl; [|done].
    destruct (Z.eqb_spec (ePartition a) (ePartition b)), (Z.eqb_spec (ePartition b) (ePartition c)),
      (Z.eqb_spec (ePartition a) (ePartition c)); simpl; lia.
  - destruct (String.eqb_spec (eTopic b) (eTopic c)) as [<-|Hbc]; simpl.
    + intros H _. by rewrite (proj2 (String.eqb_neq _ _) Hab).
    + intros H1 H2. destruct (String.eqb_spec (eTopic a) (eTopic c)) as [E|]; simpl; [|by etrans].
      rewrite <- E in H2. by destruct Hab; apply (anti_symm string_le).
Qed.

(** A directory entry that names the segment it is read as. *)
Record entry_ok (e : segmentEntry) : Prop := {
  en_key : key_ok (eTopic e) (ePartition e);
  en_seg : int_range (eSegment e);
  en_path : ePath e = segment_name (eTopic e) (ePartition e) (eSegment e)
}.

(** The segments of one partition among the entries. *)
Definition ids_of (t : string) (p : Z) (es : list segmentEntry) : list Z :=
  eSegment <$> filter (fun e => (eTopic e, ePartition e) = (t, p)) es.

(** How [loadData] lists a segment and finds the active one. *)
Definition add_seg (l : list Z) (i : Z) : list Z :=
  match last l with Some x => if x =? i then l else l ++ [i] | None => l ++ [i] end.
Definition top_seg (a i : Z) : Z := if a <? i then i else a.

Lemma load_entry_spec s w e : calm w -> entry_ok e ->
  let t := eTopic e in let p := ePartition e in
  let ms := decoded (seg_text w t p (eSegment e)) in
  exists s' w', load_entry (s, w) e = (s', w') /\ quiet w w' /\ only t p s s'
  /\ log_of s' t p = log_of s t p ++ ms
  /\ nextOffset (state_of s' t p) = raise (nextOffset (state_of s t p)) ms
  /\ segments (state_of s' t p) = add_seg (segments (state_of s t p)) (eSegment e)
  /\ activeSegmentID (state_of s' t p) = top_seg (activeSegmentID (state_of s t p)) (eSegment e).
Proof.
  intros Hc [Hk Hi Hpath] t p ms. unfold load_entry.
  destruct (ensure_spec s w t p Hc) as (s1 & w1 & st & E1 & Q1 & [L1 L2 [L3 L3'] L4] & Est & _).
  fold t p. rewrite E1. rewrite Est in L2, L3, L3'.
  set (st1 := match last (segments st) with Some seg => _ | None => _ end).
  set (st2 := if activeSegmentID st1 <? eSegment e then _ else _).
  assert (segments st2 = add_seg (segments (state_of s t p)) (eSegment e)
    /\ activeSegmentID st2 = top_seg (activeSegmentID (state_of s t p)) (eSegment e)
    /\ nextOffset st2 = nextOffset (state_of s t p)) as (H1 & H2 & H3).
  { rewrite <- L2, <- L3, <- L3'. unfold st2, st1, add_seg, top_seg.
    destruct (last (segments st)) as [x|]; [destruct (x =? eSegment e)|];
      cbn [set_segments activeSegmentID]; by destruct (_ <? _). }
  destruct (loadSegment_spec t p (eSegment e) (ePath e) (set_state s1 t p st2) w1 (quiet_calm _ _ Q1))
    as (s' & w' & -> & Q & [M1 M2 [M3 M3'] M4]).
  assert (decoded (text_at w1 (ePath e)) = ms) as Ems by (rewrite Hpath; unfold ms; by rewrite <- (quiet_text _ _ _ _ _ Q1)).
  rewrite Ems, ?state_of_set in *.
  exists s', w'. split; [done|]. split; [by eapply quiet_trans|].
  split; [eapply only_trans; [exact L4|]; eapply only_trans; [apply only_set_state|exact M4]|].
  rewrite M1, M2, M3, M3', H1, H2, H3. split; [|done].
  change (log_of (set_state s1 t p st2) t p) with (log_of s1 t p). by rewrite L1, app_nil_r.
Qed.

Lemma ids_of_cons t p e es :
  ids_of t p (e :: es) = if decide ((eTopic e, ePartition e) = (t, p)) then eSegment e :: ids_of t p es else ids_of t p es.
Proof. unfold ids_of. rewrite filter_cons. by case_decide. Qed.

Lemma load_entries_spec es : forall s w, calm w -> Forall entry_ok es ->
  exists s' w', fold_left load_entry es (s, w) = (s', w') /\ quiet w w'
  /\ localReplicaCount s' = localReplicaCount s
  /\ (forall t p, is_Some (lookup2 (states s') t p) -> is_Some (lookup2 (states s) t p) \/ ids_of t p es <> [])
  /\ forall t p,
     log_of s' t p = log_of s t p ++ stored w t p (ids_of t p es)
     /\ nextOffset (state_of s' t p) = raise (nextOffset (state_of s t p)) (stored w t p (ids_of t p es))
     /\ segments (state_of s' t p) = fold_left add_seg (ids_of t p es) (segments (state_of s t p))
     /\ activeSegmentID (state_of s' t p) = fold_left top_seg (ids_of t p es) (activeSegmentID (state_of s t p)).
Proof.
  induction es as [|e es IH]; intros s w Hc Hes.
  { exists s, w. split; [done|]. split; [by apply quiet_refl|]. split; [done|]. split; [by left|].
    intros t p. split; [by rewrite app_nil_r|done]. }
  apply Forall_cons in Hes as [He Hes].
  destruct (load_entry_spec s w e Hc He) as (s1 & w1 & E1 & Q1 & Ho & Hl & Hn & Hsg & Ha).
  destruct (IH s1 w1 (quiet_calm _ _ Q1) Hes) as (s2 & w2 & E2 & Q2 & Hcnt & Hkeys & Hall).
  exists s2, w2. cbn [fold_left]. rewrite E1. split; [done|]. split; [by eapply quiet_trans|].
  split; [rewrite Hcnt; apply (only_count _ _ _ _ Ho)|]. split.
  - intros t p H. rewrite ids_of_cons. case_decide as Hd; [by right|].
    destruct (Hkeys t p H) as [H1|H1]; [|by right]. left. by rewrite (only_state _ _ _ _ Ho) in H1.
  - intros t p. rewrite ids_of_cons. destruct (Hall t p) as (A1 & A2 & A3 & A4).
    rewrite (stored_ext w w1) in A1, A2 by (intros; by apply quiet_text). rewrite A1, A2, A3, A4.
    case_decide as Hd.
    + injection Hd as <- <-. rewrite Hl, Hn, Hsg, Ha.
      change (stored w ?a ?b (?i :: ?l)) with (decoded (seg_text w a b i) ++ stored w a b l).
      split; [by rewrite app_assoc|]. split; [unfold raise; by rewrite fold_left_app|done].
    + by rewrite (only_log _ _ _ _ Ho), (only_state_of _ _ _ _ _ _ Ho).
Qed.

(** The entries of a directory in order. *)
Lemma entries_ok s w names :
  store_ok s w -> (forall n, n ∈ names -> is_Some (files w !! n)) -> Forall entry_ok (entries_of names).
Proof.
  intros Hs Hn. apply Forall_forall. intros e He. unfold entries_of in He.
  apply list_elem_of_omap in He as (n & Hin & He).
  destruct (parseSegmentFileName n) as [[[t p] i]|] eqn:E; [|done]. injection He as <-.
  destruct (so_dir s w Hs n t p i (Hn n Hin) E) as (Hk & Hi & ->). by split.
Qed.

Lemma elem_of_ids t p i es :
  i ∈ ids_of t p es <-> exists e, e ∈ es /\ (eTopic e, ePartition e) = (t, p) /\ eSegment e = i.
Proof.
  unfold ids_of. rewrite list_elem_of_fmap. split.
  - intros (e & -> & [Hk He]%list_elem_of_filter). eauto.
  - intros (e & He & Hk & <-). exists e. split; [done|]. by apply list_elem_of_filter.
Qed.

Lemma elem_of_entries t p i names :
  key_ok t p -> int_range i -> Forall entry_ok (entries_of names) ->
  (i ∈ ids_of t p (entries_of names) <-> segment_name t p i ∈ names).
Proof.
  intros [Ht Hp] Hi Hok. rewrite elem_of_ids. unfold entries_of in *. split.
  - intros (e & He & Hk & <-). rewrite Forall_forall in Hok. destruct (Hok e He) as [_ _ Hpath].
    injection Hk as <- <-. rewrite <- Hpath. apply list_elem_of_omap in He as (n & Hn & He).
    destruct (parseSegmentFileName n) as [[[t p] i]|]; [|done]. by injection He as <-.
  - intros Hn. exists (mkEntry t p i (segment_name t p i)). split; [|done].
    apply list_elem_of_omap. eexists. split; [exact Hn|]. by rewrite parse_segment_name.
Qed.

Lemma NoDup_entries names : NoDup names -> NoDup (entries_of names).
Proof.
  induction 1 as [|n names Hn Hnd IH]; [constructor|]. unfold entries_of in *. cbn [omap list_omap].
  destruct (parseSegmentFileName n) as [[[t p] i]|]; [|done]. constructor; [|done].
  intros (n' & Hn' & He)%list_elem_of_omap. destruct (parseSegmentFileName n') as [[[t' p'] i']|]; [|done].
  injection He as -> -> -> ->. done.
Qed.

Lemma ids_sorted t p es :
  StronglySorted entry_le es -> NoDup es -> Forall entry_ok es -> StronglySorted Z.lt (ids_of t p es).
Proof.
  intros Hs. induction Hs as [|e es Hs IH He]; intros Hnd Hok; [constructor|].
  apply NoDup_cons in Hnd as [Hne Hnd]. apply Forall_cons in Hok as [Hoe Hok]. rewrite ids_of_cons.
  case_decide as Hd; [|auto]. constructor; [auto|]. apply Forall_forall.
  intros i (e' & He' & Hd' & <-)%elem_of_ids. rewrite Forall_forall in He, Hok.
  specialize (He e' He'). destruct Hoe as [_ _ P], (Hok e' He') as [_ _ P'].
  injection Hd as <- <-. injection Hd' as Ht' Hp'. unfold entry_le in He.
  rewrite Ht', Hp', String.eqb_refl, Z.eqb_refl in He. simpl in He.
  destruct (decide (eSegment e = eSegment e')) as [E|]; [|lia]. exfalso. apply Hne.
  replace e with e'; [done|]. destruct e, e'; simpl in *. by subst.
Qed.

(** The list of segments after loading: the segments found, and segment 0. *)
Lemma fold_add_seg l x ids :
  StronglySorted Z.lt (x :: ids) -> fold_left add_seg ids (l ++ [x]) = l ++ x :: ids.
Proof.
  revert l x. induction ids as [|i ids IH]; intros l x Hs; [done|]. cbn [fold_left].
  apply StronglySorted_inv in Hs as [Hs Hx]. apply Forall_cons in Hx as [Hx _].
  unfold add_seg. rewrite last_snoc, (proj2 (Z.eqb_neq x i)) by lia.
  rewrite IH by done. by rewrite <- app_assoc.
Qed.

Lemma fold_top_seg x ids : StronglySorted Z.lt (x :: ids) -> last (x :: ids) = Some (fold_left top_seg ids x).
Proof.
  revert x. induction ids as [|i ids IH]; intros x Hs; [done|]. cbn [fold_left].
  apply StronglySorted_inv in Hs as [Hs Hx]. apply Forall_cons in Hx as [Hx _].
  unfold top_seg at 2. rewrite (proj2 (Z.ltb_lt x i)) by lia. rewrite last_cons_cons. by apply IH.
Qed.

Lemma loaded_segments ids :
  StronglySorted Z.lt ids -> Forall int_range ids -> exists segs,
  fold_left add_seg ids [0] = segs /\ last segs = Some (fold_left top_seg ids 0)
  /\ StronglySorted Z.lt segs /\ Forall int_range segs
  /\ (segs = ids \/ (segs = 0 :: ids /\ 0 ∉ ids)).
Proof.
  intros Hs Hr. destruct ids as [|i ids].
  { exists [0]. split; [done|]. split; [done|]. split; [by repeat constructor|].
    split; [repeat constructor; unfold int_range; ints|]. right. split; [done|apply not_elem_of_nil]. }
  apply Forall_cons in Hr as [Hi Hr]. destruct (decide (i = 0)) as [->|Hne].
  - exists (0 :: ids). cbn [fold_left]. change (add_seg [0] 0) with ([] ++ [0]). rewrite fold_add_seg by done.
    split; [done|]. change (top_seg 0 0) with 0. split; [by apply fold_top_seg|]. split; [done|]. split; [by constructor|by left].
  - assert (StronglySorted Z.lt (0 :: i :: ids)) as Hs0.
    { constructor; [done|]. apply Forall_forall. intros x Hx. unfold int_range in Hi.
      apply StronglySorted_inv in Hs as [_ Hx0]. rewrite Forall_forall in Hx0.
      apply elem_of_cons in Hx as [->|Hx]; [lia|]. specialize (Hx0 x Hx). lia. }
    exists (0 :: i :: ids). change [0] with ([] ++ [0]) at 1. rewrite fold_add_seg by done. split; [done|].
    split; [by apply fold_top_seg|]. split; [done|]. split; [constructor; [unfold int_range; ints|by constructor]|].
    right. split; [done|]. apply StronglySorted_inv in Hs0 as [_ H0]. rewrite Forall_forall in H0.
    intros Hx%H0. lia.
Qed.

(** Segments that hold nothing do not matter. *)
Lemma stored_sub w t p l ids :
  StronglySorted Z.lt l -> StronglySorted Z.lt ids -> (forall i, i ∈ ids -> i ∈ l) ->
  (forall i, i ∈ l -> i ∉ ids -> decoded (seg_text w t p i) = []) -> stored w t p l = stored w t p ids.
Proof.
  intros Hl. revert ids. induction Hl as [|x l Hl IH Hx]; intros ids Hids Hsub Hempty.
  { destruct ids as [|i ids]; [done|]. specialize (Hsub i ltac:(by left)). by apply not_elem_of_nil in Hsub. }
  rewrite Forall_forall in Hx.
  change (stored w t p (x :: l)) with (decoded (seg_text w t p x) ++ stored w t p l).
  destruct (decide (x ∈ ids)) as [Hin|Hin].
  - destruct ids as [|i ids]; [by apply not_elem_of_nil in Hin|].
    apply StronglySorted_inv in Hids as [Hids Hi]. rewrite Forall_forall in Hi.
    assert (i = x) as ->.
    { pose proof (Hsub i ltac:(by left)) as H1. apply elem_of_cons in H1 as [->|H1]; [done|].
      apply elem_of_cons in Hin as [->|Hin]; [done|]. specialize (Hx i H1). specialize (Hi x Hin). lia. }
    change (stored w t p (x :: ids)) with (decoded (seg_text w t p x) ++ stored w t p ids). f_equal.
    apply IH; [done| |].
    + intros i Hii. pose proof (Hsub i ltac:(by right)) as H1. apply elem_of_cons in H1 as [->|]; [|done].
      specialize (Hi x Hii). lia.
    + intros i Hil Hni. apply Hempty; [by right|]. rewrite elem_of_cons. intros [->|]; [|done].
      specialize (Hx x Hil). lia.
  - rewrite (Hempty x) by (done || by left). apply IH; [done| |].
    + intros i Hii. pose proof (Hsub i Hii) as H1. apply elem_of_cons in H1 as [->|]; done.
    + intros i Hil. apply Hempty. by right.
Qed.

(** A partition read back from its files. *)
Lemma reload_part w w' t p log st st' ids :
  part_ok w t p log st -> quiet w w' ->
  StronglySorted Z.lt ids -> Forall int_range ids ->
  (forall i, int_range i -> i ∈ ids <-> is_Some (files w !! segment_name t p i)) ->
  segments st' = fold_left add_seg ids [0] -> activeSegmentID st' = fold_left top_seg ids 0 ->
  nextOffset st' = raise 0 (stored w t p ids) ->
  stored w t p ids = log /\ nextOffset st' = nextOffset st /\ part_ok w' t p log st'.
Proof.
  intros [] Q Hs Hr Hfiles Hsegs Hact Hnext. rewrite Forall_forall in po_range0.
  destruct (loaded_segments ids Hs Hr) as (segs & Esegs & Hlast & Hsorted & Hrange & Hcase).
  rewrite Esegs in Hsegs. rewrite Forall_forall in Hr.
  assert (forall i, int_range i -> i ∉ ids -> decoded (seg_text w t p i) = []) as Hempty.
  { intros i Hi Hni. unfold seg_text, text_at. destruct (files w !! segment_name t p i) eqn:E; [|done].
    destruct Hni. apply Hfiles; [done|by rewrite E]. }
  assert (forall i, i ∈ ids -> i ∈ segments st) as Hsub.
  { intros i Hi. apply po_files0; [auto|]. apply Hfiles; auto. }
  assert (stored w t p ids = log) as Elog.
  { rewrite po_log0. symmetry. apply stored_sub; auto. }
  assert (stored w t p segs = log) as Elog'.
  { rewrite <- Elog. destruct Hcase as [->|[-> H0]]; [done|].
    change (stored w t p (0 :: ids)) with (decoded (seg_text w t p 0) ++ stored w t p ids).
    by rewrite Hempty by (done || unfold int_range; ints). }
  destruct po_numbered0 as (b & Hb & Hnum).
  assert (nextOffset st' = nextOffset st) as En.
  { rewrite Hnext, Elog, (raise_next b) by (done || lia). done. }
  set (a := activeSegmentID st) in *.
  assert (int_range a) as Ha by (by apply po_range0, last_Some_elem_of).
  assert (forall i, i ∈ segs -> i <= a) as Hmax.
  { intros i Hi. destruct Hcase as [->|[-> _]].
    - apply (sorted_le_last (segments st)); auto.
    - apply elem_of_cons in Hi as [->|Hi]; [unfold int_range in Ha; lia|]. apply (sorted_le_last (segments st)); auto. }
  split; [done|]. split; [done|].
  eapply part_ok_frame; [|done|done|intros i _; apply Q, segment_is_log].
  split; rewrite ?Hsegs, ?En; try done.
  - by rewrite Hact.
  - intros i Hi Hx. apply Hfiles in Hx; [|done]. destruct Hcase as [->|[-> _]]; [done|by right].
  - eauto.
  - rewrite Hact. split; [|lia]. transitivity a; [|lia]. by apply Hmax, last_Some_elem_of.
  - intros Hne. rewrite Hact. pose proof (po_newest0 Hne) as Hnew.
    destruct (decide (a ∈ ids)) as [Hin|Hin]; [|by rewrite Hempty in Hnew].
    replace (fold_left top_seg ids 0) with a; [done|]. apply Z.le_antisymm.
    + apply (sorted_le_last segs a); [done|done|]. destruct Hcase as [->|[-> _]]; [done|by right].
    + by apply Hmax, last_Some_elem_of.
Qed.

(** What a directory lists, in loading order. *)
Record listed (w : World) (es : list segmentEntry) : Prop := {
  ls_ok : Forall entry_ok es;
  ls_sorted : forall t p, StronglySorted Z.lt (ids_of t p es);
  ls_files : forall t p i, key_ok t p -> int_range i ->
    (i ∈ ids_of t p es <-> is_Some (files w !! segment_name t p i));
  ls_range : forall t p, Forall int_range (ids_of t p es)
}.

Lemma directory_listed s w : store_ok s w ->
  listed w (merge_sort entry_le (entries_of (sort_strings (elements (dom (files w)))))).
Proof.
  intros Hs. set (names := sort_strings (elements (dom (files w)))).
  assert (forall n, n ∈ names <-> is_Some (files w !! n)) as Hnames.
  { intros n. unfold names. rewrite sort_strings_perm, elem_of_elements. apply elem_of_dom. }
  assert (Forall entry_ok (entries_of names)) as Hok by (eapply entries_ok; [exact Hs|]; intros n; apply Hnames).
  set (es := merge_sort entry_le (entries_of names)).
  assert (es ≡ₚ entries_of names) as HP by apply merge_sort_Permutation.
  assert (Forall entry_ok es) as Hes by (by rewrite HP). split; [done| | |].
  - intros t p. apply ids_sorted; [apply StronglySorted_merge_sort; apply _| |done].
    rewrite HP. apply NoDup_entries. unfold names. rewrite sort_strings_perm. apply NoDup_elements.
  - intros t p i Hk Hi. rewrite <- Hnames, <- (elem_of_entries t p i names) by done.
    rewrite !elem_of_ids. by setoid_rewrite HP.
  - intros t p. apply Forall_forall. intros i (e & He & _ & <-)%elem_of_ids.
    rewrite Forall_forall in Hes. by apply Hes.
Qed.

Lemma empty_state cfg t p :
  log_of (empty_storage cfg) t p = [] /\ state_of (empty_storage cfg) t p = mkState 0 0 [0] 0 0.
Proof. unfold log_of, state_of. cbn [empty_storage data states]. by rewrite !lookup2_empty. Qed.

(** What start-up finds: the logs, and the next offsets. *)
Definition same_logs (s s' : Storage) : Prop :=
  forall t p, real t = true -> int_range p ->
    log_of s' t p = log_of s t p /\ nextOffset (state_of s' t p) = nextOffset (state_of s t p).

Lemma load_ok s w cfg : store_ok s w -> exists s1 w1,
  loadData (empty_storage cfg) w = (s1, w1) /\ store_ok s1 w1 /\ same_logs s s1.
Proof.
  intros Hs. unfold loadData.
  destruct (MkdirAll_quiet w (so_calm _ _ Hs)) as (w1 & -> & Q1).
  destruct (ReadDir_quiet w1 (quiet_calm _ _ Q1)) as (w2 & Q2 & ->).
  pose proof (store_ok_quiet _ _ _ Hs Q1) as Hs1.
  destruct (directory_listed s w1 Hs1) as [Hes Hsorted Hids Hrange].
  set (es := merge_sort entry_le _) in *.
  destruct (load_entries_spec es (empty_storage cfg) w2 (quiet_calm _ _ Q2) Hes)
    as (s3 & w3 & -> & Q3 & Hcnt & Hkeys & Hall).
  pose proof (empty_state cfg) as H0.
  assert (forall t p, real t = true -> int_range p ->
    stored w1 t p (ids_of t p es) = log_of s t p
    /\ nextOffset (state_of s3 t p) = nextOffset (state_of s t p)
    /\ part_ok w3 t p (log_of s t p) (state_of s3 t p)) as Hparts.
  { intros t p Ht Hp. pose proof (real_key t p Ht Hp) as Hk. destruct (Hall t p) as (_ & A2 & A3 & A4).
    destruct (H0 t p) as [_ Est]. rewrite Est in A2, A3, A4. cbn [segments activeSegmentID nextOffset] in A2, A3, A4.
    rewrite (stored_ext w1 w2) in A2 by (intros; by apply quiet_text).
    apply (reload_part w1 w3 t p _ (state_of s t p) (state_of s3 t p) (ids_of t p es)); auto.
    { by apply (so_parts s w1 Hs1). }
    by eapply quiet_trans. }
  exists s3, w3. split; [done|]. assert (same_logs s s3) as Hsame.
  { intros t p Ht Hp. destruct (Hparts t p Ht Hp) as (E & En & _). destruct (Hall t p) as (A1 & _).
    rewrite (stored_ext w1 w2) in A1 by (intros; by apply quiet_text).
    split; [|done]. by rewrite A1, (proj1 (H0 t p)), E. }
  split; [|done]. assert (quiet w w3) as Q by (eapply quiet_trans; [exact Q1|]; by eapply quiet_trans).
  split; [apply Q| | | |].
  - intros n t p i. apply (so_dir_sub s w w3 n t p i Hs). intros Hl. by rewrite (quiet_files _ _ Q).
  - intros t p Hst. apply Hkeys in Hst as [Hst|Hst].
    { cbn [empty_storage states] in Hst. rewrite lookup2_empty in Hst. by destruct Hst. }
    destruct (ids_of t p es) as [|i l] eqn:Ei; [done|].
    assert (i ∈ ids_of t p es) as (e & He & Hk & _)%elem_of_ids by (rewrite Ei; by left).
    rewrite Forall_forall in Hes. destruct (Hes e He) as [Hke _ _]. injection Hk as Et Ep. rewrite Et, Ep in Hke. split; [done|].
    destruct (Hall t p) as (_ & _ & A3 & _). rewrite A3, (proj2 (H0 t p)). cbn [segments].
    destruct (loaded_segments (ids_of t p es)) as (segs & -> & _ & _ & Hr & _); done.
  - rewrite Hcnt. cbn [empty_storage localReplicaCount]. ints.
  - intros t p Ht Hp. rewrite (proj1 (Hsame t p Ht Hp)). by apply Hparts.
Qed.

Section Runs.
Context `{MO : MapOrder}.

Lemma new_storage_ok s w cfg : store_ok s w -> exists s2 w2,
  NewStorage cfg w = (s2, w2) /\ store_ok s2 w2 /\ all_trimmed s s2.
Proof.
  intros Hs. unfold NewStorage. destruct (load_ok s w cfg Hs) as (s1 & w1 & -> & Hs1 & Hsame).
  destruct (retention_ok s1 w1 Hs1) as (s2 & w2 & -> & Hs2 & Htr).
  exists s2, w2. split; [done|]. split; [done|]. intros t p Ht Hp.
  destruct (Hsame t p Ht Hp) as [E1 E2], (Htr t p Ht Hp) as [T1 T2 T3].
  split; by rewrite <- ?E1, <- ?E2.
Qed.

(** ** Runs of the store *)
Inductive op : Type :=
| OpProduce (t : string) (p : Z) (v : string)
| OpReplicate (t : string) (p off : Z) (v : string)
| OpRestart (cfg : Config).

Definition op_ok (o : op) : Prop :=
  match o with
  | OpProduce t p v | OpReplicate t p _ v => real t = true /\ int_range p /\ value_ok v = true
  | OpRestart _ => True
  end.

Definition step (sw : Storage * World) (o : op) : Storage * World :=
  let '(s, w) := sw in
  match o with
  | OpProduce t p v => (ProduceToPartition s w t p v).1
  | OpReplicate t p off v => (AppendReplicated s w t p off v).1
  | OpRestart cfg => NewStorage cfg w
  end.

Definition run (cfg : Config) (w : World) (ops : list op) : Storage * World :=
  fold_left step ops (empty_storage cfg, w).

Definition next_le (s : Storage) (n : Z) : Prop :=
  forall t p, real t = true -> int_range p -> nextOffset (state_of s t p) <= n.

Lemma trimmed_next s s' n : all_trimmed s s' -> next_le s n -> next_le s' (n + 1).
Proof.
  intros Htr Hn t p Ht Hp. specialize (Hn t p Ht Hp). rewrite (tr_next _ _ _ _ (Htr t p Ht Hp)). lia.
Qed.

Lemma appended_next s s' t p m n :
  appended s s' t p m -> next_le s n -> next_le s' (n + 1).
Proof.
  intros [_ _ An Ao] Hn t' p' Ht' Hp'. specialize (Hn t' p' Ht' Hp').
  destruct (decide ((t, p) = (t', p'))) as [[= <- <-]|Hne]; [lia|].
  rewrite (tr_next _ _ _ _ (Ao t' p' Ht' Hp' Hne)). lia.
Qed.

Lemma op_step_ok s w o n :
  store_ok s w -> op_ok o -> next_le s n -> n < int_max ->
  store_ok (step (s, w) o).1 (step (s, w) o).2 /\ next_le (step (s, w) o).1 (n + 1).
Proof.
  intros Hs Ho Hn Hmax. destruct o as [t p v|t p off v|cfg]; cbn [step op_ok] in *.
  - destruct Ho as (Ht & Hp & Hv). pose proof (Hn t p Ht Hp).
    destruct (produce_ok s w t p v Hs Ht Hp Hv ltac:(lia)) as (s' & w' & -> & Hs' & Ha).
    split; [done|]. by eapply appended_next.
  - destruct Ho as (Ht & Hp & Hv). pose proof (Hn t p Ht Hp).
    destruct (append_replicated_ok s w t p off v Hs Ht Hp Hv ltac:(lia)) as (s' & w' & r & -> & Hs' & H1 & H2 & H3).
    split; [done|]. destruct (Z.lt_trichotomy off (nextOffset (state_of s t p))) as [Hlt|[Heq|Hgt]].
    + by eapply trimmed_next; [eapply unchanged_trimmed, H1|].
    + by eapply appended_next; [apply H3|].
    + by eapply trimmed_next; [eapply unchanged_trimmed, H2|].
  - destruct (new_storage_ok s w cfg Hs) as (s' & w' & -> & Hs' & Htr). split; [done|]. by eapply trimmed_next.
Qed.

Lemma empty_ok cfg w : calm w -> files w = ∅ -> store_ok (empty_storage cfg) w /\ next_le (empty_storage cfg) 0.
Proof.
  intros Hc Hf.
  pose proof (empty_state cfg) as H0.
  split; [|intros t p _ _; by rewrite (proj2 (H0 t p))].
  assert (forall t p i, seg_text w t p i = EmptyString) as Hempty
    by (intros; unfold seg_text, text_at; by rewrite Hf, lookup_empty).
  split; [done| | | |].
  - intros n t p i Hn. rewrite Hf, lookup_empty in Hn. by destruct Hn.
  - intros t p Hst. cbn [empty_storage states] in Hst. rewrite lookup2_empty in Hst. by destruct Hst.
  - cbn [empty_storage localReplicaCount]. ints.
  - intros t p _ _. destruct (H0 t p) as [-> ->].
    split; cbn [segments activeSegmentID nextOffset]; try done.
    + by rewrite stored_one, Hempty.
    + intros i _. rewrite Hempty. apply whole_empty.
    + by repeat constructor.
    + repeat constructor; unfold int_range; ints.
    + intros i _ Hx. rewrite Hf, lookup_empty in Hx. by destruct Hx.
    + exists 0. split; [done|]. by intros i m.
Qed.

Lemma run_store_ok cfg w ops :
  calm w -> files w = ∅ -> Forall op_ok ops -> Z.of_nat (length ops) < int_max ->
  store_ok (run cfg w ops).1 (run cfg w ops).2 /\ next_le (run cfg w ops).1 (Z.of_nat (length ops)).
Proof.
  intros Hc Hf. induction ops as [|o ops IH] using rev_ind; intros Hops Hlen.
  { by apply empty_ok. }
  apply Forall_app in Hops as [Hops Ho]. apply Forall_cons in Ho as [Ho _]. rewrite length_app in *. simpl length in *.
  destruct (IH Hops ltac:(lia)) as [Hs Hn]. unfold run in *. rewrite fold_left_app. cbn [fold_left].
  destruct (fold_left step ops _) as [s w1]. cbn [fst snd] in *.
  destruct (op_step_ok s w1 o _ Hs Ho Hn ltac:(lia)) as [Hs' Hn']. split; [done|].
  replace (Z.of_nat (length ops + 1)) with (Z.of_nat (length ops) + 1) by lia. done.
Qed.
End Runs.

End Durability.
