(* ===== verification/StorageContract.v ===== *)
(** * What the store promises

    The contract of storage.go on a disk that does not fail, for the states a
    store reaches from an empty data directory by appends and restarts: produce
    appends one record at the next offset, the replicated append accepts exactly
    the next offset, a restart finds the logs as they were, and size retention
    brings a partition under its limit by dropping as few segments as possible. *)
From S2P Require Import Prelude GoStrings Config StorageCodec FileSystem Storage StorageLog.
From S2P Require Import StorageRecovery StorageDurability.

Module StorageContract.
Import FS Storage StorageLog Recovery Durability.

(** ** Disk use *)
Definition file_size (w : World) (name : string) : Z := Z.of_nat (String.length (text_at w name)).
Definition disk_use (w : World) (t : string) (p : Z) (segs : list Z) : Z :=
  foldr (fun i acc => file_size w (segment_name t p i) + acc) 0 segs.

Lemma disk_use_nonneg w t p segs : 0 <= disk_use w t p segs.
Proof. induction segs; simpl; unfold file_size; lia. Qed.

Lemma disk_use_cons w t p i segs :
  disk_use w t p (i :: segs) = file_size w (segment_name t p i) + disk_use w t p segs.
Proof. done. Qed.

Lemma disk_use_ext w w' t p segs :
  (forall i, i ∈ segs -> files w' !! segment_name t p i = files w !! segment_name t p i) ->
  disk_use w' t p segs = disk_use w t p segs.
Proof.
  induction segs as [|i segs IH]; intros H; [done|]. simpl. rewrite IH by (intros; apply H; by right).
  unfold file_size, text_at. by rewrite H by (by left).
Qed.

Lemma disk_use_quiet w w' t p segs : quiet w w' -> disk_use w' t p segs = disk_use w t p segs.
Proof. intros Q. apply disk_use_ext. intros i _. apply Q, segment_is_log. Qed.

(** The first loop of [applySizeRetention] computes it. *)
Lemma total_disk_use t p segs : forall w total, calm w -> 0 <= total ->
  total + disk_use w t p segs <= int_max -> exists w',
  fold_left (fun '(w, total) i =>
      match Stat w (segment_name t p i) with
      | (w, Some (size, _)) => (w, int_add total size)
      | (w, None) => (w, total)
      end) segs (w, total) = (w', total + disk_use w t p segs) /\ quiet w w'.
Proof.
  induction segs as [|i segs IH]; intros w total Hc Ht Hmax; cbn [fold_left].
  { exists w. split; [simpl; f_equal; lia|by apply quiet_refl]. }
  destruct (Stat_quiet w (segment_name t p i) Hc) as (w1 & Q & ->). simpl in Hmax.
  pose proof (disk_use_nonneg w t p segs) as Hpos. simpl disk_use. unfold file_size, text_at in *.
  destruct (files w !! segment_name t p i) as [f|]; cbn [fmap option_fmap option_map].
  - rewrite int_add_id by ints.
    destruct (IH w1 (total + Z.of_nat (String.length (content f)))) as (w2 & -> & Q2);
      [apply Q|lia|rewrite (disk_use_quiet w w1) by done; lia|].
    exists w2. split; [|by eapply quiet_trans]. rewrite (disk_use_quiet w w1) by done. f_equal; lia.
  - simpl in *. destruct (IH w1 total) as (w2 & -> & Q2);
      [apply Q|lia|rewrite (disk_use_quiet w w1) by done; lia|].
    exists w2. split; [|by eapply quiet_trans]. rewrite (disk_use_quiet w w1) by done. f_equal; lia.
Qed.

(** The segments left after dropping as few as the limit asks for. *)
Record shrunk (w : World) (t : string) (p limit : Z) (before after : list Z) : Prop := {
  sh_under : disk_use w t p after <= limit \/ length after = 1%nat;
  sh_dropped : exists dropped, before = dropped ++ after
    /\ forall l x, dropped = l ++ [x] -> limit < disk_use w t p (x :: after)
}.

Lemma size_loop_shrinks t p fuel : forall s w total, store_ok s w -> real t = true -> int_range p ->
  total = disk_use w t p (segments (state_of s t p)) -> total <= int_max ->
  (length (segments (state_of s t p)) <= fuel)%nat ->
  exists s' w', size_loop fuel s w t p total = (s', w') /\ store_ok s' w'
  /\ shrunk w t p (retentionMaxBytes s) (segments (state_of s t p)) (segments (state_of s' t p))
  /\ disk_use w' t p (segments (state_of s' t p)) = disk_use w t p (segments (state_of s' t p)).
Proof.
  induction fuel as [|fuel IH]; intros s w total Hs Ht Hp -> Hmax Hfuel; cbn [size_loop].
  { pose proof (po_active _ _ _ _ _ (so_parts s w Hs t p Ht Hp)) as Ha.
    destruct (segments (state_of s t p)); [done|simpl in Hfuel; lia]. }
  pose proof (so_parts s w Hs t p Ht Hp) as Hpo. pose proof (po_active _ _ _ _ _ Hpo) as Ha.
  pose proof (po_sorted _ _ _ _ _ Hpo) as Hso. pose proof (po_range _ _ _ _ _ Hpo) as Hr.
  destruct (segments (state_of s t p)) as [|seg [|x rest]] eqn:Hsegs; [done| |].
  { exists s, w. rewrite Hsegs. split; [done|]. split; [done|]. split; [|done]. split; [by right|].
    exists []. split; [done|]. by intros [|? ?] ?. }
  destruct (Z.ltb_spec (retentionMaxBytes s) (disk_use w t p (seg :: x :: rest))) as [Hover|Hunder].
  2: { exists s, w. rewrite Hsegs. split; [done|]. split; [done|]. split; [|done]. split; [by left|].
       exists []. split; [done|]. by intros [|? ?] ?. }
  pose proof (real_key t p Ht Hp) as Hk.
  destruct (Stat_quiet w (segment_name t p seg) (so_calm _ _ Hs)) as (w1 & Q & ->).
  destruct (delete_swept s w1 t p seg (x :: rest) (store_ok_quiet s w w1 Hs Q) Hk Hsegs ltac:(done))
    as (s2 & w2 & -> & [Hs2 Ho2 _] & Hsegs2 & Hf2).
  apply StronglySorted_inv in Hso as [_ Hlt]. apply Forall_cons in Hr as [Hseg Hr]. rewrite Forall_forall in Hlt, Hr.
  assert (forall l, (forall i, i ∈ l -> i ∈ x :: rest) -> disk_use w2 t p l = disk_use w t p l) as Huse.
  { intros l Hl. rewrite <- (disk_use_quiet w w1) by done. apply disk_use_ext. intros i Hi%Hl.
    rewrite Hf2 by apply segment_is_log. rewrite decide_False; [done|].
    specialize (Hlt i Hi). intros [_ E]%segment_name_inj; [lia|done|done|by apply Hr|done]. }
  set (total' := match _ with Some _ => _ | None => _ end).
  assert (total' = disk_use w2 t p (x :: rest)) as ->.
  { rewrite Huse by done. unfold total'. pose proof (disk_use_nonneg w t p (x :: rest)) as H0.
    rewrite disk_use_cons in Hmax |- *. set (D := disk_use w t p (x :: rest)) in *. clearbody D.
    clear Huse total' Hover Hfuel. unfold file_size, text_at in *.
    destruct (files w !! segment_name t p seg) as [f|]; cbn [fmap option_fmap option_map String.length] in *; [|lia].
    rewrite int_sub_id; ints. }
  destruct (IH s2 w2 (disk_use w2 t p (x :: rest))) as (s3 & w3 & -> & Hs3 & [U (dr & Edr & Hdr)] & E3);
    rewrite ?Hsegs2; try done.
  { rewrite Huse by done. rewrite disk_use_cons in Hmax. unfold file_size in Hmax. lia. }
  { simpl in *. lia. }
  rewrite Hsegs2 in Edr. rewrite (only_limit _ _ _ _ Ho2) in U, Hdr.
  assert (forall i, i ∈ segments (state_of s3 t p) -> i ∈ x :: rest) as Hsub
    by (intros i Hi; rewrite Edr; apply elem_of_app; by right).
  exists s3, w3. split; [done|]. split; [done|]. split; [|by rewrite E3, Huse]. split.
  - by rewrite <- Huse.
  - exists (seg :: dr). split; [simpl; by rewrite Edr|]. intros l y E. destruct l as [|z l].
    + injection E as -> ->. simpl in Edr. by rewrite <- Edr.
    + injection E as -> E. specialize (Hdr l y E). rewrite Huse in Hdr; [done|].
      intros i Hi. rewrite Edr, E. rewrite elem_of_cons in Hi. rewrite !elem_of_app, list_elem_of_singleton.
      destruct Hi; auto.
Qed.

Section Contract.
Context `{MO : MapOrder}.

(** The states of a store that started on an empty directory and whose disk does
    not fail. *)
Definition reachable (s : Storage) (w : World) : Prop :=
  exists cfg w0 ops, calm w0 /\ files w0 = ∅ /\ Forall op_ok ops
    /\ Z.of_nat (length ops) < int_max /\ run cfg w0 ops = (s, w).

Lemma reachable_ok s w : reachable s w ->
  store_ok s w /\ forall t p, real t = true -> int_range p -> nextOffset (state_of s t p) < int_max.
Proof.
  intros (cfg & w0 & ops & Hc & Hf & Hops & Hlen & E).
  destruct (run_store_ok cfg w0 ops Hc Hf Hops Hlen) as [Hs Hn]. rewrite E in Hs, Hn. split; [done|].
  intros t p Ht Hp. specialize (Hn t p Ht Hp). cbn [fst] in Hn. lia.
Qed.

(** C5: the log survives a restart. Whatever sequence of produces, replicated
    appends and restarts led to the current store, starting again on its directory
    rebuilds in memory, for every partition, exactly the log and the next offset
    that were there; the retention pass at the end of start-up only drops a prefix,
    never all of a non-empty log, and leaves the next offset alone, so no offset is
    given out twice. *)
Theorem restart_recovers_logs s w cfg t p :
  reachable s w -> real t = true -> int_range p ->
  exists s1 w1 s2 w2,
  loadData (empty_storage cfg) w = (s1, w1)
  /\ log_of s1 t p = log_of s t p
  /\ nextOffset (state_of s1 t p) = nextOffset (state_of s t p)
  /\ NewStorage cfg w = (s2, w2)
  /\ log_of s2 t p `suffix_of` log_of s t p
  /\ (log_of s t p <> [] -> log_of s2 t p <> [])
  /\ nextOffset (state_of s2 t p) = nextOffset (state_of s t p).
Proof.
  intros [Hs _]%reachable_ok Ht Hp.
  destruct (load_ok s w cfg Hs) as (s1 & w1 & E1 & _ & Hsame).
  destruct (new_storage_ok s w cfg Hs) as (s2 & w2 & E2 & _ & Htr).
  destruct (Hsame t p Ht Hp) as [A1 A2], (Htr t p Ht Hp) as [B1 B2 B3].
  by exists s1, w1, s2, w2.
Qed.

(** C16: produce appends. In every reachable store [ProduceToPartition] reports the
    next offset of the partition, and afterwards the log ends with the new record
    at that offset; before it come the records that were there, in order, up to a
    prefix retention dropped; offsets have no gaps; and every other partition has
    lost at most a prefix. *)
Theorem produce_appends s w t p v :
  reachable s w -> real t = true -> int_range p -> value_ok v = true ->
  let off := nextOffset (state_of s t p) in
  exists s' w', ProduceToPartition s w t p v = (s', w', (p, off))
  /\ log_of s' t p `suffix_of` log_of s t p ++ [mkMessage off v]
  /\ last (log_of s' t p) = Some (mkMessage off v)
  /\ (exists b, 0 <= b /\ numbered b (log_of s' t p))
  /\ LastOffset s' t p = off
  /\ forall t' p', real t' = true -> int_range p' -> (t, p) <> (t', p') -> trimmed s s' t' p'.
Proof.
  intros [Hs Hn]%reachable_ok Ht Hp Hv off.
  destruct (produce_ok s w t p v Hs Ht Hp Hv (Hn t p Ht Hp)) as (s' & w' & E & Hs' & [A1 A2 _ A4]).
  exists s', w'. split; [done|]. split; [done|]. split; [done|].
  split; [apply (po_numbered _ _ _ _ _ (so_parts s' w' Hs' t p Ht Hp))|]. split; [|done].
  unfold LastOffset. unfold log_of, lookup2 in A2. destruct (data s' !! t) as [parts|]; [|done].
  destruct (parts !! p) as [l|]; [|done]. change (default [] (Some l)) with l in A2. by rewrite A2.
Qed.

(** C17: the replicated append. In every reachable store it accepts exactly the
    next offset, which extends the log by the record (retention may then drop a
    prefix). An earlier offset is acknowledged and a later one refused, both
    without effect: no log, no next offset, no segment list and no file of any
    partition changes. *)
Theorem AppendReplicated_spec s w t p off v :
  reachable s w -> real t = true -> int_range p -> value_ok v = true ->
  exists s' w' r, AppendReplicated s w t p off v = (s', w', r)
  /\ (off < nextOffset (state_of s t p) -> r = Success () /\ unchanged s w s' w')
  /\ (nextOffset (state_of s t p) < off -> is_success r = false /\ unchanged s w s' w')
  /\ (off = nextOffset (state_of s t p) -> r = Success () /\ appended s s' t p (mkMessage off v)).
Proof.
  intros [Hs Hn]%reachable_ok Ht Hp Hv.
  destruct (append_replicated_ok s w t p off v Hs Ht Hp Hv (Hn t p Ht Hp)) as (s' & w' & r & E & _ & H).
  by exists s', w', r.
Qed.

(** C18: size retention bounds the disk. In every store that satisfies the
    invariant (every reachable one, and the ones between an append or a load and
    the retention pass that follows it), after [applySizeRetention] the segment
    files of the partition take at most [retentionMaxBytes], unless only the active
    segment is left; it drops the oldest segments, and no more of them than the
    limit asks for. *)
Theorem size_retention_bounds s w t p :
  store_ok s w -> real t = true -> int_range p ->
  0 < retentionMaxBytes s -> disk_use w t p (segments (state_of s t p)) <= int_max ->
  exists s' w', applySizeRetention s w t p = (s', w')
  /\ shrunk w t p (retentionMaxBytes s) (segments (state_of s t p)) (segments (state_of s' t p))
  /\ disk_use w' t p (segments (state_of s' t p)) = disk_use w t p (segments (state_of s' t p)).
Proof.
  intros Hs Ht Hp Hlim Hmax. unfold applySizeRetention.
  destruct (Z.leb_spec (retentionMaxBytes s) 0); [lia|].
  destruct (total_disk_use t p (segments (state_of s t p)) w 0 (so_calm _ _ Hs)) as (w1 & -> & Q); [lia..|].
  destruct (size_loop_shrinks t p (length (segments (state_of s t p))) s w1
    (0 + disk_use w t p (segments (state_of s t p)))) as (s' & w' & -> & _ & [U D] & E); try done.
  { by eapply store_ok_quiet. }
  { by rewrite (disk_use_quiet w w1). }
  exists s', w'. split; [done|]. rewrite E, !(disk_use_quiet w w1) by done. split; [|done].
  split; [by rewrite <- (disk_use_quiet w w1)|]. destruct D as (dr & Ed & Hd). exists dr. split; [done|].
  intros l x El. rewrite <- (disk_use_quiet w w1) by done. by eapply Hd.
Qed.

(** ** Records too long to be read back *)

(** A line the scanner gives up on. *)
Definition oversized (line : string) : Prop := (MaxScanTokenSize <= String.length line)%nat.

Lemma scan_stops before big after :
  Forall (fun l => clean_line l = true) before -> no_char (chr 10) big = true ->
  Forall (fun l => no_char (chr 10) l = true) after -> oversized big ->
  scan_lines (concat_lines (before ++ big :: after)) = before.
Proof.
  intros Hb Hbig Ha Hlen. unfold scan_lines. rewrite raw_lines_concat.
  - induction Hb as [|x ls Hx Hls IH]; cbn [app take_until_long].
    + unfold oversized in Hlen. destruct (Nat.ltb_spec (String.length big) MaxScanTokenSize); [lia|done].
    + apply andb_true_iff in Hx as [[_ Hcr]%andb_true_iff Hl]. rewrite Hl, IH. unfold drop_cr. by rewrite CutLast_char_none.
  - apply Forall_app. split; [|by constructor]. eapply Forall_impl; [exact Hb|]. intros x Hx. simpl in Hx.
    by apply andb_true_iff in Hx as [[? _]%andb_true_iff _].
Qed.

(** C33: an oversized record hides what follows. Start-up reads a segment with a
    scanner whose lines are limited to 64 KiB, and a log line is longer than the
    request that produced it: a record whose line reaches the limit, and every later
    record of its segment, is not loaded, although all of them are on disk. *)
Theorem oversized_record_hides_rest s w w' t p seg path before o ts v after :
  ReadFile w path = (w', Some (concat_lines (before ++ log_line o ts v :: after))) ->
  Forall (fun l => clean_line l = true) before -> no_char (chr 10) v = true ->
  Forall (fun l => no_char (chr 10) l = true) after ->
  oversized (log_line o ts v) ->
  loadSegment s w t p seg path = fold_left (load_line t p seg) before (s, w').
Proof.
  intros E Hb Hv Ha Hlen. unfold loadSegment. rewrite E, scan_stops; try done.
  unfold log_line. rewrite !no_char_app, Hv, (hex_no_char (chr 10) 8) by done.
  by rewrite !(num_no_char (chr 10) (Itoa _)) by auto using Itoa_num.
Qed.
End Contract.

(** ** Witnesses: a store with small segments, restarted once *)
Definition demo_cfg : Config :=
  mkConfig ":9092" "localhost" 9092 1 [] "data" 3 1 1 0 5000 2000 64 200 3600 1000 65536 "always".
Definition demo_disk : World := mkWorld ∅ [] (unix_epoch + 5 * Second) [7; 11].
Definition demo_ops : list op :=
  [OpProduce "orders" 0 "alpha"; OpProduce "orders" 0 "beta"; OpReplicate "orders" 1 0 "gamma";
   OpRestart demo_cfg; OpProduce "orders" 0 "delta"].

Lemma demo_reachable :
  @reachable canonical_order (@run canonical_order demo_cfg demo_disk demo_ops).1
    (@run canonical_order demo_cfg demo_disk demo_ops).2.
Proof.
  exists demo_cfg, demo_disk, demo_ops.
  split; [split; [by constructor|by repeat constructor|vm_compute; congruence|vm_compute; congruence]|].
  split; [done|]. split.
  - repeat (apply Forall_cons; split); try exact I; try apply Forall_nil; try done;
      (split; [vm_compute; reflexivity|split; [unfold int_range; ints|vm_compute; reflexivity]]).
  - split; [vm_compute; reflexivity|]. by destruct (run _ _ _).
Qed.

Lemma restart_recovers_logs_witness :
  exists s1 w1, loadData (empty_storage demo_cfg) (@run canonical_order demo_cfg demo_disk demo_ops).2 = (s1, w1)
  /\ log_of s1 "orders" 0 = [mkMessage 0 "alpha"; mkMessage 1 "beta"; mkMessage 2 "delta"].
Proof.
  destruct (@restart_recovers_logs canonical_order _ _ demo_cfg "orders" 0 demo_reachable)
    as (s1 & w1 & s2 & w2 & E1 & Hlog & _).
  - vm_compute. reflexivity.
  - unfold int_range. ints.
  - exists s1, w1. split; [exact E1|]. rewrite Hlog. vm_compute. reflexivity.
Defined.

Lemma produce_appends_witness :
  exists s' w', @ProduceToPartition canonical_order (@run canonical_order demo_cfg demo_disk demo_ops).1
    (@run canonical_order demo_cfg demo_disk demo_ops).2 "orders" 0 "omega" = (s', w', (0, 3)).
Proof.
  destruct (@produce_appends canonical_order _ _ "orders" 0 "omega" demo_reachable) as (s' & w' & E & _).
  - vm_compute. reflexivity.
  - unfold int_range. ints.
  - vm_compute. reflexivity.
  - exists s', w'. rewrite E. vm_compute. reflexivity.
Defined.

(** Partition 1 of "orders" holds offset 0: offset 1 is appended, offset 0 is a replay
    and offset 7 is refused. *)
Lemma AppendReplicated_spec_witness :
  let s := (@run canonical_order demo_cfg demo_disk demo_ops).1 in
  let w := (@run canonical_order demo_cfg demo_disk demo_ops).2 in
  (exists s' w', @AppendReplicated canonical_order s w "orders" 1 1 "omega" = (s', w', Success ())
     /\ last (log_of s' "orders" 1) = Some (mkMessage 1 "omega"))
  /\ (exists s' w', @AppendReplicated canonical_order s w "orders" 1 0 "omega" = (s', w', Success ())
     /\ unchanged s w s' w')
  /\ exists s' w' r, @AppendReplicated canonical_order s w "orders" 1 7 "omega" = (s', w', r)
     /\ is_success r = false /\ unchanged s w s' w'.
Proof.
  intros s w.
  assert (nextOffset (state_of s "orders" 1) = 1) as Hn by (vm_compute; reflexivity).
  assert (int_range 1) as Hp by (unfold int_range; ints).
  pose proof (fun off => @AppendReplicated_spec canonical_order s w "orders" 1 off "omega" demo_reachable
    eq_refl Hp eq_refl) as Hspec. rewrite Hn in Hspec. split; [|split].
  - destruct (Hspec 1) as (s' & w' & r & E & _ & _ & H). destruct (H eq_refl) as [-> [_ Hl _ _]].
    exists s', w'. split; [exact E|exact Hl].
  - destruct (Hspec 0) as (s' & w' & r & E & H & _ & _). destruct (H eq_refl) as [-> Hu].
    exists s', w'. split; [exact E|exact Hu].
  - destruct (Hspec 7) as (s' & w' & r & E & _ & H & _). destruct (H eq_refl) as [Hf Hu].
    exists s', w', r. split; [exact E|]. split; [exact Hf|exact Hu].
Defined.

(** The same directory loaded with a limit of 40 bytes: two segments of 65 bytes in
    all are on disk, and retention leaves the active one. *)
Definition tight_cfg : Config :=
  mkConfig ":9092" "localhost" 9092 1 [] "data" 3 1 1 0 5000 2000 64 40 3600 1000 65536 "always".
Definition tight_store : Storage * World :=
  loadData (empty_storage tight_cfg) (@run canonical_order demo_cfg demo_disk demo_ops).2.

Lemma tight_store_ok : store_ok tight_store.1 tight_store.2.
Proof.
  destruct (reachable_ok _ _ demo_reachable) as [Hs _].
  destruct (load_ok _ _ tight_cfg Hs) as (s1 & w1 & E & Hs1 & _).
  unfold tight_store. rewrite E. exact Hs1.
Qed.

Lemma two_segments_shrunk w t p limit a b after :
  shrunk w t p limit [a; b] after -> limit < disk_use w t p [a; b] -> disk_use w t p [b] <= limit ->
  after = [b].
Proof.
  intros [Hu (dropped & Hd & Hmin)] Hover Hunder. destruct dropped as [|d0 [|d1 dropped]].
  - simpl in Hd. subst after. destruct Hu; [lia|done].
  - by injection Hd.
  - injection Hd as <- <- Hd. symmetry in Hd. apply app_eq_nil in Hd as [-> ->].
    specialize (Hmin [a] b eq_refl). lia.
Qed.

Lemma size_retention_bounds_witness :
  segments (state_of tight_store.1 "orders" 0) = [0; 1]
  /\ 40 < disk_use tight_store.2 "orders" 0 [0; 1]
  /\ exists s' w', applySizeRetention tight_store.1 tight_store.2 "orders" 0 = (s', w')
     /\ segments (state_of s' "orders" 0) = [1]
     /\ disk_use w' "orders" 0 [1] <= 40.
Proof.
  assert (segments (state_of tight_store.1 "orders" 0) = [0; 1]) as Hsegs by (vm_compute; reflexivity).
  assert (40 < disk_use tight_store.2 "orders" 0 [0; 1]) as Huse by (vm_compute; reflexivity).
  split; [exact Hsegs|]. split; [exact Huse|].
  destruct (size_retention_bounds tight_store.1 tight_store.2 "orders" 0 tight_store_ok)
    as (s' & w' & E & Hsh & Hdisk).
  - vm_compute. reflexivity.
  - unfold int_range. ints.
  - vm_compute. reflexivity.
  - vm_compute. congruence.
  - assert (disk_use tight_store.2 "orders" 0 [1] <= 40) as Hone by (vm_compute; congruence).
    rewrite Hsegs in Hsh. apply two_segments_shrunk in Hsh; [|exact Huse|exact Hone].
    exists s', w'. split; [exact E|]. rewrite Hsh in Hdisk. split; [exact Hsh|]. rewrite Hdisk. exact Hone.
Defined.

(** A torn write. The 20th call, the write of "beta", stores 12 bytes of its line and
    fails; the store carries on and acknowledges "gamma" at the offset "beta" was
    reported at, but writes it behind the torn bytes, on the same line: after a
    restart that line does not parse and the acknowledged record is gone. *)
Definition torn_cfg : Config :=
  mkConfig ":9092" "localhost" 9092 1 [] "data" 3 1 1 0 5000 2000 6400 20000 3600 1000 65536 "always".
Definition torn_disk : World :=
  mkWorld ∅ (repeat None 19 ++ [Some (mkFault "EIO" 12)]) (unix_epoch + 1700000000 * Second) [].

Example torn_write_loses_next_record :
  let produce := @ProduceToPartition canonical_order in
  let '(s0, w0) := @NewStorage canonical_order torn_cfg torn_disk in
  let '(s1, w1, r1) := produce s0 w0 "orders" 0 "alpha" in
  let '(s2, w2, r2) := produce s1 w1 "orders" 0 "beta" in
  let '(s3, w3, r3) := produce s2 w2 "orders" 0 "gamma" in
  let '(s4, w4) := @NewStorage canonical_order torn_cfg w3 in
  (r1, r2, r3) = ((0, 0), (0, 1), (0, 1))
  /\ log_of s3 "orders" 0 = [mkMessage 0 "alpha"; mkMessage 1 "gamma"]
  /\ log_of s4 "orders" 0 = [mkMessage 0 "alpha"].
Proof. vm_compute. split; [reflexivity|]. split; reflexivity. Qed.

(** The value of a request line that the server still accepts; its log line is too
    long to be read back. *)
Definition long_value : string := zeros (Z.to_nat 65515).
Definition long_request : string := "V1|1|PRODUCE|t k:" +:+ long_value.
Definition long_disk : World :=
  mkWorld {["t-0-segment-0.log" := mkFile (concat_lines [log_line 0 1700000000000 long_value;
     log_line 1 1700000000001 "next"]) 0]} [] (unix_epoch + 5 * Second) [].

Lemma long_request_accepted : (String.length long_request <? MaxScanTokenSize)%nat = true.
Proof. vm_compute. reflexivity. Qed.

Lemma long_read :
  ReadFile long_disk "t-0-segment-0.log"
  = (long_disk, Some (concat_lines ([] ++ log_line 0 1700000000000 long_value :: [log_line 1 1700000000001 "next"]))).
Proof.
  unfold ReadFile. change (next_call long_disk) with (long_disk, @None fault). cbv iota. reflexivity.
Qed.

Lemma oversized_record_hides_rest_witness :
  loadSegment (empty_storage demo_cfg) long_disk "t" 0 0 "t-0-segment-0.log" = (empty_storage demo_cfg, long_disk).
Proof.
  apply (oversized_record_hides_rest _ _ _ "t" 0 0 "t-0-segment-0.log" [] 0 1700000000000 long_value
    [log_line 1 1700000000001 "next"] long_read).
  - constructor.
  - vm_compute. reflexivity.
  - repeat constructor.
  - unfold oversized. apply Nat.leb_le. vm_compute. reflexivity.
Defined.
End StorageContract.
