(* ===== verification/Broker.v ===== *)
(** * The broker: internal/broker/broker.go

    [Broker] composes the components: storage over the data directory, the
    coordinator, the replication manager and the controller with its metadata
    store. [NewBroker] wires them from the configuration, [EnsureTopicMetadata]
    creates a topic on first use and gives each partition a leader. The clock of
    the data directory is the broker's clock. *)
From S2P Require Import Prelude GoStrings Config Persist Groups Offsets Replication ControlPlane.
From S2P Require Import Controller StorageCodec FileSystem Storage.

Module Broker.
Import FS.

Section Broker.
Context `{MO : MapOrder} `{JG : Json Groups.persisted_groups} `{JO : Json Offsets.offset_map}.

(** [Broker]; the controller is its store. *)
Record Broker := mkBroker {
  bStorage : Storage.Storage;
  bWorld : World;
  bCoordinator : Offsets.Coordinator;
  bReplication : Replication.Manager;
  bController : RaftMetadataStore;
  LocalBrokerID : Z;
  DefaultPartitions : Z;
  DefaultReplicationFactor : Z
}.

Definition set_storage (b : Broker) s w : Broker :=
  mkBroker s w (bCoordinator b) (bReplication b) (bController b) (LocalBrokerID b)
    (DefaultPartitions b) (DefaultReplicationFactor b).
Definition set_coordinator (b : Broker) c : Broker :=
  mkBroker (bStorage b) (bWorld b) c (bReplication b) (bController b) (LocalBrokerID b)
    (DefaultPartitions b) (DefaultReplicationFactor b).
Definition set_replication (b : Broker) m : Broker :=
  mkBroker (bStorage b) (bWorld b) (bCoordinator b) m (bController b) (LocalBrokerID b)
    (DefaultPartitions b) (DefaultReplicationFactor b).
Definition set_controller (b : Broker) st : Broker :=
  mkBroker (bStorage b) (bWorld b) (bCoordinator b) (bReplication b) st (LocalBrokerID b)
    (DefaultPartitions b) (DefaultReplicationFactor b).

(** [time.Now()]. *)
Definition tick (b : Broker) : Broker * Z :=
  let '(w, now) := Now (bWorld b) in (set_storage b (bStorage b) w, now).

(** [net.SplitHostPort]. *)
Definition SplitHostPort (hostport : string) : option (string * string) :=
  match CutLast ":" hostport with
  | None => None
  | Some (before, port) =>
      match hostport with
      | String "[" rest =>
          match Cut "]" rest with
          | None => None
          | Some (host, tl) =>
              (* the bracket must be followed by the last colon *)
              if String.eqb tl (String ":" port) && no_char "[" rest && no_char "]" tl
              then Some (host, port) else None
          end
      | _ =>
          if no_char ":" before && no_char "[" hostport && no_char "]" hostport
          then Some (before, port) else None
      end
  end.

(** [parseListenAddr]. *)
Definition parseListenAddr (listen : string) : string * Z :=
  let host := "127.0.0.1" in
  let port := 9092 in
  let addr := TrimSpace listen in
  let positive raw := match Atoi raw with
                      | Some parsed => if 0 <? parsed then parsed else port
                      | None => port
                      end in
  if HasPrefix addr ":" then (host, positive (TrimPrefix addr ":"))
  else match SplitHostPort addr with
       | Some (h, p) => (if String.eqb h "" then host else h, positive p)
       | None => (host, port)
       end.

(** [bootstrapControllerMetadata]: the error of [RegisterBroker] is dropped. *)
Definition bootstrapControllerMetadata (b : Broker) (cfg : Config) : Broker :=
  let host := TrimSpace (AdvertisedHost cfg) in
  let port := AdvertisedPort cfg in
  let '(fallbackHost, fallbackPort) := parseListenAddr (ListenAddr cfg) in
  let missing := String.eqb host "" || (port <=? 0) in
  let host' := if missing && String.eqb host "" then fallbackHost else host in
  let port' := if missing && (port <=? 0) then fallbackPort else port in
  let '(b, epochAt) := tick b in
  let '(b, now_epoch) := tick b in
  let '(b, now) := tick b in
  set_controller b
    (RegisterBroker (bController b) (LocalBrokerID b) host' port' (UnixNano epochAt) now_epoch now).1.

(** [NewBroker] without the cluster runtime, which Cluster.v adds. *)
Definition replication_config (cfg : Config) : Replication.Config :=
  Replication.mkConfig (ReplicationFactor cfg) (MinInSyncReplicas cfg) (ReplicaMaxLag cfg)
    (int_mul (ReplicaLagTimeoutMs cfg) Millisecond) (int_mul (AckAllTimeoutMs cfg) Millisecond).

Definition NewBroker (cfg : Config) (w : World) (groupDisk : Disk (text Groups.persisted_groups))
    (offsetDisk : Disk (text Offsets.offset_map)) : Broker :=
  let replicationManager := Replication.NewManager (replication_config cfg) true in
  let '(s, w) := Storage.NewStorage cfg w in
  let b := mkBroker s w (Offsets.NewCoordinator cfg groupDisk offsetDisk) replicationManager
             NewRaftMetadataStore (BrokerID cfg) (NumPartitions cfg) (ReplicationFactor cfg) in
  bootstrapControllerMetadata b cfg.

(** [assignInitialLeaders] of cluster_runtime.go; an index out of range panics. *)
Definition assignInitialLeaders (topic : TopicMetadata) (brokers : list Z) : gmap Z Z :=
  match brokers with
  | [] => ∅
  | _ =>
      map_imap (fun partitionID _ =>
          brokers !! Z.to_nat (Z.rem partitionID (Z.of_nat (length brokers)))) (Partitions topic)
  end.

(** The loop of [EnsureTopicMetadata] that records the leaders. *)
Fixpoint lead_loop (st : RaftMetadataStore) (topic : string) (local : Z) (leaders : gmap Z Z)
    (now : Z) (pids : list Z) : RaftMetadataStore * option string :=
  match pids with
  | [] => (st, None)
  | partition :: rest =>
      let leaderID := default local (leaders !! partition) in
      match SetPartitionLeader st topic partition leaderID [leaderID] now with
      | (st, Failure err) => (st, Some err)
      | (st, Success _) => lead_loop st topic local leaders now rest
      end
  end.

(** The brokers leaders are drawn from: the unfenced ones in map order. *)
Definition live_brokers (snapshot : MetadataSnapshot) : list Z :=
  map fst (filter (fun kb => Fenced kb.2 = false) (map_range (Brokers snapshot))).

(** [EnsureTopicMetadata]. *)
Definition EnsureTopicMetadata (b : Broker) (topic : string)
    : outcome (Broker * result TopicMetadata) :=
  if String.eqb topic "" then Returns (b, Failure "topic is required")
  else
    match Topics (Snapshot (bController b)) !! topic with
    | Some md => Returns (b, Success md)
    | None =>
        let '(b, now) := tick b in
        let! created := CreateTopic (bController b) topic (DefaultPartitions b)
                          (DefaultReplicationFactor b) now in
        match created with
        | (st, Failure err) => Returns (set_controller b st, Failure err)
        | (st, Success _) =>
            let updated := Snapshot st in
            let md := default (mkTopicMetadata "" ∅ ∅) (Topics updated !! topic) in
            let brokerIDs := match live_brokers updated with
                             | [] => [LocalBrokerID b]
                             | ids => ids
                             end in
            let leaders := assignInitialLeaders md brokerIDs in
            match lead_loop st topic (LocalBrokerID b) leaders now (zrange 0 (DefaultPartitions b)) with
            | (st, Some err) => Returns (set_controller b st, Failure err)
            | (st, None) =>
                Returns (set_controller b st,
                  Success (default (mkTopicMetadata "" ∅ ∅) (Topics (Snapshot st) !! topic)))
            end
        end
    end.

(** [HeartbeatSelf] of cluster_runtime.go. *)
Definition HeartbeatSelf (b : Broker) : Broker * result unit :=
  let '(b, now) := tick b in
  let '(st, r) := HeartbeatBroker (bController b) (LocalBrokerID b) now in
  (set_controller b st, let? _ := r in Success ()).

(** ** Topics get live leaders *)
Lemma tick_controller b : bController (tick b).1 = bController b.
Proof. unfold tick. by destruct (Now (bWorld b)). Qed.

Lemma tick_fields b :
  LocalBrokerID (tick b).1 = LocalBrokerID b /\ DefaultPartitions (tick b).1 = DefaultPartitions b
  /\ DefaultReplicationFactor (tick b).1 = DefaultReplicationFactor b.
Proof. unfold tick. by destruct (Now (bWorld b)). Qed.

(** The leader recorded for a partition. *)
Definition lead (local : Z) (leaders : gmap Z Z) (pid : Z) (p : PartitionMetadata) : PartitionMetadata :=
  let l := default local (leaders !! pid) in with_leader p l [l].

Lemma lead_loop_spec topic local leaders now pids st t :
  store_inv st -> Topics (Snapshot st) !! topic = Some t -> NoDup pids ->
  (forall pid, pid ∈ pids -> is_Some (Partitions t !! pid)) ->
  -1 <= local -> (forall pid l, leaders !! pid = Some l -> -1 <= l) ->
  exists st' t', lead_loop st topic local leaders now pids = (st', None) /\ store_inv st'
    /\ Snapshot st' = with_topic (Snapshot st) topic t'
    /\ forall pid, Partitions t' !! pid
         = if decide (pid ∈ pids) then lead local leaders pid <$> Partitions t !! pid
           else Partitions t !! pid.
Proof.
  intros Hs Ht Hnd. revert st t Hs Ht. induction Hnd as [|pid pids Hpid Hnd IH];
    intros st t Hs Ht Hin Hlocal Hleaders; cbn [lead_loop].
  { exists st, t. split; [done|]. split; [done|]. split; [|done].
    unfold with_topic. rewrite insert_id by done. by destruct (Snapshot st). }
  destruct (Hin pid) as [p Hp]; [left|].
  set (l := default local (leaders !! pid)).
  assert (-1 <= l) as Hl by (unfold l; destruct (leaders !! pid) eqn:E; simpl; eauto).
  destruct (SetPartitionLeader_ok st topic t pid p l [l] now Hs Ht Hp Hl) as (st1 & r & -> & Hs1 & Hsnap1).
  destruct (IH st1 (with_partition t pid (with_leader p l [l]))) as (st' & t' & Hloop & Hs' & Hsnap & Hlk); try done.
  { rewrite Hsnap1. cbn [with_topic Topics]. apply lookup_insert_eq. }
  { intros q Hq. cbn [with_partition Partitions]. destruct (decide (q = pid)) as [->|].
    - rewrite lookup_insert_eq. by eexists.
    - rewrite lookup_insert_ne by done. apply Hin. by right. }
  exists st', t'. split; [done|]. split; [done|]. split.
  { rewrite Hsnap, Hsnap1. unfold with_topic. cbn [Topics Brokers]. by rewrite insert_insert_eq. }
  intros q. rewrite Hlk. cbn [with_partition Partitions]. destruct (decide (q = pid)) as [->|Hne].
  - rewrite (decide_False (P := pid ∈ pids)), lookup_insert_eq by done.
    rewrite decide_True by left. by rewrite Hp.
  - rewrite lookup_insert_ne by done.
    erewrite (decide_ext (q ∈ pids) (q ∈ pid :: pids)); [done|]. rewrite elem_of_cons. tauto.
Qed.

Lemma live_brokers_spec s id :
  id ∈ live_brokers s <-> isBrokerEligible (Brokers s) id = true.
Proof.
  unfold live_brokers, isBrokerEligible. rewrite elem_of_maplist. split.
  - intros ([k b] & -> & Hk). apply list_elem_of_filter in Hk as [Hf Hk].
    apply elem_of_map_range in Hk. cbn in *. by rewrite Hk, Hf.
  - destruct (Brokers s !! id) as [b|] eqn:E; [|done]. intros Hf%negb_true_iff.
    exists (id, b). split; [done|]. apply list_elem_of_filter. split; [done|].
    by apply elem_of_map_range.
Qed.

(** Leaders are drawn round robin from a non-empty list. *)
Lemma assignInitialLeaders_spec md ids pid :
  ids <> [] -> is_Some (Partitions md !! pid) -> 0 <= pid ->
  exists l, assignInitialLeaders md ids !! pid = Some l /\ l ∈ ids.
Proof.
  intros Hne [p Hp] Hpid. unfold assignInitialLeaders. destruct ids as [|i ids]; [done|].
  set (l := i :: ids) in *. rewrite map_lookup_imap, Hp. simpl.
  assert (0 < Z.of_nat (length l)) by (unfold l; simpl; lia).
  rewrite Z.rem_mod_nonneg by lia. pose proof (Z.mod_pos_bound pid (Z.of_nat (length l))).
  destruct (lookup_lt_is_Some_2 l (Z.to_nat (pid mod Z.of_nat (length l)))) as [x Hx]; [lia|].
  exists x. split; [done|]. apply list_elem_of_lookup. eauto.
Qed.

Lemma assignInitialLeaders_in md ids pid l : assignInitialLeaders md ids !! pid = Some l -> l ∈ ids.
Proof.
  unfold assignInitialLeaders. destruct ids as [|i ids]; [by rewrite lookup_empty|].
  rewrite map_lookup_imap. destruct (Partitions md !! pid); [|done]. simpl. intros H.
  apply list_elem_of_lookup. eauto.
Qed.

(** The brokers among which the leaders of a new topic are chosen. *)
Lemma initial_brokers_live s local x :
  x ∈ match live_brokers s with [] => [local] | ids => ids end ->
  isBrokerEligible (Brokers s) x = true \/ (x = local /\ live_brokers s = []).
Proof.
  destruct (live_brokers s) as [|y l] eqn:E.
  - intros ->%list_elem_of_singleton. by right.
  - intros Hx. left. apply live_brokers_spec. by rewrite E.
Qed.

Lemma create_topic_stored st topic n rf now :
  store_inv st -> topic <> "" -> 0 < n -> 0 < rf <= max_int_cap ->
  exists st' r, CreateTopic st topic n rf now = Returns (st', Success r)
  /\ store_inv st' /\ Snapshot st' = with_topic (Snapshot st) topic (new_topic topic n rf).
Proof.
  intros Hs Hne Hn Hrf. unfold CreateTopic. destruct (String.eqb_spec topic "") as [|_]; [done|].
  destruct (Z.leb_spec n 0); [lia|]. destruct (Z.leb_spec rf 0); [lia|].
  destruct (Z.ltb_spec max_int_cap rf); [lia|].
  destruct (apply_upsert st (new_topic topic n rf) now Hne) as [Hok Hsnap].
  pose proof (apply_inv st (upsert_topic (new_topic topic n rf)) now Hs) as Hi.
  destruct (Apply st _ now) as [st1 [r|e]]; [|done]. cbn [fst] in *. cbn [new_topic tmName] in Hsnap.
  exists st1, r. split; [done|]. split; [|done].
  apply Hi. intros t pid p [= <-]. rewrite new_topic_lookup. case_decide; [lia|done].
Qed.

(** The partitions of a new topic after the leader loop. *)
Lemma led_partitions topic n rf ids local t2 (good : Z -> Prop) :
  ids <> [] -> (forall x, x ∈ ids -> good x) ->
  (forall pid, Partitions t2 !! pid =
     if decide (pid ∈ zrange 0 n)
     then lead local (assignInitialLeaders (new_topic topic n rf) ids) pid <$> Partitions (new_topic topic n rf) !! pid
     else Partitions (new_topic topic n rf) !! pid) ->
  forall pid, (0 <= pid < n <-> is_Some (Partitions t2 !! pid))
  /\ forall p, Partitions t2 !! pid = Some p ->
     Replicas p = zrange 0 rf /\ ISR p = [LeaderID p] /\ good (LeaderID p).
Proof.
  intros Hids Hgood Hlk pid. rewrite Hlk, new_topic_lookup.
  destruct (decide (0 <= pid < n)) as [Hp|Hp].
  - rewrite decide_True by (by apply elem_of_zrange). simpl. split; [split; [by eexists|done]|].
    intros p [= <-]. unfold lead, with_leader. cbn [Replicas ISR LeaderID]. split; [done|]. split; [done|].
    destruct (assignInitialLeaders_spec (new_topic topic n rf) ids pid Hids) as (l & Hpl & Hin); [|lia|].
    + rewrite new_topic_lookup, decide_True by done. by eexists.
    + rewrite Hpl. simpl. by apply Hgood.
  - rewrite decide_False by (by rewrite elem_of_zrange). split; [|done].
    split; [lia|by intros []].
Qed.

(** C20: a topic is usable as soon as it is mentioned. On a broker with valid
    defaults [EnsureTopicMetadata] returns the metadata of the topic: the stored
    one, untouched, if there is one; otherwise a new topic with the default number
    of partitions, in which every partition is led by a registered broker that is
    not fenced (by this broker if there is none), with that leader as its in-sync
    set, and nothing else of the cluster metadata changes. *)
Theorem EnsureTopicMetadata_spec b topic :
  store_inv (bController b) -> topic <> "" -> 0 <= LocalBrokerID b ->
  0 < DefaultPartitions b -> 0 < DefaultReplicationFactor b <= max_int_cap ->
  exists b' md, EnsureTopicMetadata b topic = Returns (b', Success md)
  /\ store_inv (bController b')
  /\ Topics (Snapshot (bController b')) !! topic = Some md
  /\ (is_Some (Topics (Snapshot (bController b)) !! topic) -> b' = b)
  /\ (Topics (Snapshot (bController b)) !! topic = None ->
      Snapshot (bController b') = with_topic (Snapshot (bController b)) topic md
      /\ forall pid,
        (0 <= pid < DefaultPartitions b <-> is_Some (Partitions md !! pid))
        /\ forall p, Partitions md !! pid = Some p ->
           Replicas p = zrange 0 (DefaultReplicationFactor b) /\ ISR p = [LeaderID p]
           /\ (isBrokerEligible (Brokers (Snapshot (bController b))) (LeaderID p) = true
               \/ (LeaderID p = LocalBrokerID b /\ live_brokers (Snapshot (bController b)) = []))).
Proof.
  intros Hs Hne Hlocal Hn Hrf. unfold EnsureTopicMetadata.
  destruct (String.eqb_spec topic "") as [|_]; [done|].
  destruct (Topics (Snapshot (bController b)) !! topic) as [md|] eqn:Hold.
  { exists b, md. split; [done|]. split; [done|]. split; [done|]. split; done. }
  pose proof (tick_controller b) as Htc. pose proof (tick_fields b) as (Hl & Hdp & Hdr).
  destruct (tick b) as [b1 now]. cbn [fst] in *. rewrite Htc, Hl, Hdp, Hdr.
  set (st0 := bController b) in *. set (n := DefaultPartitions b) in *.
  set (rf := DefaultReplicationFactor b) in *. set (local := LocalBrokerID b) in *.
  destruct (create_topic_stored st0 topic n rf now) as (st1 & r & -> & Hs1 & Hsnap); [done..|].
  cbn [outcome_bind].
  assert (Topics (Snapshot st1) !! topic = Some (new_topic topic n rf)) as Ht1
    by (rewrite Hsnap; apply lookup_insert_eq).
  rewrite Ht1. cbn [default].
  assert (live_brokers (Snapshot st1) = live_brokers (Snapshot st0)) as -> by (by rewrite Hsnap).
  set (ids := match live_brokers (Snapshot st0) with [] => [local] | ids => ids end).
  assert (ids <> []) as Hids by (unfold ids; by destruct (live_brokers _)).
  pose proof (initial_brokers_live (Snapshot st0) local) as Hlive. fold ids in Hlive.
  destruct (lead_loop_spec topic local (assignInitialLeaders (new_topic topic n rf) ids) now (zrange 0 n)
    st1 (new_topic topic n rf)) as (st2 & t2 & Hloop & Hs2 & Hsnap2 & Hlk); try done.
  { apply NoDup_zrange. }
  { intros pid Hpid%elem_of_zrange. rewrite new_topic_lookup, decide_True by done. by eexists. }
  { lia. }
  { intros pid l [He|[-> _]]%assignInitialLeaders_in%Hlive; [|lia]. pose proof (eligible_nonneg st0 _ Hs He). lia. }
  change (lead_loop st1 topic local _ now (zrange 0 n))
    with (lead_loop st1 topic local (assignInitialLeaders (new_topic topic n rf) ids) now (zrange 0 n)).
  rewrite Hloop.
  assert (Topics (Snapshot st2) !! topic = Some t2) as Ht2 by (rewrite Hsnap2; apply lookup_insert_eq).
  eexists _, t2. split; [by rewrite Ht2|]. split; [done|]. split; [done|]. split; [by intros []|]. intros _. split.
  { cbn [set_controller bController]. rewrite Hsnap2, Hsnap. unfold with_topic. cbn [Topics Brokers].
    by rewrite insert_insert_eq. }
  exact (led_partitions topic n rf ids local t2 _ Hids Hlive Hlk).
Qed.
End Broker.

(** ** Witness: a broker with two registered brokers *)
Definition demo_broker : @Broker (value_json ∅) (value_json ∅) :=
  mkBroker (Storage.mkStorage ∅ 3 1048576 1048576 Second Second 65536 "always" ∅ 2)
    (mkWorld ∅ [] (unix_epoch + 100 * Second) [])
    (Offsets.mkCoordinator (value_json ∅) (value_json ∅)
       (Groups.mkManager 3 (10 * Second) ∅ (mkDisk None [])) (Offsets.mkOffsets ∅ (mkDisk None [])))
    (Replication.NewManager (Replication.mkConfig 2 1 0 (5 * Second) (2 * Second)) true)
    demo_store 1 3 2.

Lemma EnsureTopicMetadata_spec_witness :
  exists b' md p, @EnsureTopicMetadata canonical_order _ _ demo_broker "payments" = Returns (b', Success md)
  /\ Topics (Snapshot (bController b')) !! "payments" = Some md
  /\ Partitions md !! 2 = Some p /\ Replicas p = [0; 1] /\ ISR p = [LeaderID p]
  /\ isBrokerEligible (Brokers (Snapshot demo_store)) (LeaderID p) = true.
Proof.
  destruct (@EnsureTopicMetadata_spec canonical_order _ _ demo_broker "payments" demo_store_inv)
    as (b' & md & H & _ & Hmd & _ & Hnew).
  - discriminate.
  - vm_compute. discriminate.
  - vm_compute. reflexivity.
  - vm_compute. split; [reflexivity|discriminate].
  - destruct Hnew as [_ Hparts]; [vm_compute; reflexivity|]. destruct (Hparts 2) as [Hin Hp].
    destruct (proj1 Hin) as [p Hlook]; [vm_compute; split; [discriminate|reflexivity]|].
    destruct (Hp p Hlook) as (Hr & Hi & Hl). exists b', md, p.
    split; [exact H|]. split; [exact Hmd|]. split; [exact Hlook|]. split; [rewrite Hr; reflexivity|].
    split; [exact Hi|]. destruct Hl as [Hl|[_ Hnone]]; [exact Hl|]. vm_compute in Hnone. discriminate Hnone.
Defined.
End Broker.
