(* ===== verification/Cluster.v ===== *)
(** * The cluster runtime: internal/broker/cluster_runtime.go

    A background loop of every broker: once a second it aligns replication roles
    with the metadata and creates or drops follower workers; ten times a second it
    steps the workers, and after ten failures in a row of one worker it fences the
    leader and elects new ones. Both ticks run in one goroutine, so they do not
    overlap; the workers' pointers are only reached through the runtime's map. *)
From S2P Require Import Prelude GoStrings Config Persist Groups Offsets Replication Worker.
From S2P Require Import TcpTransport ControlPlane Controller StorageCodec FileSystem Storage Broker.

Module Cluster.
Import FS Broker.

(** [peerInfo]. *)
Record peerInfo := mkPeer { peerID : Z; peerAddr : string }.

(** [parsePeers]. *)
Definition parse_peer (entry : string) : option peerInfo :=
  match SplitN (TrimSpace entry) "@" 2 with
  | [p0; p1] =>
      match Atoi p0 with
      | None => None
      | Some id =>
          if id <? 0 then None
          else
            let addr := TrimSpace p1 in
            if String.eqb addr "" then None else Some (mkPeer id addr)
      end
  | _ => None
  end.

Definition parsePeers (raw : list string) : gmap Z peerInfo :=
  fold_left (fun out entry =>
      match parse_peer entry with Some p => <[peerID p := p]> out | None => out end) raw ∅.

(** [workerKey]. *)
Definition workerKey (topic : string) (partition : Z) : string := topic +:+ "/" +:+ Itoa partition.

(** [splitHostPort]. *)
Definition splitHostPort (addr : string) : option (string * Z) :=
  match Split addr ":" with
  | [h; p] =>
      match Atoi p with
      | None => None
      | Some port =>
          if port <=? 0 then None
          else
            let host := TrimSpace h in
            if String.eqb host "" then None else Some (host, port)
      end
  | _ => None
  end.

(** [containsInt]. *)
Fixpoint containsInt (items : list Z) (target : Z) : bool :=
  match items with
  | [] => false
  | item :: rest => if item =? target then true else containsInt rest target
  end.

Section Runtime.
Context `{MO : MapOrder} `{JG : Json Groups.persisted_groups} `{JO : Json Offsets.offset_map}.
Context {N : Type} (net : Network N) (NumError : string -> string).

(** What a worker acts on: its transport's state, the network, the local log. *)
Abbreviation worker_world := (TCPTransport * N * (Storage.Storage * World))%type.

Definition worker_transport : Transport worker_world := {|
  Fetch := fun '(t, n, sw) topic partition followerID offset max =>
    let '(t, n, r) := tcp_Fetch net NumError t n topic partition followerID offset max in
    ((t, n, sw), r);
  Ack := fun '(t, n, sw) topic partition followerID acked =>
    let '(t, n, r) := tcp_Ack net t n topic partition followerID acked in ((t, n, sw), r)
|}.

Definition worker_storage : ReplicaStorage worker_world := {|
  Worker.AppendReplicated := fun '(t, n, (s, w)) topic partition offset value =>
    let '(s, w, r) := Storage.AppendReplicated s w topic partition offset value in
    ((t, n, (s, w)), r)
|}.

(** [replicaWorkerState], with the state of the worker's transport. *)
Record replicaWorkerState := mkWorkerState {
  worker : FollowerWorker worker_world;
  wtransport : TCPTransport;
  leaderID : Z;
  leaderAddr : string;
  failureCount : Z
}.

(** [clusterRuntime]. *)
Record clusterRuntime := mkRuntime {
  peers : gmap Z peerInfo;
  workers : gmap string replicaWorkerState;
  maxFailureBeforeFailover : Z
}.

Definition set_workers (r : clusterRuntime) ws : clusterRuntime :=
  mkRuntime (peers r) ws (maxFailureBeforeFailover r).

(** [newClusterRuntime]. *)
Definition newClusterRuntime (b : Broker) (cfg : Config) : clusterRuntime :=
  mkRuntime
    (<[LocalBrokerID b := mkPeer (LocalBrokerID b)
         (AdvertisedHost cfg +:+ ":" +:+ Itoa (AdvertisedPort cfg))]> (parsePeers (ClusterPeers cfg)))
    ∅ 10.

(** [bootstrapPeers], called by [start]; errors are dropped. *)
Definition bootstrapPeers (r : clusterRuntime) (b : Broker) : Broker :=
  fold_left (fun b '(id, peer) =>
      match splitHostPort (peerAddr peer) with
      | None => b
      | Some (host, port) =>
          let '(b, epochAt) := tick b in
          let '(b, now_epoch) := tick b in
          let '(b, now) := tick b in
          set_controller b (RegisterBroker (bController b) id host port (UnixNano epochAt) now_epoch now).1
      end) (map_range (peers r)) b.

(** [ensureWorker]. *)
Definition ensureWorker (r : clusterRuntime) (b : Broker) (topic : string) (partition leader : Z)
    (addr : string) (startOffset : Z) : clusterRuntime :=
  let key := workerKey topic partition in
  let same := match workers r !! key with
              | Some existing => (leaderID existing =? leader) && String.eqb (leaderAddr existing) addr
              | None => false
              end in
  if same then r
  else
    let transport := NewTCPTransport addr (2 * Second) in
    match NewFollowerWorker (mkWorkerConfig (LocalBrokerID b) topic partition startOffset 256)
            (Some worker_transport) (Some worker_storage) with
    | Failure _ => r
    | Success wk => set_workers r (<[key := mkWorkerState wk transport leader addr 0]> (workers r))
    end.

(** [stopWorker]. *)
Definition stopWorker (r : clusterRuntime) (topic : string) (partition : Z) : clusterRuntime :=
  set_workers r (delete (workerKey topic partition) (workers r)).

(** [SetRole] followed by [BootstrapOffset]. *)
Definition align_role (b : Broker) (topic : string) (partition lastOffset : Z) (role : string) : Broker :=
  let '(b, now) := tick b in
  let m := (Replication.SetRole (bReplication b) topic partition role now).1 in
  let '(b, now) := tick (set_replication b m) in
  set_replication b (Replication.BootstrapOffset (bReplication b) topic partition lastOffset now).

(** The body of [reconcileRoles] for one partition. *)
Definition reconcile_partition (topic : string) (rb : clusterRuntime * Broker)
    (entry : Z * PartitionMetadata) : clusterRuntime * Broker :=
  let '(r, b) := rb in
  let '(partition, pm) := entry in
  let lastOffset := Storage.LastOffset (bStorage b) topic partition in
  if LeaderID pm =? LocalBrokerID b then
    (stopWorker r topic partition, align_role b topic partition lastOffset "leader")
  else if negb (containsInt (Replicas pm) (LocalBrokerID b)) || (LeaderID pm <? 0) then
    (stopWorker r topic partition, b)
  else
    let b := align_role b topic partition lastOffset "follower" in
    match peers r !! LeaderID pm with
    | None => (r, b)
    | Some leader =>
        (ensureWorker r b topic partition (LeaderID pm) (peerAddr leader) (int_add lastOffset 1), b)
    end.

(** [reconcileRoles]. *)
Definition reconcileRoles (r : clusterRuntime) (b : Broker) : clusterRuntime * Broker :=
  let b := (HeartbeatSelf b).1 in
  let snapshot := Snapshot (bController b) in
  fold_left (fun rb '(topic, md) =>
      fold_left (reconcile_partition topic) (map_range (Partitions md)) rb)
    (map_range (Topics snapshot)) (r, b).

(** One topic of [tryFailoverForWorker]: the roles are read from the snapshot
    taken before the election. *)
Definition failover_topic (b : Broker) (entry : string * TopicMetadata) : Broker :=
  let '(topic, tm) := entry in
  let '(b, now) := tick b in
  match ElectTopicLeaders (bController b) topic now with
  | (st, (_, Some _)) => set_controller b st
  | (st, (_, None)) =>
      fold_left (fun b '(partition, pm) =>
          if LeaderID pm =? LocalBrokerID b then
            let '(b, now) := tick b in
            set_replication b (Replication.SetRole (bReplication b) topic partition "leader" now).1
          else b)
        (map_range (Partitions tm)) (set_controller b st)
  end.

(** [tryFailoverForWorker]. *)
Definition tryFailoverForWorker (b : Broker) (leader : Z) : Broker :=
  let '(b, now) := tick b in
  let b := set_controller b (SetBrokerFence (bController b) leader true now).1 in
  let snapshot := Snapshot (bController b) in
  fold_left failover_topic (map_range (Topics snapshot)) b.

(** The body of [stepWorkers] for one worker. *)
Definition step_worker (rbn : clusterRuntime * Broker * N) (key : string) : clusterRuntime * Broker * N :=
  let '(r, b, n) := rbn in
  match workers r !! key with
  | None => (r, b, n)
  | Some state =>
      let '(wk, (t, n, (s, w)), (applied, err)) :=
        StepOnce (worker state) (wtransport state, n, (bStorage b, bWorld b)) in
      let b := set_storage b s w in
      let put fails :=
        set_workers r (<[key := mkWorkerState wk t (leaderID state) (leaderAddr state) fails]> (workers r)) in
      match err with
      | Some _ =>
          let fails := int_add (failureCount state) 1 in
          if maxFailureBeforeFailover r <=? fails then
            (put 0, tryFailoverForWorker b (leaderID state), n)
          else (put fails, b, n)
      | None => (put (if 0 <? applied then 0 else failureCount state), b, n)
      end
  end.

(** [stepWorkers]. *)
Definition stepWorkers (r : clusterRuntime) (b : Broker) (n : N) : clusterRuntime * Broker * N :=
  fold_left step_worker (map fst (map_range (workers r))) (r, b, n).

(** The loop of [run]: any sequence of the two ticks. *)
Inductive event := ReconcileTick | ReplicationTick.

Definition run_event (rbn : clusterRuntime * Broker * N) (e : event) : clusterRuntime * Broker * N :=
  let '(r, b, n) := rbn in
  match e with
  | ReconcileTick => let '(r, b) := reconcileRoles r b in (r, b, n)
  | ReplicationTick => stepWorkers r b n
  end.

Definition run_events (rbn : clusterRuntime * Broker * N) (es : list event)
    : clusterRuntime * Broker * N := fold_left run_event es rbn.

(** ** Failover *)
Lemma set_role_controller b topic l :
  bController (fold_left (fun b '(partition, pm) =>
      if LeaderID pm =? LocalBrokerID b then
        let '(b, now) := tick b in
        set_replication b (Replication.SetRole (bReplication b) topic partition "leader" now).1
      else b) l b) = bController b.
Proof.
  revert b. induction l as [|[pid pm] l IH]; intros b; [done|]. cbn [fold_left]. rewrite IH.
  destruct (_ =? _); [|done]. pose proof (tick_controller b) as Ht. by destruct (tick b).
Qed.

Lemma failover_topic_spec b topic tm t :
  store_inv (bController b) -> Topics (Snapshot (bController b)) !! topic = Some t ->
  Z.of_nat (size (Partitions t)) <= int_max ->
  let b' := failover_topic b (topic, tm) in
  store_inv (bController b')
  /\ exists t', Snapshot (bController b') = with_topic (Snapshot (bController b)) topic t'
      /\ Partitions t' = elect_partition (Brokers (Snapshot (bController b))) <$> Partitions t.
Proof.
  intros Hs Ht Hsize. unfold failover_topic. pose proof (tick_controller b) as Htc.
  destruct (tick b) as [b1 now]. cbn [fst] in Htc. rewrite Htc.
  destruct (elect_topic_ok (bController b) topic t now Hs Ht Hsize) as (st' & t' & -> & Hs' & Hsnap & Hmap).
  cbv zeta. rewrite set_role_controller. cbn [set_controller bController].
  split; [done|]. by exists t'.
Qed.

Lemma failover_topics_spec l b :
  store_inv (bController b) -> NoDup (map fst l) ->
  (forall topic t, Topics (Snapshot (bController b)) !! topic = Some t ->
     Z.of_nat (size (Partitions t)) <= int_max) ->
  (forall topic, topic ∈ map fst l -> is_Some (Topics (Snapshot (bController b)) !! topic)) ->
  let b' := fold_left failover_topic l b in
  let bs := Brokers (Snapshot (bController b)) in
  store_inv (bController b') /\ Brokers (Snapshot (bController b')) = bs
  /\ forall topic t, Topics (Snapshot (bController b)) !! topic = Some t ->
     exists t', Topics (Snapshot (bController b')) !! topic = Some t'
       /\ Partitions t' = if decide (topic ∈ map fst l) then elect_partition bs <$> Partitions t
                         else Partitions t.
Proof.
  clear NumError. revert b. induction l as [|[topic0 tm] l IH]; intros b Hs Hnd Hsize Hin; cbv zeta.
  { split; [done|]. split; [done|]. intros topic t Ht. exists t. split; [done|].
    rewrite decide_False; [done|]. apply not_elem_of_nil. }
  cbn [map fst] in *. apply NoDup_cons in Hnd as [Hnew Hnd].
  destruct (Hin topic0) as [t0 Ht0]; [left|].
  destruct (failover_topic_spec b topic0 tm t0 Hs Ht0 (Hsize _ _ Ht0)) as (Hs1 & t1 & Hsnap & Hmap).
  set (b1 := failover_topic b (topic0, tm)) in *. set (bs := Brokers (Snapshot (bController b))) in *.
  assert (Brokers (Snapshot (bController b1)) = bs) as Hb1 by (by rewrite Hsnap).
  assert (forall topic, Topics (Snapshot (bController b1)) !! topic
    = if decide (topic = topic0) then Some t1 else Topics (Snapshot (bController b)) !! topic) as Hlk.
  { intros topic. rewrite Hsnap. cbn [with_topic Topics]. case_decide as D;
      [subst; apply lookup_insert_eq|by apply lookup_insert_ne]. }
  destruct (IH b1 Hs1 Hnd) as (Hs2 & Hb2 & Hall).
  { intros topic t. rewrite Hlk. case_decide; [|apply Hsize]. intros [= <-].
    rewrite Hmap, map_size_fmap. by eapply Hsize. }
  { intros topic Ht. rewrite Hlk. case_decide; [by eexists|]. apply Hin. by right. }
  cbn [fold_left]. fold b1. split; [done|]. split; [by rewrite Hb2|]. intros topic t Ht.
  destruct (decide (topic = topic0)) as [->|Hne].
  - destruct (Hall topic0 t1) as (t' & Ht' & Hp'); [rewrite Hlk; by rewrite decide_True|].
    exists t'. split; [done|]. rewrite (decide_True (P := topic0 ∈ topic0 :: _)) by left.
    rewrite decide_False in Hp' by done. rewrite Hp', Hmap. congruence.
  - destruct (Hall topic t) as (t' & Ht' & Hp'); [rewrite Hlk; by rewrite decide_False|].
    exists t'. split; [done|]. rewrite Hp', Hb1.
    erewrite (decide_ext (topic ∈ map fst l) (topic ∈ topic0 :: map fst l)); [done|].
    rewrite elem_of_cons. tauto.
Qed.

Lemma elect_partition_live bs p :
  (isBrokerEligible bs (LeaderID p) = true -> elect_partition bs p = p)
  /\ (LeaderID (elect_partition bs p) = -1
      \/ isBrokerEligible bs (LeaderID (elect_partition bs p)) = true).
Proof.
  unfold elect_partition. destruct (isBrokerEligible bs (LeaderID p)) eqn:E; [by split; [|right]|].
  split; [done|]. cbn [with_leader LeaderID].
  destruct (electFromReplicas_cases bs (Replicas p)) as [[_ H]|[H _]]; [by right|by left].
Qed.

(** C7: failover. When a worker gives up on its leader, [tryFailoverForWorker]
    fences that broker, and afterwards every partition of every topic that had a
    leader which is still registered and not fenced keeps it, and every other one
    is led by such a broker or by nobody: the failed broker leads nothing. *)
Theorem failover_leaves_no_dead_leader b leader br :
  store_inv (bController b) -> Brokers (Snapshot (bController b)) !! leader = Some br ->
  (forall topic t, Topics (Snapshot (bController b)) !! topic = Some t ->
     Z.of_nat (size (Partitions t)) <= int_max) ->
  let s' := Snapshot (bController (tryFailoverForWorker b leader)) in
  store_inv (bController (tryFailoverForWorker b leader))
  /\ isBrokerEligible (Brokers s') leader = false
  /\ forall topic t pid p, Topics (Snapshot (bController b)) !! topic = Some t ->
     Partitions t !! pid = Some p ->
     exists t' p', Topics s' !! topic = Some t' /\ Partitions t' !! pid = Some p'
       /\ LeaderID p' <> leader
       /\ (isBrokerEligible (Brokers s') (LeaderID p) = true -> p' = p)
       /\ (LeaderID p' = -1 \/ isBrokerEligible (Brokers s') (LeaderID p') = true).
Proof.
  intros Hs Hb Hsize. unfold tryFailoverForWorker. pose proof (tick_controller b) as Htc.
  destruct (tick b) as [b0 now]. cbn [fst] in Htc. rewrite Htc.
  destruct (SetBrokerFence_ok (bController b) leader br true now Hs Hb) as (st1 & r & -> & Hs1 & Hsnap1).
  cbn [fst]. set (b1 := set_controller b0 st1).
  assert (Topics (Snapshot (bController b1)) = Topics (Snapshot (bController b))) as Htop
    by (cbn [b1 set_controller bController]; by rewrite Hsnap1).
  set (l := map_range (Topics (Snapshot st1))).
  destruct (failover_topics_spec l b1 Hs1) as (Hs2 & Hbs & Hall).
  { apply NoDup_map_range_keys. }
  { intros topic t. rewrite Htop. apply Hsize. }
  { intros topic Ht. apply elem_of_maplist in Ht as ([k t] & -> & Ht%elem_of_map_range). by eexists. }
  cbv zeta. change (Snapshot (bController b1)) with (Snapshot st1) in *. fold l.
  assert (isBrokerEligible (Brokers (Snapshot st1)) leader = false) as Hdead.
  { unfold isBrokerEligible. rewrite Hsnap1. cbn [with_broker Brokers]. by rewrite lookup_insert_eq. }
  split; [done|]. rewrite Hbs. split; [done|]. intros topic t pid p Ht Hp.
  destruct (Hall topic t) as (t' & Ht' & Hp'); [by rewrite Htop|].
  rewrite decide_True in Hp'.
  2: { apply elem_of_maplist. exists (topic, t). split; [done|]. apply elem_of_map_range. by rewrite Htop. }
  exists t', (elect_partition (Brokers (Snapshot st1)) p). split; [done|].
  split; [by rewrite Hp', lookup_fmap, Hp|].
  destruct (elect_partition_live (Brokers (Snapshot st1)) p) as [Hsame Hlive].
  split; [|done]. intros E. destruct Hlive as [Hl|Hl]; [|by rewrite E, Hdead in Hl].
  destruct (meta_broker _ (store_meta _ Hs) _ _ Hb). lia.
Qed.

(** ** Broker 0 never follows *)
Definition no_workers (rb : clusterRuntime * Broker) : Prop :=
  workers rb.1 = ∅ /\ LocalBrokerID rb.2 = 0.

Lemma align_role_local b topic pid off name :
  LocalBrokerID (align_role b topic pid off name) = LocalBrokerID b.
Proof.
  unfold align_role. pose proof (tick_fields b) as (H0 & _). destruct (tick b) as [b1 now].
  cbn [fst] in H0.
  match goal with |- context [tick ?x] =>
    pose proof (tick_fields x) as (H1 & _); destruct (tick x) as [b2 now2] end.
  cbn [fst] in H1. cbn [set_replication LocalBrokerID] in *. congruence.
Qed.

Lemma reconcile_partition_zero topic rb e :
  no_workers rb -> no_workers (reconcile_partition topic rb e).
Proof.
  destruct rb as [r b], e as [pid pm]. intros [Hw Hb]. cbn [fst snd] in Hw, Hb.
  unfold reconcile_partition.
  destruct (_ =? _); [split; cbn; [by rewrite Hw, delete_empty|by rewrite align_role_local]|].
  destruct (_ || _); [split; cbn; [by rewrite Hw, delete_empty|done]|].
  destruct (peers r !! LeaderID pm) as [leader|]; [|split; [done|by cbn [snd]; rewrite align_role_local]].
  split; cbn [fst snd]; [|by rewrite align_role_local]. unfold ensureWorker. rewrite Hw, lookup_empty.
  unfold NewFollowerWorker. cbn [wcFollowerID]. by rewrite align_role_local, Hb.
Qed.

Lemma fold_zero {A} (f : clusterRuntime * Broker -> A -> clusterRuntime * Broker) l rb :
  (forall rb x, no_workers rb -> no_workers (f rb x)) -> no_workers rb -> no_workers (fold_left f l rb).
Proof. intros Hf. revert rb. induction l as [|x l IH]; intros rb H; [done|]. simpl. by apply IH, Hf. Qed.

(** C38: broker 0 never replicates. A broker whose id is 0 creates no follower
    worker, whatever the metadata says and however long the runtime runs: worker
    creation requires a follower id greater than 0. It can hold replicas in the
    metadata and even be in-sync there, but it never fetches. *)
Theorem broker_zero_never_follows r b n es :
  workers r = ∅ -> LocalBrokerID b = 0 ->
  let '(r', b', _) := run_events (r, b, n) es in workers r' = ∅ /\ LocalBrokerID b' = 0.
Proof.
  revert r b n. induction es as [|e es IH]; intros r b n Hr Hb; [done|]. cbn [run_events fold_left].
  fold (run_events (run_event (r, b, n) e) es). destruct e; cbn [run_event].
  - assert (no_workers (reconcileRoles r b)) as H.
    { unfold reconcileRoles. apply fold_zero.
      - intros rb [topic md] H. apply fold_zero; [|done]. intros. by apply reconcile_partition_zero.
      - split; [done|]. cbn [snd]. unfold HeartbeatSelf. pose proof (tick_fields b) as (H0 & _).
        destruct (tick b) as [b1 now]. cbn [fst] in H0. destruct (HeartbeatBroker _ _ _). cbn. congruence. }
    destruct (reconcileRoles r b) as [r1 b1]. destruct H. by apply IH.
  - unfold stepWorkers. rewrite Hr.
    assert (map fst (map_range (∅ : gmap string replicaWorkerState)) = []) as ->.
    { pose proof (map_range_perm (∅ : gmap string replicaWorkerState)) as HP.
      rewrite map_to_list_empty in HP. by apply Permutation_nil_r in HP as ->. }
    by apply IH.
Qed.
End Runtime.

(** ** Witnesses *)
Definition two_broker_store : RaftMetadataStore :=
  apply_all demo_store
    [(set_broker_fence (mkFenceUpdate 0 false), 0);
     (set_partition_leader (mkLeaderUpdate "orders" 0 1 [1]), 0)].

Lemma two_broker_store_inv : store_inv two_broker_store.
Proof. apply apply_all_inv; [apply demo_store_inv|]. repeat constructor; done. Qed.

Lemma failover_leaves_no_dead_leader_witness :
  isBrokerEligible (Brokers (Snapshot (bController
    (@tryFailoverForWorker canonical_order (value_json ∅) (value_json ∅)
       (set_controller demo_broker two_broker_store) 1)))) 1 = false.
Proof.
  apply (@failover_leaves_no_dead_leader canonical_order (value_json ∅) (value_json ∅)
    (set_controller demo_broker two_broker_store) 1
    (mkBrokerMetadata 1 "b" 9092 1 (90 * Second) false) two_broker_store_inv).
  - vm_compute. reflexivity.
  - intros topic t Ht.
    assert (map_Forall (fun _ t => Z.of_nat (size (Partitions t)) <= int_max)
      (Topics (Snapshot two_broker_store))) as H.
    { refine (bool_decide_unpack _ _). vm_compute. exact I. }
    exact (H topic t Ht).
Defined.

Definition broker_zero : @Broker (value_json ∅) (value_json ∅) :=
  mkBroker (bStorage demo_broker) (bWorld demo_broker) (bCoordinator demo_broker)
    (bReplication demo_broker) two_broker_store 0 3 2.

Lemma broker_zero_never_follows_witness :
  let '(r', b', _) := @run_events canonical_order _ _ unit (scripted "") (fun _ => "")
    (mkRuntime {[1 := mkPeer 1 "b:9092"]} ∅ 10, broker_zero, ())
    [ReconcileTick; ReplicationTick; ReconcileTick] in
  workers r' = ∅ /\ LocalBrokerID b' = 0.
Proof.
  apply (@broker_zero_never_follows canonical_order _ _ unit (scripted "") (fun _ => "")
    (mkRuntime {[1 := mkPeer 1 "b:9092"]} ∅ 10) broker_zero ()
    [ReconcileTick; ReplicationTick; ReconcileTick]); vm_compute; reflexivity.
Defined.
End Cluster.
