(* ===== verification/Handler.v ===== *)
(** * The request handlers: internal/network/handler.go

    [handleRequest] routes a parsed request to its handler; a handler validates
    the arguments, calls the components in order and prints one response line.
    [serve] is the loop of [HandleConnection] over the lines of a connection.
    Handlers return the broker and the response; a run-time panic ends the
    process, and a produce with [acks=all] that is still waiting has no response
    yet: [rounds] is what the other connections do to the replication manager
    while it waits. *)
From S2P Require Import Prelude GoStrings Protocol Persist Groups Offsets Replication ControlPlane.
From S2P Require Import Controller TcpTransport StorageCodec FileSystem Storage Broker.

Module Handler.
Import FS Broker.

(** [make([]string, 0, n)] panics beyond the largest allocation (16-byte headers). *)
Definition max_string_cap : Z := 2 ^ 48 / 16.

(** [parseCSVInts]. *)
Fixpoint parse_ints (parts : list string) : result (list Z) :=
  match parts with
  | [] => Success []
  | part :: rest =>
      let p := TrimSpace part in
      if String.eqb p "" then parse_ints rest
      else match Atoi p with
           | None => Failure "invalid integer list"
           | Some n => let? out := parse_ints rest in Success (n :: out)
           end
  end.
Definition parseCSVInts (raw : string) : result (list Z) := parse_ints (Split raw ",").

Section Handlers.
Context `{MO : MapOrder} `{UC : UnicodeCase}
  `{JG : Json Groups.persisted_groups} `{JO : Json Offsets.offset_map}.

Definition answer : Type := outcome (Broker * option string).

Definition reply (b : Broker) (response : string) : answer := Returns (b, Some response).
Definition ok (b : Broker) (req : Request) (payload : string) : answer :=
  reply b (Ok (reqCorrelationID req) payload).
Definition fail (b : Broker) (req : Request) (code message : string) : answer :=
  reply b (Err (reqCorrelationID req) code message).
Definition bad (b : Broker) (req : Request) (message : string) : answer :=
  fail b req "BAD_REQUEST" message.

(** [protocol.ParseInt] with its error answered. *)
Definition with_int (b : Broker) (req : Request) (value field : string) (k : Z -> answer) : answer :=
  match ParseInt value field with
  | Failure err => bad b req err
  | Success z => k z
  end.

(** [b.EnsureTopicMetadata] with its error answered. *)
Definition with_topic_md (b : Broker) (req : Request) (topic : string)
    (k : Broker -> TopicMetadata -> answer) : answer :=
  match EnsureTopicMetadata b topic with
  | Panics why => Panics why
  | Returns (b, Failure err) => bad b req err
  | Returns (b, Success md) => k b md
  end.

(** The optional [acks=...] argument of [handleProduce]. *)
Definition ack_mode (rest : list string) : option string :=
  match rest with
  | [] => Some "1"
  | arg :: _ =>
      match SplitN arg "=" 2 with
      | [name; value] =>
          let mode := ToLower value in
          if negb (String.eqb (ToLower name) "acks") then None
          else if String.eqb mode "0" || String.eqb mode "1" || String.eqb mode "all"
          then Some mode else None
      | _ => None
      end
  end.

(** The append of [handleProduce]: the record is stored, then the replication
    manager learns of it. *)
Definition leader_append (b : Broker) (topic : string) (partition : Z) (value : string) : Broker * (Z * Z) :=
  let '(s, w, (partition, offset)) :=
    Storage.ProduceToPartition (bStorage b) (bWorld b) topic partition value in
  let b := set_storage b s w in
  let '(b, now) := tick b in
  (set_replication b (Replication.OnLeaderAppend (bReplication b) topic partition offset now), (partition, offset)).

(** [handleProduce]. *)
Definition handleProduce (req : Request) (b : Broker) (rounds : list Replication.round) : answer :=
  match reqArgs req with
  | topic :: message :: rest =>
      if (1 <? Z.of_nat (length rest)) then
        bad b req "PRODUCE requires: <topic> <key>:<value> [acks=0|1|all]"
      else
      match SplitN message ":" 2 with
      | [key; value] =>
          with_topic_md b req topic (fun b md =>
            let partitionCount := Z.of_nat (size (Partitions md)) in
            if partitionCount <=? 0 then bad b req "topic has no partitions"
            else
            match ack_mode rest with
            | None => bad b req "invalid ack mode; expected acks=0|1|all"
            | Some ackMode =>
                match Storage.PartitionForKeyWithCount key partitionCount with
                | Panics why => Panics why
                | Returns partition =>
                    match Partitions md !! partition with
                    | None => bad b req "partition metadata missing"
                    | Some pm =>
                        if negb (LeaderID pm =? LocalBrokerID b) then
                          fail b req "NOT_LEADER" "partition leader unavailable on this broker"
                        else
                        let '(m, leads) := Replication.IsLeader (bReplication b) topic partition in
                        let b := set_replication b m in
                        if negb leads then
                          fail b req "NOT_LEADER" "partition leader unavailable on this broker"
                        else
                        let '(b, (partition, offset)) := leader_append b topic partition value in
                        let finish b :=
                          let '(b, now) := tick b in
                          let '(m, hw) := Replication.HighWatermark (bReplication b) topic partition now in
                          ok (set_replication b m) req
                            ("partition=" +:+ Itoa partition +:+ " offset=" +:+ Itoa offset
                             +:+ " hw=" +:+ Itoa hw) in
                        if String.eqb ackMode "all" then
                          let '(b, start) := tick b in
                          match Replication.WaitForAckAll (bReplication b) topic partition offset start rounds with
                          | (m, None) => Returns (set_replication b m, None)
                          | (m, Some (Failure err)) =>
                              fail (set_replication b m) req "REPLICATION_TIMEOUT" err
                          | (m, Some (Success _)) => finish (set_replication b m)
                          end
                        else finish b
                    end
                end
            end)
      | _ => bad b req "message must be key:value"
      end
  | _ => bad b req "PRODUCE requires: <topic> <key>:<value> [acks=0|1|all]"
  end.

(** [handleSetPartitionRole]. *)
Definition handleSetPartitionRole (req : Request) (b : Broker) : answer :=
  match reqArgs req with
  | [topic; rawPartition; rawRole] =>
      with_int b req rawPartition "partition" (fun partition =>
      with_topic_md b req topic (fun b _ =>
        let role := ToLower rawRole in
        let '(b, now) := tick b in
        match Replication.SetRole (bReplication b) topic partition role now with
        | (m, Failure err) => bad (set_replication b m) req err
        | (m, Success _) =>
            let b := set_replication b m in
            let leaderID := LocalBrokerID b in
            let '(b, now) := tick b in
            match SetPartitionLeader (bController b) topic partition leaderID [LocalBrokerID b] now with
            | (st, Failure err) => bad (set_controller b st) req err
            | (st, Success _) =>
                let b := set_controller b st in
                let '(b, now) := tick b in
                let '(m, status) := Replication.GetStatus (bReplication b) topic partition now in
                ok (set_replication b m) req
                  ("topic=" +:+ topic +:+ " partition=" +:+ Itoa partition +:+ " role="
                   +:+ Replication.stRole status +:+ " hw=" +:+ Itoa (Replication.stHighWatermark status))
            end
        end))
  | _ => bad b req "SET_PARTITION_ROLE requires: <topic> <partition> <leader|follower>"
  end.

(** The loop of [handleConsume]: it stops at the first uncommitted message. *)
Fixpoint committed (hw : Z) (messages : list Storage.Message) : list Storage.Message :=
  match messages with
  | [] => []
  | msg :: rest => if hw <? Storage.Offset msg then [] else msg :: committed hw rest
  end.

Definition print_message (m : Storage.Message) : string :=
  Itoa (Storage.Offset m) +:+ ":" +:+ Storage.Value m.

(** [handleConsume]. *)
Definition handleConsume (req : Request) (b : Broker) : answer :=
  match reqArgs req with
  | [topic; rawPartition; rawOffset] =>
      with_int b req rawPartition "partition" (fun partition =>
      with_int b req rawOffset "offset" (fun offset =>
      with_topic_md b req topic (fun b md =>
        match Partitions md !! partition with
        | None => bad b req "invalid partition"
        | Some _ =>
            let '(b, now) := tick b in
            let '(m, highWatermark) := Replication.HighWatermark (bReplication b) topic partition now in
            let b := set_replication b m in
            let empty := "messages= hw=" +:+ Itoa highWatermark in
            if (highWatermark <? 0) || (highWatermark <? offset) then ok b req empty
            else
              match Storage.Consume (bStorage b) topic partition offset with
              | Panics why => Panics why
              | Returns messages =>
                  match map print_message (committed highWatermark messages) with
                  | [] => ok b req empty
                  | filtered =>
                      ok b req ("messages=" +:+ Join filtered "," +:+ " hw=" +:+ Itoa highWatermark)
                  end
              end
        end)))
  | _ => bad b req "CONSUME requires: <topic> <partition> <offset>"
  end.

(** The coordinator's two managers inside the broker. *)
Definition set_groups (b : Broker) (gm : Groups.GroupManager) : Broker :=
  set_coordinator b (Offsets.mkCoordinator _ _ gm (Offsets.coOffsets (bCoordinator b))).
Definition set_offsets (b : Broker) (om : Offsets.OffsetManager) : Broker :=
  set_coordinator b (Offsets.mkCoordinator _ _ (Offsets.coGroups (bCoordinator b)) om).
Definition groups_of (b : Broker) : Groups.GroupManager := Offsets.coGroups (bCoordinator b).
Definition offsets_of (b : Broker) : Offsets.OffsetManager := Offsets.coOffsets (bCoordinator b).

Definition print_join (r : Groups.JoinResult) : string :=
  "generation=" +:+ Itoa (Groups.Generation r) +:+ " assigned=" +:+ fmt_ints (Groups.Assigned r).

(** The optional [assignor=...] argument of [handleJoin]. *)
Definition assignor_arg (rest : list string) : option string :=
  match rest with
  | [] => Some ""
  | arg :: _ =>
      match SplitN arg "=" 2 with
      | [name; value] =>
          let assignor := ToLower value in
          if negb (String.eqb (ToLower name) "assignor") then None
          else if String.eqb assignor "round_robin" || String.eqb assignor "range"
          then Some assignor else None
      | _ => None
      end
  end.

(** [handleJoin]. *)
Definition handleJoin (req : Request) (b : Broker) : answer :=
  let usage := "JOIN requires: <group> <topic> <consumer_id> [assignor=round_robin|range]" in
  match reqArgs req with
  | groupName :: topic :: consumerID :: rest =>
      if 1 <? Z.of_nat (length rest) then bad b req usage
      else
      match assignor_arg rest with
      | None => bad b req "invalid assignor; expected assignor=round_robin|range"
      | Some assignor =>
          let '(b, now) := tick b in
          let '(gm, r) := Groups.JoinGroup (groups_of b) groupName topic consumerID assignor now in
          ok (set_groups b gm) req (print_join r)
      end
  | _ => bad b req usage
  end.

(** [handleSync]. *)
Definition handleSync (req : Request) (b : Broker) : answer :=
  match reqArgs req with
  | [groupName; topic; consumerID; rawGeneration] =>
      with_int b req rawGeneration "generation" (fun generation =>
        let '(b, now) := tick b in
        let '(b, now2) := tick b in
        match Groups.SyncGroup (groups_of b) groupName topic consumerID generation now now2 with
        | (gm, Failure err) => fail (set_groups b gm) req "GENERATION_MISMATCH" err
        | (gm, Success r) => ok (set_groups b gm) req (print_join r)
        end)
  | _ => bad b req "SYNC requires: <group> <topic> <consumer_id> <generation>"
  end.

(** [handleHeartbeat]. *)
Definition handleHeartbeat (req : Request) (b : Broker) : answer :=
  match reqArgs req with
  | [groupName; topic; consumerID; rawGeneration] =>
      with_int b req rawGeneration "generation" (fun generation =>
        let '(b, now) := tick b in
        let '(b, now2) := tick b in
        match Groups.Heartbeat (groups_of b) groupName topic consumerID generation now now2 with
        | (gm, Failure err) => fail (set_groups b gm) req "GENERATION_MISMATCH" err
        | (gm, Success _) => ok (set_groups b gm) req "heartbeat=ok"
        end)
  | _ => bad b req "HEARTBEAT requires: <group> <topic> <consumer_id> <generation>"
  end.

(** [handleLeave]. *)
Definition handleLeave (req : Request) (b : Broker) : answer :=
  match reqArgs req with
  | [groupName; topic; consumerID; rawGeneration] =>
      with_int b req rawGeneration "generation" (fun generation =>
        let '(b, now) := tick b in
        match Groups.LeaveGroup (groups_of b) groupName topic consumerID generation now with
        | (gm, Failure err) => fail (set_groups b gm) req "GENERATION_MISMATCH" err
        | (gm, Success _) => ok (set_groups b gm) req "left=true"
        end)
  | _ => bad b req "LEAVE requires: <group> <topic> <consumer_id> <generation>"
  end.

(** [handleCommit]. *)
Definition handleCommit (req : Request) (b : Broker) : answer :=
  match reqArgs req with
  | [groupName; topic; consumerID; rawGeneration; rawPartition; rawOffset] =>
      with_int b req rawGeneration "generation" (fun generation =>
      with_int b req rawPartition "partition" (fun partition =>
      with_int b req rawOffset "offset" (fun offset =>
        let '(b, now) := tick b in
        match Groups.ValidateCommit (groups_of b) groupName topic consumerID generation partition now with
        | (gm, Failure err) => fail (set_groups b gm) req "GENERATION_MISMATCH" err
        | (gm, Success _) =>
            let b := set_groups b gm in
            ok (set_offsets b (Offsets.Commit (offsets_of b) groupName topic partition offset)) req
              "committed=true"
        end)))
  | _ => bad b req "COMMIT requires: <group> <topic> <consumer_id> <generation> <partition> <offset>"
  end.

(** [handleOffset]. *)
Definition handleOffset (req : Request) (b : Broker) : answer :=
  match reqArgs req with
  | [groupName; topic; rawPartition] =>
      with_int b req rawPartition "partition" (fun partition =>
        ok b req ("offset=" +:+ Itoa (Offsets.GetOffset (offsets_of b) groupName topic partition)))
  | _ => bad b req "OFFSET requires: <group> <topic> <partition>"
  end.

(** [b.Replication.AckReplica] followed by [b.Replication.Status]. *)
Definition with_ack (b : Broker) (req : Request) (topic : string) (partition replicaID offset : Z)
    (k : Broker -> Replication.Status -> answer) : answer :=
  let '(b, seen) := tick b in
  let '(b, now) := tick b in
  match Replication.AckReplica (bReplication b) topic partition replicaID offset seen now with
  | (m, Failure err) => bad (set_replication b m) req err
  | (m, Success _) =>
      let '(b, now) := tick (set_replication b m) in
      let '(m, status) := Replication.GetStatus (bReplication b) topic partition now in
      k (set_replication b m) status
  end.

(** [handleReplicaFetch]. *)
Definition handleReplicaFetch (req : Request) (b : Broker) : answer :=
  match reqArgs req with
  | [topic; rawPartition; rawReplica; rawOffset] =>
      with_int b req rawPartition "partition" (fun partition =>
      with_int b req rawReplica "replica_id" (fun replicaID =>
      with_int b req rawOffset "offset" (fun offset =>
      with_ack b req topic partition replicaID offset (fun b status =>
        ok b req ("replica=" +:+ Itoa replicaID +:+ " acked_offset=" +:+ Itoa offset
          +:+ " hw=" +:+ Itoa (Replication.stHighWatermark status)
          +:+ " isr=" +:+ fmt_ints (Replication.stInSyncReplicas status)
          +:+ " under_replicated=" +:+ fmt_bool (Replication.stUnderReplicated status))))))
  | _ => bad b req "REPLICA_FETCH requires: <topic> <partition> <replica_id> <offset>"
  end.

(** [handleBrokerFetch]. *)
Definition handleBrokerFetch (req : Request) (b : Broker) : answer :=
  let usage := "BROKER_FETCH requires: <topic> <partition> <follower_id> <offset> [max_messages]" in
  match reqArgs req with
  | topic :: rawPartition :: rawFollower :: rawOffset :: rest =>
      if 1 <? Z.of_nat (length rest) then bad b req usage
      else
      with_int b req rawPartition "partition" (fun partition =>
      with_int b req rawFollower "follower_id" (fun followerID =>
      with_int b req rawOffset "offset" (fun offset =>
        let serve maxMessages :=
          let '(m, leads) := Replication.IsLeader (bReplication b) topic partition in
          let b := set_replication b m in
          if negb leads then fail b req "NOT_LEADER" "partition leader unavailable on this broker"
          else
          let '(b, now) := tick b in
          let '(m, status) := Replication.GetStatus (bReplication b) topic partition now in
          let b := set_replication b m in
          let highWatermark := Replication.stHighWatermark status in
          let leaderOffset := Replication.stLeaderOffset status in
          if (leaderOffset <? 0) || (leaderOffset <? offset) then
            ok b req (broker_fetch_payload topic partition followerID highWatermark [])
          else
            match Storage.Consume (bStorage b) topic partition offset with
            | Panics why => Panics why
            | Returns messages =>
                if max_string_cap <? maxMessages then Panics "makeslice: cap out of range"
                else ok b req (broker_fetch_payload topic partition followerID highWatermark
                       (map print_message (take (Z.to_nat maxMessages) messages)))
            end in
        match rest with
        | [] => serve 100
        | rawMax :: _ =>
            with_int b req rawMax "max_messages" (fun maxMessages =>
              if maxMessages <=? 0 then bad b req "max_messages must be > 0" else serve maxMessages)
        end)))
  | _ => bad b req usage
  end.

(** [handleBrokerReplicaAck]. *)
Definition handleBrokerReplicaAck (req : Request) (b : Broker) : answer :=
  match reqArgs req with
  | [topic; rawPartition; rawFollower; rawOffset] =>
      with_int b req rawPartition "partition" (fun partition =>
      with_int b req rawFollower "follower_id" (fun followerID =>
      with_int b req rawOffset "acked_offset" (fun ackedOffset =>
      with_ack b req topic partition followerID ackedOffset (fun b status =>
        ok b req ("topic=" +:+ topic +:+ " partition=" +:+ Itoa partition
          +:+ " follower=" +:+ Itoa followerID +:+ " acked_offset=" +:+ Itoa ackedOffset
          +:+ " hw=" +:+ Itoa (Replication.stHighWatermark status)
          +:+ " isr=" +:+ fmt_ints (Replication.stInSyncReplicas status)
          +:+ " under_replicated=" +:+ fmt_bool (Replication.stUnderReplicated status))))))
  | _ => bad b req "BROKER_REPLICA_ACK requires: <topic> <partition> <follower_id> <acked_offset>"
  end.

(** The end of most admin handlers: the controller's result and its position. *)
Definition print_position (r : ApplyResult) : string :=
  " term=" +:+ Itoa (resTerm r) +:+ " index=" +:+ Itoa (resIndex r).

Definition admin_reply (b : Broker) (req : Request) (r : RaftMetadataStore * result ApplyResult)
    (payload : string) : answer :=
  match r with
  | (st, Failure err) => bad (set_controller b st) req err
  | (st, Success result) => ok (set_controller b st) req (payload +:+ print_position result)
  end.

(** [handleAdminCreateTopic]. *)
Definition handleAdminCreateTopic (req : Request) (b : Broker) : answer :=
  match reqArgs req with
  | [topic; rawPartitions; rawFactor] =>
      with_int b req rawPartitions "partitions" (fun partitions =>
      with_int b req rawFactor "replication_factor" (fun replicationFactor =>
        let '(b, now) := tick b in
        match CreateTopic (bController b) topic partitions replicationFactor now with
        | Panics why => Panics why
        | Returns r =>
            admin_reply b req r ("topic=" +:+ topic +:+ " partitions=" +:+ Itoa partitions
              +:+ " replication_factor=" +:+ Itoa replicationFactor)
        end))
  | _ => bad b req "ADMIN_CREATE_TOPIC requires: <topic> <partitions> <replication_factor>"
  end.

(** [handleAdminRegisterBroker]. *)
Definition handleAdminRegisterBroker (req : Request) (b : Broker) : answer :=
  let usage := "ADMIN_REGISTER_BROKER requires: <broker_id> <host> <port> [epoch]" in
  match reqArgs req with
  | rawID :: host :: rawPort :: rest =>
      if 1 <? Z.of_nat (length rest) then bad b req usage
      else
      with_int b req rawID "broker_id" (fun brokerID =>
      with_int b req rawPort "port" (fun port =>
        let register epoch :=
          let '(b, now_epoch) := tick b in
          let '(b, now) := tick b in
          admin_reply b req (RegisterBroker (bController b) brokerID host port epoch now_epoch now)
            ("broker_id=" +:+ Itoa brokerID +:+ " host=" +:+ host +:+ " port=" +:+ Itoa port) in
        match rest with
        | [] => register 0
        | rawEpoch :: _ =>
            match Atoi rawEpoch with
            | None => bad b req "invalid epoch"
            | Some epoch => register epoch
            end
        end))
  | _ => bad b req usage
  end.

(** [handleAdminBrokerHeartbeat]. *)
Definition handleAdminBrokerHeartbeat (req : Request) (b : Broker) : answer :=
  match reqArgs req with
  | [rawID] =>
      with_int b req rawID "broker_id" (fun brokerID =>
        let '(b, now) := tick b in
        admin_reply b req (HeartbeatBroker (bController b) brokerID now)
          ("broker_id=" +:+ Itoa brokerID +:+ " heartbeat=ok"))
  | _ => bad b req "ADMIN_BROKER_HEARTBEAT requires: <broker_id>"
  end.

(** [handleAdminReconcileBrokerHealth]. *)
Definition handleAdminReconcileBrokerHealth (req : Request) (b : Broker) : answer :=
  match reqArgs req with
  | [rawTimeout] =>
      with_int b req rawTimeout "timeout_ms" (fun timeoutMs =>
        let '(b, now) := tick b in
        match ReconcileBrokerHealth (bController b) (int_mul timeoutMs Millisecond) now with
        | (st, (_, Some err)) => bad (set_controller b st) req err
        | (st, (changes, None)) => ok (set_controller b st) req ("reconciled=" +:+ Itoa changes)
        end)
  | _ => bad b req "ADMIN_RECONCILE_BROKER_HEALTH requires: <timeout_ms>"
  end.

(** [handleAdminFenceBroker] and [handleAdminUnfenceBroker]. *)
Definition handleAdminFenceBroker (req : Request) (b : Broker) : answer :=
  match reqArgs req with
  | [rawID] =>
      with_int b req rawID "broker_id" (fun brokerID =>
        let '(b, now) := tick b in
        admin_reply b req (SetBrokerFence (bController b) brokerID true now)
          ("broker_id=" +:+ Itoa brokerID +:+ " fenced=true"))
  | _ => bad b req "ADMIN_FENCE_BROKER requires: <broker_id>"
  end.

Definition handleAdminUnfenceBroker (req : Request) (b : Broker) : answer :=
  match reqArgs req with
  | [rawID] =>
      with_int b req rawID "broker_id" (fun brokerID =>
        let '(b, now) := tick b in
        admin_reply b req (SetBrokerFence (bController b) brokerID false now)
          ("broker_id=" +:+ Itoa brokerID +:+ " fenced=false"))
  | _ => bad b req "ADMIN_UNFENCE_BROKER requires: <broker_id>"
  end.

(** [handleAdminSetPartitionLeader]. *)
Definition handleAdminSetPartitionLeader (req : Request) (b : Broker) : answer :=
  match reqArgs req with
  | [topic; rawPartition; rawLeader; rawISR] =>
      with_int b req rawPartition "partition" (fun partition =>
      with_int b req rawLeader "leader_id" (fun leaderID =>
        match parseCSVInts rawISR with
        | Failure err => bad b req err
        | Success isr =>
            let '(b, now) := tick b in
            admin_reply b req (SetPartitionLeader (bController b) topic partition leaderID isr now)
              ("topic=" +:+ topic +:+ " partition=" +:+ Itoa partition +:+ " leader=" +:+ Itoa leaderID
               +:+ " isr=" +:+ fmt_ints isr)
        end))
  | _ => bad b req "ADMIN_SET_PARTITION_LEADER requires: <topic> <partition> <leader_id> <isr_csv>"
  end.

(** [handleAdminElectTopicLeaders]. *)
Definition handleAdminElectTopicLeaders (req : Request) (b : Broker) : answer :=
  match reqArgs req with
  | [topic] =>
      let '(b, now) := tick b in
      match ElectTopicLeaders (bController b) topic now with
      | (st, (_, Some err)) => bad (set_controller b st) req err
      | (st, (changes, None)) =>
          ok (set_controller b st) req ("topic=" +:+ topic +:+ " elected_changes=" +:+ Itoa changes)
      end
  | _ => bad b req "ADMIN_ELECT_TOPIC_LEADERS requires: <topic>"
  end.

(** [handleAdminGetMetadata]. *)
Definition handleAdminGetMetadata (req : Request) (b : Broker) : answer :=
  match reqArgs req with
  | [] =>
      let s := Snapshot (bController b) in
      let topicNames := sort_strings (map fst (map_range (Topics s))) in
      let brokerIDs := sort_ints (map fst (map_range (Brokers s))) in
      let fenced := List.filter (fun id =>
        match Brokers s !! id with Some br => Fenced br | None => false end) brokerIDs in
      ok b req ("topics=" +:+ fmt_strings topicNames +:+ " brokers=" +:+ fmt_ints brokerIDs
        +:+ " fenced=" +:+ fmt_ints fenced)
  | _ => bad b req "ADMIN_GET_METADATA requires no args"
  end.

(** [handleRequest]. *)
Definition handleRequest (req : Request) (b : Broker) (rounds : list Replication.round) : answer :=
  let cmd name := String.eqb (reqCommand req) name in
  if cmd "PRODUCE" then handleProduce req b rounds
  else if cmd "CONSUME" then handleConsume req b
  else if cmd "JOIN" then handleJoin req b
  else if cmd "SYNC" then handleSync req b
  else if cmd "HEARTBEAT" then handleHeartbeat req b
  else if cmd "LEAVE" then handleLeave req b
  else if cmd "COMMIT" then handleCommit req b
  else if cmd "OFFSET" then handleOffset req b
  else if cmd "REPLICA_FETCH" then handleReplicaFetch req b
  else if cmd "BROKER_FETCH" then handleBrokerFetch req b
  else if cmd "BROKER_REPLICA_ACK" then handleBrokerReplicaAck req b
  else if cmd "SET_PARTITION_ROLE" then handleSetPartitionRole req b
  else if cmd "ADMIN_CREATE_TOPIC" then handleAdminCreateTopic req b
  else if cmd "ADMIN_REGISTER_BROKER" then handleAdminRegisterBroker req b
  else if cmd "ADMIN_BROKER_HEARTBEAT" then handleAdminBrokerHeartbeat req b
  else if cmd "ADMIN_RECONCILE_BROKER_HEALTH" then handleAdminReconcileBrokerHealth req b
  else if cmd "ADMIN_FENCE_BROKER" then handleAdminFenceBroker req b
  else if cmd "ADMIN_UNFENCE_BROKER" then handleAdminUnfenceBroker req b
  else if cmd "ADMIN_SET_PARTITION_LEADER" then handleAdminSetPartitionLeader req b
  else if cmd "ADMIN_ELECT_TOPIC_LEADERS" then handleAdminElectTopicLeaders req b
  else if cmd "ADMIN_GET_METADATA" then handleAdminGetMetadata req b
  else fail b req "UNKNOWN_COMMAND" "unsupported command".

(** [HandleConnection]: one line at a time; a produce that waits forever stops the
    connection. The responses written, in order. *)
Fixpoint serve (b : Broker) (lines : list (string * list Replication.round)) (out : list string)
    : outcome (Broker * list string) :=
  match lines with
  | [] => Returns (b, out)
  | (line, rounds) :: rest =>
      match ParseRequest line with
      | Failure err => serve b rest (out ++ [Err "0" "BAD_REQUEST" err])
      | Success req =>
          match handleRequest req b rounds with
          | Panics why => Panics why
          | Returns (b, None) => Returns (b, out)
          | Returns (b, Some response) => serve b rest (out ++ [response])
          end
      end
  end.

(** ** What every answer satisfies

    [sane om req a]: a response echoes the request's correlation id, and the
    committed offsets are [om]. *)
Definition sane (om : Offsets.OffsetManager) (req : Request) (a : answer) : Prop :=
  match a with
  | Panics _ => True
  | Returns (b', r) =>
      offsets_of b' = om
      /\ forall resp, r = Some resp ->
         (exists payload, resp = Ok (reqCorrelationID req) payload)
         \/ (exists code msg, resp = Err (reqCorrelationID req) code msg)
  end.

Lemma sane_ok om req b payload : offsets_of b = om -> sane om req (ok b req payload).
Proof. intros Hb. split; [done|]. intros resp [= <-]. eauto. Qed.

Lemma sane_fail om req b code msg : offsets_of b = om -> sane om req (fail b req code msg).
Proof. intros Hb. split; [done|]. intros resp [= <-]. eauto. Qed.

Lemma sane_bad om req b msg : offsets_of b = om -> sane om req (bad b req msg).
Proof. apply sane_fail. Qed.

Lemma tick_offsets b b' now : tick b = (b', now) -> offsets_of b' = offsets_of b.
Proof. unfold tick. destruct (Now (bWorld b)). by intros [= <- <-]. Qed.

Lemma sane_with_int om req b v f k :
  offsets_of b = om -> (forall z, sane om req (k z)) -> sane om req (with_int b req v f k).
Proof. intros Hb Hk. unfold with_int. destruct (ParseInt v f); [done|by apply sane_bad]. Qed.

Lemma ensure_offsets b topic b' r :
  EnsureTopicMetadata b topic = Returns (b', r) -> offsets_of b' = offsets_of b.
Proof.
  unfold EnsureTopicMetadata. destruct (String.eqb topic ""); [by intros [= <- <-]|].
  destruct (Topics _ !! topic); [by intros [= <- <-]|].
  destruct (tick b) as [b1 now] eqn:Et. apply tick_offsets in Et.
  destruct (CreateTopic _ _ _ _ _) as [[st [a|e]]|why]; cbn [outcome_bind]; [|by intros [= <- <-]|done].
  destruct (lead_loop _ _ _ _ _ _) as [st2 [e|]]; by intros [= <- <-].
Qed.

Lemma sane_with_topic om req b topic k :
  offsets_of b = om -> (forall b' md, offsets_of b' = om -> sane om req (k b' md)) ->
  sane om req (with_topic_md b req topic k).
Proof.
  intros Hb Hk. unfold with_topic_md. destruct (EnsureTopicMetadata b topic) as [[b' [md|e]]|why] eqn:E;
    [| |done]; apply ensure_offsets in E; [apply Hk|apply sane_bad]; congruence.
Qed.

Lemma sane_admin om req b r payload : offsets_of b = om -> sane om req (admin_reply b req r payload).
Proof. intros Hb. destruct r as [st [a|e]]; [by apply sane_ok|by apply sane_bad]. Qed.

Create HintDb flux_handler.
#[local] Hint Resolve sane_ok sane_fail sane_bad sane_admin : flux_handler.

(** The setters of the other components keep the offsets. *)
Lemma offs_replication b m : offsets_of (set_replication b m) = offsets_of b.
Proof. done. Qed.
Lemma offs_controller b st : offsets_of (set_controller b st) = offsets_of b.
Proof. done. Qed.
Lemma offs_groups b gm : offsets_of (set_groups b gm) = offsets_of b.
Proof. done. Qed.
Lemma offs_storage b s w : offsets_of (set_storage b s w) = offsets_of b.
Proof. done. Qed.
Create Rewrite HintDb flux_offs.
#[local] Hint Rewrite offs_replication offs_controller offs_groups offs_storage : flux_offs.
Ltac offs := autorewrite with flux_offs in *; congruence.

Lemma leader_append_offsets b t p v b' r : leader_append b t p v = (b', r) -> offsets_of b' = offsets_of b.
Proof.
  unfold leader_append. destruct (Storage.ProduceToPartition _ _ _ _ _) as [[s w] [p' off]].
  destruct (tick _) as [b1 now] eqn:E. apply tick_offsets in E. intros [= <- _]. offs.
Qed.

(** Walk through a handler: read the clock, split on each test, close the leaves. *)
Ltac walk :=
  repeat first
    [ progress intros
    | apply sane_with_int
    | apply sane_with_topic
    | match goal with
      | E : tick _ = _ |- _ => apply tick_offsets in E
      | E : leader_append _ _ _ _ = _ |- _ => apply leader_append_offsets in E
      | |- sane _ _ (let '(_, _) := tick ?b in _) => let E := fresh "E" in destruct (tick b) eqn:E
      | |- sane _ _ (match leader_append ?b ?t ?p ?v with _ => _ end) =>
          let E := fresh "E" in destruct (leader_append b t p v) eqn:E
      | |- sane _ _ (match ?x with _ => _ end) => destruct x
      | |- sane _ _ (if ?x then _ else _) => destruct x
      | |- sane _ _ (let x := _ in _) => cbv zeta
      | |- sane _ _ (Panics _) => exact I
      end
    | solve [eauto with flux_handler]
    | (apply sane_ok || apply sane_fail || apply sane_bad || apply sane_admin); offs ].

Lemma sane_with_ack om req b topic p id off k :
  offsets_of b = om -> (forall b' s, offsets_of b' = om -> sane om req (k b' s)) ->
  sane om req (with_ack b req topic p id off k).
Proof.
  intros Hb Hk. unfold with_ack.
  destruct (tick b) as [b1 seen] eqn:E1. destruct (tick b1) as [b2 now] eqn:E2.
  apply tick_offsets in E1, E2.
  destruct (Replication.AckReplica _ _ _ _ _ _ _) as [m [u|e]].
  - destruct (tick (set_replication b2 m)) as [b3 now3] eqn:E3. apply tick_offsets in E3.
    destruct (Replication.GetStatus _ _ _ _) as [m' s]. apply Hk.
    change (offsets_of (set_replication b3 m')) with (offsets_of b3).
    rewrite E3. change (offsets_of (set_replication b2 m)) with (offsets_of b2). congruence.
  - apply sane_bad. change (offsets_of b2 = om). congruence.
Qed.

Lemma sane_consume req b : sane (offsets_of b) req (handleConsume req b).
Proof. unfold handleConsume. walk. Qed.

Lemma sane_join req b : sane (offsets_of b) req (handleJoin req b).
Proof. unfold handleJoin. walk. Qed.

Lemma sane_sync req b : sane (offsets_of b) req (handleSync req b).
Proof. unfold handleSync. walk. Qed.

Lemma sane_heartbeat req b : sane (offsets_of b) req (handleHeartbeat req b).
Proof. unfold handleHeartbeat. walk. Qed.

Lemma sane_leave req b : sane (offsets_of b) req (handleLeave req b).
Proof. unfold handleLeave. walk. Qed.

Lemma sane_offset req b : sane (offsets_of b) req (handleOffset req b).
Proof. unfold handleOffset. walk. Qed.

Lemma sane_replica_fetch req b : sane (offsets_of b) req (handleReplicaFetch req b).
Proof. unfold handleReplicaFetch. walk. apply sane_with_ack; walk. Qed.

Lemma sane_replica_ack req b : sane (offsets_of b) req (handleBrokerReplicaAck req b).
Proof. unfold handleBrokerReplicaAck. walk. apply sane_with_ack; walk. Qed.

Lemma sane_broker_fetch req b : sane (offsets_of b) req (handleBrokerFetch req b).
Proof. unfold handleBrokerFetch. walk. Qed.

Lemma sane_set_role req b : sane (offsets_of b) req (handleSetPartitionRole req b).
Proof. unfold handleSetPartitionRole. walk. Qed.

Lemma sane_create_topic req b : sane (offsets_of b) req (handleAdminCreateTopic req b).
Proof. unfold handleAdminCreateTopic. walk. Qed.

Lemma sane_register req b : sane (offsets_of b) req (handleAdminRegisterBroker req b).
Proof. unfold handleAdminRegisterBroker. walk. Qed.

Lemma sane_broker_heartbeat req b : sane (offsets_of b) req (handleAdminBrokerHeartbeat req b).
Proof. unfold handleAdminBrokerHeartbeat. walk. Qed.

Lemma sane_reconcile req b : sane (offsets_of b) req (handleAdminReconcileBrokerHealth req b).
Proof. unfold handleAdminReconcileBrokerHealth. walk. Qed.

Lemma sane_fence req b : sane (offsets_of b) req (handleAdminFenceBroker req b).
Proof. unfold handleAdminFenceBroker. walk. Qed.

Lemma sane_unfence req b : sane (offsets_of b) req (handleAdminUnfenceBroker req b).
Proof. unfold handleAdminUnfenceBroker. walk. Qed.

Lemma sane_set_leader req b : sane (offsets_of b) req (handleAdminSetPartitionLeader req b).
Proof. unfold handleAdminSetPartitionLeader. walk. Qed.

Lemma sane_elect req b : sane (offsets_of b) req (handleAdminElectTopicLeaders req b).
Proof. unfold handleAdminElectTopicLeaders. walk. Qed.

Lemma sane_metadata req b : sane (offsets_of b) req (handleAdminGetMetadata req b).
Proof. unfold handleAdminGetMetadata. walk. Qed.

Lemma sane_produce req b rounds : sane (offsets_of b) req (handleProduce req b rounds).
Proof. unfold handleProduce. walk. all: split; [offs|done]. Qed.

(** A commit request that passed validation. *)
Definition valid_commit (req : Request) (b b' : Broker) : Prop :=
  exists g t c rawGen rawPart rawOff gen p off now gm',
    reqCommand req = "COMMIT" /\ reqArgs req = [g; t; c; rawGen; rawPart; rawOff]
    /\ Atoi rawGen = Some gen /\ Atoi rawPart = Some p /\ Atoi rawOff = Some off
    /\ Groups.ValidateCommit (groups_of b) g t c gen p now = (gm', Success ())
    /\ offsets_of b' = Offsets.Commit (offsets_of b) g t p off.

Lemma commit_cases req b b' r :
  reqCommand req = "COMMIT" -> handleCommit req b = Returns (b', r) ->
  (offsets_of b' = offsets_of b \/ valid_commit req b b')
  /\ forall resp, r = Some resp ->
     (exists payload, resp = Ok (reqCorrelationID req) payload)
     \/ (exists code msg, resp = Err (reqCorrelationID req) code msg).
Proof.
  intros Hcmd. unfold handleCommit.
  assert (forall b0 msg, offsets_of b0 = offsets_of b -> bad b0 req msg = Returns (b', r) ->
    (offsets_of b' = offsets_of b \/ valid_commit req b b')
    /\ forall resp, r = Some resp ->
       (exists payload, resp = Ok (reqCorrelationID req) payload)
       \/ (exists code msg, resp = Err (reqCorrelationID req) code msg)) as Hbad.
  { intros b0 msg Hb0 [= <- <-]. split; [by left|]. intros resp [= <-]. eauto. }
  destruct (reqArgs req) as [|g [|t [|c [|rawGen [|rawPart [|rawOff [|]]]]]]] eqn:Ea; try (by apply Hbad).
  unfold with_int, ParseInt.
  destruct (Atoi rawGen) as [gen|] eqn:Eg; [|by apply Hbad].
  destruct (Atoi rawPart) as [p|] eqn:Ep; [|by apply Hbad].
  destruct (Atoi rawOff) as [off|] eqn:Eo; [|by apply Hbad].
  destruct (tick b) as [b1 now] eqn:Et.
  assert (offsets_of b1 = offsets_of b /\ groups_of b1 = groups_of b) as [Ho Hgr].
  { unfold tick in Et. destruct (Now (bWorld b)). by injection Et as <- <-. }
  destruct (Groups.ValidateCommit (groups_of b1) g t c gen p now) as [gm [[]|e]] eqn:Ev; intros [= <- <-].
  - split; [right|intros resp [= <-]; eauto].
    exists g, t, c, rawGen, rawPart, rawOff, gen, p, off, now, gm. rewrite <- Hgr.
    split_and!; try done. cbn [set_offsets offsets_of set_coordinator bCoordinator Offsets.coOffsets].
    change (offsets_of (set_groups b1 gm)) with (offsets_of b1). by rewrite Ho.
  - split; [by left|]. intros resp [= <-]. eauto.
Qed.

Lemma request_cases req b rounds b' r :
  handleRequest req b rounds = Returns (b', r) ->
  (offsets_of b' = offsets_of b \/ valid_commit req b b')
  /\ forall resp, r = Some resp ->
     (exists payload, resp = Ok (reqCorrelationID req) payload)
     \/ (exists code msg, resp = Err (reqCorrelationID req) code msg).
Proof.
  assert (forall a, sane (offsets_of b) req a -> a = Returns (b', r) ->
    (offsets_of b' = offsets_of b \/ valid_commit req b b')
    /\ forall resp, r = Some resp ->
       (exists payload, resp = Ok (reqCorrelationID req) payload)
       \/ (exists code msg, resp = Err (reqCorrelationID req) code msg)) as Hsane.
  { intros a Ha ->. destruct Ha as [Ho Hr]. by split; [left|]. }
  unfold handleRequest.
  repeat match goal with
  | |- (if String.eqb (reqCommand req) "COMMIT" then _ else _) = _ -> _ =>
      destruct (String.eqb_spec (reqCommand req) "COMMIT"); [by apply commit_cases|]
  | |- (if ?c then _ else _) = _ -> _ => destruct c; [apply Hsane|]
  end; try (by apply Hsane, sane_fail); auto using sane_produce, sane_consume, sane_join, sane_sync, sane_heartbeat, sane_leave,
    sane_offset, sane_replica_fetch, sane_broker_fetch, sane_replica_ack, sane_set_role,
    sane_create_topic, sane_register, sane_broker_heartbeat, sane_reconcile, sane_fence,
    sane_unfence, sane_set_leader, sane_elect, sane_metadata.
Qed.

(** every answer names its request. Whatever the command and its arguments, a
    response is an OK or an ERR line that carries the correlation id of the request
    it answers. *)
Theorem response_echoes_request req b rounds b' resp :
  handleRequest req b rounds = Returns (b', Some resp) ->
  (exists payload, resp = Ok (reqCorrelationID req) payload)
  \/ (exists code msg, resp = Err (reqCorrelationID req) code msg).
Proof. intros H. by apply request_cases in H as [_ H]; apply H. Qed.

(** C9: only validated commits move offsets. No request changes the committed
    offsets, except a COMMIT whose numbers parse and which [ValidateCommit]
    accepted (current generation, live member, owned partition); it changes exactly
    the offset of its group, topic and partition. *)
Theorem offsets_move_only_by_valid_commit req b rounds b' r :
  handleRequest req b rounds = Returns (b', r) ->
  offsets_of b' <> offsets_of b -> valid_commit req b b'.
Proof. intros H Hne. apply request_cases in H as [[E|Hv] _]; done. Qed.

Lemma committed_le hw l : Forall (fun m => Storage.Offset m <= hw) (committed hw l).
Proof.
  induction l as [|m l IH]; [constructor|]. simpl. destruct (Z.ltb_spec hw (Storage.Offset m)); constructor; auto.
Qed.

Lemma committed_prefix hw l : committed hw l `prefix_of` l.
Proof.
  induction l as [|m l IH]; [done|]. simpl. destruct (hw <? _); [apply prefix_nil|]. by apply prefix_cons.
Qed.

(** C8: consumers see committed messages only. Whenever a CONSUME with a known
    partition and a non-negative offset is answered, the answer lists a run of
    messages of the partition's log, all with offsets up to the high watermark it
    reports, which is the replication manager's. *)
Theorem consume_only_committed req b topic rawP rawO p o md pm :
  reqArgs req = [topic; rawP; rawO] -> Atoi rawP = Some p -> Atoi rawO = Some o -> 0 <= o ->
  EnsureTopicMetadata b topic = Returns (b, Success md) -> Partitions md !! p = Some pm ->
  exists b' hw ms, handleConsume req b
    = ok b' req ("messages=" +:+ Join (map print_message ms) "," +:+ " hw=" +:+ Itoa hw)
  /\ hw = Replication.highWatermark (Replication.get_partition (bReplication b') topic p)
  /\ Forall (fun m => Storage.Offset m <= hw) ms
  /\ exists skipped rest, Storage.log_of (bStorage b) topic p = skipped ++ ms ++ rest.
Proof.
  intros Ha Hp Ho Hge Hmd Hpm. unfold handleConsume. rewrite Ha. unfold with_int, ParseInt.
  rewrite Hp, Ho. unfold with_topic_md. rewrite Hmd, Hpm. destruct (tick b) as [b1 now] eqn:Et.
  assert (bStorage b1 = bStorage b) as Hst by (unfold tick in Et; destruct (Now (bWorld b)); by injection Et as <- <-).
  destruct (Replication.HighWatermark (bReplication b1) topic p now) as [m hw] eqn:Eh.
  assert (hw = Replication.highWatermark (Replication.get_partition m topic p)) as Hhw.
  { unfold Replication.HighWatermark in Eh. destruct (Replication.ensurePartition _ _ _). by injection Eh as <- <-. }
  set (b2 := set_replication b1 m).
  assert (exists s r, Storage.log_of (bStorage b) topic p = s ++ ([] : list Storage.Message) ++ r) as Hnone
    by (by exists [], (Storage.log_of (bStorage b) topic p)).
  destruct ((hw <? 0) || (hw <? o)).
  { exists b2, hw, []. split; [done|]. split; [done|]. by split; [constructor|]. }
  assert (exists ms skipped, Storage.Consume (bStorage b2) topic p o = Returns ms
    /\ Storage.log_of (bStorage b) topic p = skipped ++ ms) as (ms & skipped & Hc & Hlog).
  { change (bStorage b2) with (bStorage b1). rewrite Hst. unfold Storage.Consume, Storage.log_of, lookup2.
    destruct (Storage.data (bStorage b) !! topic) as [parts|]; [|by exists [], []].
    destruct (parts !! p) as [l|]; [|by exists [], []]. simpl.
    destruct (_ <=? o); [by exists [], l; rewrite app_nil_r|].
    destruct (Z.ltb_spec o 0); [lia|]. exists (drop (Z.to_nat o) l), (take (Z.to_nat o) l).
    by rewrite take_drop. }
  rewrite Hc. destruct (committed_prefix hw ms) as [rest Hrest].
  exists b2, hw, (committed hw ms). split; [by destruct (map print_message (committed hw ms))|].
  split; [done|]. split; [apply committed_le|]. exists skipped, rest. by rewrite Hlog, Hrest at 1.
Qed.

(** C32: one request can stop the broker. CONSUME with a negative offset, on a
    partition that has committed messages, passes every check of the handler and
    panics in the storage; nothing recovers it. *)
Theorem negative_offset_stops_broker req b rounds topic rawP rawO p o md pm :
  reqCommand req = "CONSUME" -> reqArgs req = [topic; rawP; rawO] ->
  Atoi rawP = Some p -> Atoi rawO = Some o -> o < 0 ->
  EnsureTopicMetadata b topic = Returns (b, Success md) -> Partitions md !! p = Some pm ->
  0 <= (Replication.HighWatermark (bReplication b) topic p (tick b).2).2 ->
  Storage.log_of (bStorage b) topic p <> [] ->
  handleRequest req b rounds = Panics "slice bounds out of range".
Proof.
  intros Hcmd Ha Hp Ho Hneg Hmd Hpm Hhw Hlog. unfold handleRequest. rewrite Hcmd. cbn [String.eqb Ascii.eqb Bool.eqb].
  unfold handleConsume. rewrite Ha. unfold with_int, ParseInt. rewrite Hp, Ho.
  unfold with_topic_md. rewrite Hmd, Hpm.
  assert (bReplication (tick b).1 = bReplication b /\ bStorage (tick b).1 = bStorage b) as [Hr Hs]
    by (unfold tick; by destruct (Now (bWorld b))).
  destruct (tick b) as [b1 now]. cbn [fst snd] in *. rewrite Hr.
  destruct (Replication.HighWatermark (bReplication b) topic p now) as [m hw]. cbn [snd] in Hhw.
  destruct (Z.ltb_spec hw 0); [lia|]. destruct (Z.ltb_spec hw o); [lia|]. cbn [orb].
  change (bStorage (set_replication b1 m)) with (bStorage b1). rewrite Hs.
  unfold Storage.Consume. unfold Storage.log_of, lookup2 in Hlog.
  destruct (Storage.data (bStorage b) !! topic) as [parts|]; [|done].
  destruct (parts !! p) as [l|]; [|done]. simpl in Hlog.
  assert (0 < length l)%nat by (destruct l; simpl; [done|lia]).
  destruct (Z.leb_spec (Z.of_nat (length l)) o); [lia|]. destruct (Z.ltb_spec o 0); [done|lia].
Qed.
End Handlers.

(** ** Witnesses: a broker with two messages in one partition *)
#[local] Instance demo_case : UnicodeCase := {| upper_unicode := id; lower_unicode := id |}.

Definition demo_full : @Broker (value_json ∅) (value_json ∅) :=
  mkBroker
    (Storage.set_data (bStorage demo_broker)
       {["orders" := {[0 := [Storage.mkMessage 0 "a"; Storage.mkMessage 1 "b"]]}]})
    (bWorld demo_broker) (bCoordinator demo_broker)
    (@Replication.OnLeaderAppend canonical_order (bReplication demo_broker) "orders" 0 1 Second)
    demo_store 1 3 2.

Definition demo_topic : TopicMetadata := new_topic "orders" 2 2.

Lemma consume_only_committed_witness :
  exists b' hw ms, @handleConsume canonical_order _ _ (mkRequest "V1" "9" "CONSUME" ["orders"; "0"; "1"]) demo_full
    = ok b' (mkRequest "V1" "9" "CONSUME" ["orders"; "0"; "1"])
        ("messages=" +:+ Join (map print_message ms) "," +:+ " hw=" +:+ Itoa hw)
    /\ Forall (fun m => Storage.Offset m <= hw) ms.
Proof.
  destruct (@consume_only_committed canonical_order _ _ (mkRequest "V1" "9" "CONSUME" ["orders"; "0"; "1"])
    demo_full "orders" "0" "1" 0 1 demo_topic (mkPartitionMetadata 0 (-1) [0; 1] [0; 1]))
    as (b' & hw & ms & H & _ & Hle & _); try (vm_compute; reflexivity).
  - lia.
  - exists b', hw, ms. split; [exact H|exact Hle].
Defined.

Lemma negative_offset_stops_broker_witness :
  @handleRequest canonical_order _ _ _ (mkRequest "V1" "9" "CONSUME" ["orders"; "0"; "-1"]) demo_full []
  = Panics "slice bounds out of range".
Proof.
  apply (@negative_offset_stops_broker canonical_order _ _ _ (mkRequest "V1" "9" "CONSUME" ["orders"; "0"; "-1"])
    demo_full [] "orders" "0" "-1" 0 (-1) demo_topic (mkPartitionMetadata 0 (-1) [0; 1] [0; 1]));
    try (vm_compute; reflexivity); vm_compute; discriminate.
Defined.

Definition demo_groups : @Broker (value_json ∅) (value_json ∅) :=
  set_groups demo_full (@Groups.JoinGroup (value_json ∅) (groups_of demo_full) "g" "orders" "c1" ""
    (unix_epoch + 100 * Second)).1.

Definition demo_commit : Request := mkRequest "V1" "5" "COMMIT" ["g"; "orders"; "c1"; "2"; "0"; "7"].

Definition after_commit : @Broker (value_json ∅) (value_json ∅) :=
  match @handleRequest canonical_order _ _ _ demo_commit demo_groups [] with
  | Returns (b', _) => b'
  | Panics _ => demo_groups
  end.

Lemma offsets_move_only_by_valid_commit_witness : valid_commit demo_commit demo_groups after_commit.
Proof.
  apply (@offsets_move_only_by_valid_commit canonical_order _ _ _ demo_commit demo_groups []
    after_commit (Some (Ok "5" "committed=true"))).
  - vm_compute. reflexivity.
  - intros H. apply (f_equal (fun om => Offsets.GetOffset om "g" "orders" 0)) in H.
    vm_compute in H. discriminate H.
Defined.

Lemma response_echoes_request_witness :
  (exists payload, Err "5" "UNKNOWN_COMMAND" "unsupported command" = Ok "5" payload)
  \/ (exists code msg, Err "5" "UNKNOWN_COMMAND" "unsupported command" = Err "5" code msg).
Proof.
  apply (@response_echoes_request canonical_order _ _ _ (mkRequest "V1" "5" "PING" []) demo_full [] demo_full).
  vm_compute. reflexivity.
Defined.
End Handler.
