(* ===== verification/BrokerInvariant.v ===== *)
(** * The invariants of a broker, kept by every request and every tick

    Each component has an invariant of its own: the replication manager
    (Replication.v), the metadata store (ControlPlane.v) and the group manager
    (Groups.v). Here they are put together, and shown to survive every handler of
    handler.go and both ticks of the cluster runtime. *)
From S2P Require Import Prelude GoStrings Protocol Config Persist Groups Offsets Replication ControlPlane.
From S2P Require Import Controller Worker TcpTransport StorageCodec FileSystem Storage Broker Cluster Handler.

Module BrokerInvariant.
Import FS Broker Handler.

(** ** The controller keeps the store's invariant, whatever it is asked *)
Section Controller.
Context {St : Type} `{MetadataStoreLaws St} `{MapOrder}.

Lemma CreateTopic_inv st name n rf now st' r :
  store_inv st -> CreateTopic st name n rf now = Returns (st', r) -> store_inv st'.
Proof.
  intros Hs. unfold CreateTopic. repeat (case_match; [by intros; simplify_eq|]). intros [= E].
  pose proof (apply_inv st (upsert_topic (new_topic name n rf)) now Hs) as Hi. rewrite E in Hi. apply Hi.
  intros t pid p [= <-]. rewrite new_topic_lookup. case_decide; [lia|done].
Qed.

Lemma RegisterBroker_inv st id host port epoch n1 n2 : store_inv st ->
  store_inv (RegisterBroker st id host port epoch n1 n2).1.
Proof. intros Hs. unfold RegisterBroker. repeat (case_match; [done|]). by apply apply_inv. Qed.

Lemma HeartbeatBroker_inv st id now : store_inv st -> store_inv (HeartbeatBroker st id now).1.
Proof. intros. by apply apply_inv. Qed.

Lemma SetPartitionLeader_inv st topic p l isr now : store_inv st ->
  store_inv (SetPartitionLeader st topic p l isr now).1.
Proof. intros. unfold SetPartitionLeader. repeat (case_match; [done|]). by apply apply_inv. Qed.

Lemma SetBrokerFence_inv st id f now : store_inv st -> store_inv (SetBrokerFence st id f now).1.
Proof. intros. unfold SetBrokerFence. case_match; [done|]. by apply apply_inv. Qed.

Lemma ReconcileBrokerHealth_inv st timeout now : store_inv st ->
  store_inv (ReconcileBrokerHealth st timeout now).1.
Proof.
  intros Hs. unfold ReconcileBrokerHealth. case_match; [done|]. cbv zeta.
  generalize (Snapshot st) as sn, 0 as c. intros sn. revert st Hs.
  generalize (sort_ints (map fst (map_range (Brokers sn)))) as ids.
  induction ids as [|id ids IH]; intros st Hs c; [done|]. cbn [reconcile_loop].
  destruct (Brokers sn !! id) as [b|]; [|by apply IH]. destruct (negb _); [|by apply IH].
  match goal with |- context [SetBrokerFence st id ?f now] => pose proof (SetBrokerFence_inv st id f now Hs) as Hi end.
  destruct (SetBrokerFence st id _ now) as [st' [r|e]]; [by apply IH|done].
Qed.

Lemma ElectTopicLeaders_inv st topic now : store_inv st -> store_inv (ElectTopicLeaders st topic now).1.
Proof.
  intros Hs. unfold ElectTopicLeaders. case_match; [done|]. cbv zeta.
  destruct (Topics (Snapshot st) !! topic) as [t|]; [|done].
  generalize (Brokers (Snapshot st)) as bs, 0 as c. intros bs. revert st Hs.
  generalize (sort_ints (map fst (map_range (Partitions t)))) as pids.
  induction pids as [|pid pids IH]; intros st Hs c; [done|]. cbn [elect_loop].
  destruct (Partitions t !! pid) as [p|]; [|by apply IH]. destruct (negb (_ =? _)); [|by apply IH].
  match goal with |- context [SetPartitionLeader st topic pid ?l ?isr now] =>
    pose proof (SetPartitionLeader_inv st topic pid l isr now Hs) as Hi;
    destruct (SetPartitionLeader st topic pid l isr now) as [st' [r|e]] end; [by apply IH|done].
Qed.
End Controller.
Section Invariant.
Context `{MO : MapOrder} `{UC : UnicodeCase} {JG : Json Groups.persisted_groups} {JO : Json Offsets.offset_map}.
Context {LG : JsonLaws Groups.persisted_groups}.
Hypothesis representable_ascii : forall ps : Groups.persisted_groups, Groups.ascii_groups ps -> representable ps.

(** ** The invariant of the broker with id [local] *)
Variable local : Z.

Record broker_ok (b : Broker) : Prop := {
  bo_local : LocalBrokerID b = local;
  bo_manager : Replication.manager_ok (bReplication b);
  bo_store : store_inv (bController b);
  bo_groups : Groups.manager_ok (groups_of b)
}.

(** Offsets are far from the end of [int]: appending one more record is safe. *)
Definition offsets_small (s : Storage.Storage) : Prop :=
  forall t p, Storage.nextOffset (Storage.state_of s t p) < int_max /\ Storage.LastOffset s t p < int_max.

Definition good (a : answer) : Prop :=
  match a with Returns (b, _) => broker_ok b | Panics _ => True end.

Lemma good_ok req b payload : broker_ok b -> good (ok b req payload).
Proof. done. Qed.
Lemma good_fail req b code msg : broker_ok b -> good (fail b req code msg).
Proof. done. Qed.
Lemma good_bad req b msg : broker_ok b -> good (bad b req msg).
Proof. done. Qed.

(** Reading the clock changes nothing else. *)
Lemma tick_same b b' now : tick b = (b', now) ->
  bStorage b' = bStorage b /\ bCoordinator b' = bCoordinator b /\ bReplication b' = bReplication b
  /\ bController b' = bController b /\ LocalBrokerID b' = LocalBrokerID b.
Proof. unfold tick. destruct (Now (bWorld b)). by intros [= <- <-]. Qed.

Lemma tick_ok b b' now : broker_ok b -> tick b = (b', now) -> broker_ok b'.
Proof.
  intros [] (_ & Hc & Hr & Hs & Hl)%tick_same. split; [by rewrite Hl|by rewrite Hr|by rewrite Hs|].
  unfold groups_of. by rewrite Hc.
Qed.

Lemma set_replication_ok b m : broker_ok b -> Replication.manager_ok m -> broker_ok (set_replication b m).
Proof. by intros []. Qed.
Lemma set_controller_ok b st : broker_ok b -> store_inv st -> broker_ok (set_controller b st).
Proof. by intros []. Qed.
Lemma set_storage_ok b s w : broker_ok b -> broker_ok (set_storage b s w).
Proof. by intros []. Qed.
Lemma set_groups_ok b gm : broker_ok b -> Groups.manager_ok gm -> broker_ok (set_groups b gm).
Proof. by intros []. Qed.
Lemma set_offsets_ok b om : broker_ok b -> broker_ok (set_offsets b om).
Proof. by intros []. Qed.

(** ** The replication manager's operations, as the handlers call them *)
Section Manager.
Variables (m m' : Replication.Manager) (t : string) (p : Z).
Hypothesis Hm : Replication.manager_ok m.

Lemma IsLeader_ok r : Replication.IsLeader m t p = (m', r) -> Replication.manager_ok m'.
Proof. intros E. pose proof (Replication.exec_ok m (Replication.OpIsLeader t p) Hm I) as H. cbn [Replication.exec] in H. by rewrite E in H. Qed.
Lemma HighWatermark_ok now r : Replication.HighWatermark m t p now = (m', r) -> Replication.manager_ok m'.
Proof. intros E. pose proof (Replication.exec_ok m (Replication.OpHighWatermark t p now) Hm I) as H. cbn [Replication.exec] in H. by rewrite E in H. Qed.
Lemma GetStatus_ok now r : Replication.GetStatus m t p now = (m', r) -> Replication.manager_ok m'.
Proof. by intros []%Replication.GetStatus_result. Qed.
Lemma SetRole_ok role now r : Replication.SetRole m t p role now = (m', r) -> Replication.manager_ok m'.
Proof. intros E. pose proof (Replication.exec_ok m (Replication.OpSetRole t p role now) Hm I) as H. cbn [Replication.exec] in H. by rewrite E in H. Qed.
Lemma AckReplica_ok id off seen now r : Replication.AckReplica m t p id off seen now = (m', r) -> Replication.manager_ok m'.
Proof. intros E. pose proof (Replication.exec_ok m (Replication.OpAckReplica t p id off seen now) Hm I) as H. cbn [Replication.exec] in H. by rewrite E in H. Qed.
End Manager.

(** Operations other connections may perform while a producer waits. *)
Definition rounds_ok (rounds : list Replication.round) : Prop :=
  Forall (fun r => Forall Replication.mop_ok (Replication.others r)) rounds.

Lemma WaitForAckAll_ok m t p target start rounds m' r :
  Replication.manager_ok m -> rounds_ok rounds ->
  Replication.WaitForAckAll m t p target start rounds = (m', r) -> Replication.manager_ok m'.
Proof.
  intros Hm Hr. unfold Replication.WaitForAckAll. generalize (start + Replication.AckAllTimeout (Replication.cfg m)).
  revert m Hm. induction Hr as [|x rs Hx Hr IH]; intros m Hm d; cbn [Replication.wait_rounds]; [by intros [= <- _]|].
  destruct (Replication.GetStatus _ t p _) as [m1 st] eqn:E. apply GetStatus_ok in E; [|by apply Replication.run_ok].
  destruct (_ && _); [by intros [= <- _]|]. destruct (time_after _ _); [by intros [= <- _]|]. by apply IH.
Qed.

(** ** Topics *)
Lemma lead_loop_inv topic self leaders now pids : forall st st' e,
  store_inv st -> lead_loop st topic self leaders now pids = (st', e) -> store_inv st'.
Proof.
  induction pids as [|pid pids IH]; intros st st' e Hs; cbn [lead_loop]; [by intros [= <- _]|].
  match goal with |- context [SetPartitionLeader st topic pid ?l ?isr now] =>
    pose proof (SetPartitionLeader_inv st topic pid l isr now Hs) as Hi;
    destruct (SetPartitionLeader st topic pid l isr now) as [st1 [r|err]] end; [by apply IH|by intros [= <- _]].
Qed.

Lemma EnsureTopicMetadata_ok b topic b' r :
  broker_ok b -> EnsureTopicMetadata b topic = Returns (b', r) ->
  broker_ok b' /\ bStorage b' = bStorage b.
Proof.
  intros Hb. unfold EnsureTopicMetadata. destruct (String.eqb topic ""); [by intros [= <- _]|].
  destruct (Topics _ !! topic); [by intros [= <- _]|]. destruct (tick b) as [b1 now] eqn:Et.
  pose proof (tick_ok _ _ _ Hb Et) as Hb1. apply tick_same in Et as (Est & _).
  destruct (CreateTopic _ _ _ _ _) as [[st1 [x|err]]|] eqn:E1; cbn [outcome_bind]; [| |done];
    apply CreateTopic_inv in E1; try apply Hb1.
  - cbv zeta. destruct (lead_loop _ _ _ _ _ _) as [st2 [err|]] eqn:E2; apply lead_loop_inv in E2; try done;
      intros [= <- _]; split; try done; by apply set_controller_ok.
  - intros [= <- _]. split; [by apply set_controller_ok|done].
Qed.

Lemma good_int req b v field k : broker_ok b -> (forall z, good (k z)) -> good (with_int b req v field k).
Proof. intros Hb Hk. unfold with_int. by destruct (ParseInt v field). Qed.

Lemma good_topic req b topic k :
  broker_ok b -> (forall b' md, broker_ok b' -> bStorage b' = bStorage b -> good (k b' md)) ->
  good (with_topic_md b req topic k).
Proof.
  intros Hb Hk. unfold with_topic_md. destruct (EnsureTopicMetadata b topic) as [[b' [md|e]]|] eqn:E; [| |done];
    apply EnsureTopicMetadata_ok in E as [Hb' Hs]; auto.
Qed.

Lemma good_admin req b r payload : broker_ok b -> store_inv r.1 -> good (admin_reply b req r payload).
Proof. intros Hb Hs. unfold admin_reply. destruct r as [st [x|e]]; by apply set_controller_ok. Qed.

Lemma good_ack req b t p id off k :
  broker_ok b -> (forall b' s, broker_ok b' -> good (k b' s)) -> good (with_ack b req t p id off k).
Proof.
  intros Hb Hk. unfold with_ack. destruct (tick b) as [b1 seen] eqn:E1. destruct (tick b1) as [b2 now] eqn:E2.
  apply tick_ok in E1; [|done]. apply tick_ok in E2; [|done].
  destruct (Replication.AckReplica _ _ _ _ _ _ _) as [m [u|e]] eqn:E; apply AckReplica_ok in E; try apply E2.
  2: { by apply good_bad, set_replication_ok. }
  destruct (tick (set_replication b2 m)) as [b3 now3] eqn:E3. apply tick_ok in E3; [|by apply set_replication_ok].
  destruct (Replication.GetStatus _ _ _ _) as [m' s] eqn:E4. apply GetStatus_ok in E4; [|apply E3].
  by apply Hk, set_replication_ok.
Qed.

(** ** Every handler keeps the invariant *)

(** The component in the result of an operation. *)
Lemma stored_in {A} (r : RaftMetadataStore * A) st x : r = (st, x) -> store_inv r.1 -> store_inv st.
Proof. by intros ->. Qed.
Lemma group_in {A} (r : Groups.GroupManager * A) gm x : r = (gm, x) -> Groups.manager_ok r.1 -> Groups.manager_ok gm.
Proof. by intros ->. Qed.

(** Walk through a handler as far as its continuations allow. *)
Ltac side :=
  first
    [ assumption
    | match goal with
      | |- broker_ok (set_replication _ _) => apply set_replication_ok; side
      | |- broker_ok (set_controller _ _) => apply set_controller_ok; side
      | |- broker_ok (set_storage _ _ _) => apply set_storage_ok; side
      | |- broker_ok (set_groups _ _) => apply set_groups_ok; side
      | |- broker_ok (set_offsets _ _) => apply set_offsets_ok; side
      | E : tick _ = (?b, _) |- broker_ok ?b => eapply tick_ok; [|exact E]; side
      | |- Replication.manager_ok (bReplication _) => apply bo_manager; side
      | |- store_inv (bController _) => apply bo_store; side
      | |- Groups.manager_ok (groups_of _) => apply bo_groups; side
      | E : Replication.IsLeader _ _ _ = (?m, _) |- Replication.manager_ok ?m => eapply IsLeader_ok; [|exact E]; side
      | E : Replication.HighWatermark _ _ _ _ = (?m, _) |- Replication.manager_ok ?m =>
          eapply HighWatermark_ok; [|exact E]; side
      | E : Replication.GetStatus _ _ _ _ = (?m, _) |- Replication.manager_ok ?m => eapply GetStatus_ok; [|exact E]; side
      | E : Replication.SetRole _ _ _ _ _ = (?m, _) |- Replication.manager_ok ?m => eapply SetRole_ok; [|exact E]; side
      | E : _ = (?st, _) |- store_inv ?st => eapply (stored_in _ _ _ E); side
      | |- store_inv (fst _) =>
          first [ apply RegisterBroker_inv | apply HeartbeatBroker_inv | apply SetBrokerFence_inv
                | apply SetPartitionLeader_inv | apply ElectTopicLeaders_inv | apply ReconcileBrokerHealth_inv ]; side
      | E : CreateTopic _ _ _ _ _ = Returns ?r |- store_inv (fst ?r) =>
          destruct r; eapply CreateTopic_inv; [|exact E]; side
      end ].
Ltac walk :=
  repeat first
    [ progress intros
    | match goal with
      | |- good (with_int _ _ _ _ _) => apply good_int; [side|]
      | |- good (with_topic_md _ _ _ _) => apply good_topic; [side|]
      | |- good (with_ack _ _ _ _ _ _ _) => apply good_ack; [side|]
      | |- good (admin_reply _ _ _ _) => apply good_admin; side
      | |- good (ok _ _ _) => apply good_ok; side
      | |- good (fail _ _ _ _) => apply good_fail; side
      | |- good (bad _ _ _) => apply good_bad; side
      | |- good (Panics _) => exact I
      | |- good (let x := _ in _) => cbv zeta
      | |- good (match ?x with _ => _ end) => let E := fresh "E" in destruct x eqn:E
      end ].

Lemma good_consume req b : broker_ok b -> good (handleConsume req b).
Proof. intros Hb. unfold handleConsume. walk. Qed.

Lemma good_broker_fetch req b : broker_ok b -> good (handleBrokerFetch req b).
Proof. intros Hb. unfold handleBrokerFetch. walk. Qed.

Lemma good_offset req b : broker_ok b -> good (handleOffset req b).
Proof. intros Hb. unfold handleOffset. walk. Qed.

Lemma good_replica_fetch req b : broker_ok b -> good (handleReplicaFetch req b).
Proof. intros Hb. unfold handleReplicaFetch. walk. Qed.

Lemma good_replica_ack req b : broker_ok b -> good (handleBrokerReplicaAck req b).
Proof. intros Hb. unfold handleBrokerReplicaAck. walk. Qed.

Lemma good_register req b : broker_ok b -> good (handleAdminRegisterBroker req b).
Proof. intros Hb. unfold handleAdminRegisterBroker. walk. Qed.

Lemma good_broker_heartbeat req b : broker_ok b -> good (handleAdminBrokerHeartbeat req b).
Proof. intros Hb. unfold handleAdminBrokerHeartbeat. walk. Qed.

Lemma good_fence req b : broker_ok b -> good (handleAdminFenceBroker req b).
Proof. intros Hb. unfold handleAdminFenceBroker. walk. Qed.

Lemma good_unfence req b : broker_ok b -> good (handleAdminUnfenceBroker req b).
Proof. intros Hb. unfold handleAdminUnfenceBroker. walk. Qed.

Lemma good_set_leader req b : broker_ok b -> good (handleAdminSetPartitionLeader req b).
Proof. intros Hb. unfold handleAdminSetPartitionLeader. walk. Qed.

Lemma good_metadata req b : broker_ok b -> good (handleAdminGetMetadata req b).
Proof. intros Hb. unfold handleAdminGetMetadata. walk. Qed.

Lemma good_reconcile req b : broker_ok b -> good (handleAdminReconcileBrokerHealth req b).
Proof. intros Hb. unfold handleAdminReconcileBrokerHealth. walk. Qed.

Lemma good_elect req b : broker_ok b -> good (handleAdminElectTopicLeaders req b).
Proof. intros Hb. unfold handleAdminElectTopicLeaders. walk. Qed.

Lemma good_set_role req b : broker_ok b -> good (handleSetPartitionRole req b).
Proof. intros Hb. unfold handleSetPartitionRole. walk. Qed.

Lemma good_create_topic req b : broker_ok b -> good (handleAdminCreateTopic req b).
Proof. intros Hb. unfold handleAdminCreateTopic. walk. Qed.

(** The group operations. *)
Lemma SyncGroup_ok gm nm tp c gen now now2 :
  Groups.manager_ok gm -> Groups.manager_ok (Groups.SyncGroup gm nm tp c gen now now2).1.
Proof. intros H. exact (Groups.step_ok representable_ascii gm (Groups.OpSync nm tp c gen now now2) H eq_refl). Qed.
Lemma Heartbeat_ok gm nm tp c gen now now2 :
  Groups.manager_ok gm -> Groups.manager_ok (Groups.Heartbeat gm nm tp c gen now now2).1.
Proof. intros H. exact (Groups.step_ok representable_ascii gm (Groups.OpHeartbeat nm tp c gen now now2) H eq_refl). Qed.
Lemma LeaveGroup_ok gm nm tp c gen now :
  Groups.manager_ok gm -> Groups.manager_ok (Groups.LeaveGroup gm nm tp c gen now).1.
Proof. intros H. exact (Groups.step_ok representable_ascii gm (Groups.OpLeave nm tp c gen now) H eq_refl). Qed.
Lemma ValidateCommit_ok gm nm tp c gen p now :
  Groups.manager_ok gm -> Groups.manager_ok (Groups.ValidateCommit gm nm tp c gen p now).1.
Proof. intros H. exact (Groups.step_ok representable_ascii gm (Groups.OpCommit nm tp c gen p now) H eq_refl). Qed.
Lemma JoinGroup_ok gm nm tp c a now :
  is_ascii nm && is_ascii tp && is_ascii c && is_ascii a = true ->
  Groups.manager_ok gm -> Groups.manager_ok (Groups.JoinGroup gm nm tp c a now).1.
Proof. intros Ha H. exact (Groups.step_ok representable_ascii gm (Groups.OpJoin nm tp c a now) H Ha). Qed.

Ltac group_side :=
  match goal with
  | E : Groups.SyncGroup _ _ _ _ _ _ _ = (?gm, _) |- _ => eapply (group_in _ _ _ E), SyncGroup_ok
  | E : Groups.Heartbeat _ _ _ _ _ _ _ = (?gm, _) |- _ => eapply (group_in _ _ _ E), Heartbeat_ok
  | E : Groups.LeaveGroup _ _ _ _ _ _ = (?gm, _) |- _ => eapply (group_in _ _ _ E), LeaveGroup_ok
  | E : Groups.ValidateCommit _ _ _ _ _ _ _ = (?gm, _) |- _ => eapply (group_in _ _ _ E), ValidateCommit_ok
  end; side.

Lemma good_sync req b : broker_ok b -> good (handleSync req b).
Proof. intros Hb. unfold handleSync. walk; apply set_groups_ok; [side|group_side|side|group_side]. Qed.

Lemma good_heartbeat req b : broker_ok b -> good (handleHeartbeat req b).
Proof. intros Hb. unfold handleHeartbeat. walk; apply set_groups_ok; [side|group_side|side|group_side]. Qed.

Lemma good_leave req b : broker_ok b -> good (handleLeave req b).
Proof. intros Hb. unfold handleLeave. walk; apply set_groups_ok; [side|group_side|side|group_side]. Qed.

Lemma good_commit req b : broker_ok b -> good (handleCommit req b).
Proof.
  intros Hb. unfold handleCommit. walk; [apply good_ok, set_offsets_ok|apply good_fail];
    (apply set_groups_ok; [side|group_side]).
Qed.

Definition ascii_args (req : Request) : Prop := Forall (fun a => is_ascii a = true) (reqArgs req).

Lemma assignor_ascii rest a : assignor_arg rest = Some a -> is_ascii a = true.
Proof.
  unfold assignor_arg. destruct rest as [|arg rest]; [by intros [= <-]|].
  destruct (SplitN arg "=" 2) as [|n [|v [|]]]; try done. destruct (negb _); [done|].
  destruct (String.eqb_spec (ToLower v) "round_robin") as [->|]; [by intros [= <-]|].
  destruct (String.eqb_spec (ToLower v) "range") as [->|]; [by intros [= <-]|done].
Qed.

Lemma good_join req b : ascii_args req -> broker_ok b -> good (handleJoin req b).
Proof.
  unfold ascii_args. intros Ha Hb. unfold handleJoin.
  destruct (reqArgs req) as [|nm [|tp [|c rest]]]; try (by apply good_bad).
  rewrite !Forall_cons in Ha. destruct Ha as (Hn & Ht & Hc & _).
  destruct (1 <? _); [by apply good_bad|]. destruct (assignor_arg rest) as [a|] eqn:Ea; [|by apply good_bad].
  apply assignor_ascii in Ea. destruct (tick b) as [b1 now] eqn:E1.
  destruct (Groups.JoinGroup _ _ _ _ _ _) as [gm r] eqn:E. apply good_ok, set_groups_ok; [side|].
  eapply (group_in _ _ _ E), JoinGroup_ok; [by rewrite Hn, Ht, Hc, Ea|side].
Qed.

(** ** Producing *)
Lemma produced_offset s w t p v s' w' p' off :
  Storage.ProduceToPartition s w t p v = (s', w', (p', off)) -> offsets_small s -> off < int_max.
Proof.
  intros E Hs. destruct (Hs t p) as [Hn _]. unfold Storage.state_of in Hn. unfold Storage.ProduceToPartition in E.
  assert (exists s1 w1 st, Storage.ensurePartitionState s w t p = (s1, w1, st)
    /\ Storage.nextOffset st = Storage.nextOffset (default (Storage.mkState 0 0 [0] 0 0) (lookup2 (Storage.states s) t p)))
    as (s1 & w1 & st & E1 & En).
  { unfold Storage.ensurePartitionState. destruct (lookup2 (Storage.states s) t p); [by eauto|]. destruct (Now w). by eauto. }
  rewrite E1 in E. repeat case_match; simplify_eq; by rewrite En.
Qed.

Lemma leader_append_ok b t p v b' r :
  broker_ok b -> offsets_small (bStorage b) -> leader_append b t p v = (b', r) -> broker_ok b'.
Proof.
  intros Hb Hs. unfold leader_append.
  destruct (Storage.ProduceToPartition _ _ _ _ _) as [[s w] [p' off]] eqn:E.
  apply produced_offset in E; [|done]. destruct (tick _) as [b1 now] eqn:E1.
  apply tick_ok in E1; [|by apply set_storage_ok]. intros [= <- _]. apply set_replication_ok; [done|].
  by apply (Replication.exec_ok _ (Replication.OpLeaderAppend t p' off now)); [side|].
Qed.

Lemma good_produce req b rounds :
  broker_ok b -> offsets_small (bStorage b) -> rounds_ok rounds -> good (handleProduce req b rounds).
Proof.
  intros Hb Hs Hr. unfold handleProduce.
  destruct (reqArgs req) as [|topic [|message rest]]; try (by apply good_bad).
  destruct (1 <? _); [by apply good_bad|]. destruct (SplitN message ":" 2) as [|key [|value [|]]]; try (by apply good_bad).
  apply good_topic; [done|]. intros b1 md Hb1 Es. cbv zeta. destruct (_ <=? 0); [by apply good_bad|].
  destruct (ack_mode rest) as [mode|]; [|by apply good_bad].
  destruct (Storage.PartitionForKeyWithCount _ _) as [p|]; [|done].
  destruct (Partitions md !! p) as [pm|]; [|by apply good_bad]. destruct (negb _); [by apply good_fail|].
  destruct (Replication.IsLeader _ _ _) as [m leads] eqn:E. assert (broker_ok (set_replication b1 m)) as Hb2 by side.
  destruct (negb leads); [by apply good_fail|].
  destruct (leader_append _ _ _ _) as [b3 [p' off]] eqn:E3.
  apply leader_append_ok in E3; [|done|cbn [set_replication bStorage]; by rewrite Es].
  assert (forall b4 p4, broker_ok b4 -> good (
    let '(b, now) := tick b4 in
    let '(m, hw) := Replication.HighWatermark (bReplication b) topic p4 now in
    ok (set_replication b m) req ("partition=" +:+ Itoa p4 +:+ " offset=" +:+ Itoa off +:+ " hw=" +:+ Itoa hw))) as Hfin.
  { intros b4 p4 Hb4. walk. }
  destruct (String.eqb mode "all"); [|by apply Hfin].
  destruct (tick b3) as [b4 start] eqn:E4. destruct (Replication.WaitForAckAll _ _ _ _ _ _) as [m5 r5] eqn:E5.
  apply WaitForAckAll_ok in E5; [|side|done]. assert (broker_ok (set_replication b4 m5)) as Hb5 by side.
  destruct r5 as [[u|e]|]; [by apply Hfin|by apply good_fail|done].
Qed.

(** ** Every request *)
Lemma request_ok req b rounds b' r :
  broker_ok b -> offsets_small (bStorage b) -> rounds_ok rounds -> ascii_args req ->
  handleRequest req b rounds = Returns (b', r) -> broker_ok b'.
Proof.
  intros Hb Hs Hr Ha E. assert (good (handleRequest req b rounds)) as Hg; [|by rewrite E in Hg]. clear E.
  unfold handleRequest. repeat (case_match; [auto using good_produce, good_consume, good_join, good_sync,
    good_heartbeat, good_leave, good_commit, good_offset, good_replica_fetch, good_broker_fetch, good_replica_ack,
    good_set_role, good_create_topic, good_register, good_broker_heartbeat, good_reconcile, good_fence, good_unfence,
    good_set_leader, good_elect, good_metadata|]).
  by apply good_fail.
Qed.

(** ** Every tick of the cluster runtime *)
Section Runtime.
Context {N : Type} (net : Network N) (NumError : string -> string).

Lemma fold_ok {A X} (f : X -> A -> X) (P : X -> Prop) l x :
  P x -> (forall x a, P x -> P (f x a)) -> P (fold_left f l x).
Proof. intros Hx Hf. revert x Hx. induction l as [|a l IH]; intros x Hx; [done|]. apply IH, Hf, Hx. Qed.

Lemma bootstrapPeers_ok (r : Cluster.clusterRuntime (N := N)) b : broker_ok b -> broker_ok (Cluster.bootstrapPeers r b).
Proof.
  intros Hb. unfold Cluster.bootstrapPeers. apply fold_ok; [done|]. clear b Hb. intros b [id peer] Hb.
  destruct (Cluster.splitHostPort (Cluster.peerAddr peer)) as [[host port]|]; [|done].
  destruct (tick b) as [b1 n1] eqn:E1. destruct (tick b1) as [b2 n2] eqn:E2. destruct (tick b2) as [b3 n3] eqn:E3. side.
Qed.

Lemma set_role_fst_ok m t p role now :
  Replication.manager_ok m -> Replication.manager_ok (Replication.SetRole m t p role now).1.
Proof. intros Hm. exact (Replication.exec_ok m (Replication.OpSetRole t p role now) Hm I). Qed.

Lemma align_role_ok b t p off role :
  broker_ok b -> off < int_max ->
  broker_ok (Cluster.align_role b t p off role)
  /\ bStorage (Cluster.align_role b t p off role) = bStorage b.
Proof.
  intros Hb Hoff. unfold Cluster.align_role. destruct (tick b) as [b1 n1] eqn:E1.
  pose proof (tick_ok _ _ _ Hb E1) as Hb1. apply tick_same in E1 as (S1 & _).
  set (b2 := set_replication b1 _). assert (broker_ok b2) as Hb2 by (apply set_replication_ok; [done|apply set_role_fst_ok; side]).
  destruct (tick b2) as [b3 n3] eqn:E3. pose proof (tick_ok _ _ _ Hb2 E3) as Hb3. apply tick_same in E3 as (S3 & _).
  split; [|cbn [set_replication bStorage]; by rewrite S3]. apply set_replication_ok; [done|].
  apply (Replication.exec_ok _ (Replication.OpBootstrap t p off n3)); [side|done].
Qed.

(** Workers: each one is filed under its partition, follows as this broker, and has
    failed fewer times in a row than it takes to fail over. *)
Definition worker_ok (max : Z) (key : string) (ws : Cluster.replicaWorkerState (N := N)) : Prop :=
  let wk := Cluster.worker ws in
  key = Cluster.workerKey (wkTopic wk) (wkPartition wk) /\ wkFollowerID wk = local
  /\ 0 < wkMaxBatch wk /\ 0 <= Cluster.failureCount ws < max.

Record runtime_ok (r : Cluster.clusterRuntime (N := N)) : Prop := {
  ro_max : 0 < Cluster.maxFailureBeforeFailover r <= int_max;
  ro_workers : map_Forall (worker_ok (Cluster.maxFailureBeforeFailover r)) (Cluster.workers r)
}.

Lemma set_workers_ok r key ws :
  runtime_ok r -> worker_ok (Cluster.maxFailureBeforeFailover r) key ws ->
  runtime_ok (Cluster.set_workers r (<[key := ws]> (Cluster.workers r))).
Proof. intros [] Hw. split; [done|]. by apply map_Forall_insert_2. Qed.

Lemma stopWorker_ok r t p : runtime_ok r -> runtime_ok (Cluster.stopWorker r t p).
Proof. intros []. split; [done|]. by apply map_Forall_delete. Qed.

Lemma ensureWorker_ok r b t p leader addr off :
  LocalBrokerID b = local -> runtime_ok r -> runtime_ok (Cluster.ensureWorker net NumError r b t p leader addr off).
Proof.
  intros Hl Hr. unfold Cluster.ensureWorker. cbv zeta.
  match goal with |- runtime_ok (if ?same then _ else _) => destruct same; [done|] end.
  destruct (NewFollowerWorker _ _ _) as [wk|e] eqn:E; [|done]. unfold NewFollowerWorker in E.
  cbn [wcFollowerID wcTopic wcPartition wcStartOffset wcMaxBatch] in E.
  repeat match type of E with (if ?test then _ else _) = _ => destruct test; [done|] end. injection E as <-.
  apply set_workers_ok; [done|].
  split; [done|]. split; [done|]. split; [done|]. cbn [Cluster.failureCount]. pose proof (ro_max _ Hr). lia.
Qed.

(** What holds between the partitions of a reconcile tick. *)
Definition tick_inv (s : Storage.Storage) (x : Cluster.clusterRuntime (N := N) * Broker) : Prop :=
  broker_ok x.2 /\ bStorage x.2 = s /\ runtime_ok x.1.

Lemma reconcile_partition_ok s t x e :
  offsets_small s -> tick_inv s x -> tick_inv s (Cluster.reconcile_partition net NumError t x e).
Proof.
  intros Hs (Hb & Es & Hr). destruct x as [r b], e as [p pm]. cbn [fst snd] in *. cbv [Cluster.reconcile_partition].
  destruct (Hs t p) as [_ Hlast]. rewrite Es.
  assert (forall role, broker_ok (Cluster.align_role b t p (Storage.LastOffset s t p) role)
    /\ bStorage (Cluster.align_role b t p (Storage.LastOffset s t p) role) = s) as Ha.
  { intros role. rewrite <- Es. rewrite <- Es in Hlast. by apply align_role_ok. }
  destruct (LeaderID pm =? LocalBrokerID b).
  { destruct (Ha "leader"). split; [done|]. split; [done|]. by apply stopWorker_ok. }
  destruct (negb _ || _); [split; [done|]; split; [done|]; by apply stopWorker_ok|].
  destruct (Ha "follower") as [Hb' Es']. destruct (Cluster.peers r !! LeaderID pm); [|done].
  split; [done|]. split; [done|]. apply ensureWorker_ok; [apply Hb'|done].
Qed.

Lemma reconcileRoles_ok r b :
  broker_ok b -> offsets_small (bStorage b) -> runtime_ok r ->
  let x := Cluster.reconcileRoles net NumError r b in broker_ok x.2 /\ runtime_ok x.1.
Proof.
  intros Hb Hs Hr. cbv zeta. unfold Cluster.reconcileRoles.
  assert (broker_ok (HeartbeatSelf b).1 /\ bStorage (HeartbeatSelf b).1 = bStorage b) as [Hb1 Es].
  { unfold HeartbeatSelf. destruct (tick b) as [b1 now] eqn:E1. destruct (HeartbeatBroker _ _ _) as [st x] eqn:E.
    cbn [fst]. split; [side|]. apply tick_same in E1 as (E1 & _). done. }
  rewrite <- Es in Hs. set (s := bStorage (HeartbeatSelf b).1) in *.
  assert (tick_inv s (fold_left (fun rb '(topic, md) =>
      fold_left (Cluster.reconcile_partition net NumError topic) (map_range (Partitions md)) rb)
    (map_range (Topics (Snapshot (bController (HeartbeatSelf b).1)))) (r, (HeartbeatSelf b).1))) as (H1 & _ & H3);
    [|done].
  apply fold_ok; [done|]. intros x [topic md] Hx. apply fold_ok; [done|]. intros y e. by apply reconcile_partition_ok.
Qed.

Lemma tryFailover_ok b leader : broker_ok b -> broker_ok (Cluster.tryFailoverForWorker b leader).
Proof.
  intros Hb. unfold Cluster.tryFailoverForWorker. destruct (tick b) as [b1 now] eqn:E1. cbv zeta.
  apply fold_ok; [side|]. clear b b1 now Hb E1. intros b [topic tm] Hb. unfold Cluster.failover_topic.
  destruct (tick b) as [b1 now] eqn:E1. destruct (ElectTopicLeaders _ _ _) as [st [n [e|]]] eqn:E; [side|].
  apply fold_ok; [side|]. clear dependent b b1. intros b [p pm] Hb. destruct (_ =? _); [|done].
  destruct (tick b) as [b2 now2] eqn:E2. apply set_replication_ok; [side|apply set_role_fst_ok; side].
Qed.

(** A cycle leaves the worker's identity alone. *)
Lemma apply_records_id {W} (recs : list ReplicationRecord) : forall (wk : FollowerWorker W) w a la wk' w' r,
  apply_records wk w recs a la = (wk', w', r) -> exists next, wk' = with_next wk next.
Proof.
  assert (forall wk : FollowerWorker W, exists next, wk = with_next wk next) as H0
    by (intros []; by eexists).
  induction recs as [|rec recs IH]; intros wk w a la wk' w' r; cbn [apply_records].
  - intros [= <- _ _]. apply H0.
  - destruct (negb _); [intros [= <- _ _]; apply H0|].
    destruct (Worker.AppendReplicated _ _ _ _ _ _) as [w1 [u|e]]; [|intros [= <- _ _]; apply H0].
    intros (next & ->)%IH. by exists next.
Qed.

Lemma StepOnce_id {W} (wk : FollowerWorker W) w wk' w' r :
  StepOnce wk w = (wk', w', r) -> exists next, wk' = with_next wk next.
Proof.
  assert (exists next, wk = with_next wk next) as H0 by (destruct wk; by eexists).
  unfold StepOnce. destruct (Fetch _ _ _ _ _ _ _) as [w1 [fr|e]]; [|by intros [= <- _ _]].
  destruct (frRecords fr) as [|rec recs]; [by intros [= <- _ _]|].
  destruct (apply_records _ _ _ _ _) as [[wk1 w2] [[a la] [e|]]] eqn:E; apply apply_records_id in E as H1.
  - by intros [= <- _ _].
  - destruct (0 <=? la); [|by intros [= <- _ _]].
    destruct (Ack _ _ _ _ _ _) as [w3 [u|e]]; by intros [= <- _ _].
Qed.

Lemma step_worker_ok x key :
  broker_ok x.1.2 /\ runtime_ok x.1.1 ->
  broker_ok (Cluster.step_worker x key).1.2 /\ runtime_ok (Cluster.step_worker x key).1.1.
Proof.
  destruct x as [[r b] n]. cbn [fst snd]. intros [Hb Hr]. unfold Cluster.step_worker.
  destruct (Cluster.workers r !! key) as [ws|] eqn:Ew; [|done].
  destruct (ro_workers _ Hr _ _ Ew) as (Hkey & Hf & Hmb & Hfail). pose proof (ro_max _ Hr) as Hmax.
  destruct (StepOnce _ _) as [[wk [[t n'] [s w]]] [applied err]] eqn:E. apply StepOnce_id in E as [next ->].
  assert (forall fails, 0 <= fails < Cluster.maxFailureBeforeFailover r ->
    worker_ok (Cluster.maxFailureBeforeFailover r) key
      (Cluster.mkWorkerState (with_next (Cluster.worker ws) next) t (Cluster.leaderID ws) (Cluster.leaderAddr ws) fails)) as Hput
    by (intros fails Hfails; split; [done|]; split; [done|]; split; [done|]; exact Hfails).
  destruct err as [e|]; cbn [fst snd].
  - rewrite int_add_id by ints. destruct (Z.leb_spec (Cluster.maxFailureBeforeFailover r) (Cluster.failureCount ws + 1)); cbn [fst snd].
    + split; [by apply tryFailover_ok, set_storage_ok|]. apply set_workers_ok; [done|]. apply Hput. lia.
    + split; [by apply set_storage_ok|]. apply set_workers_ok; [done|]. apply Hput. lia.
  - split; [by apply set_storage_ok|]. apply set_workers_ok; [done|]. apply Hput. destruct (0 <? applied); lia.
Qed.

Lemma run_event_ok r b n e :
  broker_ok b -> runtime_ok r -> offsets_small (bStorage b) ->
  let x := Cluster.run_event net NumError (r, b, n) e in broker_ok x.1.2 /\ runtime_ok x.1.1.
Proof.
  intros Hb Hr Hs. destruct e; cbn [Cluster.run_event].
  - pose proof (reconcileRoles_ok r b Hb Hs Hr) as H. by destruct (Cluster.reconcileRoles net NumError r b).
  - unfold Cluster.stepWorkers. apply (fold_ok Cluster.step_worker (fun x => broker_ok x.1.2 /\ runtime_ok x.1.1)); [done|].
    intros x key. apply step_worker_ok.
Qed.
End Runtime.
End Invariant.
End BrokerInvariant.
