(* ===== verification/Process.v ===== *)
(** * The broker process: cmd/broker/main.go

    [main] loads the configuration, builds the broker, starts the cluster runtime,
    opens the listening socket and then accepts connections forever, each handled
    by [HandleConnection] in a goroutine of its own. A process is therefore a
    broker, its cluster runtime, the network the runtime talks to and the
    connections accepted so far; its steps are a connection being accepted, a line
    arriving on a connection, a connection ending, and a tick of the runtime. A
    panic in any goroutine ends the whole process.

    A step is one request or one tick: requests of different connections and ticks
    interleave in any order. A produce with [acks=all] also lets other connections
    act on the replication manager while it waits ([rounds], as in Handler.v). *)
From S2P Require Import Prelude GoStrings Protocol Config Persist Groups Offsets Replication ControlPlane.
From S2P Require Import Controller Worker TcpTransport StorageCodec FileSystem Storage Broker Cluster Handler.
From S2P Require Import BrokerInvariant.

Module Process.
Import FS Broker Handler BrokerInvariant.

Section Process.
Context `{MO : MapOrder} `{UC : UnicodeCase} {JG : Json Groups.persisted_groups} {JO : Json Offsets.offset_map}.
Context {N : Type} (net : Network N) (NumError : string -> string).

(** A connection: what its goroutine is doing, the lines it has taken and the
    responses it has written. *)
Inductive phase := Reading | Waiting | Closed.
Record Conn := mkConn { cphase : phase; taken : list string; written : list string }.

Record Node := mkNode {
  nBroker : Broker;
  nRuntime : Cluster.clusterRuntime (N := N);
  nDone : bool;
  nNet : N;
  nConns : list Conn
}.

Inductive process :=
| Running (n : Node)
| Exited (code : Z)
| Crashed (why : string).

(** [clusterRuntime.start]: it registers the peers and starts the loop, whose ticks
    are steps of the process. *)
Definition start (r : Cluster.clusterRuntime (N := N)) (b : Broker) : Broker :=
  Cluster.bootstrapPeers r b.

(** [clusterRuntime.stop]: it closes the [done] channel, which panics the second
    time, and waits for the loop to return. *)
Definition stop (n : Node) : process :=
  if nDone n then Crashed "close of closed channel"
  else Running (mkNode (nBroker n) (nRuntime n) true (nNet n) (nConns n)).

(** [StartBackgroundRuntimes] and [StopBackgroundRuntimes]: [NewBroker] always sets
    the runtime. *)
Definition StartBackgroundRuntimes (r : Cluster.clusterRuntime (N := N)) (b : Broker) : Broker := start r b.
Definition StopBackgroundRuntimes (n : Node) : process := stop n.

(** [main] up to the accept loop; [listen] is the result of [net.Listen]. [os.Exit]
    does not run the deferred [StopBackgroundRuntimes], and the loop never returns. *)
Definition boot (load : result Config) (w : World) (groupDisk : Disk (text Groups.persisted_groups))
    (offsetDisk : Disk (text Offsets.offset_map)) (n0 : N) (listen : result unit) : process :=
  match load with
  | Failure _ => Exited 1
  | Success cfg =>
      let b := NewBroker cfg w groupDisk offsetDisk in
      let r := Cluster.newClusterRuntime b cfg in
      let b := StartBackgroundRuntimes r b in
      match listen with
      | Failure _ => Exited 1
      | Success _ => Running (mkNode b r false n0 [])
      end
  end.

(** What happens next. *)
Inductive event :=
| Accepted
| AcceptFailed
| Received (c : nat) (raw : string) (rounds : list Replication.round)
| Disconnected (c : nat)
| Ticked (e : Cluster.event).

Definition set_conn (n : Node) (b : Broker) (c : nat) (x : Conn) : Node :=
  mkNode b (nRuntime n) (nDone n) (nNet n) (<[c := x]> (nConns n)).

(** One round of the loop of [HandleConnection]. *)
Definition handle_line (line : string) (b : Broker) (rounds : list Replication.round) : answer :=
  match ParseRequest line with
  | Failure err => Returns (b, Some (Err "0" "BAD_REQUEST" err))
  | Success req => handleRequest req b rounds
  end.

(** A line read by [HandleConnection]: the scanner gives up on a line that does not
    fit its buffer, which closes the connection; it strips one trailing [\r]. *)
Definition receive (n : Node) (c : nat) (x : Conn) (raw : string) (rounds : list Replication.round) : process :=
  match take_until_long [raw] with
  | line :: _ =>
      match handle_line line (nBroker n) rounds with
      | Panics why => Crashed why
      | Returns (b, None) => Running (set_conn n b c (mkConn Waiting (taken x ++ [line]) (written x)))
      | Returns (b, Some response) =>
          Running (set_conn n b c (mkConn Reading (taken x ++ [line]) (written x ++ [response])))
      end
  | [] => Running (set_conn n (nBroker n) c (mkConn Closed (taken x) (written x)))
  end.

Definition step (s : process) (e : event) : process :=
  match s with
  | Running n =>
      match e with
      | Accepted =>
          Running (mkNode (nBroker n) (nRuntime n) (nDone n) (nNet n) (nConns n ++ [mkConn Reading [] []]))
      | AcceptFailed => s
      | Received c raw rounds =>
          match nConns n !! c with
          | Some x => match cphase x with Reading => receive n c x raw rounds | _ => s end
          | None => s
          end
      | Disconnected c =>
          match nConns n !! c with
          | Some x =>
              match cphase x with
              | Reading => Running (set_conn n (nBroker n) c (mkConn Closed (taken x) (written x)))
              | _ => s
              end
          | None => s
          end
      | Ticked e =>
          if nDone n then s
          else let '(r, b, net') := Cluster.run_event net NumError (nRuntime n, nBroker n, nNet n) e in
               Running (mkNode b r (nDone n) net' (nConns n))
      end
  | _ => s
  end.

Definition run (s : process) (es : list event) : process := fold_left step es s.

(** ** Responses and requests *)

(** [resp] answers [line]: a malformed line gets an error with correlation id 0, a
    request gets one OK or ERR line with its own correlation id. *)
Definition answers (line resp : string) : Prop :=
  match ParseRequest line with
  | Failure err => resp = Err "0" "BAD_REQUEST" err
  | Success req =>
      (exists payload, resp = Ok (reqCorrelationID req) payload)
      \/ (exists code msg, resp = Err (reqCorrelationID req) code msg)
  end.

Definition conn_ok (x : Conn) : Prop :=
  match cphase x with
  | Waiting => exists before line, taken x = before ++ [line] /\ Forall2 answers before (written x)
  | _ => Forall2 answers (taken x) (written x)
  end.

Lemma handle_line_answers line b rounds b' resp :
  handle_line line b rounds = Returns (b', Some resp) -> answers line resp.
Proof.
  unfold handle_line, answers. destruct (ParseRequest line) as [req|err]; [|by intros [= _ <-]].
  intros E. by apply request_cases in E as [_ H]; apply H.
Qed.

Lemma step_conns n e n' :
  Forall conn_ok (nConns n) -> step (Running n) e = Running n' -> Forall conn_ok (nConns n').
Proof.
  intros Hc. cbn [step].
  assert (forall c b x, conn_ok x -> Forall conn_ok (nConns (set_conn n b c x))) as Hset
    by (intros c b x Hx; cbn [set_conn nConns]; by apply Forall_insert).
  destruct e as [| |c raw rounds|c|e].
  - intros [= <-]. cbn [nConns]. apply Forall_app. split; [done|]. repeat constructor.
  - by intros [= <-].
  - destruct (nConns n !! c) as [x|] eqn:Ex; [|by intros [= <-]].
    pose proof (Forall_lookup_1 _ _ _ _ Hc Ex) as Hx. unfold conn_ok in Hx.
    destruct (cphase x) eqn:Ep; try (by intros [= <-]). unfold receive.
    destruct (take_until_long [raw]) as [|line ?]; [by intros [= <-]; apply Hset|].
    destruct (handle_line line (nBroker n) rounds) as [[b [resp|]]|] eqn:E; [| |done]; intros [= <-]; apply Hset.
    + apply Forall2_app; [done|]. constructor; [by eapply handle_line_answers|constructor].
    + unfold conn_ok. cbn [cphase taken written]. eauto.
  - destruct (nConns n !! c) as [x|] eqn:Ex; [|by intros [= <-]].
    pose proof (Forall_lookup_1 _ _ _ _ Hc Ex) as Hx. unfold conn_ok in Hx.
    destruct (cphase x) eqn:Ep; try (by intros [= <-]). intros [= <-]. by apply Hset.
  - destruct (nDone n); [by intros [= <-]|]. destruct (Cluster.run_event _ _ _ _) as [[r b] n1]. by intros [= <-].
Qed.

Lemma run_stops es s : (forall n, s <> Running n) -> run s es = s.
Proof. intros Hs. induction es as [|e es IH]; [done|]. unfold run. cbn [fold_left]. destruct s; [by edestruct Hs|done..]. Qed.

Lemma run_conns es n n' :
  Forall conn_ok (nConns n) -> run (Running n) es = Running n' -> Forall conn_ok (nConns n').
Proof.
  revert n. induction es as [|e es IH]; intros n Hc E; [by injection E as <-|].
  unfold run in E. cbn [fold_left] in E. destruct (step (Running n) e) as [n1| |] eqn:E1.
  - eapply IH; [by eapply step_conns|exact E].
  - change (run (Exited code) es = Running n') in E. by rewrite run_stops in E.
  - change (run (Crashed why) es = Running n') in E. by rewrite run_stops in E.
Qed.

(** C22: responses belong to their requests. However requests, ticks and new or
    closing connections interleave, in a running process the responses written to a
    connection answer the lines taken from that connection, one for one and in
    order, each with the correlation id of its own request; only the last line of a
    connection can be without an answer, while its produce waits for replicas. *)
Theorem responses_in_order load w gd od n0 listen es n c x :
  run (boot load w gd od n0 listen) es = Running n -> nConns n !! c = Some x -> conn_ok x.
Proof.
  unfold boot. destruct load as [cfg|e]; [|by rewrite run_stops]. destruct listen as [u|e]; [|by rewrite run_stops].
  intros E%run_conns Hx; [|constructor]. by eapply Forall_lookup_1.
Qed.

(** ** The invariant of the process *)
Section Invariant.
Context {LG : JsonLaws Groups.persisted_groups}.
Hypothesis representable_ascii : forall ps : Groups.persisted_groups, Groups.ascii_groups ps -> representable ps.

Definition event_ok (e : event) : Prop :=
  match e with
  | Received _ raw rounds => is_ascii raw = true /\ rounds_ok rounds
  | _ => True
  end.

(** No partition's offsets get near the end of [int] before a step. *)
Definition small (s : process) : Prop :=
  match s with Running n => offsets_small (bStorage (nBroker n)) | _ => True end.

Fixpoint steady (s : process) (es : list event) : Prop :=
  match es with
  | [] => True
  | e :: rest => small s /\ steady (step s e) rest
  end.

Definition node_ok (local : Z) (n : Node) : Prop :=
  broker_ok local (nBroker n) /\ runtime_ok local (nRuntime n).

Lemma NewBroker_ok cfg w gd od :
  config_ok cfg -> Groups.disk_ok (NumPartitions cfg) gd -> broker_ok (BrokerID cfg) (NewBroker cfg w gd od).
Proof.
  intros Hcfg Hd. unfold NewBroker. destruct (Storage.NewStorage cfg w) as [s w1]. cbv zeta.
  match goal with |- broker_ok _ (bootstrapControllerMetadata ?b0 cfg) =>
    assert (broker_ok (BrokerID cfg) b0) as Hb; [|set (b := b0) in *] end.
  { split; [done| | |].
    - apply Replication.NewManager_ok. cbn [replication_config Replication.ReplicationFactor]. apply (cfg_rf _ Hcfg).
    - apply new_store_inv.
    - apply Groups.new_manager_ok; [|done]. pose proof (cfg_partitions _ Hcfg). lia. }
  unfold bootstrapControllerMetadata. destruct (parseListenAddr _) as [fh fp].
  destruct (tick b) as [b1 n1] eqn:E1. destruct (tick b1) as [b2 n2] eqn:E2. destruct (tick b2) as [b3 n3] eqn:E3.
  assert (broker_ok (BrokerID cfg) b3) as Hb3 by (eauto using tick_ok).
  apply set_controller_ok; [done|apply RegisterBroker_inv, Hb3].
Qed.

Lemma boot_ok cfg w gd od n0 :
  config_ok cfg -> Groups.disk_ok (NumPartitions cfg) gd ->
  exists n, boot (Success cfg) w gd od n0 (Success ()) = Running n /\ node_ok (BrokerID cfg) n.
Proof.
  intros Hcfg Hd. eexists. split; [reflexivity|]. split; cbn [nBroker nRuntime].
  - by apply bootstrapPeers_ok, NewBroker_ok.
  - split; [cbn; ints|]. apply map_Forall_empty.
Qed.

Lemma line_ascii raw line rest :
  is_ascii raw = true -> take_until_long [raw] = line :: rest -> is_ascii line = true.
Proof.
  intros Ha. cbn [take_until_long]. destruct (_ <? _)%nat; [|done]. intros [= <- _].
  unfold drop_cr. destruct (CutLast (chr 13) raw) as [[a [|]]|] eqn:E; [|done..].
  apply (str_forall_CutLast _ _ _ _ _ Ha) in E as [? _]. done.
Qed.

Lemma step_node_ok local n e n' :
  node_ok local n -> event_ok e -> offsets_small (bStorage (nBroker n)) ->
  step (Running n) e = Running n' -> node_ok local n'.
Proof.
  intros [Hb Hr] He Hs. cbn [step]. destruct e as [| |c raw rounds|c|e].
  - by intros [= <-].
  - by intros [= <-].
  - destruct (nConns n !! c) as [x|]; [|by intros [= <-]]. destruct (cphase x); try (by intros [= <-]).
    destruct He as [Ha Hro]. unfold receive. destruct (take_until_long [raw]) as [|line ?] eqn:El; [by intros [= <-]|].
    apply line_ascii in El; [|done].
    destruct (handle_line line (nBroker n) rounds) as [[b r]|] eqn:E; [|done].
    assert (broker_ok local b) as Hb'.
    { unfold handle_line in E. destruct (ParseRequest line) as [req|err] eqn:Ep; [|by injection E as <- _].
      eapply request_ok; try done. by eapply ParseRequest_chars. }
    destruct r; by intros [= <-].
  - destruct (nConns n !! c) as [x|]; [|by intros [= <-]]. destruct (cphase x); by intros [= <-].
  - destruct (nDone n); [by intros [= <-]|].
    pose proof (run_event_ok local net NumError (nRuntime n) (nBroker n) (nNet n) e Hb Hr Hs) as H.
    destruct (Cluster.run_event _ _ _ _) as [[r b] n1]. by intros [= <-].
Qed.

Lemma run_node_ok local es : forall n, node_ok local n -> Forall event_ok es -> steady (Running n) es ->
  match run (Running n) es with Running n' => node_ok local n' | Exited _ => False | Crashed _ => True end.
Proof.
  induction es as [|e es IH]; intros n Hn Hes Hst; [done|]. inversion_clear Hes as [|? ? He Hes'].
  destruct Hst as [Hs Hst]. unfold run. cbn [fold_left]. change (fold_left (step) es) with (fun s => run s es).
  cbv beta. destruct (step (Running n) e) as [n1|code|why] eqn:E1.
  - apply IH; [by eapply step_node_ok|done|done].
  - exfalso. cbn [step] in E1. unfold receive in E1. repeat case_match; simplify_eq.
  - by rewrite run_stops.
Qed.

(** C6: the process keeps every component's invariant. Start the broker from any
    environment whose configuration is accepted, on any data directory whose group
    file is in order, and let connections come and go, send any ASCII lines, and the
    cluster runtime tick, in any order, with any file-system and network failures:
    as long as no offset reaches the end of the 64-bit range, the process keeps
    running (or stops with a run-time panic, never by itself), and at every moment
    the replication manager, the metadata store, the consumer groups and the workers
    of the runtime satisfy their invariants, with the broker id of the configuration. *)
Theorem process_keeps_invariants Getenv FmtError cfg w gd od n0 es :
  Load Getenv FmtError = Success cfg -> Groups.disk_ok (NumPartitions cfg) gd ->
  Forall event_ok es -> steady (boot (Load Getenv FmtError) w gd od n0 (Success ())) es ->
  match run (boot (Load Getenv FmtError) w gd od n0 (Success ())) es with
  | Running n => broker_ok (BrokerID cfg) (nBroker n) /\ runtime_ok (BrokerID cfg) (nRuntime n)
  | Exited _ => False
  | Crashed _ => True
  end.
Proof.
  intros Hl Hd Hes. rewrite Hl. apply accepted_config_ok in Hl.
  destruct (boot_ok cfg w gd od n0 Hl Hd) as (n & -> & Hn). intros Hst. by apply (run_node_ok (BrokerID cfg)).
Qed.
End Invariant.
End Process.

(** ** Witnesses: a process with one connection *)
#[local] Instance demo_case : UnicodeCase := {| upper_unicode := id; lower_unicode := id |}.

Definition demo_boot : @process (value_json ∅) (value_json ∅) unit :=
  @boot canonical_order (value_json ∅) (value_json ∅) unit (Load demo_env (fun _ _ => ""))
    (mkWorld ∅ [] (unix_epoch + 100 * Second) []) (mkDisk None []) (mkDisk None []) () (Success ()).

Definition demo_events : list event :=
  [Accepted; Received 0 "V1|7|JOIN|g orders c1" []; Ticked Cluster.ReconcileTick; Received 0 "hello" []].

Definition demo_run (es : list event) : @process (value_json ∅) (value_json ∅) unit :=
  @run canonical_order _ _ _ unit (scripted "") (fun _ => "") demo_boot es.

Definition responses (s : @process (value_json ∅) (value_json ∅) unit) (c : nat) : list string :=
  match s with
  | Running n => match nConns n !! c with Some x => written x | None => [] end
  | _ => []
  end.

Lemma demo_responses :
  responses (demo_run demo_events) 0
  = [Ok "7" "generation=2 assigned=[0 1 2]";
     Err "0" "BAD_REQUEST" "expected format V1|<correlation_id>|<command>|<args>"].
Proof. vm_compute. reflexivity. Qed.

Lemma responses_in_order_witness :
  exists n x, demo_run demo_events = Running n /\ nConns n !! 0%nat = Some x /\ conn_ok x
  /\ length (written x) = 2%nat.
Proof.
  pose proof demo_responses as H. unfold responses in H.
  destruct (demo_run demo_events) as [n| |] eqn:E; [|discriminate H..].
  destruct (nConns n !! 0%nat) as [x|] eqn:Ex; [|discriminate H].
  exists n, x. split; [reflexivity|]. split; [exact Ex|]. split; [|rewrite H; reflexivity].
  exact (@responses_in_order canonical_order _ _ _ unit (scripted "") (fun _ => "") (Load demo_env (fun _ _ => ""))
    (mkWorld ∅ [] (unix_epoch + 100 * Second) []) (mkDisk None []) (mkDisk None []) () (Success ())
    demo_events n 0%nat x E Ex).
Defined.

(** A process whose store has no partitions. *)
Lemma no_offsets (s : @process (value_json ∅) (value_json ∅) unit) :
  match s with
  | Running n => Storage.states (bStorage (nBroker n)) = ∅ /\ Storage.data (bStorage (nBroker n)) = ∅
  | _ => True
  end -> small s.
Proof.
  destruct s as [n| |]; [|done..]. intros [Hs Hd] t p. unfold Storage.state_of, Storage.LastOffset.
  rewrite Hs, Hd, lookup2_empty, lookup_empty. cbn. ints.
Qed.

Lemma demo_small k : (k < 4)%nat -> small (demo_run (take k demo_events)).
Proof.
  intros Hk. apply no_offsets.
  destruct k as [|[|[|[|k]]]]; [| | | |lia]; vm_compute; split; reflexivity.
Qed.

Lemma demo_steady : @steady canonical_order _ _ _ unit (scripted "") (fun _ => "") demo_boot demo_events.
Proof.
  split; [exact (demo_small 0 ltac:(lia))|]. split; [exact (demo_small 1 ltac:(lia))|].
  split; [exact (demo_small 2 ltac:(lia))|]. split; [exact (demo_small 3 ltac:(lia))|]. exact I.
Qed.

Definition demo_config : Config :=
  match Load demo_env (fun _ _ => "") with
  | Success cfg => cfg
  | Failure _ => mkConfig "" "" 0 0 [] "" 0 0 0 0 0 0 0 0 0 0 0 ""
  end.

Lemma process_keeps_invariants_witness :
  exists n, demo_run demo_events = Running n
  /\ @Groups.manager_ok (value_json ∅) (groups_of (nBroker n)) /\ runtime_ok (BrokerID demo_config) (nRuntime n).
Proof.
  pose proof (@process_keeps_invariants canonical_order _ (value_json ∅) (value_json ∅) unit (scripted "") (fun _ => "")
    (value_json_laws ∅) (fun _ _ => I) demo_env (fun _ _ => "") demo_config
    (mkWorld ∅ [] (unix_epoch + 100 * Second) []) (mkDisk None []) (mkDisk None []) () demo_events) as H.
  fold demo_boot in H. fold (demo_run demo_events) in H.
  pose proof demo_responses as Hr. unfold responses in Hr.
  destruct (demo_run demo_events) as [n| |]; [|discriminate Hr..].
  destruct H as [Hb Hrt].
  - vm_compute. reflexivity.
  - split; [constructor|]. intros t ps Ht. discriminate Ht.
  - repeat constructor.
  - exact demo_steady.
  - exists n. split; [reflexivity|]. split; [apply (bo_groups _ _ Hb)|exact Hrt].
Defined.
End Process.
