(* ===== verification/EndToEnd.v ===== *)
(** * Replication end to end

    A leader and a follower connected by the wire: the follower's worker
    ([StepOnce], worker.go) talks through its transport (tcp_transport.go) to the
    leader's request handlers (handler.go), which read the leader's log and update
    its replication manager; the follower applies what it fetched to its own store
    (storage.go). The network between them may fail at any call.

    The theorems, for values that replication carries (ASCII without blanks and
    commas, under 65,000 bytes) and disks that do not fail: whatever network calls
    fail, the follower only ever holds records the leader has stored, at the same
    offsets, and the leader never credits it with more than it holds; over a network
    that works and from a leader whose retention has removed nothing, the follower
    catches up. *)
From S2P Require Import Prelude GoStrings Protocol Config Persist Groups Offsets Replication ControlPlane.
From S2P Require Import Controller Worker TcpTransport StorageCodec FileSystem Storage StorageLog.
From S2P Require Import StorageRecovery StorageDurability Broker Cluster Handler.

Module EndToEnd.
Import FS Broker Recovery Durability.

Section EndToEnd.
Context `{MO : MapOrder} `{UC : UnicodeCase}
  `{JG : Json Groups.persisted_groups} `{JO : Json Offsets.offset_map}.
Variable NumError : string -> string.

(** ** The wire

    A connection to the leader: a request line that is written is handled by the
    leader's connection loop, and its response waits to be read. [fates] says
    which of the coming network calls fail, and with what error. *)
Record Link := mkLink {
  leader : Broker;
  inbox : option string;
  fates : list (option string)
}.

Definition next_fate (l : Link) : Link * option string :=
  match fates l with
  | [] => (l, None)
  | f :: rest => (mkLink (leader l) (inbox l) rest, f)
  end.

Definition deliver (l : Link) (line : string) : Link :=
  match Handler.serve (leader l) [(line, [])] [] with
  | Returns (b, [response]) => mkLink b (Some response) (fates l)
  | Returns (b, _) => mkLink b None (fates l)
  | Panics _ => mkLink (leader l) None (fates l)
  end.

Definition link_network : Network Link := {|
  DialTimeout := fun l _ _ =>
    match next_fate l with
    | (l, Some err) => (l, Failure err)
    | (l, None) => (mkLink (leader l) None (fates l), Success ())
    end;
  ConnWrite := fun l line =>
    match next_fate l with
    | (l, Some err) => (l, Failure err)
    | (l, None) => (deliver l line, Success ())
    end;
  ReadLine := fun l =>
    match next_fate l with
    | (l, Some err) => (l, Failure err)
    | (l, None) =>
        match inbox l with
        | Some line => (mkLink (leader l) None (fates l), Success line)
        | None => (l, Failure "EOF")
        end
    end
|}.

(** ** One exchange *)
Lemma token_Itoa z : token (Itoa z) = true.
Proof. unfold token. rewrite Itoa_word. by apply (num_no_char "|"), Itoa_num. Qed.

Lemma next_fate_leader l : leader (next_fate l).1 = leader l.
Proof. unfold next_fate. by destruct (fates l). Qed.

Lemma next_fate_fine l : fates l = [] -> next_fate l = (l, None).
Proof. unfold next_fate. by intros ->. Qed.

Lemma deliver_request l cid cmd ws b' resp :
  token cid = true -> token cmd = true -> is_ascii cmd = true -> str_map upper_byte cmd = cmd ->
  Forall (fun x => word x = true) ws ->
  Handler.handleRequest (mkRequest Version cid cmd ws) (leader l) [] = Returns (b', Some resp) ->
  deliver l (request_line cid cmd (Join ws " ")) = mkLink b' (Some resp) (fates l).
Proof.
  intros Hcid Hcmd Ha Hu Hws Hans. unfold deliver. cbn [Handler.serve].
  rewrite parse_request_line by done. by rewrite Hans.
Qed.

(** What [send] returns, when the leader has an answer to the request. *)
Lemma send_cases t l cmd ws b' resp t' l' r :
  let n := (seq t + 1) mod 2 ^ 64 in
  LeaderAddr t <> "" -> token cmd = true -> is_ascii cmd = true -> str_map upper_byte cmd = cmd ->
  Forall (fun x => word x = true) ws ->
  Handler.handleRequest (mkRequest Version (Itoa n) cmd ws) (leader l) [] = Returns (b', Some resp) ->
  send link_network t l cmd (Join ws " ") = (t', l', r) ->
  LeaderAddr t' = LeaderAddr t
  /\ ((leader l' = leader l /\ is_success r = false)
      \/ (leader l' = b' /\ (is_success r = false \/ r = Success (TrimSpace resp))))
  /\ (fates l = [] -> leader l' = b' /\ r = Success (TrimSpace resp) /\ fates l' = []).
Proof.
  intros n Haddr Hcmd Ha Hu Hws Hans. unfold send. apply String.eqb_neq in Haddr. rewrite Haddr. fold n.
  cbn [link_network DialTimeout ConnWrite ReadLine].
  pose proof (next_fate_leader l) as E1. pose proof (next_fate_fine l) as F1.
  destruct (next_fate l) as [l1 [e1|]]; cbn [fst] in E1.
  { intros [= <- <- <-]. split; [done|]. split; [by left|]. intros Hf. by specialize (F1 Hf). }
  set (l2 := mkLink (leader l1) None (fates l1)).
  pose proof (next_fate_leader l2) as E2. pose proof (next_fate_fine l2) as F2. change (leader l2) with (leader l1) in E2.
  destruct (next_fate l2) as [l3 [e3|]]; cbn [fst] in E2.
  { intros [= <- <- <-]. split; [done|]. split; [left; split; [congruence|done]|].
    intros Hf. specialize (F1 Hf). injection F1 as ->. by specialize (F2 Hf). }
  assert (leader l3 = leader l) as E3 by congruence.
  rewrite (deliver_request l3 (Itoa n) cmd ws b' resp) by (try done; first [apply token_Itoa | by rewrite E3]).
  set (l4 := mkLink b' (Some resp) (fates l3)).
  pose proof (next_fate_leader l4) as E4. pose proof (next_fate_fine l4) as F4. cbn [l4 leader] in E4.
  assert (forall f, next_fate l4 = f -> inbox f.1 = Some resp) as I4.
  { intros f <-. unfold next_fate, l4. cbn [fates]. by destruct (fates l3). }
  specialize (I4 _ eq_refl). destruct (next_fate l4) as [l5 [e5|]]; cbn [fst] in E4, I4.
  { intros [= <- <- <-]. split; [done|]. split; [right; split; [done|by left]|].
    intros Hf. specialize (F1 Hf). injection F1 as ->. specialize (F2 Hf). injection F2 as ->. by specialize (F4 Hf). }
  rewrite I4. intros [= <- <- <-]. split; [done|]. split; [right; split; [done|by right]|].
  intros Hf. split; [done|]. split; [done|]. cbn [fates].
  specialize (F1 Hf). injection F1 as ->. specialize (F2 Hf). injection F2 as ->. specialize (F4 Hf). by injection F4 as ->.
Qed.
(** ** What the leader answers *)

(** Two managers that agree on who leads a partition and how far its replicas are. *)
Record same_progress (t : string) (p : Z) (m m' : Replication.Manager) : Prop := {
  pr_cfg : Replication.cfg m' = Replication.cfg m;
  pr_role : Replication.role (Replication.get_partition m' t p) = Replication.role (Replication.get_partition m t p);
  pr_leader : Replication.leaderOffset (Replication.get_partition m' t p)
              = Replication.leaderOffset (Replication.get_partition m t p);
  pr_offset : forall id,
    Replication.offset <$> Replication.followers (Replication.get_partition m' t p) !! id
    = Replication.offset <$> Replication.followers (Replication.get_partition m t p) !! id
}.

Lemma same_progress_trans t p m1 m2 m3 :
  same_progress t p m1 m2 -> same_progress t p m2 m3 -> same_progress t p m1 m3.
Proof. intros [] []. split; [congruence..|]. intros id. congruence. Qed.

Lemma IsLeader_progress m t p m' leads :
  Replication.manager_ok m -> Replication.IsLeader m t p = (m', leads) ->
  Replication.manager_ok m' /\ same_progress t p m m'
  /\ leads = String.eqb (Replication.role (Replication.get_partition m t p)) "leader".
Proof.
  intros Hm E. unfold Replication.IsLeader in E. pose proof (Replication.ensurePartition_ok m t p Hm) as Hok.
  destruct (Replication.ensurePartition m t p) as [m1 ps] eqn:E1.
  apply Replication.ensurePartition_inv in E1 as (-> & Hc & Hg). injection E as <- <-.
  split; [done|]. split; [|done]. split; [done|by rewrite Hg..|]. intros id. by rewrite Hg.
Qed.

Lemma GetStatus_progress m t p now m' st :
  Replication.manager_ok m -> Replication.GetStatus m t p now = (m', st) ->
  Replication.manager_ok m' /\ same_progress t p m m'
  /\ Replication.stLeaderOffset st = Replication.leaderOffset (Replication.get_partition m t p)
  /\ in_int (Replication.stHighWatermark st) = true.
Proof.
  intros Hm E. destruct (Replication.GetStatus_result m t p now m' st Hm E) as (Hm' & Hc & ->).
  unfold Replication.GetStatus in E. destruct (Replication.ensurePartition m t p) as [m1 ps] eqn:E1.
  apply Replication.ensurePartition_inv in E1 as (-> & Hc1 & Hg). injection E as <- _.
  pose proof (Replication.get_partition_ok _ t p Hm') as [Hcore Hhw _ _].
  destruct (Replication.core_leader _ _ Hcore) as [_ Hmax].
  rewrite Replication.recomputeLocked_get in *. split; [done|]. split; [|split].
  - split; [done|rewrite Replication.recomputeLocked_get; done..|]. intros id.
    rewrite Replication.recomputeLocked_get. cbn [Replication.recompute fst Replication.followers].
    rewrite lookup_fmap. by destruct (Replication.followers _ !! id).
  - done.
  - apply in_int_spec. cbn [Replication.statusLocked Replication.stHighWatermark]. ints.
Qed.

Lemma tick_keeps b : bStorage (tick b).1 = bStorage b /\ bReplication (tick b).1 = bReplication b.
Proof. unfold tick. by destruct (Now (bWorld b)). Qed.

(** A step that may advance the clock but leaves the files of the broker alone. *)
Definition keeps_disk (b b' : Broker) : Prop :=
  forall s, store_ok s (bWorld b) -> store_ok s (bWorld b').

Lemma tick_disk b : keeps_disk b (tick b).1.
Proof.
  intros s Hs. unfold tick. destruct (Now_quiet (bWorld b) (so_calm _ _ Hs)) as (w & now & -> & Q & _).
  by eapply store_ok_quiet.
Qed.

Lemma set_replication_disk b m : keeps_disk b (set_replication b m).
Proof. by intros s. Qed.

Lemma keeps_disk_trans b1 b2 b3 : keeps_disk b1 b2 -> keeps_disk b2 b3 -> keeps_disk b1 b3.
Proof. unfold keeps_disk. auto. Qed.

Definition to_record (m : Storage.Message) : ReplicationRecord := mkRecord (Storage.Offset m) (Storage.Value m).

(** The slice of the log a fetch asks for. *)
Definition slice (log : list Storage.Message) (off max : Z) : list Storage.Message :=
  take (Z.to_nat max) (drop (Z.to_nat off) log).

Lemma Consume_slice s t p off : 0 <= off ->
  Storage.Consume s t p off = Returns (drop (Z.to_nat off) (Storage.log_of s t p)).
Proof.
  intros Hoff. rewrite StorageLog.Consume_log. unfold Storage.log_of.
  destruct (lookup2 (Storage.data s) t p) as [l|]; simpl; [|by rewrite drop_nil].
  destruct (Z.leb_spec (Z.of_nat (length l)) off); [by rewrite drop_ge by lia|].
  destruct (Z.ltb_spec off 0); [lia|done].
Qed.

Lemma with_int_Itoa b req z field k : in_int z = true ->
  Handler.with_int b req (Itoa z) field k = k z.
Proof. intros Hz. unfold Handler.with_int, ParseInt. by rewrite Atoi_Itoa. Qed.

Definition not_leader : string := "partition leader unavailable on this broker".

Lemma fetch_answer b cid t p f off max :
  in_int p = true -> in_int f = true -> 0 <= off <= int_max -> 0 < max <= Handler.max_string_cap ->
  Replication.manager_ok (bReplication b) ->
  let ps := Replication.get_partition (bReplication b) t p in
  exists b' resp,
  Handler.handleRequest (mkRequest Version cid "BROKER_FETCH" [t; Itoa p; Itoa f; Itoa off; Itoa max]) b []
  = Returns (b', Some resp)
  /\ bStorage b' = bStorage b /\ keeps_disk b b' /\ Replication.manager_ok (bReplication b')
  /\ same_progress t p (bReplication b) (bReplication b')
  /\ (if String.eqb (Replication.role ps) "leader"
      then exists hw, in_int hw = true
           /\ resp = Ok cid (broker_fetch_payload t p f hw (map print_record (map to_record
                (if Replication.leaderOffset ps <? off then []
                 else slice (Storage.log_of (bStorage b) t p) off max))))
      else resp = Err cid "NOT_LEADER" not_leader).
Proof.
  intros Hp Hf Hoff Hmax Hm ps.
  assert (Handler.max_string_cap <= int_max) as Hcap by (vm_compute; discriminate).
  change (Handler.handleRequest ?req b []) with (Handler.handleBrokerFetch req b).
  unfold Handler.handleBrokerFetch. cbn [reqArgs]. change (1 <? Z.of_nat (length [Itoa max])) with false. cbv iota.
  repeat (rewrite with_int_Itoa by (try done; apply in_int_spec; ints); cbv beta).
  rewrite (proj2 (Z.leb_gt max 0)) by lia. cbv zeta.
  destruct (Replication.IsLeader (bReplication b) t p) as [m1 leads] eqn:E1.
  apply IsLeader_progress in E1 as (Hm1 & P1 & ->); [|done]. fold ps.
  destruct (String.eqb (Replication.role ps) "leader"); cbn [negb].
  2: { eexists _, _. split; [reflexivity|]. cbn [set_replication bStorage bReplication].
       split; [done|]. split; [apply set_replication_disk|done]. }
  pose proof (tick_keeps (set_replication b m1)) as [T1 T2].
  assert (keeps_disk b (tick (set_replication b m1)).1) as D
    by (eapply keeps_disk_trans; [apply set_replication_disk|apply tick_disk]).
  destruct (tick (set_replication b m1)) as [b2 now]. cbn [fst set_replication bStorage bReplication] in T1, T2, D.
  rewrite T2. destruct (Replication.GetStatus m1 t p now) as [m3 st] eqn:E3.
  apply GetStatus_progress in E3 as (Hm3 & P3 & Hlo & Hhw); [|done].
  rewrite (pr_leader _ _ _ _ P1) in Hlo. fold ps in Hlo. rewrite Hlo.
  pose proof (same_progress_trans _ _ _ _ _ P1 P3) as P.
  replace ((Replication.leaderOffset ps <? 0) || (Replication.leaderOffset ps <? off))
    with (Replication.leaderOffset ps <? off) by lia.
  destruct (Replication.leaderOffset ps <? off).
  { eexists _, _. split; [reflexivity|]. cbn [set_replication bStorage bReplication].
    split; [done|]. split; [exact D|]. split; [done|]. split; [done|]. by eexists. }
  cbn [set_replication bStorage]. rewrite T1, Consume_slice by lia.
  rewrite (proj2 (Z.ltb_ge Handler.max_string_cap max)) by lia.
  eexists _, _. split; [reflexivity|]. cbn [set_replication bStorage bReplication].
  split; [done|]. split; [exact D|]. split; [done|]. split; [done|]. exists (Replication.stHighWatermark st).
  split; [done|]. unfold slice. by rewrite map_map.
Qed.

(** The progress of replica [f] after an acknowledgement of [off]. *)
Definition acked_offset (ps : Replication.partitionState) (r : Replication.replicaState) (off : Z) : Z :=
  Z.max (Replication.offset r) (Z.min off (Replication.leaderOffset ps)).

Lemma ack_payload_edged t p f off (hw : Z) isr under :
  edged ("topic=" +:+ t +:+ " partition=" +:+ Itoa p +:+ " follower=" +:+ Itoa f
    +:+ " acked_offset=" +:+ Itoa off +:+ " hw=" +:+ Itoa hw +:+ " isr=" +:+ isr
    +:+ " under_replicated=" +:+ fmt_bool under).
Proof.
  pose proof (edged_app "topic=" (t +:+ " partition=" +:+ Itoa p +:+ " follower=" +:+ Itoa f
    +:+ " acked_offset=" +:+ Itoa off +:+ " hw=" +:+ Itoa hw +:+ " isr=" +:+ isr +:+ " ")
    ("under_replicated=" +:+ fmt_bool under)) as E. strs.
  apply E; try done; try (by apply word_edged). by destruct under; apply word_edged.
Qed.

Lemma ack_answer b cid t p f off :
  in_int p = true -> in_int f = true -> in_int off = true ->
  Replication.manager_ok (bReplication b) ->
  let ps := Replication.get_partition (bReplication b) t p in
  exists b' resp,
  Handler.handleRequest (mkRequest Version cid "BROKER_REPLICA_ACK" [t; Itoa p; Itoa f; Itoa off]) b []
  = Returns (b', Some resp)
  /\ bStorage b' = bStorage b /\ keeps_disk b b' /\ Replication.manager_ok (bReplication b')
  /\ (same_progress t p (bReplication b) (bReplication b')
      \/ (Replication.cfg (bReplication b') = Replication.cfg (bReplication b)
          /\ Replication.role (Replication.get_partition (bReplication b') t p) = Replication.role ps
          /\ Replication.leaderOffset (Replication.get_partition (bReplication b') t p) = Replication.leaderOffset ps
          /\ exists r, Replication.followers ps !! f = Some r
             /\ Replication.offset <$> Replication.followers (Replication.get_partition (bReplication b') t p) !! f
                = Some (acked_offset ps r off)
             /\ exists payload, edged payload /\ resp = Ok cid payload))
  /\ (1 <= f < Replication.ReplicationFactor (Replication.cfg (bReplication b)) ->
      Replication.role ps = "leader" -> exists payload, edged payload /\ resp = Ok cid payload
      /\ exists r, Replication.followers ps !! f = Some r
         /\ Replication.offset <$> Replication.followers (Replication.get_partition (bReplication b') t p) !! f
            = Some (acked_offset ps r off)).
Proof.
  intros Hp Hf Hoff Hm ps.
  change (Handler.handleRequest ?req b []) with (Handler.handleBrokerReplicaAck req b).
  unfold Handler.handleBrokerReplicaAck. cbn [reqArgs].
  repeat (rewrite with_int_Itoa by done; cbv beta). unfold Handler.with_ack.
  pose proof (tick_keeps b) as [T1 R1]. pose proof (tick_disk b) as D1. destruct (tick b) as [b1 seen].
  pose proof (tick_keeps b1) as [T2 R2]. pose proof (tick_disk b1) as D2. destruct (tick b1) as [b2 now].
  cbn [fst] in T1, R1, D1, T2, R2, D2. pose proof (keeps_disk_trans _ _ _ D1 D2) as D.
  assert (bReplication b2 = bReplication b) as Rb by congruence. rewrite Rb.
  pose proof (Replication.exec_ok (bReplication b) (Replication.OpAckReplica t p f off seen now) Hm I) as Hm1.
  pose proof (Replication.exec_cfg (bReplication b) (Replication.OpAckReplica t p f off seen now)) as Hc1.
  cbn [Replication.exec] in Hm1, Hc1.
  destruct (Replication.AckReplica (bReplication b) t p f off seen now) as [m1 res] eqn:E1. cbn [fst] in Hm1, Hc1.
  pose proof (Replication.ack_replica_cases _ _ _ _ _ _ _ _ _ Hm E1) as Hcases. destruct res as [[]|e].
  2: { destruct Hcases as [Hsame Hwhy]. eexists _, _. split; [reflexivity|].
       cbn [set_replication bStorage bReplication]. split; [congruence|]. split; [exact D|]. split; [done|]. split.
       - left. split; [done|by rewrite Hsame..|]. intros id. by rewrite Hsame.
       - intros Hid Hrole. fold ps in Hwhy. destruct Hwhy as [[_ H]|[_ H]]; by destruct H. }
  destruct Hcases as (Hid & Hrole & Hlo & (r & r' & Hr & Hr' & Hoffs & _) & _). fold ps in Hrole, Hlo, Hr, Hoffs.
  pose proof (tick_keeps (set_replication b2 m1)) as [T3 R3]. pose proof (tick_disk (set_replication b2 m1)) as D3.
  destruct (tick (set_replication b2 m1)) as [b3 now3]. cbn [fst set_replication bStorage bReplication] in T3, R3, D3.
  rewrite R3. destruct (Replication.GetStatus m1 t p now3) as [m4 st] eqn:E4.
  apply GetStatus_progress in E4 as (Hm4 & [P1 P2 P3 P4] & _); [|done].
  assert (Replication.role (Replication.get_partition m1 t p) = "leader") as Hrole1.
  { unfold Replication.AckReplica in E1. destruct (_ || _); [done|].
    destruct (Replication.ensurePartition _ t p) as [m0 ps0] eqn:E0.
    apply Replication.ensurePartition_inv in E0 as (-> & _ & _). fold ps in E1. rewrite Hrole in E1. cbn [negb] in E1.
    simpl String.eqb in E1. cbv iota in E1. rewrite Hr in E1. injection E1 as <-.
    by rewrite Replication.recomputeLocked_get. }
  specialize (P4 f). rewrite Hr' in P4. cbn [fmap option_fmap option_map] in P4. rewrite Hoffs in P4.
  eexists _, _. split; [reflexivity|]. cbn [set_replication bStorage bReplication].
  split; [congruence|]. split; [exact (keeps_disk_trans _ _ _ D D3)|]. split; [done|]. split.
  - right. split; [congruence|]. split; [congruence|]. split; [congruence|].
    exists r. split; [done|]. split; [done|]. eexists. split; [apply ack_payload_edged|done].
  - intros _ _. eexists. split; [apply ack_payload_edged|]. split; [done|]. exists r. done.
Qed.

(** ** The follower's side of the wire *)
Section Partition.
Variables (t : string) (p f : Z).
Hypotheses (Htopic : clean_topic t = true) (Hreal : real t = true)
  (Hp : int_range p) (Hf : in_int f = true).

Abbreviation world := (TCPTransport * Link * (Storage.Storage * World))%type.
Abbreviation wire := (Cluster.worker_transport link_network NumError).

Definition leader_log (l : Link) : list Storage.Message := Storage.log_of (bStorage (leader l)) t p.
Definition leader_part (l : Link) : Replication.partitionState :=
  Replication.get_partition (bReplication (leader l)) t p.

Lemma topic_word : word t = true.
Proof. unfold clean_topic in Htopic. by apply andb_true_iff in Htopic as [[? _]%andb_true_iff _]. Qed.

Lemma int_range_in z : int_range z -> in_int z = true.
Proof. unfold int_range. intros. apply in_int_spec. ints. Qed.

Lemma fetch_step tr l sw off max tr' l' sw' r :
  LeaderAddr tr <> "" -> 0 <= off <= int_max -> 0 < max <= Handler.max_string_cap ->
  Replication.manager_ok (bReplication (leader l)) ->
  Forall (fun m => record_ok (to_record m) = true) (leader_log l) ->
  Fetch wire (tr, l, sw) t p f off max = ((tr', l', sw'), r) ->
  sw' = sw /\ LeaderAddr tr' = LeaderAddr tr /\ bStorage (leader l') = bStorage (leader l)
  /\ keeps_disk (leader l) (leader l') /\ Replication.manager_ok (bReplication (leader l'))
  /\ same_progress t p (bReplication (leader l)) (bReplication (leader l'))
  /\ (forall fr, r = Success fr ->
        frRecords fr = [] \/ frRecords fr = map to_record (slice (leader_log l) off max))
  /\ (fates l = [] -> Replication.role (leader_part l) = "leader" -> fates l' = [] /\ exists hw,
        r = Success (mkFetchResult hw (map to_record
              (if Replication.leaderOffset (leader_part l) <? off then [] else slice (leader_log l) off max)))).
Proof.
  intros Haddr Hoff Hmax Hm Hclean. cbn [Fetch Cluster.worker_transport]. unfold tcp_Fetch.
  rewrite (proj2 (Z.leb_gt max 0)) by lia. set (n := (seq tr + 1) mod 2 ^ 64).
  destruct (fetch_answer (leader l) (Itoa n) t p f off max) as (b' & resp & Hans & Hst & Hdisk & Hm' & Hpr & Hresp);
    [by apply int_range_in|done..|]. cbv zeta in Hresp.
  destruct (send link_network tr l "BROKER_FETCH" _) as [[tr1 l1] r1] eqn:E1.
  apply (send_cases tr l "BROKER_FETCH" [t; Itoa p; Itoa f; Itoa off; Itoa max] b' resp) in E1
    as (Ha & Hcase & Hfine); [|done..| |exact Hans].
  2: { repeat constructor; [apply topic_word|apply Itoa_word..]. }
  assert (Hdec : forall ms, Forall (fun m => record_ok (to_record m) = true) ms -> forall hw, in_int hw = true ->
    decode_fetch NumError (TrimSpace (Ok (Itoa n) (broker_fetch_payload t p f hw (map print_record (map to_record ms)))))
    = Success (mkFetchResult hw (map to_record ms))).
  { intros ms Hms hw Hhw. apply decode_print; [apply (num_no_char "|"), Itoa_num; done|done|done|]. by apply Forall_map. }
  assert (Forall (fun m => record_ok (to_record m) = true) (slice (leader_log l) off max)) as Hslice
    by (by apply Forall_take, Forall_drop).
  assert (forall m, same_progress t p m m) as Hrefl by done.
  set (ms := if Replication.leaderOffset (leader_part l) <? off then [] else slice (leader_log l) off max).
  assert (Forall (fun m => record_ok (to_record m) = true) ms) as Hms by (unfold ms; by destruct (_ <? _)).
  assert (Hgood : forall fr, decode_fetch NumError (TrimSpace resp) = Success fr -> frRecords fr = map to_record ms).
  { intros fr. fold (leader_part l) in Hresp. destruct (String.eqb _ "leader").
    - destruct Hresp as (hw & Hhw & ->). change (if _ <? off then [] else _) with ms. rewrite Hdec by done. by intros [= <-].
    - subst resp. unfold decode_fetch. rewrite Err_roundtrip; [done|by apply (num_no_char "|"), Itoa_num| |done| |done].
      + apply Itoa_nonempty.
      + right. split; [by exists "p"%char, "artition leader unavailable on this broker"|].
        by exists "partition leader unavailable on this broke", "r"%char. }
  intros E. assert (tr' = tr1 /\ l' = l1 /\ sw' = sw
    /\ r = match r1 with Success line => decode_fetch NumError line | Failure e => Failure e end) as (-> & -> & -> & ->)
    by (destruct r1; by injection E as <- <- <- <-). clear E.
  split; [done|]. split; [done|].
  assert ((leader l1 = leader l \/ leader l1 = b') /\ (is_success r1 = false \/ r1 = Success (TrimSpace resp))) as [Hl Hr]
    by (destruct Hcase as [[-> ?]|[-> ?]]; auto).
  split; [by destruct Hl as [-> | ->]|]. split; [destruct Hl as [-> | ->]; [by intros s|done]|].
  split; [by destruct Hl as [-> | ->]|]. split; [by destruct Hl as [-> | ->]|]. split.
  - intros fr Hfr. destruct Hr as [Hr | ->]; [by destruct r1|]. apply Hgood in Hfr as ->.
    unfold ms. destruct (_ <? off); auto.
  - intros Hfates Hrole. destruct (Hfine Hfates) as (_ & -> & Hf1). split; [done|].
    fold (leader_part l) in Hresp. rewrite Hrole in Hresp. destruct Hresp as (hw & Hhw & ->).
    exists hw. by apply Hdec.
Qed.

Lemma ack_step tr l sw off tr' l' sw' r :
  LeaderAddr tr <> "" -> in_int off = true -> Replication.manager_ok (bReplication (leader l)) ->
  Ack wire (tr, l, sw) t p f off = ((tr', l', sw'), r) ->
  sw' = sw /\ LeaderAddr tr' = LeaderAddr tr /\ bStorage (leader l') = bStorage (leader l)
  /\ keeps_disk (leader l) (leader l') /\ Replication.manager_ok (bReplication (leader l'))
  /\ Replication.cfg (bReplication (leader l')) = Replication.cfg (bReplication (leader l))
  /\ Replication.role (leader_part l') = Replication.role (leader_part l)
  /\ Replication.leaderOffset (leader_part l') = Replication.leaderOffset (leader_part l)
  /\ (forall o, Replication.offset <$> Replication.followers (leader_part l') !! f = Some o ->
        exists r0, Replication.followers (leader_part l) !! f = Some r0
        /\ (o = Replication.offset r0 \/ o = acked_offset (leader_part l) r0 off))
  /\ (fates l = [] -> 1 <= f < Replication.ReplicationFactor (Replication.cfg (bReplication (leader l))) ->
      Replication.role (leader_part l) = "leader" ->
      fates l' = [] /\ r = Success () /\ exists r0, Replication.followers (leader_part l) !! f = Some r0
        /\ Replication.offset <$> Replication.followers (leader_part l') !! f
           = Some (acked_offset (leader_part l) r0 off)).
Proof.
  intros Haddr Hoff Hm. cbn [Ack Cluster.worker_transport]. unfold tcp_Ack. set (n := (seq tr + 1) mod 2 ^ 64).
  destruct (ack_answer (leader l) (Itoa n) t p f off) as (b' & resp & Hans & Hst & Hdisk & Hm' & Hpr & Hgood);
    [by apply int_range_in|done..|]. cbv zeta in Hpr, Hgood. fold (leader_part l) in Hpr, Hgood.
  destruct (send link_network tr l "BROKER_REPLICA_ACK" _) as [[tr1 l1] r1] eqn:E1.
  apply (send_cases tr l "BROKER_REPLICA_ACK" [t; Itoa p; Itoa f; Itoa off] b' resp) in E1
    as (Ha & Hcase & Hfine); [|done..| |exact Hans].
  2: { repeat constructor; [apply topic_word|apply Itoa_word..]. }
  intros E. assert (tr' = tr1 /\ l' = l1 /\ sw' = sw
    /\ r = match r1 with Success line => (let? _ := parseOKPayload line in Success ()) | Failure e => Failure e end)
    as (-> & -> & -> & ->) by (destruct r1; by injection E as <- <- <- <-). clear E.
  split; [done|]. split; [done|].
  assert (leader l1 = leader l \/ leader l1 = b') as Hl by (destruct Hcase as [[-> _]|[-> _]]; auto).
  unfold leader_part at 1 3 5. split; [by destruct Hl as [-> | ->]|].
  split; [destruct Hl as [-> | ->]; [by intros s|done]|]. split; [by destruct Hl as [-> | ->]|].
  split; [destruct Hl as [-> | ->]; [done|]; by destruct Hpr as [[]|[? _]]|].
  split; [destruct Hl as [-> | ->]; [done|]; by destruct Hpr as [[]|(_ & ? & _)]|].
  split; [destruct Hl as [-> | ->]; [done|]; by destruct Hpr as [[]|(_ & _ & ? & _)]|]. split.
  - intros o Ho. assert (same_progress t p (bReplication (leader l)) (bReplication (leader l1))
      \/ exists r0, Replication.followers (leader_part l) !! f = Some r0
         /\ o = acked_offset (leader_part l) r0 off) as [[_ _ _ H4]|(r0 & H1 & H2)].
    { destruct Hl as [El|El]; unfold leader_part in Ho; rewrite El in Ho |- *; [by left|].
      destruct Hpr as [Hpr|(_ & _ & _ & r0 & H1 & H2 & _)]; [by left|]. right. exists r0. split; [done|].
      rewrite H2 in Ho. by injection Ho as <-. }
    + unfold leader_part in Ho. rewrite H4 in Ho. fold (leader_part l) in Ho.
      apply fmap_Some in Ho as (r0 & H1 & ->). eauto.
    + eauto.
  - intros Hfates Hid Hrole. destruct (Hfine Hfates) as (El & -> & Hf1). split; [done|].
    destruct (Hgood Hid Hrole) as (payload & He & -> & Hr). split; [|unfold leader_part; by rewrite El].
    rewrite Ok_roundtrip; [done|by apply (num_no_char "|"), Itoa_num|done].
Qed.

(** ** Agreement

    [H] is everything the leader has ever appended to the partition, oldest first:
    the value at position [o] was stored at offset [o]. *)
Definition holds (H : list string) (log : list Storage.Message) : Prop :=
  forall m, m ∈ log -> 0 <= Storage.Offset m /\ H !! Z.to_nat (Storage.Offset m) = Some (Storage.Value m).

Definition next_at (s : Storage.Storage) : Z := Storage.nextOffset (Storage.state_of s t p).

Record follower_ok (H : list string) (s : Storage.Storage) (w : World) : Prop := {
  fo_store : store_ok s w;
  fo_holds : holds H (Storage.log_of s t p);
  fo_next : next_at s <= Z.of_nat (length H)
}.

Definition good_values (H : list string) : Prop :=
  Forall (fun v => clean_value v = true /\ value_ok v = true) H /\ Z.of_nat (length H) < int_max.

(** Appending a record of the history keeps the follower in agreement. *)
Lemma follower_append H s w off v :
  good_values H -> follower_ok H s w -> 0 <= off -> H !! Z.to_nat off = Some v ->
  exists s' w' r, Storage.AppendReplicated s w t p off v = (s', w', r) /\ follower_ok H s' w'
  /\ (off <= next_at s -> r = Success () /\ off < next_at s') /\ (next_at s < off -> is_success r = false)
  /\ next_at s <= next_at s'.
Proof.
  intros [Hclean Hlen] [Hs Hh Hn] Hoff Hv.
  assert (value_ok v = true) as Hvok.
  { rewrite Forall_forall in Hclean. apply Hclean. apply list_elem_of_lookup. eauto. }
  assert (Z.to_nat off < length H)%nat as Hlt by (by eapply lookup_lt_Some).
  destruct (append_replicated_ok s w t p off v Hs Hreal Hp Hvok) as (s' & w' & r & E & Hs' & H1 & H2 & H3);
    [unfold next_at in Hn; lia|]. unfold next_at in *.
  exists s', w', r. split; [done|].
  assert (Htrim : all_trimmed s s' -> follower_ok H s' w'
    /\ Storage.nextOffset (Storage.state_of s' t p) = Storage.nextOffset (Storage.state_of s t p)).
  { intros Htr. destruct (Htr t p Hreal Hp) as [T1 T2 _]. split; [|done]. split; [done| |unfold next_at; by rewrite T2].
    intros m Hm. apply Hh. destruct T1 as [k ->]. apply elem_of_app. by right. }
  destruct (Z.lt_trichotomy off (Storage.nextOffset (Storage.state_of s t p))) as [Hlt'|[Heq|Hgt]].
  - destruct (H1 Hlt') as [-> Htr%unchanged_trimmed]. destruct (Htrim Htr) as [Hfo ->]. split; [done|]. split; [auto|]. split; lia.
  - destruct (H3 Heq) as [-> [A1 _ A3 _]]. split; [|split; [intros _; split; [done|lia]|split; lia]].
    split; [done| |unfold next_at; lia].
    intros m Hm. destruct A1 as [k Hk].
    assert (m ∈ Storage.log_of s t p ++ [Storage.mkMessage off v]) as Hin by (rewrite Hk; apply elem_of_app; by right).
    apply elem_of_app in Hin as [Hin| ->%list_elem_of_singleton]; [by apply Hh|done].
  - destruct (H2 Hgt) as [Hfail Htr%unchanged_trimmed]. destruct (Htrim Htr) as [Hfo ->]. split; [done|]. split; [lia|]. split; [done|lia].
Qed.

Lemma with_next_same {W} (wk : FollowerWorker W) : with_next wk (wkNextOffset wk + 0) = wk.
Proof. destruct wk. unfold with_next. cbn. f_equal. lia. Qed.

(** Records of the history. *)
Definition from (H : list string) (recs : list ReplicationRecord) : Prop :=
  forall rec, rec ∈ recs -> 0 <= recOffset rec /\ H !! Z.to_nat (recOffset rec) = Some (recValue rec).

(** Applying fetched records: the position advances with the log, and records that
    follow one another from the position on are all applied. *)
Lemma apply_agrees H recs : good_values H -> forall (wk : FollowerWorker world) tr (l : Link) s w a la,
  wkStorage wk = Cluster.worker_storage -> wkTopic wk = t -> wkPartition wk = p ->
  follower_ok H s w -> 0 <= wkNextOffset wk <= next_at s -> from H recs ->
  exists k s' w' a' la' e,
  apply_records wk (tr, l, (s, w)) recs a la
  = (with_next wk (wkNextOffset wk + k), (tr, l, (s', w')), (a', la', e))
  /\ follower_ok H s' w' /\ 0 <= k /\ wkNextOffset wk + k <= next_at s' /\ next_at s <= next_at s'
  /\ ((k = 0 /\ la' = la) \/ (0 < k /\ la' = wkNextOffset wk + k - 1))
  /\ ((forall i rec, recs !! i = Some rec -> recOffset rec = wkNextOffset wk + Z.of_nat i) ->
      0 <= a -> a + Z.of_nat (length recs) <= int_max ->
      e = None /\ k = Z.of_nat (length recs) /\ a' = a + k).
Proof.
  intros HH. induction recs as [|rec recs IH]; intros wk tr l s w a la Hst Ht Hpa Hfo Hn Hfrom.
  { exists 0, s, w, a, la, None. rewrite with_next_same. split; [done|]. split; [done|]. split; [done|].
    split; [lia|]. split; [lia|]. split; [by left|]. intros _ _ _. split; [done|]. split; [done|lia]. }
  cbn [apply_records]. destruct (Z.eqb_spec (recOffset rec) (wkNextOffset wk)) as [Eoff|Hne]; cbn [negb].
  2: { exists 0, s, w, a, la. eexists. rewrite with_next_same. split; [reflexivity|]. split; [done|]. split; [done|].
       split; [lia|]. split; [lia|]. split; [by left|]. intros Hseq. specialize (Hseq 0%nat rec eq_refl). lia. }
  destruct (Hfrom rec ltac:(by left)) as [Hpos Hv].
  destruct (follower_append H s w (recOffset rec) (recValue rec) HH Hfo Hpos Hv)
    as (s1 & w1 & r & E1 & Hfo1 & Hok & _ & Hmono).
  rewrite Hst, Ht, Hpa. cbn [Worker.AppendReplicated Cluster.worker_storage]. rewrite E1.
  destruct (Hok ltac:(lia)) as [-> Hlt]. cbv iota.
  assert (Z.to_nat (recOffset rec) < length H)%nat as Hlen by (by eapply lookup_lt_Some).
  destruct HH as [_ Hmax]. rewrite (int_add_id (wkNextOffset wk) 1) by ints.
  destruct (IH (with_next wk (wkNextOffset wk + 1)) tr l s1 w1 (int_add a 1) (recOffset rec))
    as (k & s' & w' & a' & la' & e & E & Hfo' & Hk & Hn' & Hm' & Hla & Hseq); [done..| | |].
  { cbn [with_next wkNextOffset]. lia. }
  { intros x Hx. apply Hfrom. by right. }
  cbn [with_next wkNextOffset] in E, Hn', Hla, Hseq.
  exists (k + 1), s', w', a', la', e. split.
  { rewrite E. by replace (wkNextOffset wk + (k + 1)) with (wkNextOffset wk + 1 + k) by lia. }
  split; [done|]. split; [lia|]. split; [lia|]. split; [lia|]. split; [right; split; [lia|]; destruct Hla as [[-> ->]|[_ ->]]; lia|].
  intros Hall Ha Hal. simpl length in *. rewrite int_add_id in Hseq by ints.
  destruct Hseq as (-> & -> & ->); [|lia|lia|].
  - intros i x Hx. specialize (Hall (S i) x Hx). lia.
  - split; [done|]. split; lia.
Qed.

(** The leader: its store in order, holding part of the history and ready to
    append after it. *)
Record leader_ok (H : list string) (b : Broker) : Prop := {
  le_store : store_ok (bStorage b) (bWorld b);
  le_holds : holds H (Storage.log_of (bStorage b) t p);
  le_next : next_at (bStorage b) = Z.of_nat (length H);
  le_mgr : Replication.manager_ok (bReplication b)
}.

(** How far the leader believes the follower to be. *)
Definition credit (l : Link) : option Z :=
  Replication.offset <$> Replication.followers (leader_part l) !! f.

(** The two brokers in agreement: the follower holds part of the history up to its
    next offset, its worker is not ahead of it, and the leader credits it with no
    more than that. *)
Record duo_ok (H : list string) (wk : FollowerWorker world) (x : world) : Prop := {
  du_values : good_values H;
  du_wire : wkTransport wk = wire;
  du_storage : wkStorage wk = Cluster.worker_storage;
  du_topic : wkTopic wk = t;
  du_partition : wkPartition wk = p;
  du_follower : wkFollowerID wk = f;
  du_batch : 0 < wkMaxBatch wk <= Handler.max_string_cap;
  du_addr : LeaderAddr x.1.1 <> "";
  du_leader : leader_ok H (leader x.1.2);
  du_replica : follower_ok H x.2.1 x.2.2;
  du_next : 0 <= wkNextOffset wk <= next_at x.2.1;
  du_acked : forall o, credit x.1.2 = Some o -> o < next_at x.2.1
}.

Lemma holds_records H log off max : holds H log -> from H (map to_record (slice log off max)).
Proof.
  intros Hh rec (m & -> & Hm)%elem_of_maplist. apply Hh. unfold slice in Hm.
  eapply subseteq_drop, subseteq_take, Hm.
Qed.

Lemma holds_clean H log : good_values H -> holds H log -> Forall (fun m => record_ok (to_record m) = true) log.
Proof.
  intros [Hc Hlen] Hh. apply Forall_forall. intros m Hm. destruct (Hh m Hm) as [Hpos Hv].
  pose proof (lookup_lt_Some _ _ _ Hv). rewrite Forall_forall in Hc.
  destruct (Hc (Storage.Value m)) as [Hcl _]; [apply list_elem_of_lookup; eauto|].
  unfold record_ok, to_record. cbn [recOffset recValue]. rewrite Hcl, andb_true_r. apply in_int_spec. ints.
Qed.

(** A leader that has the whole history and can be replicated by [f]. *)
Record complete (H : list string) (l : Link) : Prop := {
  co_fine : fates l = [];
  co_role : Replication.role (leader_part l) = "leader";
  co_offset : Replication.leaderOffset (leader_part l) = Z.of_nat (length H) - 1;
  co_id : 1 <= f < Replication.ReplicationFactor (Replication.cfg (bReplication (leader l)));
  co_log : StorageLog.numbered 0 (leader_log l) /\ length (leader_log l) = length H
}.

Lemma complete_same H l l' :
  complete H l -> fates l' = [] -> bStorage (leader l') = bStorage (leader l) ->
  Replication.cfg (bReplication (leader l')) = Replication.cfg (bReplication (leader l)) ->
  Replication.role (leader_part l') = Replication.role (leader_part l) ->
  Replication.leaderOffset (leader_part l') = Replication.leaderOffset (leader_part l) -> complete H l'.
Proof. intros [] Hfa Hs Hc Hr Ho. split; [done|congruence..|unfold leader_log; by rewrite Hs]. Qed.

Lemma slice_lookup log off max i m :
  0 <= off -> StorageLog.numbered 0 log -> slice log off max !! i = Some m -> Storage.Offset m = off + Z.of_nat i.
Proof.
  intros Hoff Hnum Hm. unfold slice in Hm. apply lookup_take_Some in Hm as [Hm _].
  rewrite lookup_drop in Hm. apply Hnum in Hm. lia.
Qed.

Lemma leader_same H l l' :
  leader_ok H (leader l) -> bStorage (leader l') = bStorage (leader l) -> keeps_disk (leader l) (leader l') ->
  Replication.manager_ok (bReplication (leader l')) -> leader_ok H (leader l').
Proof. intros [] Hs Hd Hm. split; rewrite ?Hs; try done. by apply Hd. Qed.

(** The fetch of a cycle: what comes back is part of the history, and over a working
    network it is the next records from the follower's position on. *)
Lemma fetch_agrees H wk tr l sw tr' l' sw' r :
  duo_ok H wk (tr, l, sw) ->
  Fetch wire (tr, l, sw) t p f (wkNextOffset wk) (wkMaxBatch wk) = ((tr', l', sw'), r) ->
  sw' = sw /\ duo_ok H wk (tr', l', sw) /\ credit l' = credit l
  /\ (forall fr, r = Success fr -> from H (frRecords fr))
  /\ (complete H l -> complete H l' /\ exists fr, r = Success fr
      /\ Z.of_nat (length (frRecords fr)) = Z.min (wkMaxBatch wk) (Z.of_nat (length H) - wkNextOffset wk)
      /\ forall i rec, frRecords fr !! i = Some rec -> recOffset rec = wkNextOffset wk + Z.of_nat i).
Proof.
  intros Hduo E. pose proof Hduo as [HH Hwi Hst Ht Hpa Hfo Hb Ha Hl Hr Hn Hk]. cbn [fst snd] in *.
  pose proof (fo_next _ _ _ Hr) as Hns. pose proof HH as [_ Hlen].
  apply fetch_step in E as (-> & Ha1 & Hs1 & Hd1 & Hm1 & [P1 P2 P3 P4] & Hrecs & Hfine); try done;
    [|ints|apply Hl|eapply holds_clean; [done|apply Hl]].
  assert (credit l' = credit l) as Hcr by (unfold credit, leader_part; apply P4).
  split; [done|]. split; [|split; [done|split]].
  - split; cbn [fst snd]; try done; [by rewrite Ha1|by eapply leader_same|]. intros o. rewrite Hcr. apply Hk.
  - intros fr Efr. destruct (Hrecs fr Efr) as [-> | ->]; [by intros ? ?%not_elem_of_nil|]. apply holds_records, Hl.
  - intros Hco. destruct (Hfine (co_fine _ _ Hco) (co_role _ _ Hco)) as (Hf1 & hw & ->).
    split; [by eapply complete_same|]. eexists. split; [reflexivity|]. cbn [frRecords]. rewrite (co_offset _ _ Hco).
    destruct (co_log _ _ Hco) as [Hnum Hll].
    replace (if _ <? _ then [] else _) with (slice (leader_log l) (wkNextOffset wk) (wkMaxBatch wk)).
    2: { destruct (Z.ltb_spec (Z.of_nat (length H) - 1) (wkNextOffset wk)); [|done].
         unfold slice. by rewrite drop_ge, take_nil by lia. }
    split; [rewrite length_map; unfold slice; rewrite length_take, length_drop; lia|].
    intros i y Hy. rewrite list_lookup_fmap in Hy. apply fmap_Some in Hy as (m & Hm & ->).
    eapply slice_lookup; [lia|exact Hnum|exact Hm].
Qed.

(** The acknowledgement of a cycle, for an offset the follower has stored. *)
Lemma ack_agrees H wk tr l sw off tr' l' sw' r :
  duo_ok H wk (tr, l, sw) -> 0 <= off < next_at sw.1 ->
  Ack wire (tr, l, sw) t p f off = ((tr', l', sw'), r) ->
  sw' = sw /\ duo_ok H wk (tr', l', sw)
  /\ (complete H l -> complete H l' /\ r = Success ()
      /\ exists o, off <= o /\ credit l' = Some o).
Proof.
  intros Hduo Hoff E. pose proof Hduo as [HH Hwi Hst Ht Hpa Hfo Hb Ha Hl Hr Hn Hk]. cbn [fst snd] in *.
  pose proof (fo_next _ _ _ Hr) as Hns. pose proof HH as [_ Hlen].
  apply ack_step in E as (-> & Ha3 & Hs3 & Hd3 & Hm3 & C3 & R3 & L3 & Hoffs & Hfine3);
    [|done|apply in_int_spec; ints|apply Hl].
  split; [done|]. split.
  - split; cbn [fst snd]; try done; [by rewrite Ha3|by eapply leader_same|].
    intros o Ho. destruct (Hoffs o Ho) as (r0 & Hr0 & Hcase). specialize (Hk (Replication.offset r0) ltac:(by unfold credit; rewrite Hr0)).
    destruct Hcase as [-> | ->]; [lia|]. unfold acked_offset. lia.
  - intros Hco. destruct (Hfine3 (co_fine _ _ Hco) (co_id _ _ Hco) (co_role _ _ Hco)) as (Hf3 & -> & r0 & Hr0 & Hacked).
    split; [by eapply complete_same|]. split; [done|]. eexists. split; [|exact Hacked].
    unfold acked_offset. rewrite (co_offset _ _ Hco). lia.
Qed.

(** The leader has recorded all of the worker's progress. *)
Definition credited (wk : FollowerWorker world) (l : Link) : Prop :=
  exists o, wkNextOffset wk - 1 <= o /\ credit l = Some o.

(** One replication cycle. *)
Lemma cycle_agrees H wk x wk' x' n err :
  duo_ok H wk x -> StepOnce wk x = (wk', x', (n, err)) ->
  duo_ok H wk' x' /\ wkMaxBatch wk' = wkMaxBatch wk
  /\ (complete H x.1.2 -> complete H x'.1.2 /\ err = None
      /\ n = Z.min (wkMaxBatch wk) (Z.of_nat (length H) - wkNextOffset wk)
      /\ wkNextOffset wk' = wkNextOffset wk + n
      /\ (0 < n \/ credited wk x.1.2 -> credited wk' x'.1.2)).
Proof.
  destruct x as [[tr l] [s w]]. intros Hduo Hstep. pose proof Hduo as [HH Hwi Hst Ht Hpa Hfo Hb _ _ Hr Hn _].
  unfold StepOnce in Hstep. rewrite Hwi, Ht, Hpa, Hfo in Hstep. pose proof (fo_next _ _ _ Hr) as Hns. cbn [fst snd] in *.
  destruct (Fetch wire (tr, l, (s, w)) t p f (wkNextOffset wk) (wkMaxBatch wk)) as [[[tr1 l1] sw1] r] eqn:E1.
  apply (fetch_agrees H) in E1 as (-> & Hduo1 & Hcr & Hfrom & Hfetch); [|done]. destruct r as [fr|e].
  2: { injection Hstep as <- <- <- <-. split; [done|]. split; [done|]. intros Hco. by destruct (Hfetch Hco) as (_ & ? & [=] & _). }
  specialize (Hfrom fr eq_refl).
  destruct (frRecords fr) as [|rec recs] eqn:Efr.
  { injection Hstep as <- <- <- <-. split; [done|]. split; [done|]. intros Hco.
    destruct (Hfetch Hco) as (Hco1 & ? & [= <-] & Hcount & _). rewrite Efr in Hcount. simpl in Hcount.
    split; [done|]. split; [done|]. split; [lia|]. split; [lia|]. cbn [fst snd]. intros [?|Hc]; [lia|].
    unfold credited. by rewrite Hcr. }
  destruct (apply_agrees H (rec :: recs) HH wk tr1 l1 s w 0 (-1) Hst Ht Hpa Hr Hn Hfrom)
    as (k & s2 & w2 & a2 & la2 & e2 & E2 & Hr2 & Hk0 & Hnk & Hm2 & Hla & Hseq).
  rewrite E2 in Hstep. set (wk2 := with_next wk (wkNextOffset wk + k)) in *.
  assert (duo_ok H wk2 (tr1, l1, (s2, w2))) as Hduo2.
  { destruct Hduo1. split; cbn [fst snd] in *; try done; [cbn [wk2 with_next wkNextOffset]; lia|].
    intros o Ho. specialize (du_acked0 o Ho). lia. }
  assert (Hall : complete H l -> complete H l1 /\ e2 = None
    /\ k = Z.min (wkMaxBatch wk) (Z.of_nat (length H) - wkNextOffset wk) /\ a2 = k /\ 0 < k).
  { intros Hco. destruct (Hfetch Hco) as (Hco1 & ? & [= <-] & Hcount & Hoffs). rewrite Efr in Hcount, Hoffs.
    destruct HH as [_ Hlen]. destruct (Hseq Hoffs) as (-> & -> & ->); [done|ints|].
    simpl length in *. split; [done|]. split; [done|]. lia. }
  destruct e2 as [e2|].
  { injection Hstep as <- <- <- <-. split; [done|]. split; [done|]. intros Hco. by destruct (Hall Hco) as [_ [[=] _]]. }
  destruct (Z.leb_spec 0 la2) as [Hla0|Hla0].
  2: { injection Hstep as <- <- <- <-. split; [done|]. split; [done|]. intros Hco.
       destruct (Hall Hco) as (_ & _ & _ & _ & Hpos). destruct Hla as [[? _]|[_ ->]]; lia. }
  assert (0 < k /\ la2 = wkNextOffset wk + k - 1) as [Hkpos ->] by (destruct Hla as [[_ ->]|?]; [lia|done]).
  destruct (Ack wire (tr1, l1, (s2, w2)) t p f (wkNextOffset wk + k - 1)) as [[[tr3 l3] sw3] r3] eqn:E3.
  apply (ack_agrees H wk2) in E3 as (-> & Hduo3 & Hack); [|done|cbn [fst]; lia].
  assert (wk' = wk2 /\ x' = (tr3, l3, (s2, w2)) /\ n = a2 /\ err = match r3 with Success _ => None | Failure e => Some e end)
    as (-> & -> & -> & ->) by (destruct r3; by injection Hstep as <- <- <- <-).
  split; [done|]. split; [done|]. cbn [fst snd]. intros Hco. destruct (Hall Hco) as (Hco1 & _ & Ek & -> & _).
  destruct (Hack Hco1) as (Hco3 & -> & Hex). destruct Hex as (o & Ho & Hof).
  split; [done|]. split; [done|]. split; [done|]. split; [done|]. intros _. exists o. split; [|done].
  cbn [wk2 with_next wkNextOffset]. lia.
Qed.

(** *** The leader appends *)
Lemma holds_more H v log : holds H log -> holds (H ++ [v]) log.
Proof.
  intros Hh m Hm. destruct (Hh m Hm) as [Hpos Hv]. split; [done|]. apply lookup_app_l_Some, Hv.
Qed.

Lemma OnLeaderAppend_offsets m off now id o :
  Replication.offset <$> Replication.followers
    (Replication.get_partition (Replication.OnLeaderAppend m t p off now) t p) !! id = Some o ->
  Replication.offset <$> Replication.followers (Replication.get_partition m t p) !! id = Some o.
Proof.
  intros (r' & Hr' & ->)%fmap_Some. change (Replication.OnLeaderAppend m t p off now)
    with (Replication.exec m (Replication.OpLeaderAppend t p off now)) in Hr'.
  apply Replication.exec_follower in Hr' as [(r & -> & ->)|(? & ? & ? & [=] & _)]. done.
Qed.

Definition with_leader (l : Link) (b : Broker) : Link := mkLink b (inbox l) (fates l).

Lemma produce_agrees H wk tr l sw v :
  duo_ok H wk (tr, l, sw) -> clean_value v = true -> value_ok v = true -> Z.of_nat (length H) + 1 < int_max ->
  duo_ok (H ++ [v]) wk (tr, with_leader l (Handler.leader_append (leader l) t p v).1, sw)
  /\ (Handler.leader_append (leader l) t p v).2 = (p, Z.of_nat (length H)).
Proof.
  intros [HH Hwi Hst Ht Hpa Hfo Hb Ha [Ls Lh Ln Lm] [Fs Fh Fn] Hn Hk] Hcv Hvv Hlen. cbn [fst snd] in *.
  destruct HH as [Hvals Hmax]. unfold next_at in Ln. unfold Handler.leader_append.
  destruct (produce_ok _ _ t p v Ls Hreal Hp Hvv ltac:(lia)) as (s' & w' & -> & Hs' & [A1 _ A3 _]). rewrite Ln in *.
  pose proof (tick_keeps (set_storage (leader l) s' w')) as [T1 T2].
  pose proof (tick_disk (set_storage (leader l) s' w') s' Hs') as T3.
  destruct (tick (set_storage (leader l) s' w')) as [b1 now]. cbn [fst snd set_storage bStorage bReplication] in *.
  split; [|done]. split; cbn [fst snd with_leader leader]; try done.
  - split; [by apply Forall_app; split; [|repeat constructor]|rewrite length_app; simpl; lia].
  - split; cbn [set_replication bStorage bReplication].
    + by rewrite T1.
    + rewrite T1. intros m Hm. destruct A1 as [k Hk'].
      assert (m ∈ Storage.log_of (bStorage (leader l)) t p ++ [Storage.mkMessage (Z.of_nat (length H)) v]) as Hin
        by (rewrite Hk'; apply elem_of_app; by right).
      apply elem_of_app in Hin as [Hin| ->%list_elem_of_singleton]; [by apply holds_more with (v := v) in Lh; apply Lh|].
      cbn [Storage.Offset Storage.Value]. split; [lia|]. by rewrite Nat2Z.id, lookup_app_r, Nat.sub_diag by lia.
    + rewrite T1. unfold next_at. rewrite A3, length_app. simpl. lia.
    + rewrite T2. apply (Replication.exec_ok _ (Replication.OpLeaderAppend t p _ now)); [done|]. cbn. lia.
  - split; [done|by apply holds_more|rewrite length_app; simpl; lia].
  - intros o Ho. apply Hk. unfold credit, leader_part in *. cbn [leader set_replication bReplication with_leader] in Ho.
    rewrite T2 in Ho. by eapply OnLeaderAppend_offsets.
Qed.

(** ** Runs: produces and replication cycles in any order *)
Inductive event : Type := Produced (value : string) | Cycled.

Definition happen (st : FollowerWorker world * world) (e : event) : FollowerWorker world * world :=
  let '(wk, (tr, l, sw)) := st in
  match e with
  | Produced v => (wk, (tr, with_leader l (Handler.leader_append (leader l) t p v).1, sw))
  | Cycled => (StepOnce wk (tr, l, sw)).1
  end.

Definition history (es : list event) : list string :=
  omap (fun e => match e with Produced v => Some v | Cycled => None end) es.

(** The values replication carries: ASCII without blanks and commas, under 65,000
    bytes. The handlers accept more (PRODUCE does not look at the value); TcpTransport
    shows what becomes of a comma and StorageContract what becomes of a longer
    record. *)
Definition event_ok (e : event) : Prop :=
  match e with Produced v => clean_value v = true /\ value_ok v = true | Cycled => True end.

Lemma run_agrees es : forall H wk x wk' x',
  duo_ok H wk x -> Forall event_ok es -> Z.of_nat (length (H ++ history es)) < int_max ->
  fold_left happen es (wk, x) = (wk', x') -> duo_ok (H ++ history es) wk' x'.
Proof.
  induction es as [|e es IH]; intros H wk [[tr l] sw] wk' x' Hduo Hes Hlen E.
  { simpl in E. injection E as <- <-. by rewrite app_nil_r. }
  inversion_clear Hes as [|? ? He Hes']. simpl in E. destruct e as [v|]; simpl in E.
  - assert (H ++ history (Produced v :: es) = (H ++ [v]) ++ history es) as Ea by (by rewrite <- app_assoc).
    rewrite Ea in *. destruct He as [Hc Hv]. rewrite !length_app in Hlen. simpl in Hlen.
    eapply IH; [apply produce_agrees; [done|done|done|lia]|done|rewrite !length_app; simpl; lia|exact E].
  - destruct (StepOnce wk (tr, l, sw)) as [[wk1 x1] [n err]] eqn:E1. apply (cycle_agrees H) in E1 as [Hduo1 _]; [|done].
    by eapply IH.
Qed.

(** ** What agreement means for the logs and for readers *)

(** The records at offsets [b .. n-1] of a history. *)
Definition window (H : list string) (b n : Z) : list Storage.Message :=
  imap (fun i v => Storage.mkMessage (b + Z.of_nat i) v) (drop (Z.to_nat b) (take (Z.to_nat n) H)).

Lemma holds_window H s w :
  store_ok s w -> holds H (Storage.log_of s t p) ->
  exists b, 0 <= b <= next_at s /\ Storage.log_of s t p = window H b (next_at s).
Proof.
  intros Hs Hh. destruct (so_parts _ _ Hs t p Hreal Hp) as [_ _ _ _ _ _ Hnext [b [Hb Hnum]] _ _].
  fold (next_at s) in Hnext. set (log := Storage.log_of s t p) in *.
  destruct (decide (log = [])) as [Hnil|Hne].
  { exists 0. rewrite Hnil in *. unfold next_of in Hnext. simpl in Hnext. rewrite Hnext. split; [lia|].
    unfold window. by rewrite take_0. }
  rewrite (numbered_next b) in Hnext by done. exists b. split; [lia|]. unfold window. apply list_eq. intros i.
  rewrite list_lookup_imap, lookup_drop. destruct (log !! i) as [[o v]|] eqn:Hi.
  - pose proof (Hnum i _ Hi) as Ho. cbn [Storage.Offset] in Ho. pose proof (lookup_lt_Some _ _ _ Hi).
    destruct (Hh (Storage.mkMessage o v)) as [_ Hv]; [apply list_elem_of_lookup; eauto|]. cbn [Storage.Offset Storage.Value] in Hv.
    rewrite lookup_take_lt by lia. replace (Z.to_nat b + i)%nat with (Z.to_nat o) by lia. rewrite Hv. simpl. by rewrite <- Ho.
  - apply lookup_ge_None in Hi. by rewrite lookup_take_ge by lia.
Qed.

(** An in-sync follower holds everything up to the high watermark. *)
Lemma watermark_held H wk x now m' st :
  duo_ok H wk x -> f <> 0 ->
  Replication.GetStatus (bReplication (leader x.1.2)) t p now = (m', st) ->
  f ∈ Replication.stInSyncReplicas st -> Replication.stHighWatermark st < next_at x.2.1.
Proof.
  intros Hduo Hf0 E Hin. pose proof (du_leader _ _ _ Hduo) as [_ _ _ Hm].
  destruct (GetStatus_progress _ _ _ _ _ _ Hm E) as (_ & [_ _ _ Hsame] & _).
  apply Replication.GetStatus_result in E as (Hm' & _ & ->); [|done].
  destruct (Replication.statusLocked_isr (Replication.cfg m') t p (Replication.get_partition m' t p) now)
    as (ids & Eids & _ & Hids).
  rewrite Eids in Hin. apply elem_of_cons in Hin as [?|(r & Hr & Hsync & _)%Hids]; [done|].
  pose proof (Replication.ps_hw_isr _ _ (Replication.get_partition_ok _ t p Hm') _ _ Hr Hsync) as Hle.
  specialize (Hsame f). rewrite Hr in Hsame. simpl in Hsame.
  pose proof (du_acked _ _ _ Hduo (Replication.offset r) ltac:(by unfold credit, leader_part; rewrite <- Hsame)).
  cbn [Replication.statusLocked Replication.stHighWatermark]. lia.
Qed.

(** ** Catching up *)
Lemma catch_up H n : forall wk x wk' x',
  duo_ok H wk x -> complete H x.1.2 ->
  Z.of_nat (length H) - wkNextOffset wk <= Z.of_nat n * wkMaxBatch wk ->
  StepMany n wk x = (wk', x') ->
  duo_ok H wk' x' /\ wkNextOffset wk' = Z.of_nat (length H)
  /\ (wkNextOffset wk < Z.of_nat (length H) \/ credited wk x.1.2 -> credited wk' x'.1.2).
Proof.
  induction n as [|n IH]; intros wk x wk' x' Hduo Hco Hn E; simpl in E.
  { injection E as <- <-. pose proof (du_next _ _ _ Hduo). pose proof (fo_next _ _ _ (du_replica _ _ _ Hduo)).
    split; [done|]. split; [lia|]. intros [?|?]; [lia|done]. }
  destruct (StepOnce wk x) as [[wk1 x1] [k err]] eqn:E1.
  apply (cycle_agrees H) in E1 as (Hduo1 & Hb & Hall); [|done].
  destruct (Hall Hco) as (Hco1 & _ & Hk & Hnext & Hcred). pose proof (du_batch _ _ _ Hduo) as Hbat.
  assert (wkNextOffset wk <= Z.of_nat (length H)) as Hle
    by (pose proof (du_next _ _ _ Hduo); pose proof (fo_next _ _ _ (du_replica _ _ _ Hduo)); lia).
  destruct (IH wk1 x1 wk' x' Hduo1 Hco1) as (Hduo2 & Hn2 & Hcred2); [rewrite Hb; lia|done|].
  split; [done|]. split; [done|]. intros Hc. apply Hcred2. right. apply Hcred.
  destruct Hc as [Hlt|Hc]; [left; lia|by right].
Qed.

(** ** The start: empty brokers agree *)
Lemma fresh_credit c hook rid o :
  Replication.offset <$> Replication.followers
    (Replication.get_partition (Replication.NewManager c hook) t p) !! rid = Some o -> o = -1.
Proof.
  unfold Replication.get_partition. cbn [Replication.NewManager Replication.partitions Replication.cfg].
  rewrite lookup2_empty. cbn [default from_option id Replication.fresh_partition Replication.followers].
  intros (r & Hr & ->)%fmap_Some. apply elem_of_list_to_map_2 in Hr.
  apply elem_of_maplist in Hr as (k & [= _ ->] & _). done.
Qed.

Lemma start_agrees b tr fs wk n w cfg cfg' c hook :
  bStorage b = Storage.empty_storage cfg -> calm (bWorld b) -> files (bWorld b) = ∅ ->
  bReplication b = Replication.NewManager c hook -> Replication.ReplicationFactor c <= int_max ->
  calm w -> files w = ∅ -> LeaderAddr tr <> "" -> n <= Handler.max_string_cap ->
  NewFollowerWorker (mkWorkerConfig f t p 0 n) (Some wire) (Some Cluster.worker_storage) = Success wk ->
  duo_ok [] wk (tr, mkLink b None fs, (Storage.empty_storage cfg', w)).
Proof.
  intros Es Hcb Hfb Em Hrf Hcw Hfw Haddr Hn Ew. unfold NewFollowerWorker in Ew. cbn [wcFollowerID wcTopic wcPartition wcStartOffset wcMaxBatch] in Ew.
  repeat match type of Ew with (if ?test then _ else _) = _ => destruct test; [done|] end. injection Ew as <-.
  assert (forall c0, Storage.log_of (Storage.empty_storage c0) t p = [] /\ next_at (Storage.empty_storage c0) = 0) as H0
    by (intros c0; unfold next_at; destruct (empty_state c0 t p) as [-> ->]; done).
  assert (0 < Handler.max_string_cap) as Hcap by (vm_compute; reflexivity).
  split; cbn [fst snd wkTransport wkStorage wkTopic wkPartition wkFollowerID wkMaxBatch wkNextOffset]; try done.
  - destruct (Z.leb_spec n 0); [vm_compute; split; congruence|lia].
  - split; cbn [leader]; rewrite ?Es, ?Em.
    + by apply empty_ok.
    + rewrite (proj1 (H0 cfg)). by intros ? ?%not_elem_of_nil.
    + apply H0.
    + by apply Replication.NewManager_ok.
  - split; [by apply empty_ok| |by rewrite (proj2 (H0 cfg'))].
    rewrite (proj1 (H0 cfg')). by intros ? ?%not_elem_of_nil.
  - intros o Ho. unfold credit, leader_part in Ho. cbn [leader] in Ho. rewrite Em in Ho.
    apply fresh_credit in Ho as ->. rewrite (proj2 (H0 cfg')). lia.
Qed.

(** ** The theorems *)

(** C4: replication is safe, end to end, for values the replication protocol can
    carry. Start a leader and a follower in agreement and let producers append on
    the leader and the follower's worker run its fetch-apply-acknowledge cycles, in
    any order, over a network that may fail at any call. The conditions: every
    value is of ASCII bytes without blanks and without commas and shorter than
    65,000 bytes ([event_ok]; TcpTransport shows that a value with a comma is not
    carried); the topic name is a word that does not read like
    a response field or a mirror file; the disks of both brokers do not fail and
    their stores satisfy the store invariant. Then each of the two logs is a window
    of the one history of produced values, at the same offsets, up to that broker's
    next offset, and the follower is not ahead of the leader; the offset the leader
    has recorded for the follower is below the follower's next offset; and whenever
    the leader counts the follower in sync, every record up to the high watermark
    has reached the follower. *)
Theorem replication_safe H es wk x wk' x' :
  duo_ok H wk x -> f <> 0 -> Forall event_ok es -> Z.of_nat (length (H ++ history es)) < int_max ->
  fold_left happen es (wk, x) = (wk', x') ->
  let H' := H ++ history es in
  let leaders := bStorage (leader x'.1.2) in
  let followers := x'.2.1 in
  next_at leaders = Z.of_nat (length H') /\ next_at followers <= next_at leaders
  /\ (exists b, 0 <= b <= next_at leaders /\ Storage.log_of leaders t p = window H' b (next_at leaders))
  /\ (exists b, 0 <= b <= next_at followers /\ Storage.log_of followers t p = window H' b (next_at followers))
  /\ (forall o, credit x'.1.2 = Some o -> o < next_at followers)
  /\ (forall now m' st, Replication.GetStatus (bReplication (leader x'.1.2)) t p now = (m', st) ->
      f ∈ Replication.stInSyncReplicas st -> Replication.stHighWatermark st < next_at followers).
Proof.
  intros Hduo Hf0 Hes Hlen E H' leaders followers.
  pose proof (run_agrees es H wk x wk' x' Hduo Hes Hlen E) as Hend. fold H' in Hend.
  pose proof (du_leader _ _ _ Hend) as [Ls Lh Ln _]. pose proof (du_replica _ _ _ Hend) as [Fs Fh Fn].
  fold leaders in Ls, Lh, Ln. fold followers in Fs, Fh, Fn.
  split; [done|]. split; [lia|]. split; [by eapply holds_window|]. split; [by eapply holds_window|].
  split; [apply (du_acked _ _ _ Hend)|]. intros now m' st. by eapply watermark_held.
Qed.

(** C13: replication catches up, end to end, under conditions. Leader and follower
    are in agreement as above (comma-free ASCII values without blanks under 65,000
    bytes, disks that do not fail); the leader's log is complete: retention never
    removed a record of the partition, its replication manager has seen every
    append and it holds the leader role; the follower's id is one of the manager's
    followers; and the network does not fail. Then as many cycles as batches are
    missing bring the follower's next offset to the leader's, its log being a
    window of the history that ends there; if there was anything to fetch, the
    leader then records the follower at its own last offset. *)
Theorem replication_catches_up H n wk x wk' x' :
  duo_ok H wk x -> complete H x.1.2 ->
  Z.of_nat (length H) - wkNextOffset wk <= Z.of_nat n * wkMaxBatch wk ->
  StepMany n wk x = (wk', x') ->
  next_at x'.2.1 = Z.of_nat (length H) /\ wkNextOffset wk' = Z.of_nat (length H)
  /\ (exists b, 0 <= b <= Z.of_nat (length H)
      /\ Storage.log_of x'.2.1 t p = window H b (Z.of_nat (length H)))
  /\ (wkNextOffset wk < Z.of_nat (length H) -> credit x'.1.2 = Some (Z.of_nat (length H) - 1)).
Proof.
  intros Hduo Hco Hn E. destruct (catch_up H n wk x wk' x' Hduo Hco Hn E) as (Hend & Hnext & Hcred).
  pose proof (du_replica _ _ _ Hend) as [Fs Fh Fn]. pose proof (du_next _ _ _ Hend) as Hle.
  assert (next_at x'.2.1 = Z.of_nat (length H)) as Heq by lia.
  split; [done|]. split; [done|]. split; [rewrite <- Heq; by eapply holds_window|].
  intros Hlt. destruct Hcred as (o & Ho & Hc); [by left|].
  pose proof (du_acked _ _ _ Hend o Hc). rewrite Hc. f_equal. lia.
Qed.

End Partition.
End EndToEnd.

(** ** Witnesses: broker 1 replicates a partition of broker 0 *)
#[local] Instance demo_case : UnicodeCase := {| upper_unicode := id; lower_unicode := id |}.
Definition demo_err : string -> string := fun s => s.
Definition demo_cfg : Config :=
  mkConfig ":9092" "localhost" 9092 1 [] "data" 3 1 1 0 5000 2000 64 200 3600 1000 65536 "always".
Definition demo_disk : World := mkWorld ∅ [] (unix_epoch + 5 * Second) [7; 11].

Definition demo_leader : @Broker (value_json ∅) (value_json ∅) :=
  mkBroker (Storage.empty_storage demo_cfg) demo_disk (bCoordinator demo_broker)
    (Replication.NewManager (Replication.mkConfig 2 1 0 (5 * Second) (2 * Second)) true)
    demo_store 0 3 2.

Abbreviation demo_world := (TCPTransport * @Link (value_json ∅) (value_json ∅) * (Storage.Storage * World))%type.

Definition demo_worker : FollowerWorker demo_world :=
  mkWorker (Cluster.worker_transport (@link_network canonical_order _ _ _) demo_err)
    (Cluster.worker_storage (MO := canonical_order)) 1 "orders" 0 0 2.

Definition demo_start (fs : list (option string)) : demo_world :=
  (NewTCPTransport "localhost:9092" (2 * Second), mkLink demo_leader None fs, (Storage.empty_storage demo_cfg, demo_disk)).

Lemma demo_calm : calm demo_disk.
Proof. split; [by constructor|by repeat constructor|vm_compute; congruence|vm_compute; congruence]. Qed.

Lemma demo_agree fs : @duo_ok canonical_order _ _ _ demo_err "orders" 0 1 [] demo_worker (demo_start fs).
Proof.
  eapply (@start_agrees canonical_order _ _ _ demo_err "orders" 0 1 demo_leader _ fs demo_worker 2 demo_disk
    demo_cfg demo_cfg (Replication.mkConfig 2 1 0 (5 * Second) (2 * Second)) true);
    try reflexivity; try apply demo_calm; try discriminate; vm_compute; congruence.
Qed.

(** The first fetch times out; the second cycle succeeds. *)
Definition demo_events : list event := [Produced "a"; Cycled; Produced "b"; Cycled; Produced "c"].

Definition demo_end : FollowerWorker demo_world * demo_world :=
  fold_left (@happen canonical_order _ _ "orders" 0) demo_events (demo_worker, demo_start [Some "i/o timeout"]).

Lemma replication_safe_witness :
  let followers := demo_end.2.2.1 in
  next_at "orders" 0 followers = 2
  /\ exists b, 0 <= b <= 2 /\ Storage.log_of followers "orders" 0 = window ["a"; "b"; "c"] b 2.
Proof.
  destruct (@replication_safe canonical_order _ _ _ demo_err "orders" 0 1 eq_refl eq_refl
    ltac:(unfold int_range; ints) eq_refl [] demo_events demo_worker (demo_start [Some "i/o timeout"])
    demo_end.1 demo_end.2 (demo_agree _)) as (_ & _ & _ & Hw & _).
  - discriminate.
  - repeat constructor.
  - vm_compute. reflexivity.
  - unfold demo_end. destruct (fold_left _ _ _). reflexivity.
  - assert (next_at "orders" 0 demo_end.2.2.1 = 2) as E by (vm_compute; reflexivity).
    rewrite E in Hw. split; [exact E|exact Hw].
Defined.

(** Two records produced, none fetched yet. *)
Definition demo_behind : FollowerWorker demo_world * demo_world :=
  fold_left (@happen canonical_order _ _ "orders" 0) [Produced "a"; Produced "b"] (demo_worker, demo_start []).

Lemma demo_behind_agree :
  @duo_ok canonical_order _ _ _ demo_err "orders" 0 1 ["a"; "b"] demo_worker demo_behind.2.
Proof.
  apply (@run_agrees canonical_order _ _ _ demo_err "orders" 0 1 eq_refl eq_refl
    ltac:(unfold int_range; ints) eq_refl [Produced "a"; Produced "b"] [] demo_worker (demo_start []));
    [apply demo_agree|by repeat constructor|vm_compute; reflexivity|].
  unfold demo_behind. cbn [fold_left happen]. reflexivity.
Qed.

Lemma demo_behind_complete : @complete _ _ "orders" 0 1 ["a"; "b"] demo_behind.2.1.2.
Proof.
  split; try (vm_compute; reflexivity); [vm_compute; split; congruence|]. split; [|vm_compute; reflexivity].
  intros i m. assert (leader_log "orders" 0 demo_behind.2.1.2 = [Storage.mkMessage 0 "a"; Storage.mkMessage 1 "b"]) as ->
    by (vm_compute; reflexivity).
  destruct i as [|[|i]]; [by intros [= <-]..|done].
Qed.

Lemma replication_catches_up_witness :
  let '(wk', x') := @StepMany demo_world 1 demo_worker demo_behind.2 in
  next_at "orders" 0 x'.2.1 = 2 /\ credit "orders" 0 1 x'.1.2 = Some 1.
Proof.
  destruct (@StepMany demo_world 1 demo_worker demo_behind.2) as [wk' x'] eqn:E.
  destruct (@replication_catches_up canonical_order _ _ _ demo_err "orders" 0 1 eq_refl eq_refl
    ltac:(unfold int_range; ints) eq_refl ["a"; "b"] 1 demo_worker demo_behind.2 wk' x'
    demo_behind_agree demo_behind_complete) as (Hn & _ & _ & Hc).
  - vm_compute. congruence.
  - exact E.
  - split; [exact Hn|]. apply Hc. vm_compute. reflexivity.
Defined.
End EndToEnd.
